(* ===== verification/_CoqProject ===== *)
-Q . S2P
Prelude.v
Errors.v
JsNum.v
Text.v
Json.v
Canonical.v
StrictJson.v
Types.v
Crypto.v
TokenCodec.v
Lic1.v
Lic2.v
Tokens.v
Id.v
JsonLib.v
Cursor.v
Storage.v
Pages.v
LicenseKeyFormat.v
Memory.v
MemoryLaws.v
MemoryProps.v
Lifecycle.v
LifecycleProps.v
LicenseService.v
UsageService.v
UsageProps.v
LicenseProps.v
Der.v
EncryptedPkcs8.v
EncryptedPkcs8Props.v
KeyHierarchy.v
KeyHierarchyProps.v
ScopeService.v
TokenService.v
Quiet.v
JsArith.v
Http.v
Validate.v
ValidateProps.v
TokenProps.v
HttpProps.v
ScopeProps.v
Templates.v
TemplateProps.v
Stats.v
StatsProps.v
ClientHandlers.v
ClientHandlersProps.v
ClientOnline.v
ClientOnlineProps.v
EndToEnd.v
Fingerprint.v
Easy.v
Admin.v
AdminProps.v
EasyProps.v
Middleware.v
MiddlewareProps.v
TokenFile.v
TokenFileProps.v
Adapters.v
Backends.v
BackendsProps.v
Stringify.v
KeyFile.v
KeyFileProps.v
Cli.v
CliProps.v
SqlErrors.v
SqlSetup.v
Sql.v
Sqlite.v
SqlProps.v
SqliteProps.v
SqliteWrites.v
SqliteContract.v
SchemaView.v
Postgres.v
PostgresProps.v
