(* ===== verification/Prelude.v ===== *)
(** * Prelude: the shared vocabulary of the development, and its guide

    This library models the TypeScript implementation of the licensing system,
    [src/typescript/src], and proves what makes it correct. Paths below are
    relative to that directory. Two programs meet over HTTP: an issuer, which
    keeps licenses, seats, keys and an audit log in a store and signs tokens;
    and a client on a device, which activates, keeps its token, checks it
    offline and renews it.

    ** Conventions

    A function that can throw is a [result], with [exn] (file [Errors]) for the
    errors of both sides; code with effects is a [prog W A], a function from a
    world to a result and the world after it, whether it returned or threw.
    What the code mutates is in the world; what it calls through an interface
    is a type class over the world ([Storage], [HasClock], [KeyStore],
    [TokenStore], [Network], ...). A [Map] is an association list in insertion
    order. Strings are lists of 16-bit code units ([jsstr]), numbers [jsnum]
    (dyadic rationals with the infinities, not-a-number and the rounding of
    binary64) where arithmetic can leave the integers, and [Z] where it cannot.
    Error messages are left out; codes and details are kept.

    ** Files and code

    - Values: [JsNum], [JsArith] (numbers, URI and text functions), [Text]
      (UTF-8, [base64url.ts]), [Json] (values, prototypes), [JsonLib] (the
      runtime's [JSON] and lossy decoding), [Types] ([types.ts]).
    - Serialization: [Canonical] ([canonical-json.ts]), [StrictJson]
      ([strict-json.ts]).
    - Tokens: [Crypto] ([crypto/types.ts]), [TokenCodec] ([token-codec.ts]),
      [Lic1], [Lic2] ([lic1.ts], [lic2.ts]); [Tokens] states what both formats
      promise. [TokenService] ([token-service.ts]) issues them.
    - Keys: [Der], [EncryptedPkcs8] ([encrypted-pkcs8.ts]), [KeyHierarchy]
      ([key-hierarchy.ts]), [ScopeService] ([scope-service.ts]).
    - Store: [Storage] is the contract of [storage/types.ts] with its laws,
      [Cursor] and [Pages] pagination, [Memory] the adapter of
      [storage/memory], [MemoryLaws] the proof that it keeps the contract,
      [Stats] the dashboard roll-up of [storage/stats.ts], [SchemaView] the
      schemas the adapters describe.
    - SQL: [Sql] the statements the adapters send, what they ask of tables,
      the laws of an engine and a reference engine; [Sqlite] and [Postgres]
      the two adapters ([storage/sqlite/adapter.ts],
      [storage/postgres/adapter.ts]), method by method; [SqlErrors] their
      [errors.ts]; [SqlSetup] their [migrations.ts] and [jti-ledger.ts].
    - Services: [Lifecycle] ([lifecycle.ts]), [LicenseKeyFormat]
      ([license-key.ts]), [LicenseService] ([license-service.ts]),
      [UsageService] ([usage-service.ts]), [Templates] ([templates/resolve.ts],
      [template-service.ts]), [Id] ([id.ts]), [Fingerprint]
      ([client/fingerprint.ts], [trials/pepper.ts]).
    - Crypto: [Backends] ([crypto/hmac.ts], [crypto/ed25519.ts],
      [crypto/rsa.ts]).
    - HTTP: [Http] (the envelope, validation, bearer, router and rate limit of
      [http/]), [ClientHandlers] and [Admin] (its two endpoint groups),
      [Adapters] (Node, Express, Hono and Fastify, [http/adapters/]),
      [Middleware] (the guards of [middleware/]).
    - Device: [Validate] ([client/validate.ts], [client/jti-ledger.ts]),
      [ClientOnline] (transport, token store, activation, refresh, heartbeat,
      deactivation of [client/]), [TokenFile] (the store in a file of
      [client/token-store.ts]).
    - Facade: [Easy] ([easy.ts]), the issuer and client most programs use.
    - Command line: [Stringify] ([JSON.stringify]), [KeyFile]
      ([cli/json-keystore.ts]), [Cli] ([cli/main.ts]).

    A handler, service or step is one definition named as in the source; its
    guards are the code's, in the code's order. A body passed to
    [withTransaction] is a definition of its own ([register_body],
    [create_body], ...), and so is a loop body. The services are stated over
    [Storage] and the laws [StorageLaws]; [MemoryLaws] discharges the laws, so
    the theorems hold of the memory adapter.

    ** What the theorems show

    - Seats: the limit holds in every reachable state, whatever the order of
      registrations, revocations and sweeps ([UsageProps]); registration
      refines its specification; a revoked license stays revoked and the
      lifecycle is the state machine of its table ([LifecycleProps]);
      rotating a key cuts off every seat ([LicenseProps]).
    - Tokens: what is signed is what verifies, for both formats, under the
      bound key only; signing inputs determine the claims ([Tokens]); the
      shipped backends keep what this asks of them, and no key signs for
      another backend ([BackendsProps]); an
      issued token is accepted by a client exactly while it should be
      ([TokenProps]); a verifier accepts exactly the acceptable tokens, never
      one twice, and refuses with the client's errors ([ValidateProps]).
    - Serialization: canonical JSON is injective and read back by the strict
      parser, which is total and rejects duplicates.
    - Keys: a wrapped key comes back, only in the expected profile
      ([EncryptedPkcs8Props]); at most one active signer per scope, rotation
      keeps the outgoing key verifiable ([KeyHierarchyProps]); rotation in the
      store is one transaction ([ScopeProps]).
    - Store: no sequence of writes breaks a constraint, and paging enumerates
      a listing once ([MemoryProps]); the dashboard accounts for every row
      ([StatsProps]).
    - SQL: the SQLite adapter answers every read as the memory adapter does
      over the state its tables hold, each of its writes does what the
      contract asks, and its transactions happen whole or not at all
      ([SqlProps], [SqliteProps], [SqliteWrites], [SqliteContract]); what the
      PostgreSQL adapter writes it reads back, its transactions are atomic,
      and it departs from the contract where [PostgresProps] says; migrations
      run once and in order, and the replay table refuses a second use
      ([SqlSetup]); one schema is described three times, and the described
      columns are columns of the migrations ([SchemaView]).
    - HTTP: nothing behind the bearer middleware runs without a credential,
      and a limited client recovers ([HttpProps]); a client endpoint moves a
      seat only for an authentic token ([ClientHandlersProps]); an admin
      endpoint that refuses has changed nothing, its reads never depend on
      private keys, and a patch reaches the fields it names ([AdminProps]);
      the four framework adapters hand the handlers the same request
      ([Adapters]) and the three guards open the same gate
      ([MiddlewareProps]).
    - Device: offline grace is bounded, a heartbeat spares a newer token and
      does not overlap another ([ClientOnlineProps]); client, router, handler and store together keep
      both sides consistent over a refresh ([EndToEnd]); one trial per device
      and template, the guard serves verified tokens only and an outage is
      told from a broken route ([EasyProps]); a fingerprint identifies its
      sources up to a collision of the hash ([Fingerprint]); inheritance
      resolves to the nearest opinion and ends on any table, cycles included
      ([TemplateProps]); a token file is the old state or the new one,
      whatever call fails ([TokenFileProps]).
    - Command line: the key file implements the key store across processes
      ([KeyFileProps]); every run ends in one of three exit codes
      ([CliProps]); [JSON.parse] reads back what [JSON.stringify] wrote
      ([Stringify]).

    Examples at the end of the property files run the model on concrete
    inputs and record where the code does not do what it says.

    ** Fuel and bounds

    The loops without a structural measure take fuel and give [Diverged] when
    it runs out, an outcome no theorem counts as success. The strict parser
    takes the length of its text and is proved never to run out
    ([strictParse_total]); walks over pages need more fuel than the listing
    has rows and are then the unbounded loop ([Pages], [rotation_loop_fuel]);
    template and parent walks have the code's own caps (5 and 64).

    ** Parameters

    Code outside the repository is a parameter with the facts used of it as
    laws: signatures and key handles ([KeyHandles], [SignatureBackend],
    [KeyRuntime]), PBKDF2 and AES-GCM ([Pbes2]), SHA-256 and HMAC, the parse of
    dates that are not ISO and of URLs ([UrlParser]), case mapping beyond
    ASCII, clocks, entropy, [fetch], the platform's files ([FileSystem],
    [KeyFiles], [MigrationFiles]), texts that depend on the runtime
    ([NumberText], [ErrorStacks], [ForeignRecords], [JsonHost]). The databases
    are [Database] and [Pool] for the set-up and [SqlEngine] for the adapters,
    with the laws [SqlLaws]: a statement does what its meaning says or fails
    and leaves the tables alone, a lost [COMMIT] included; [Sql] builds an
    engine that keeps them. How PostgreSQL reads a parameter as the type of
    its column is the [fit] of the driver [dollars]. Each parameter has a
    concrete instance in the witnesses.

    ** Not modelled

    Calls of other tasks on the one SQLite connection during a transaction,
    and transactions of several PostgreSQL connections at once: a transaction
    runs alone. Row locks are statements without an effect for that reason.
    Of the PostgreSQL migrations only the scopes are written down, as the
    table the run of [PostgresProps] uses; its theorems hold for any schema.
    Clock time does not pass by itself: a timer that fires is an event of the
    heartbeat scheduler, a sweep or a refresh is a call, and the abort of a
    slow request is an outcome of [fetch]. The Vue admin interface
    only presents what the admin endpoints answer, and the Go port
    (the repository's [licensing/]) is the same library as another program.
*)

From Stdlib Require Import ZArith Lia String Ascii.
From stdpp Require Export sorting numbers option tactics base list.
Export list_basics list_relations.
Export (notations) String.

#[global] Open Scope Z_scope.

(** ** Tactics of the development *)

(** Split every boolean conjunction, disjunction and comparison that occurs
    in the hypotheses, down to propositions [lia] understands. *)
Ltac bool_prop :=
  repeat match goal with
  | H : _ && _ = true |- _ => apply andb_prop in H; destruct H
  | H : negb _ = true |- _ => apply negb_true_iff in H
  | H : negb _ = false |- _ => apply negb_false_iff in H
  | H : _ || _ = false |- _ => apply orb_false_elim in H; destruct H
  | H : (_ =? _) = true |- _ => apply Z.eqb_eq in H
  | H : (_ =? _) = false |- _ => apply Z.eqb_neq in H
  | H : (_ <=? _) = true |- _ => apply Z.leb_le in H
  | H : (_ <=? _) = false |- _ => apply Z.leb_gt in H
  | H : (_ <? _) = true |- _ => apply Z.ltb_lt in H
  | H : (_ <? _) = false |- _ => apply Z.ltb_ge in H
  | H : bool_decide _ = true |- _ => apply bool_decide_eq_true in H
  | H : bool_decide _ = false |- _ => apply bool_decide_eq_false in H
  end.

(** Case analysis on the first [if] or [match] of the goal whose scrutinee is
    not itself a [match], keeping the equation. *)
Ltac case_goal :=
  match goal with
  | |- context [if ?b then _ else _] =>
      lazymatch b with context [if _ then _ else _] => fail | _ => destruct b eqn:? end
  | |- context [match ?x with _ => _ end] =>
      lazymatch x with context [match _ with _ => _ end] => fail | _ => destruct x eqn:? end
  end.

(** The same in a hypothesis. *)
Ltac case_hyp H :=
  match type of H with
  | context [if ?b then _ else _] =>
      lazymatch b with context [if _ then _ else _] => fail | _ => destruct b eqn:? end
  | context [match ?x with _ => _ end] =>
      lazymatch x with context [match _ with _ => _ end] => fail | _ => destruct x eqn:? end
  end.

(** Prove a closed decidable proposition by evaluating its decision. *)
Ltac decided := apply (bool_decide_unpack _); vm_compute; exact I.

(** [lia] with the division equations: constant [/] and [mod]. *)
Ltac zdiv := Z.to_euclidean_division_equations; lia.

Lemma forallb_Forall {A} (f : A -> bool) l : forallb f l = true <-> Forall (fun x => f x = true) l.
Proof.
  rewrite forallb_forall, Forall_forall. by setoid_rewrite list_elem_of_In.
Qed.

Lemma elem_filter {A} (p : A -> bool) l x : x ∈ List.filter p l <-> x ∈ l /\ p x = true.
Proof. by rewrite !list_elem_of_In, filter_In. Qed.

Lemma filter_keep {A} (p : A -> bool) l : (forall x, x ∈ l -> p x = true) -> List.filter p l = l.
Proof.
  induction l as [|x l IH]; intros H; [done|]. cbn [List.filter]. rewrite H by left.
  f_equal. apply IH. intros y Hy. apply H. by right.
Qed.

Lemma filter_drop {A} (p : A -> bool) l : (forall x, x ∈ l -> p x = false) -> List.filter p l = [].
Proof.
  induction l as [|x l IH]; intros H; [done|]. cbn [List.filter]. rewrite H by left.
  apply IH. intros y Hy. apply H. by right.
Qed.

(** ** Strings

    A JavaScript string is a sequence of UTF-16 code units. *)

Abbreviation jsstr := (list Z).

(** A string literal of the source (ASCII) as code units. *)
Definition js (s : string) : jsstr :=
  map (fun a => Z.of_N (N_of_ascii a)) (list_ascii_of_string s).
Arguments js s%_string : simpl never.

(** The same with ['] standing for the double quote. *)
Definition jq (s : string) : jsstr := map (fun c => if c =? 39 then 34 else c) (js s).
Arguments jq s%_string : simpl never.

Definition str_eqb (a b : jsstr) : bool := bool_decide (a = b).

(** [c] is a UTF-16 code unit, [b] a byte. *)
Definition is_unit (c : Z) : Prop := 0 <= c < 65536.
Definition is_byte (b : Z) : Prop := 0 <= b < 256.

#[global] Instance is_unit_dec c : Decision (is_unit c).
Proof. unfold is_unit. apply _. Defined.
#[global] Instance is_byte_dec c : Decision (is_byte c).
Proof. unfold is_byte. apply _. Defined.

(** The [<] operator on strings: lexicographic on code units. *)
Fixpoint str_ltb (a b : jsstr) : bool :=
  match a, b with
  | [], [] => false
  | [], _ :: _ => true
  | _ :: _, [] => false
  | x :: a', y :: b' => if x =? y then str_ltb a' b' else x <? y
  end.

Definition str_le (a b : jsstr) : Prop := str_ltb b a = false.
#[global] Instance str_le_dec a b : Decision (str_le a b).
Proof. unfold str_le. apply _. Defined.

Lemma str_ltb_irrefl a : str_ltb a a = false.
Proof. induction a as [|x a IH]; simpl; [done|]. by rewrite Z.eqb_refl. Qed.

Lemma str_ltb_trans a b c :
  str_ltb a b = true -> str_ltb b c = true -> str_ltb a c = true.
Proof.
  revert b c. induction a as [|x a IH]; intros [|y b] [|z c]; simpl; try done.
  destruct (x =? y) eqn:E1, (y =? z) eqn:E2, (x =? z) eqn:E3; intros; bool_prop;
    subst; try lia; eauto.
Qed.

Lemma str_ltb_total a b : str_ltb a b = false -> str_ltb b a = false -> a = b.
Proof.
  revert b. induction a as [|x a IH]; intros [|y b]; simpl; try done.
  rewrite (Z.eqb_sym y x). destruct (x =? y) eqn:E; intros; bool_prop.
  - subst. f_equal. eauto.
  - lia.
Qed.

Lemma str_ltb_asym a b : str_ltb a b = true -> str_ltb b a = false.
Proof.
  intros H. destruct (str_ltb b a) eqn:E; [|done].
  pose proof (str_ltb_trans _ _ _ H E) as C. by rewrite str_ltb_irrefl in C.
Qed.

(** Strings of one length compare by their first differing field: the shape
    of every fixed-width timestamp and identifier of the system. *)
Lemma str_ltb_app_same p a b : str_ltb (p ++ a) (p ++ b) = str_ltb a b.
Proof. induction p as [|x p IH]; simpl; [done|]. by rewrite Z.eqb_refl. Qed.

Lemma str_ltb_app_lt p q a b :
  List.length p = List.length q -> str_ltb p q = true -> str_ltb (p ++ a) (q ++ b) = true.
Proof.
  revert q. induction p as [|x p IH]; intros [|y q]; simpl; try done.
  intros [= Hl]. destruct (x =? y); eauto.
Qed.

#[global] Instance str_le_trans : Transitive str_le.
Proof.
  intros a b c Hab Hbc. unfold str_le in *.
  destruct (str_ltb c a) eqn:E; [|done].
  destruct (str_ltb a b) eqn:E1.
  - pose proof (str_ltb_trans _ _ _ E E1). congruence.
  - assert (a = b) as -> by (by apply str_ltb_total). congruence.
Qed.
#[global] Instance str_le_total : Total str_le.
Proof.
  intros a b. unfold str_le. destruct (str_ltb b a) eqn:E; [|by left].
  right. by apply str_ltb_asym.
Qed.
#[global] Instance str_le_antisym : AntiSymm (=) str_le.
Proof. intros a b H1 H2. by apply str_ltb_total. Qed.

(** ** 32-bit operators of JavaScript

    The bitwise operators convert their operands with [ToInt32]/[ToUint32]
    and take shift counts modulo 32. *)
Definition toUint32 (z : Z) : Z := z mod 2 ^ 32.
Definition toInt32 (z : Z) : Z :=
  let u := z mod 2 ^ 32 in if u <? 2 ^ 31 then u else u - 2 ^ 32.
Definition js_and (a b : Z) : Z := Z.land (toInt32 a) (toInt32 b).
Definition js_or (a b : Z) : Z := Z.lor (toInt32 a) (toInt32 b).
Definition js_shl (a n : Z) : Z := toInt32 (Z.shiftl (toInt32 a) (n mod 32)).
Definition js_shr (a n : Z) : Z := Z.shiftr (toInt32 a) (n mod 32).
Definition js_ushr (a n : Z) : Z := Z.shiftr (toUint32 a) (n mod 32).

(** [ToInt32] keeps the low bits: masking with [2^k-1], [k <= 31], sees the
    original number. *)
Lemma js_and_ones a k : 0 <= k <= 31 -> js_and a (2 ^ k - 1) = a mod 2 ^ k.
Proof.
  intros Hk. unfold js_and.
  assert (Hp : 0 < 2 ^ k) by (apply Z.pow_pos_nonneg; lia).
  assert (2 ^ k <= 2 ^ 31) by (apply Z.pow_le_mono_r; lia).
  assert (toInt32 (2 ^ k - 1) = Z.ones k) as ->.
  { unfold toInt32. rewrite Z.mod_small by lia.
    destruct (_ <? _) eqn:E; bool_prop; [|lia]. rewrite Z.ones_equiv. lia. }
  rewrite Z.land_ones by lia. unfold toInt32.
  assert (Hd : (2 ^ k | 2 ^ 32)).
  { exists (2 ^ (32 - k)). rewrite <- Z.pow_add_r by lia. f_equal. lia. }
  destruct (_ <? _); [by apply Z.mod_mod_divide|].
  rewrite <- (Z.mod_mod_divide a _ _ Hd). destruct Hd as [q ->].
  replace (a mod (q * 2 ^ k) - q * 2 ^ k)
    with (a mod (q * 2 ^ k) + (- q) * 2 ^ k) by lia.
  by rewrite Z_mod_plus_full.
Qed.

(** ** Fallible and stateful code

    [result E A] is a computation that returns or throws. [M E W A] threads
    a world [W]: what a body did before it threw stays done, as in the
    source, unless a transaction undoes it. *)
Inductive result (E A : Type) : Type :=
| Ok (a : A)
| Throw (e : E).
Arguments Ok {E A} a.
Arguments Throw {E A} e.

Definition rbind {E A B} (r : result E A) (k : A -> result E B) : result E B :=
  match r with Ok a => k a | Throw e => Throw e end.

Definition M (E W A : Type) : Type := W -> result E A * W.
Definition ret {E W A} (a : A) : M E W A := fun w => (Ok a, w).
Definition throw {E W A} (e : E) : M E W A := fun w => (Throw e, w).
Definition bind {E W A B} (c : M E W A) (k : A -> M E W B) : M E W B :=
  fun w => match c w with
           | (Ok a, w') => k a w'
           | (Throw e, w') => (Throw e, w')
           end.
(** A pure fallible step inside a stateful body. *)
Definition lift {E W A} (r : result E A) : M E W A := fun w => (r, w).
(** [try c catch h]. *)
Definition try_catch {E W A} (c : M E W A) (h : E -> M E W A) : M E W A :=
  fun w => match c w with
           | (Ok a, w') => (Ok a, w')
           | (Throw e, w') => h e w'
           end.

Declare Scope prog_scope.
Delimit Scope prog_scope with prog.
Notation "'let*' x ':=' c 'in' k" := (bind c (fun x => k))
  (at level 10, x pattern, c at level 200, k at level 200) : prog_scope.
Notation "'do*' c ';' k" := (bind c (fun _ => k))
  (at level 10, c at level 200, k at level 200) : prog_scope.
Notation "'let?' x ':=' c 'in' k" := (rbind c (fun x => k))
  (at level 10, x pattern, c at level 200, k at level 200) : prog_scope.
#[global] Open Scope prog_scope.

Section MonadLaws.
Context {E W A B C : Type}.

Lemma bind_ret_l (a : A) (k : A -> M E W B) w : bind (ret a) k w = k a w.
Proof. reflexivity. Qed.

Lemma bind_ok (c : M E W A) (k : A -> M E W B) w w' a :
  c w = (Ok a, w') -> bind c k w = k a w'.
Proof. unfold bind. by intros ->. Qed.

Lemma bind_throw (c : M E W A) (k : A -> M E W B) w w' e :
  c w = (Throw e, w') -> bind c k w = (Throw e, w').
Proof. unfold bind. by intros ->. Qed.

Lemma bind_assoc (c : M E W A) (k : A -> M E W B) (h : B -> M E W C) w :
  bind (bind c k) h w = bind c (fun a => bind (k a) h) w.
Proof. unfold bind. by destruct (c w) as [[a|e] w']. Qed.

(** A body that returned went through every step before it. *)
Lemma bind_ok_inv (c : M E W A) (k : A -> M E W B) w w' b :
  bind c k w = (Ok b, w') -> exists a w1, c w = (Ok a, w1) /\ k a w1 = (Ok b, w').
Proof. unfold bind. destruct (c w) as [[a|e] w1]; [eauto|done]. Qed.

Lemma Ok_inj (a b : A) : Ok (E := E) a = Ok b -> a = b.
Proof. by intros [= ->]. Qed.

Lemma lift_ok_inv (r : result E A) (w w' : W) a : lift r w = (Ok a, w') -> r = Ok a /\ w' = w.
Proof. unfold lift. destruct r; [|done]. by intros [= -> ->]. Qed.

Lemma Ok_pair_inj (a b : A) (w w' : W) : (Ok (E := E) a, w) = (Ok b, w') -> a = b /\ w = w'.
Proof. by intros [= -> ->]. Qed.

Lemma rbind_ok_inv (r : result E A) (k : A -> result E B) b :
  rbind r k = Ok b -> exists a, r = Ok a /\ k a = Ok b.
Proof. destruct r; [eauto|done]. Qed.
End MonadLaws.

(** [run_inv]: walk back through a chain of binds that returned. *)
Ltac run_inv :=
  repeat match goal with
  | H : bind _ _ _ = (Ok _, _) |- _ =>
      let a := fresh "a" in let w := fresh "w" in
      apply bind_ok_inv in H; destruct H as (a & w & ? & H)
  | H : rbind _ _ = Ok _ |- _ =>
      let a := fresh "a" in apply rbind_ok_inv in H; destruct H as (a & ? & H)
  | H : lift _ _ = (Ok _, _) |- _ => unfold lift in H; simplify_eq
  | H : ret _ _ = (_, _) |- _ => unfold ret in H; simplify_eq
  | H : throw _ _ = (Ok _, _) |- _ => unfold throw in H; simplify_eq
  end.

(** [throws_only P r]: whatever [r] throws satisfies [P]. *)
Definition throws_only {E A} (P : E -> Prop) (r : result E A) : Prop :=
  match r with Ok _ => True | Throw e => P e end.

Section ThrowsOnly.
Context {E A B : Type} (P : E -> Prop).

Lemma throws_only_ok (a : A) : throws_only P (Ok a).
Proof. exact I. Qed.

Lemma throws_only_bind (r : result E A) (k : A -> result E B) :
  throws_only P r -> (forall a, r = Ok a -> throws_only P (k a)) -> throws_only P (rbind r k).
Proof. destruct r; cbn; auto. Qed.

Lemma throws_only_inv (r : result E A) e : throws_only P r -> r = Throw e -> P e.
Proof. by intros H ->. Qed.
End ThrowsOnly.

Create HintDb throws.
#[export] Hint Resolve throws_only_ok : throws.

(** Follow a fallible body step by step, [tac] closing its throws. *)
Ltac throws_steps tac :=
  repeat match goal with
  | |- throws_only _ (Ok _) => exact I
  | |- throws_only _ (Throw _) => tac
  | |- throws_only _ (rbind _ _) => apply throws_only_bind; [|intros]
  | |- throws_only _ (if ?b then _ else _) => destruct b eqn:?
  | |- throws_only _ (match ?x with _ => _ end) => destruct x eqn:?
  | |- throws_only _ _ => solve [auto with throws]
  end.

(** [o ?? d] *)
Definition given_or {A} (o : option A) (d : A) : A := match o with Some a => a | None => d end.

(** ** Insertion-ordered maps

    A JavaScript [Map] iterates in insertion order; [set] on a present key
    keeps its place. *)
Section JsMap.
Context {K V : Type} `{EqDecision K}.
Implicit Types (m : list (K * V)) (k : K) (v : V).

Fixpoint map_get m k : option V :=
  match m with
  | [] => None
  | (k', v) :: m' => if decide (k = k') then Some v else map_get m' k
  end.

Fixpoint map_set m k v : list (K * V) :=
  match m with
  | [] => [(k, v)]
  | (k', v') :: m' => if decide (k = k') then (k', v) :: m' else (k', v') :: map_set m' k v
  end.

Definition map_delete m k : list (K * V) :=
  filter (fun p => p.1 <> k) m.

Definition map_has m k : bool :=
  match map_get m k with Some _ => true | None => false end.

Lemma map_get_set_eq m k v : map_get (map_set m k v) k = Some v.
Proof.
  induction m as [|[k' v'] m IH]; simpl; [by case_decide|].
  destruct (decide (k = k')); simpl; by case_decide.
Qed.

Lemma map_get_set_ne m k k' v : k <> k' -> map_get (map_set m k v) k' = map_get m k'.
Proof.
  intros Hne. induction m as [|[k0 v0] m IH]; simpl.
  - by case_decide; simplify_eq.
  - destruct (decide (k = k0)); simpl; repeat case_decide; by simplify_eq.
Qed.

Lemma map_get_delete_eq m k : map_get (map_delete m k) k = None.
Proof.
  unfold map_delete. induction m as [|[k0 v0] m IH]; [done|].
  rewrite filter_cons. simpl. case_decide; simpl; [case_decide; [congruence|done]|done].
Qed.

Lemma map_get_delete_ne m k k' : k <> k' -> map_get (map_delete m k) k' = map_get m k'.
Proof.
  intros Hne. unfold map_delete. induction m as [|[k0 v0] m IH]; [done|].
  rewrite filter_cons. simpl. case_decide; simpl; repeat case_decide; congruence.
Qed.

Lemma map_get_elem m k v : map_get m k = Some v -> (k, v) ∈ m.
Proof.
  induction m as [|[k0 v0] m IH]; csimpl; [done|].
  case_decide; intros; simplify_eq; [left|right; eauto].
Qed.

Lemma map_get_None m k : map_get m k = None <-> k ∉ m.*1.
Proof.
  induction m as [|[k0 v0] m IH]; csimpl; [by split; [intros; apply not_elem_of_nil|]|].
  rewrite not_elem_of_cons, <- IH. case_decide; subst; intuition congruence.
Qed.

Lemma elem_map_get m k v : NoDup m.*1 -> (k, v) ∈ m -> map_get m k = Some v.
Proof.
  induction m as [|[k0 v0] m IH]; csimpl; [by intros _ ?%not_elem_of_nil|].
  intros [Hn Hd]%NoDup_cons [?|Hin]%elem_of_cons; simplify_eq.
  - by rewrite decide_True.
  - case_decide as Hk; [|eauto]. subst. destruct Hn. by apply (list_elem_of_fmap_2 fst _ (k0, v)).
Qed.

Lemma map_set_fst m k v :
(map_set m k v).*1 = (if map_has m k then m.*1 else m.*1 ++ [k]).
Proof.
  unfold map_has. induction m as [|[k0 v0] m IH]; csimpl; [done|].
  destruct (decide (k = k0)); csimpl; [by subst|]. rewrite IH. by destruct (map_get m k).
Qed.

Lemma map_set_NoDup m k v : NoDup m.*1 -> NoDup (map_set m k v).*1.
Proof.
  intros Hd. rewrite map_set_fst. unfold map_has. destruct (map_get m k) eqn:E; [done|].
  apply map_get_None in E. apply NoDup_app. split_and!; [done| |apply NoDup_singleton].
  intros x Hx Hin%list_elem_of_singleton. by subst.
Qed.

(** [set] on an absent key appends. *)
Lemma map_set_new m k v : map_get m k = None -> map_set m k v = m ++ [(k, v)].
Proof.
  induction m as [|[k0 v0] m IH]; csimpl; [done|].
  case_decide; [done|]. intros. by rewrite IH.
Qed.

(** [set] on a present key replaces one entry and keeps the order. *)
Lemma map_set_split m k v v0 :
  NoDup m.*1 -> map_get m k = Some v0 ->
  exists m1 m2, m = m1 ++ ((k, v0) :: m2) /\ map_set m k v = m1 ++ ((k, v) :: m2)
                /\ (k ∉ m1.*1) /\ (k ∉ m2.*1).
Proof.
  induction m as [|[k1 v1] m IH]; csimpl; [done|].
  intros [Hn Hd]%NoDup_cons. case_decide; intros; simplify_eq.
  - exists [], m. split_and!; eauto using not_elem_of_nil.
  - destruct IH as (m1 & m2 & -> & -> & ? & ?); [done..|].
    exists ((k1, v1) :: m1), m2. split_and!; try done. csimpl. by apply not_elem_of_cons.
Qed.
End JsMap.

Create HintDb licensing.
Create Rewrite HintDb jsmap.
#[global] Hint Rewrite @map_get_set_eq @map_get_delete_eq : jsmap.
#[global] Hint Rewrite @map_get_set_ne @map_get_delete_ne using done : jsmap.

#[export] Hint Resolve map_set_NoDup : licensing.
