(* ===== verification/Errors.v ===== *)
(** * Errors: the error taxonomies of the issuer core and of the client

    [src/typescript/src/errors.ts] and [src/typescript/src/client/errors.ts].
    An error value keeps its code and the structured details callers branch
    on; the human-readable message is not modelled. *)

From S2P Require Import Prelude.

(** [LicensingErrorCode] *)
Inductive LicensingErrorCode : Type :=
| CanonicalJSONInvalidType | CanonicalJSONInvalidNumber | CanonicalJSONInvalidUTF8
| CanonicalJSONInvalidTopLevel | CanonicalJSONDuplicateKey | CanonicalJSONUnknownField
| UnsupportedTokenFormat | TokenMalformed | TokenSignatureInvalid | TokenExpired
| TokenNotYetValid
| UnsupportedAlgorithm | AlgorithmAlreadyRegistered | AlgorithmMismatch | UnknownKid
| InsufficientKeyStrength | MissingKeyPassphrase | KeyDecryptionFailed
| LicenseKeyConflict | LicenseNotFound | LicenseRevoked | LicenseSuspended
| LicenseExpired | IllegalLifecycleTransition | SeatLimitExceeded | FingerprintRejected
| InvalidLicenseKey
| ImmutableAuditLog | UniqueConstraintViolation | TemplateCycle | TrialAlreadyIssued
| GraceExpired
| Unauthenticated | RateLimited.

#[global] Instance LicensingErrorCode_eq_dec : EqDecision LicensingErrorCode.
Proof. solve_decision. Defined.

(** [ClientErrorCode] of [client/errors.ts] *)
Inductive ClientErrorCode : Type :=
| CInvalidLicenseKey | CFingerprintMismatch | CAudienceMismatch | CIssuerMismatch
| CTokenReplayed | CTokenExpired | CTokenNotYetValid | CSeatLimitExceeded
| CLicenseRevoked | CLicenseSuspended | CRequiresOnlineRefresh | CGraceExpired
| CNoToken | CIssuerUnreachable | CIssuerProtocolError | CRateLimited
| CInvalidTokenFormat | CUnsupportedAlgorithm | CAlgorithmMismatch | CUnknownKid.

#[global] Instance ClientErrorCode_eq_dec : EqDecision ClientErrorCode.
Proof. solve_decision. Defined.

(** The [details] record of a [LicensingError]: strings, seat counts, or a
    chain of ids. *)
Inductive details : Type :=
| NoDetails
| Strings (fields : list jsstr)
| Seats (max current : Z).

#[global] Instance details_eq_dec : EqDecision details.
Proof. solve_decision. Defined.

(** What a body of the program can throw. [PlainError] is a bare [Error]
    (programmer misuse, runtime [TypeError]); [StrictJsonError] is the
    parser's own class, told apart from [LicensingError] because not every
    codec translates it; [ClientError] is [LicensingClientError]; [Diverged]
    is not an error of the program: it marks a fuel-bounded loop that was
    given too little fuel, and is proved unreachable where fuel occurs. *)
Inductive exn : Type :=
| LicensingError (code : LicensingErrorCode) (d : details)
| StrictJsonError (code : LicensingErrorCode) (d : details)
| ClientError (code : ClientErrorCode)
| PlainError
| Diverged.

#[global] Instance exn_eq_dec : EqDecision exn.
Proof. solve_decision. Defined.

Abbreviation res := (result exn).
Abbreviation prog := (M exn).

(** The factories of the [errors] object. *)
Module errors.
Definition canonicalInvalidType : exn := LicensingError CanonicalJSONInvalidType NoDetails.
Definition canonicalInvalidNumber : exn := LicensingError CanonicalJSONInvalidNumber NoDetails.
Definition canonicalInvalidUTF8 : exn := LicensingError CanonicalJSONInvalidUTF8 NoDetails.
Definition canonicalInvalidTopLevel : exn :=
  LicensingError CanonicalJSONInvalidTopLevel NoDetails.
Definition canonicalDuplicateKey (key : jsstr) : exn :=
  LicensingError CanonicalJSONDuplicateKey (Strings [key]).
Definition unsupportedTokenFormat (prefix : jsstr) : exn :=
  LicensingError UnsupportedTokenFormat (Strings [prefix]).
Definition tokenMalformed : exn := LicensingError TokenMalformed NoDetails.
Definition tokenSignatureInvalid : exn := LicensingError TokenSignatureInvalid NoDetails.
Definition unsupportedAlgorithm (alg : jsstr) : exn :=
  LicensingError UnsupportedAlgorithm (Strings [alg]).
Definition algorithmAlreadyRegistered (alg : jsstr) : exn :=
  LicensingError AlgorithmAlreadyRegistered (Strings [alg]).
Definition algorithmMismatch (expected actual : jsstr) : exn :=
  LicensingError AlgorithmMismatch (Strings [expected; actual]).
Definition unknownKid (kid : jsstr) : exn := LicensingError UnknownKid (Strings [kid]).
Definition missingKeyPassphrase : exn := LicensingError MissingKeyPassphrase NoDetails.
Definition keyDecryptionFailed : exn := LicensingError KeyDecryptionFailed NoDetails.
Definition uniqueConstraintViolation (constraint value : jsstr) : exn :=
  LicensingError UniqueConstraintViolation (Strings [constraint; value]).
Definition templateCycle (templateId : jsstr) (parentChain : list jsstr) : exn :=
  LicensingError TemplateCycle (Strings (templateId :: parentChain)).
Definition licenseNotFound (id : jsstr) : exn := LicensingError LicenseNotFound (Strings [id]).
Definition licenseRevoked : exn := LicensingError LicenseRevoked NoDetails.
Definition licenseSuspended : exn := LicensingError LicenseSuspended NoDetails.
Definition licenseExpired : exn := LicensingError LicenseExpired NoDetails.
Definition seatLimitExceeded (max current : Z) : exn :=
  LicensingError SeatLimitExceeded (Seats max current).
Definition fingerprintRejected : exn := LicensingError FingerprintRejected NoDetails.
Definition illegalLifecycleTransition (from to : jsstr) : exn :=
  LicensingError IllegalLifecycleTransition (Strings [from; to]).
Definition invalidLicenseKey : exn := LicensingError InvalidLicenseKey NoDetails.
Definition licenseKeyConflict (key : jsstr) : exn :=
  LicensingError LicenseKeyConflict (Strings [key]).
(** The template is left out when it is [null]. *)
Definition trialAlreadyIssued (templateId : option jsstr) (nextEligibleAt : jsstr) : exn :=
  LicensingError TrialAlreadyIssued
    (Strings (match templateId with Some t => [t; nextEligibleAt] | None => [nextEligibleAt] end)).
End errors.

(** The factories of the [clientErrors] object. *)
Module clientErrors.
Definition invalidLicenseKey : exn := ClientError CInvalidLicenseKey.
Definition fingerprintMismatch : exn := ClientError CFingerprintMismatch.
Definition audienceMismatch : exn := ClientError CAudienceMismatch.
Definition issuerMismatch : exn := ClientError CIssuerMismatch.
Definition tokenReplayed : exn := ClientError CTokenReplayed.
Definition tokenExpired : exn := ClientError CTokenExpired.
Definition tokenNotYetValid : exn := ClientError CTokenNotYetValid.
Definition licenseRevoked : exn := ClientError CLicenseRevoked.
Definition licenseSuspended : exn := ClientError CLicenseSuspended.
Definition requiresOnlineRefresh : exn := ClientError CRequiresOnlineRefresh.
Definition graceExpired : exn := ClientError CGraceExpired.
Definition noToken : exn := ClientError CNoToken.
Definition issuerUnreachable : exn := ClientError CIssuerUnreachable.
Definition issuerProtocolError : exn := ClientError CIssuerProtocolError.
Definition rateLimited : exn := ClientError CRateLimited.
Definition invalidTokenFormat : exn := ClientError CInvalidTokenFormat.
Definition unsupportedAlgorithm : exn := ClientError CUnsupportedAlgorithm.
Definition algorithmMismatch : exn := ClientError CAlgorithmMismatch.
Definition unknownKid : exn := ClientError CUnknownKid.
End clientErrors.
