(* ===== verification/JsNum.v ===== *)
(** * JsNum: JavaScript numbers

    IEEE-754 binary64 values as the program sees them: NaN, the infinities,
    the negative zero, and finite values [m * 2 ^ e] in a normal form (odd
    [m], or [0 * 2 ^ 0]), so that two non-NaN numbers are [===] exactly when
    they are equal terms (apart from the two zeros). Arithmetic is exact
    followed by round-to-nearest-even. *)

From S2P Require Import Prelude.

Inductive jsnum : Type :=
| NaN
| Infinity (negative : bool)
| NegZero
| Fin (m e : Z).

#[global] Instance jsnum_eq_dec : EqDecision jsnum.
Proof. solve_decision. Defined.

(** Strip the factors of two from a positive significand. *)
Fixpoint odd_part (p : positive) (e : Z) : positive * Z :=
  match p with
  | xO p' => odd_part p' (e + 1)
  | _ => (p, e)
  end.

(** The finite number of value [m * 2 ^ e]. *)
Definition norm (m e : Z) : jsnum :=
  match m with
  | Z0 => Fin 0 0
  | Zpos p => let '(q, e') := odd_part p e in Fin (Zpos q) e'
  | Zneg p => let '(q, e') := odd_part p e in Fin (Zneg q) e'
  end.

Definition num_wf (n : jsnum) : bool :=
  match n with
  | Fin 0 e => e =? 0
  | Fin m _ => Z.odd m
  | _ => true
  end.

(** Round the rational [n / d], [d > 0], to binary64, ties to even: the
    significand has 53 bits, the least exponent is [-1074], and values from
    [2 ^ 1024] on overflow to an infinity. *)
Definition rat_to_num (n d : Z) : jsnum :=
  let a := Z.abs n in
  if a =? 0 then Fin 0 0
  else
    let k0 := Z.log2 a - Z.log2 d in
    let below := if 0 <=? k0 then a <? d * 2 ^ k0 else a * 2 ^ (- k0) <? d in
    let k := if below then k0 - 1 else k0 in
    let e := Z.max (k - 52) (-1074) in
    let num := if 0 <=? e then a else a * 2 ^ (- e) in
    let den := if 0 <=? e then d * 2 ^ e else d in
    let q := num / den in
    let r := num mod den in
    let q' := if 2 * r <? den then q
              else if den <? 2 * r then q + 1
              else if Z.even q then q else q + 1 in
    if (q' =? 0) then (if n <? 0 then NegZero else Fin 0 0)
    else if (0 <=? e) && (2 ^ 1024 <=? q' * 2 ^ e) then Infinity (n <? 0)
    else norm (Z.sgn n * q') e.

Definition num_of_Z (z : Z) : jsnum := rat_to_num z 1.

(** [Number.isInteger] together with the integer it denotes. *)
Definition num_to_Z (n : jsnum) : option Z :=
  match n with
  | Fin m e => if 0 <=? e then Some (m * 2 ^ e) else None
  | NegZero => Some 0
  | _ => None
  end.

Definition isFinite (n : jsnum) : bool :=
  match n with Fin _ _ | NegZero => true | _ => false end.

Definition isInteger (n : jsnum) : bool :=
  match num_to_Z n with Some _ => true | None => false end.

Definition MAX_SAFE : Z := 2 ^ 53 - 1.
Definition MIN_SAFE : Z := - (2 ^ 53 - 1).

Definition isSafeInteger (n : jsnum) : bool :=
  match num_to_Z n with
  | Some z => (MIN_SAFE <=? z) && (z <=? MAX_SAFE)
  | None => false
  end.

(** [a < b] on numbers; every comparison with NaN is false. *)
Definition num_ltb (a b : jsnum) : bool :=
  let fin := fun n => match n with Fin m e => Some (m, e) | NegZero => Some (0, 0) | _ => None end in
  match a, b with
  | NaN, _ | _, NaN => false
  | Infinity na, Infinity nb => na && negb nb
  | Infinity na, _ => na
  | _, Infinity nb => negb nb
  | _, _ =>
      match fin a, fin b with
      | Some (m1, e1), Some (m2, e2) =>
          let e := Z.min e1 e2 in (m1 * 2 ^ (e1 - e)) <? (m2 * 2 ^ (e2 - e))
      | _, _ => false
      end
  end.

(** [a <= b], false on NaN. *)
Definition num_leb (a b : jsnum) : bool :=
  match a, b with
  | NaN, _ | _, NaN => false
  | _, _ => negb (num_ltb b a)
  end.

(** Rounded value of the dyadic [m * 2 ^ e]. *)
Definition dyadic (m e : Z) : jsnum :=
  if 0 <=? e then rat_to_num (m * 2 ^ e) 1 else rat_to_num m (2 ^ (- e)).

(** [a + b]. *)
Definition num_add (a b : jsnum) : jsnum :=
  match a, b with
  | NaN, _ | _, NaN => NaN
  | Infinity na, Infinity nb => if Bool.eqb na nb then Infinity na else NaN
  | Infinity na, _ => Infinity na
  | _, Infinity nb => Infinity nb
  | NegZero, _ => b
  | _, NegZero => a
  | Fin m1 e1, Fin m2 e2 =>
      let e := Z.min e1 e2 in dyadic (m1 * 2 ^ (e1 - e) + m2 * 2 ^ (e2 - e)) e
  end.

(** ** Decimal text *)

(** The decimal digits of [n >= 0], most significant first; [fuel] bounds
    their number. *)
Fixpoint dec_digits (fuel : nat) (n : Z) : jsstr :=
  match fuel with
  | O => []
  | S f => if n <? 10 then [48 + n] else dec_digits f (n / 10) ++ [48 + n mod 10]
  end.

(** [z.toString(10)] for an integer. *)
Definition dec (z : Z) : jsstr :=
  let ds := dec_digits (S (Z.to_nat (Z.log2 (Z.abs z)))) (Z.abs z) in
  if z <? 0 then 45 :: ds else ds.

Definition isDigit (c : Z) : bool := (0x30 <=? c) && (c <=? 0x39).

(** The number a digit string denotes. *)
Definition dec_val (ds : jsstr) : Z := fold_left (fun a d => a * 10 + (d - 48)) ds 0.

Definition num_neg (n : jsnum) : jsnum :=
  match n with
  | NaN => NaN
  | Infinity b => Infinity (negb b)
  | NegZero => Fin 0 0
  | Fin 0 _ => NegZero
  | Fin m e => Fin (- m) e
  end.

(** [Number(literal)] for a JSON number literal with integer digits [ip],
    fraction digits [fp] and exponent [ex]: the exact value, rounded. *)
Definition literal_value (neg : bool) (ip fp : jsstr) (ex : Z) : jsnum :=
  let m := dec_val (ip ++ fp) in
  let e := ex - Z.of_nat (List.length fp) in
  let r := if 0 <=? e then rat_to_num (m * 10 ^ e) 1 else rat_to_num m (10 ^ (- e)) in
  if neg then num_neg r else r.

(** ** Exact integers *)

Lemma odd_part_mul p e k :
  odd_part (Pos.iter xO p k) e = odd_part p (e + Zpos k).
Proof.
  revert e. induction k as [|k IH] using Pos.peano_ind; intros e; [done|].
  rewrite Pos.iter_succ. simpl. rewrite IH. f_equal. lia.
Qed.

Lemma norm_shift m e k : 0 <= k -> norm (m * 2 ^ k) e = norm m (e + k).
Proof.
  intros Hk. destruct k as [|k|]; [by rewrite Z.mul_1_r, Z.add_0_r| |lia].
  assert (Hp : forall p : positive, Zpos p * 2 ^ Zpos k = Zpos (Pos.iter xO p k)).
  { intros p. clear Hk. induction k as [|k IH] using Pos.peano_ind; [simpl; lia|].
    rewrite Pos2Z.inj_succ, Z.pow_succ_r, Pos.iter_succ by lia.
    rewrite (Pos2Z.inj_xO (Pos.iter xO p k)), <- IH. lia. }
  destruct m as [|p|p]; [done| |].
  - rewrite Hp. simpl. by rewrite odd_part_mul.
  - change (Zneg p) with (- Zpos p). rewrite Z.mul_opp_l, Hp. simpl. by rewrite odd_part_mul.
Qed.

Lemma odd_part_spec p e q e' :
  odd_part p e = (q, e') -> Z.odd (Zpos q) = true /\ e <= e' /\ Zpos p = Zpos q * 2 ^ (e' - e).
Proof.
  revert e. induction p as [p IH|p IH|]; intros e; simpl; intros H; simplify_eq.
  - rewrite Z.sub_diag. split_and!; lia || done.
  - destruct (IH _ H) as (Ho & Hle & Heq). split_and!; [done|lia|].
    replace (e' - e) with (e' - (e + 1) + 1) by lia. rewrite Z.pow_add_r by lia. lia.
  - rewrite Z.sub_diag. split_and!; lia || done.
Qed.

Lemma norm_wf m e : num_wf (norm m e) = true.
Proof.
  destruct m as [|p|p]; simpl; [done| |];
    destruct (odd_part p e) as [q e'] eqn:E; apply odd_part_spec in E as (Ho & _); simpl; by destruct q.
Qed.

Lemma norm_to_Z z : num_to_Z (norm z 0) = Some z.
Proof.
  destruct z as [|p|p]; simpl; [done| |];
    destruct (odd_part p 0) as [q e'] eqn:E; apply odd_part_spec in E as (_ & Hle & Heq);
    unfold num_to_Z; rewrite (proj2 (Z.leb_le _ _)) by lia; f_equal; rewrite Z.sub_0_r in Heq; lia.
Qed.

(** A number in normal form with an integer value is the canonical number of
    that integer. *)
Lemma num_to_Z_norm n z : num_wf n = true -> n <> NegZero -> num_to_Z n = Some z -> n = norm z 0.
Proof.
  destruct n as [| | |m e]; simpl; try done. intros Hwf _ H.
  destruct (0 <=? e) eqn:He; [|done]. simplify_eq. bool_prop.
  rewrite norm_shift by lia. simpl.
  destruct m as [|p|p]; simpl; [bool_prop; by subst| |];
    destruct p; try done; simpl in Hwf; done.
Qed.

(** Integers of magnitude up to [2 ^ 53] are represented exactly. *)
Lemma num_of_Z_exact z : Z.abs z <= 2 ^ 53 -> num_of_Z z = norm z 0.
Proof.
  intros Hz.
  destruct (decide (z = 2 ^ 53)) as [->|]; [by vm_compute|].
  destruct (decide (z = - 2 ^ 53)) as [->|]; [by vm_compute|].
  unfold num_of_Z, rat_to_num.
  destruct (Z.abs z =? 0) eqn:E0; bool_prop.
  { assert (z = 0) as -> by lia. done. }
  change (Z.log2 1) with 0. rewrite Z.sub_0_r.
  pose proof (Z.log2_spec (Z.abs z) ltac:(lia)) as [Hlo Hhi].
  pose proof (Z.log2_nonneg (Z.abs z)).
  set (k := Z.log2 (Z.abs z)) in *. cbv zeta.
  rewrite (proj2 (Z.leb_le 0 k)) by lia.
  rewrite Z.mul_1_l, (proj2 (Z.ltb_ge (Z.abs z) (2 ^ k))) by lia.
  assert (Hk : k <= 52).
  { destruct (Z.le_gt_cases k 52) as [|Hgt]; [done|].
    assert (2 ^ 53 <= 2 ^ k) by (apply Z.pow_le_mono_r; lia). lia. }
  rewrite Z.max_l by lia. rewrite Z.mul_1_l.
  assert (Hq : (if 0 <=? k - 52 then Z.abs z else Z.abs z * 2 ^ (- (k - 52)))
               = Z.abs z * 2 ^ (52 - k)).
  { destruct (0 <=? k - 52) eqn:Ek; bool_prop.
    - replace k with 52 by lia. simpl. lia.
    - by replace (- (k - 52)) with (52 - k) by lia. }
  assert (Hd : (if 0 <=? k - 52 then 2 ^ (k - 52) else 1) = 1).
  { destruct (0 <=? k - 52) eqn:Ek; bool_prop; [|done]. by replace k with 52 by lia. }
  rewrite Hq, Hd, Z.div_1_r, Zmod_1_r.
  change (2 * 0 <? 1) with true. cbv iota.
  assert (0 < 2 ^ (52 - k)) by (apply Z.pow_pos_nonneg; lia).
  rewrite (proj2 (Z.eqb_neq (Z.abs z * 2 ^ (52 - k)) 0)) by nia. cbv iota.
  assert (Ho : (0 <=? k - 52) && (2 ^ 1024 <=? Z.abs z * 2 ^ (52 - k) * 2 ^ (k - 52)) = false).
  { destruct (0 <=? k - 52) eqn:Ek; [|done]. bool_prop. replace k with 52 by lia. simpl andb.
    apply Z.leb_gt. change (2 ^ (52 - 52)) with 1.
    assert (2 ^ 53 < 2 ^ 1024) by (apply Z.pow_lt_mono_r; lia). lia. }
  rewrite Ho, Z.mul_assoc, (Z.mul_comm (Z.sgn z)), Z.abs_sgn.
  rewrite norm_shift by lia. f_equal. lia.
Qed.

(** ** Decimal text *)

Lemma dec_val_app ds d : dec_val (ds ++ [d]) = dec_val ds * 10 + (d - 48).
Proof. unfold dec_val. by rewrite fold_left_app. Qed.

Lemma dec_digits_spec fuel n :
  0 <= n < 10 ^ Z.of_nat fuel ->
  dec_val (dec_digits fuel n) = n /\ forallb isDigit (dec_digits fuel n) = true.
Proof.
  revert n. induction fuel as [|f IH]; intros n Hn; [simpl in *; split; [unfold dec_val; simpl; lia|done]|].
  cbn [dec_digits]. rewrite Nat2Z.inj_succ, Z.pow_succ_r in Hn by lia.
  destruct (n <? 10) eqn:E; bool_prop.
  - unfold dec_val, isDigit; cbn. split; [lia|].
    rewrite (proj2 (Z.leb_le 48 _)), (proj2 (Z.leb_le _ 57)) by lia. done.
  - destruct (IH (n / 10)) as [IH1 IH2]; [zdiv|].
    rewrite dec_val_app, IH1, forallb_app, IH2. split; [zdiv|]. cbn. unfold isDigit.
    rewrite (proj2 (Z.leb_le 48 _)), (proj2 (Z.leb_le _ 57)) by zdiv. done.
Qed.

(** No superfluous leading zero. *)
Lemma dec_digits_head fuel n :
  1 <= n < 10 ^ Z.of_nat fuel -> exists d ds, dec_digits fuel n = d :: ds /\ 49 <= d <= 57.
Proof.
  revert n. induction fuel as [|f IH]; intros n Hn; [simpl in *; lia|].
  cbn [dec_digits]. rewrite Nat2Z.inj_succ, Z.pow_succ_r in Hn by lia.
  destruct (n <? 10) eqn:E; bool_prop; [exists (48 + n), []; split; [done|lia]|].
  destruct (IH (n / 10)) as (d & ds & -> & Hd); [zdiv|]. eauto.
Qed.

Lemma dec_fuel n : 0 <= n -> n < 10 ^ Z.of_nat (S (Z.to_nat (Z.log2 n))).
Proof.
  intros Hn. rewrite Nat2Z.inj_succ, Z2Nat.id by apply Z.log2_nonneg.
  destruct (decide (n = 0)) as [->|]; [done|].
  pose proof (Z.log2_spec n ltac:(lia)) as [_ H].
  assert (2 ^ Z.succ (Z.log2 n) <= 10 ^ Z.succ (Z.log2 n)); [|lia].
  apply Z.pow_le_mono_l. lia.
Qed.

Lemma norm_neg m e : m <> 0 -> num_neg (norm m e) = norm (- m) e.
Proof.
  destruct m as [|p|p]; [done| |]; intros _; simpl; destruct (odd_part p e) as [q e']; done.
Qed.

(** The literal [dec z] denotes [z]. *)
Lemma literal_value_dec z :
  Z.abs z <= 2 ^ 53 -> z <> 0 ->
  literal_value (z <? 0) (dec_digits (S (Z.to_nat (Z.log2 (Z.abs z)))) (Z.abs z)) [] 0 = norm z 0.
Proof.
  intros Hz Hnz. unfold literal_value. rewrite app_nil_r.
  destruct (dec_digits_spec _ (Z.abs z) (conj (Z.abs_nonneg z) (dec_fuel _ (Z.abs_nonneg z)))) as [-> _].
  change (0 - Z.of_nat (List.length [])) with 0. cbv zeta. change (0 <=? 0) with true. cbv iota.
  rewrite Z.pow_0_r, Z.mul_1_r. change (rat_to_num (Z.abs z) 1) with (num_of_Z (Z.abs z)).
  rewrite num_of_Z_exact by lia. destruct (z <? 0) eqn:E; bool_prop.
  - rewrite norm_neg by lia. f_equal. lia.
  - f_equal. lia.
Qed.

(** ** Order and exact arithmetic *)

(** Finite numbers compare by their significands at any common exponent. *)
Lemma num_ltb_fin m1 e1 m2 e2 k :
  k <= e1 -> k <= e2 ->
  num_ltb (Fin m1 e1) (Fin m2 e2) = (m1 * 2 ^ (e1 - k) <? m2 * 2 ^ (e2 - k)).
Proof.
  intros H1 H2. cbn. set (e := Z.min e1 e2).
  replace (e1 - k) with ((e1 - e) + (e - k)) by lia.
  replace (e2 - k) with ((e2 - e) + (e - k)) by lia.
  rewrite !Z.pow_add_r, !Z.mul_assoc by lia.
  assert (0 < 2 ^ (e - k)) by (apply Z.pow_pos_nonneg; lia).
  apply eq_true_iff_eq. rewrite !Z.ltb_lt. nia.
Qed.

Definition fin_of (n : jsnum) : jsnum := match n with NegZero => Fin 0 0 | _ => n end.

(** The negative zero compares as zero. *)
Lemma num_ltb_fin_of a b : num_ltb a b = num_ltb (fin_of a) (fin_of b).
Proof. by destruct a, b. Qed.

Lemma num_leb_fin_of a b : num_leb a b = num_leb (fin_of a) (fin_of b).
Proof. by destruct a, b. Qed.

Lemma num_leb_ltb_trans a b c :
  num_leb a b = true -> num_ltb b c = true -> num_ltb a c = true.
Proof.
  rewrite num_leb_fin_of, !(num_ltb_fin_of _ c). unfold num_leb.
  destruct (fin_of a) as [| | |m1 e1] eqn:Ea, (fin_of b) as [| | |m2 e2] eqn:Eb,
    (fin_of c) as [| | |m3 e3] eqn:Ec; try (by destruct a); try (by destruct b); try (by destruct c);
    try (by cbn; repeat match goal with x : bool |- _ => destruct x end).
  set (k := Z.min e1 (Z.min e2 e3)).
  rewrite !(num_ltb_fin _ _ _ _ k) by lia. intros. bool_prop. apply Z.ltb_lt. lia.
Qed.

(** Integer-valued numbers compare and add as integers. *)
Lemma num_to_Z_fin n a :
  num_to_Z n = Some a -> exists m e, fin_of n = Fin m e /\ 0 <= e /\ a = m * 2 ^ e.
Proof.
  destruct n as [| | |m e]; cbn; try done; [intros [= <-]; by exists 0, 0|].
  destruct (0 <=? e) eqn:E; [|done]. intros [= <-]. bool_prop. eauto.
Qed.

Lemma num_ltb_Z x y a b : num_to_Z x = Some a -> num_to_Z y = Some b -> num_ltb x y = (a <? b).
Proof.
  intros (m1 & e1 & Hx & H1 & ->)%num_to_Z_fin (m2 & e2 & Hy & H2 & ->)%num_to_Z_fin.
  rewrite num_ltb_fin_of, Hx, Hy, (num_ltb_fin _ _ _ _ 0), !Z.sub_0_r by lia. done.
Qed.

Lemma num_leb_Z x y a b : num_to_Z x = Some a -> num_to_Z y = Some b -> num_leb x y = (a <=? b).
Proof.
  intros Hx Hy. assert (num_leb x y = negb (num_ltb y x)) as -> by (by destruct x, y).
  by rewrite (num_ltb_Z y x b a), Z.leb_antisym.
Qed.

Lemma num_add_Z x y a b :
  num_to_Z x = Some a -> num_to_Z y = Some b -> Z.abs (a + b) <= 2 ^ 53 ->
  num_to_Z (num_add x y) = Some (a + b).
Proof.
  intros Hx Hy Hb. destruct x as [| | |m1 e1], y as [| | |m2 e2]; try done.
  - cbn in *. by simplify_eq.
  - cbn in Hx. simplify_eq. by rewrite Z.add_0_l.
  - cbn in Hy. simplify_eq. by rewrite Z.add_0_r.
  - cbn in Hx, Hy. destruct (0 <=? e1) eqn:E1, (0 <=? e2) eqn:E2; try done.
    injection Hx as <-. injection Hy as <-. bool_prop. cbn. unfold dyadic.
    rewrite (proj2 (Z.leb_le 0 _)) by lia.
    rewrite Z.mul_add_distr_r, <- !Z.mul_assoc, <- !Z.pow_add_r, !Z.sub_add by lia.
    change (rat_to_num ?z 1) with (num_of_Z z). rewrite num_of_Z_exact by done. apply norm_to_Z.
Qed.

Lemma num_of_Z_to_Z z : Z.abs z <= 2 ^ 53 -> num_to_Z (num_of_Z z) = Some z.
Proof. intros H. rewrite num_of_Z_exact by done. apply norm_to_Z. Qed.
