(* ===== verification/Text.v ===== *)
(** * Text: UTF-8 and base64url

    [TextEncoder]/[TextDecoder] of the runtime, and
    [src/typescript/src/base64url.ts]. Bytes are integers in [0, 256). *)

From S2P Require Import Prelude Errors.

(** ** UTF-16 well-formedness *)

Definition is_high (c : Z) : bool := (0xd800 <=? c) && (c <=? 0xdbff).
Definition is_low (c : Z) : bool := (0xdc00 <=? c) && (c <=? 0xdfff).

(** No unpaired surrogate. *)
Fixpoint well_formed16 (s : jsstr) : bool :=
  match s with
  | [] => true
  | c :: s' =>
      if is_high c then match s' with d :: s'' => is_low d && well_formed16 s'' | [] => false end
      else if is_low c then false else well_formed16 s'
  end.

(** Induction that steps over a surrogate pair at once. *)
Lemma utf16_ind (P : jsstr -> Prop) :
  P [] ->
  (forall c s, is_high c = false -> P s -> P (c :: s)) ->
  (forall c, is_high c = true -> P [c]) ->
  (forall c d s, is_high c = true -> P s -> P (d :: s) -> P (c :: d :: s)) ->
  forall s, P s.
Proof.
  intros Hnil Hone Hlast Hpair s.
  enough (P s /\ forall c, P (c :: s)) by tauto.
  induction s as [|d s [IH1 IH2]].
  - split; [done|]. intros c. destruct (is_high c) eqn:E; auto.
  - split; [auto|]. intros c. destruct (is_high c) eqn:E; auto.
Qed.

(** ** UTF-8 *)

Definition utf8_cp (cp : Z) : list Z :=
  if cp <? 0x80 then [cp]
  else if cp <? 0x800 then [0xc0 + cp / 64; 0x80 + cp mod 64]
  else if cp <? 0x10000 then
    [0xe0 + cp / 4096; 0x80 + cp / 64 mod 64; 0x80 + cp mod 64]
  else
    [0xf0 + cp / 262144; 0x80 + cp / 4096 mod 64; 0x80 + cp / 64 mod 64; 0x80 + cp mod 64].

Definition replacement : list Z := [0xef; 0xbf; 0xbd].

(** [new TextEncoder().encode(s)]: unpaired surrogates become U+FFFD. *)
Fixpoint utf8_encode (s : jsstr) : list Z :=
  match s with
  | [] => []
  | c :: s' =>
      if is_high c then
        match s' with
        | d :: s'' =>
            if is_low d
            then utf8_cp (0x10000 + (c - 0xd800) * 0x400 + (d - 0xdc00)) ++ utf8_encode s''
            else replacement ++ utf8_encode s'
        | [] => replacement
        end
      else if is_low c then replacement ++ utf8_encode s'
      else utf8_cp c ++ utf8_encode s'
  end.

Definition is_cont (b : Z) : bool := (0x80 <=? b) && (b <=? 0xbf).

(** Strict decoding: overlong forms, surrogates, values past U+10FFFF and
    truncated sequences are refused. *)
Fixpoint utf8_decode (bs : list Z) : option jsstr :=
  match bs with
  | [] => Some []
  | b0 :: r0 =>
      if b0 <? 0x80 then cons b0 <$> utf8_decode r0
      else
        match r0 with
        | [] => None
        | b1 :: r1 =>
            if (0xc2 <=? b0) && (b0 <=? 0xdf) then
              if is_cont b1 then cons ((b0 - 0xc0) * 64 + (b1 - 0x80)) <$> utf8_decode r1 else None
            else
              match r1 with
              | [] => None
              | b2 :: r2 =>
                  if (0xe0 <=? b0) && (b0 <=? 0xef) then
                    let cp := (b0 - 0xe0) * 4096 + (b1 - 0x80) * 64 + (b2 - 0x80) in
                    if is_cont b1 && is_cont b2 && (0x800 <=? cp) && negb (is_high cp)
                       && negb (is_low cp)
                    then cons cp <$> utf8_decode r2 else None
                  else
                    match r2 with
                    | [] => None
                    | b3 :: r3 =>
                        let cp := (b0 - 0xf0) * 262144 + (b1 - 0x80) * 4096 + (b2 - 0x80) * 64
                                  + (b3 - 0x80) in
                        if (0xf0 <=? b0) && (b0 <=? 0xf4) && is_cont b1 && is_cont b2
                           && is_cont b3 && (0x10000 <=? cp) && (cp <=? 0x10ffff)
                        then (fun s => (0xd800 + (cp - 0x10000) / 0x400)
                                         :: (0xdc00 + (cp - 0x10000) mod 0x400) :: s)
                               <$> utf8_decode r3
                        else None
                    end
              end
        end
  end.

(** [new TextDecoder('utf-8', { fatal: true }).decode(bytes)]: a leading byte
    order mark is dropped; malformed input throws. *)
Definition text_decode (bs : list Z) : option jsstr :=
  match bs with
  | 0xef :: 0xbb :: 0xbf :: r => utf8_decode r
  | _ => utf8_decode bs
  end.

(** ** base64 of the runtime ([Buffer]) *)

(** The standard alphabet. *)
Definition std_char (n : Z) : Z :=
  if n <? 26 then 65 + n
  else if n <? 52 then 71 + n
  else if n <? 62 then n - 4
  else if n =? 62 then 43 else 47.

(** A decoder accepts both alphabets. *)
Definition std_sextet (c : Z) : option Z :=
  if (65 <=? c) && (c <=? 90) then Some (c - 65)
  else if (97 <=? c) && (c <=? 122) then Some (c - 71)
  else if (48 <=? c) && (c <=? 57) then Some (c + 4)
  else if (c =? 43) || (c =? 45) then Some 62
  else if (c =? 47) || (c =? 95) then Some 63
  else None.

(** [Buffer.from(bytes).toString('base64')], padded with [=] (61). *)
Fixpoint buffer_to_base64 (bs : list Z) : jsstr :=
  match bs with
  | [] => []
  | [a] => [std_char (a / 4); std_char (a mod 4 * 16); 61; 61]
  | [a; b] =>
      [std_char (a / 4); std_char (a mod 4 * 16 + b / 16); std_char (b mod 16 * 4); 61]
  | a :: b :: c :: r =>
      std_char (a / 4) :: std_char (a mod 4 * 16 + b / 16)
        :: std_char (b mod 16 * 4 + c / 64) :: std_char (c mod 64) :: buffer_to_base64 r
  end.

(** The sextets before the first [=]; characters outside the alphabets are
    skipped. *)
Fixpoint base64_sextets (s : jsstr) : list Z :=
  match s with
  | [] => []
  | c :: s' =>
      if c =? 61 then []
      else match std_sextet c with
           | Some n => n :: base64_sextets s'
           | None => base64_sextets s'
           end
  end.

(** Bits left over after the last whole byte are dropped. *)
Fixpoint sextet_bytes (l : list Z) : list Z :=
  match l with
  | x :: y :: z :: u :: r =>
      (x * 4 + y / 16) :: (y mod 16 * 16 + z / 4) :: (z mod 4 * 64 + u) :: sextet_bytes r
  | [x; y; z] => [x * 4 + y / 16; y mod 16 * 16 + z / 4]
  | [x; y] => [x * 4 + y / 16]
  | _ => []
  end.

(** [Buffer.from(s, 'base64')] *)
Definition buffer_from_base64 (s : jsstr) : list Z := sextet_bytes (base64_sextets s).

(** ** [src/typescript/src/base64url.ts] *)
Module base64url.
(** [s.replace(/a/g, b)] for single characters. *)
Definition replace_all (a b : Z) (s : jsstr) : jsstr := map (fun c => if c =? a then b else c) s.

(** [s.replace(/=+$/, '')] *)
Fixpoint strip_eq (s : jsstr) : jsstr :=
  match s with
  | [] => []
  | c :: s' =>
      match strip_eq s' with
      | [] => if c =? 61 then [] else [c]
      | t => c :: t
      end
  end.

Definition encode (bytes : list Z) : jsstr :=
  strip_eq (replace_all 47 95 (replace_all 43 45 (buffer_to_base64 bytes))).

(** [/^[A-Za-z0-9_-]*$/] *)
Definition alphabet (c : Z) : bool :=
  ((65 <=? c) && (c <=? 90)) || ((97 <=? c) && (c <=? 122)) || ((48 <=? c) && (c <=? 57))
  || (c =? 95) || (c =? 45).

Definition decode (s : jsstr) : res (list Z) :=
  if existsb (Z.eqb 61) s then Throw errors.tokenMalformed
  else if negb (forallb alphabet s) then Throw errors.tokenMalformed
  else
    let padLen := (4 - Z.of_nat (List.length s) mod 4) mod 4 in
    let b64 := replace_all 95 47 (replace_all 45 43 s) ++ repeat 61 (Z.to_nat padLen) in
    Ok (buffer_from_base64 b64).
End base64url.

Ltac surrogates := unfold is_high, is_low, is_cont in *; bool_prop.

Lemma is_cont_low x : is_cont (0x80 + x mod 64) = true.
Proof. unfold is_cont. apply andb_true_intro. split; apply Z.leb_le; zdiv. Qed.

Lemma utf8_decode_cp cp rest :
  0 <= cp < 0x10000 -> is_high cp = false -> is_low cp = false ->
  utf8_decode (utf8_cp cp ++ rest) = cons cp <$> utf8_decode rest.
Proof.
  intros Hr Hh Hl. unfold utf8_cp.
  destruct (cp <? 0x80) eqn:E1; [simpl; by rewrite E1|].
  destruct (cp <? 0x800) eqn:E2; bool_prop.
  - cbn [app utf8_decode]. rewrite (proj2 (Z.ltb_ge (0xc0 + cp / 64) 0x80)) by zdiv.
    rewrite (proj2 (Z.leb_le 0xc2 (0xc0 + cp / 64))), (proj2 (Z.leb_le (0xc0 + cp / 64) 0xdf)) by zdiv.
    cbv iota beta delta [andb]. rewrite is_cont_low.
    by replace ((0xc0 + cp / 64 - 0xc0) * 64 + (0x80 + cp mod 64 - 0x80)) with cp by zdiv.
  - rewrite (proj2 (Z.ltb_lt cp 0x10000)) by zdiv.
    cbn [app utf8_decode]. set (b := 0xe0 + cp / 4096).
    assert (Hb : 0xe0 <= b <= 0xef) by (subst b; zdiv).
    rewrite (proj2 (Z.ltb_ge b 0x80)), (proj2 (Z.leb_gt b 0xdf)), andb_false_r by zdiv.
    rewrite (proj2 (Z.leb_le 0xe0 b)), (proj2 (Z.leb_le b 0xef)) by zdiv.
    cbv zeta. unfold b. rewrite !is_cont_low.
    replace ((0xe0 + cp / 4096 - 0xe0) * 4096 + (0x80 + cp / 64 mod 64 - 0x80) * 64
             + (0x80 + cp mod 64 - 0x80)) with cp by zdiv.
    rewrite Hh, Hl, (proj2 (Z.leb_le 0x800 cp)) by zdiv. done.
Qed.

Lemma utf8_decode_pair c d rest :
  is_high c = true -> is_low d = true ->
  utf8_decode (utf8_cp (0x10000 + (c - 0xd800) * 0x400 + (d - 0xdc00)) ++ rest)
  = (fun s => c :: d :: s) <$> utf8_decode rest.
Proof.
  intros Hc Hd. surrogates.
  set (cp := 0x10000 + (c - 0xd800) * 0x400 + (d - 0xdc00)).
  assert (0x10000 <= cp <= 0x10ffff) by zdiv.
  unfold utf8_cp. rewrite !(proj2 (Z.ltb_ge cp _)) by zdiv.
  cbn [app utf8_decode]. set (b := 0xf0 + cp / 262144).
  assert (Hb : 0xf0 <= b <= 0xf4) by (subst b; zdiv).
  rewrite (proj2 (Z.ltb_ge b 0x80)), (proj2 (Z.leb_gt b 0xdf)), andb_false_r by zdiv.
  rewrite (proj2 (Z.leb_gt b 0xef)), andb_false_r by zdiv.
  rewrite (proj2 (Z.leb_le 0xf0 b)), (proj2 (Z.leb_le b 0xf4)) by zdiv.
  cbv zeta. unfold b. rewrite !is_cont_low.
  replace ((0xf0 + cp / 262144 - 0xf0) * 262144 + (0x80 + cp / 4096 mod 64 - 0x80) * 4096
           + (0x80 + cp / 64 mod 64 - 0x80) * 64 + (0x80 + cp mod 64 - 0x80)) with cp by zdiv.
  rewrite (proj2 (Z.leb_le 0x10000 cp)), (proj2 (Z.leb_le cp 0x10ffff)) by zdiv.
  cbv iota beta delta [andb].
  replace (0xd800 + (cp - 0x10000) / 0x400) with c by zdiv.
  by replace (0xdc00 + (cp - 0x10000) mod 0x400) with d by zdiv.
Qed.

Lemma utf8_decode_encode s :
  Forall is_unit s -> well_formed16 s = true -> utf8_decode (utf8_encode s) = Some s.
Proof.
  induction s as [|c s Hc IH|c Hc|c d s Hc IH1 IH2] using utf16_ind; [done|..].
  - intros [Hu Hs]%Forall_cons. cbn [well_formed16 utf8_encode]. rewrite Hc.
    destruct (is_low c) eqn:Hl; [done|]. intros Hw.
    rewrite utf8_decode_cp by done. by rewrite IH.
  - simpl. by rewrite Hc.
  - intros [Hu1 [Hu2 Hs]%Forall_cons]%Forall_cons. cbn [well_formed16 utf8_encode]. rewrite Hc.
    intros [Hd Hw]%andb_prop. rewrite Hd, utf8_decode_pair by done. by rewrite IH1.
Qed.

Lemma utf8_cp_bytes cp : 0 <= cp <= 0x10ffff -> Forall is_byte (utf8_cp cp).
Proof.
  intros H. unfold utf8_cp, is_byte.
  repeat case_goal; bool_prop; repeat apply Forall_cons_2; try apply Forall_nil_2; zdiv.
Qed.

Lemma utf8_encode_bytes s : Forall is_unit s -> Forall is_byte (utf8_encode s).
Proof.
  assert (Hr : Forall is_byte replacement).
  { unfold replacement, is_byte. repeat apply Forall_cons_2; try apply Forall_nil_2; zdiv. }
  induction s as [|c s Hc IH|c Hc|c d s Hc IH1 IH2] using utf16_ind; cbn [utf8_encode]; [done|..].
  - intros [Hu Hs]%Forall_cons. rewrite Hc. unfold is_unit in Hu.
    destruct (is_low c); apply Forall_app; split; auto. apply utf8_cp_bytes. lia.
  - intros _. by rewrite Hc.
  - intros [Hu1 [Hu2 Hs]%Forall_cons]%Forall_cons. rewrite Hc.
    destruct (is_low d) eqn:Hd; apply Forall_app; split; auto.
    + apply utf8_cp_bytes. surrogates. lia.
    + cbn [utf8_encode] in IH2. rewrite Hd in IH2. apply IH2. by apply Forall_cons.
Qed.

(** ASCII text is its own encoding. *)
Definition is_ascii (c : Z) : bool := (0 <=? c) && (c <? 0x80).

Lemma utf8_encode_ascii s : forallb is_ascii s = true -> utf8_encode s = s.
Proof.
  induction s as [|c s IH]; [done|]. cbn [forallb]. intros [Hc Hs]%andb_prop.
  unfold is_ascii in Hc. bool_prop. cbn [utf8_encode]. unfold is_high, is_low.
  rewrite (proj2 (Z.leb_gt 0xd800 c)), (proj2 (Z.leb_gt 0xdc00 c)) by lia. simpl andb. cbv iota.
  unfold utf8_cp. rewrite (proj2 (Z.ltb_lt c 0x80)) by lia. simpl. by rewrite IH.
Qed.

(** Text that does not start with a byte order mark survives the decoder. *)
Lemma text_decode_encode s :
  Forall is_unit s -> well_formed16 s = true -> head s <> Some 0xfeff ->
  text_decode (utf8_encode s) = Some s.
Proof.
  intros Hu Hw Hh. pose proof (utf8_decode_encode s Hu Hw) as Hd.
  assert (Hn : forall r, utf8_encode s <> 0xef :: 0xbb :: 0xbf :: r).
  { intros r Heq. apply Hh. rewrite Heq in Hd.
    cbn in Hd. destruct (utf8_decode r); simpl in Hd; by simplify_eq. }
  unfold text_decode. revert Hd Hn. generalize (utf8_encode s). intros l Hd Hn.
  repeat case_goal; try exact Hd. exfalso; by eapply Hn.
Qed.

(** ** base64url *)

(** Induction three bytes at a time. *)
Lemma triple_ind (P : list Z -> Prop) :
  P [] -> (forall a, P [a]) -> (forall a b, P [a; b]) ->
  (forall a b c r, P r -> P (a :: b :: c :: r)) -> forall l, P l.
Proof.
  intros H0 H1 H2 H3 l.
  enough (P l /\ (forall a, P (a :: l)) /\ forall a b, P (a :: b :: l)) by tauto.
  induction l as [|c r (I1 & I2 & I3)]; split_and!; auto.
Qed.

(** The character of a sextet in the URL alphabet. *)
Definition url_char (n : Z) : Z := if n =? 62 then 45 else if n =? 63 then 95 else std_char n.

(** The sextets of a byte string, the last one padded with zero bits. *)
Fixpoint byte_sextets (bs : list Z) : list Z :=
  match bs with
  | [] => []
  | [a] => [a / 4; a mod 4 * 16]
  | [a; b] => [a / 4; a mod 4 * 16 + b / 16; b mod 16 * 4]
  | a :: b :: c :: r =>
      a / 4 :: (a mod 4 * 16 + b / 16) :: (b mod 16 * 4 + c / 64) :: (c mod 64) :: byte_sextets r
  end.

Ltac forall_bytes := repeat match goal with
  | H : Forall _ (_ :: _) |- _ => apply Forall_cons in H as [? H]
  end.

Lemma byte_sextets_range bs :
  Forall is_byte bs -> Forall (fun n => 0 <= n < 64) (byte_sextets bs).
Proof.
  induction bs as [|a|a b|a b c r IH] using triple_ind; cbn [byte_sextets]; intros H;
    forall_bytes; unfold is_byte in *;
    repeat (apply Forall_cons; split; [zdiv|]); auto using Forall_nil_2.
Qed.

Lemma sextet_bytes_of bs : Forall is_byte bs -> sextet_bytes (byte_sextets bs) = bs.
Proof.
  induction bs as [|a|a b|a b c r IH] using triple_ind; intros H; [done|..];
    forall_bytes; unfold is_byte in *; cbn [byte_sextets sextet_bytes].
  - f_equal. zdiv.
  - f_equal; [zdiv|]. f_equal. zdiv.
  - rewrite IH by done. f_equal; [zdiv|]. f_equal; [zdiv|]. f_equal. zdiv.
Qed.

Ltac char_cases := unfold url_char, std_char, std_sextet, base64url.alphabet in *;
  repeat case_goal; bool_prop; try lia; try done.

Lemma url_char_alphabet n : 0 <= n < 64 -> base64url.alphabet (url_char n) = true.
Proof.
  intros H. assert (Hall : forallb (fun n => base64url.alphabet (url_char (Z.of_nat n))) (seq 0 64) = true)
    by reflexivity.
  rewrite forallb_forall in Hall. rewrite <- (Z2Nat.id n) by lia. apply Hall, in_seq. lia.
Qed.

Lemma url_char_sextet n :
  0 <= n < 64 ->
  std_sextet (let c := url_char n in let c := if c =? 45 then 43 else c in if c =? 95 then 47 else c)
  = Some n.
Proof.
  intros H.
  assert (Hall : forallb (fun n => bool_decide (std_sextet (
    let c := url_char (Z.of_nat n) in let c := if c =? 45 then 43 else c in if c =? 95 then 47 else c)
    = Some (Z.of_nat n))) (seq 0 64) = true) by reflexivity.
  rewrite forallb_forall in Hall. specialize (Hall (Z.to_nat n)).
  rewrite Z2Nat.id in Hall by lia. apply bool_decide_eq_true in Hall; [done|].
  apply in_seq. lia.
Qed.

Module base64url_facts.
Import base64url.

Lemma strip_eq_app l k : forallb alphabet l = true -> strip_eq (l ++ repeat 61 k) = l.
Proof.
  induction l as [|c l IH]; simpl; intros H.
  - induction k as [|k IHk]; simpl; [done|]. by rewrite IHk.
  - apply andb_prop in H as [Hc Hl]. rewrite IH by done.
    assert (c <> 61) by (intros ->; done).
    rewrite (proj2 (Z.eqb_neq c 61)) by done. by destruct l.
Qed.

Lemma buffer_to_base64_sextets bs :
  exists k, buffer_to_base64 bs = map std_char (byte_sextets bs) ++ repeat 61 k.
Proof.
  induction bs as [|a|a b|a b c r [k IH]] using triple_ind.
  - by exists 0%nat.
  - by exists 2%nat.
  - by exists 1%nat.
  - exists k. cbn [buffer_to_base64 byte_sextets map app]. by rewrite IH.
Qed.

Lemma replace_url l :
  Forall (fun n => 0 <= n < 64) l ->
  replace_all 47 95 (replace_all 43 45 (map std_char l)) = map url_char l.
Proof.
  induction 1 as [|n l Hn _ IH]; [done|]. unfold replace_all in *. cbn [map]. rewrite IH. f_equal.
  unfold url_char. destruct (n =? 62) eqn:E; bool_prop; [by subst|].
  destruct (n =? 63) eqn:E3; bool_prop; [by subst|].
  assert (std_char n <> 43 /\ std_char n <> 47) as [? ?].
  { unfold std_char. repeat case_goal; bool_prop; lia. }
  by rewrite (proj2 (Z.eqb_neq (std_char n) 43)), (proj2 (Z.eqb_neq (std_char n) 47)).
Qed.

Lemma url_chars_alphabet l :
  Forall (fun n => 0 <= n < 64) l -> forallb alphabet (map url_char l) = true.
Proof.
  induction 1 as [|n l Hn _ IH]; [done|]. simpl. by rewrite url_char_alphabet, IH.
Qed.

(** [encode] writes one character per sextet and no padding. *)
Lemma encode_sextets bs :
  Forall is_byte bs -> encode bs = map url_char (byte_sextets bs).
Proof.
  intros H. unfold encode. destruct (buffer_to_base64_sextets bs) as [k ->].
  pose proof (byte_sextets_range bs H) as Hr.
  unfold replace_all. rewrite !map_app, !map_repeat.
  fold (replace_all 43 45 (map std_char (byte_sextets bs))).
  fold (replace_all 47 95 (replace_all 43 45 (map std_char (byte_sextets bs)))).
  rewrite replace_url by done. by apply strip_eq_app, url_chars_alphabet.
Qed.

Lemma sextets_of_chars l t :
  Forall (fun n => 0 <= n < 64) l ->
  base64_sextets (replace_all 95 47 (replace_all 45 43 (map url_char l)) ++ t)
  = l ++ base64_sextets t.
Proof.
  induction 1 as [|n l Hn _ IH]; [done|]. cbn [map replace_all app base64_sextets].
  pose proof (url_char_sextet n Hn) as Hs. cbv zeta in Hs.
  set (c := if (if url_char n =? 45 then 43 else url_char n) =? 95 then 47
            else (if url_char n =? 45 then 43 else url_char n)) in *.
  assert ((c =? 61) = false) as ->.
  { apply Z.eqb_neq. intros ->. done. }
  rewrite Hs. unfold replace_all in IH. by rewrite IH.
Qed.

Lemma base64_sextets_pad k : base64_sextets (repeat 61 k) = [].
Proof. by destruct k. Qed.

Lemma alphabet_no_pad l : forallb alphabet l = true -> existsb (Z.eqb 61) l = false.
Proof.
  induction l as [|c l IH]; [done|]. cbn [forallb existsb]. intros [Hc Hl]%andb_prop.
  rewrite IH by done. destruct (61 =? c) eqn:E; [|done]. apply Z.eqb_eq in E. by subst.
Qed.

(** Decoding undoes encoding. *)
Lemma decode_encode_bytes bs : Forall is_byte bs -> decode (encode bs) = Ok bs.
Proof.
  intros H. pose proof (byte_sextets_range bs H) as Hr.
  rewrite encode_sextets by done. unfold decode.
  pose proof (url_chars_alphabet _ Hr) as Ha.
  rewrite (alphabet_no_pad _ Ha), Ha. cbn [negb]. cbv zeta iota. f_equal.
  unfold buffer_from_base64.
  by rewrite sextets_of_chars, base64_sextets_pad, app_nil_r, sextet_bytes_of.
Qed.

(** No character of an encoding is a dot, which is what separates the
    segments of a token. *)
Lemma encode_alphabet bs : Forall is_byte bs -> forallb alphabet (encode bs) = true.
Proof. intros H. rewrite encode_sextets by done. by apply url_chars_alphabet, byte_sextets_range. Qed.

Lemma encode_inj bs bs' :
  Forall is_byte bs -> Forall is_byte bs' -> encode bs = encode bs' -> bs = bs'.
Proof.
  intros H H' Heq. assert (Ok (E := exn) bs = Ok bs') as [=]; [|done].
  rewrite <- (decode_encode_bytes bs H), <- (decode_encode_bytes bs' H'). by rewrite Heq.
Qed.

(** What [decode] returns is a byte string. *)
Lemma sextet_bytes_range l :
  Forall (fun n => 0 <= n < 64) l -> Forall is_byte (sextet_bytes l).
Proof.
  remember (List.length l) as n eqn:Hn. revert l Hn.
  induction n as [n IH] using lt_wf_ind. intros l -> H.
  destruct l as [|x [|y [|z [|u r]]]]; forall_bytes; cbn [sextet_bytes]; auto using Forall_nil_2;
    unfold is_byte in *;
    repeat (apply Forall_cons; split; [zdiv|]); auto using Forall_nil_2.
  apply (IH (List.length r)); simpl; [lia|done|done].
Qed.

Lemma base64_sextets_range s : Forall (fun n => 0 <= n < 64) (base64_sextets s).
Proof.
  induction s as [|c s IH]; cbn [base64_sextets]; [done|].
  destruct (c =? 61); [done|]. destruct (std_sextet c) as [n|] eqn:E; [|done].
  apply Forall_cons. split; [|done]. unfold std_sextet in E.
  repeat case_hyp E; bool_prop; simplify_eq; lia.
Qed.

Lemma decode_bytes s bs : decode s = Ok bs -> Forall is_byte bs.
Proof.
  unfold decode. repeat case_goal; try done. intros [= <-].
  apply sextet_bytes_range, base64_sextets_range.
Qed.

(** The runtime's own decoder reads an unpadded encoding too. *)
Lemma buffer_from_encode bs : Forall is_byte bs -> buffer_from_base64 (encode bs) = bs.
Proof.
  intros H. rewrite encode_sextets by done. unfold buffer_from_base64.
  assert (Hs : base64_sextets (map url_char (byte_sextets bs)) = byte_sextets bs).
  { pose proof (byte_sextets_range bs H) as Hr. induction Hr as [|n l Hn _ IH]; [done|].
    cbn [map base64_sextets].
    assert (Hall : forallb (fun n => negb (url_char (Z.of_nat n) =? 61)
      && bool_decide (std_sextet (url_char (Z.of_nat n)) = Some (Z.of_nat n))) (seq 0 64) = true)
      by reflexivity.
    rewrite forallb_forall in Hall. specialize (Hall (Z.to_nat n)). rewrite Z2Nat.id in Hall by lia.
    destruct (andb_prop _ _ (Hall (proj2 (in_seq 64 0 (Z.to_nat n)) ltac:(lia)))) as [H1 H2]. bool_prop.
    rewrite (proj2 (Z.eqb_neq _ 61)) by done. by rewrite H2, IH. }
  by rewrite Hs, sextet_bytes_of.
Qed.

(** A decoded segment is no longer than its text. *)
Lemma sextet_bytes_length l : (List.length (sextet_bytes l) <= List.length l)%nat.
Proof.
  remember (List.length l) as n eqn:Hn. revert l Hn.
  induction n as [n IH] using lt_wf_ind. intros l ->.
  destruct l as [|x [|y [|z [|u r]]]]; cbn [sextet_bytes List.length]; try lia.
  pose proof (IH (List.length r) ltac:(simpl; lia) r eq_refl). lia.
Qed.

Lemma base64_sextets_length s k :
  (List.length (base64_sextets (s ++ repeat 61%Z k)) <= List.length s)%nat.
Proof.
  induction s as [|c s IH]; cbn [app base64_sextets]; [by rewrite base64_sextets_pad|].
  destruct (c =? 61); [simpl; lia|]. destruct (std_sextet c); simpl in *; lia.
Qed.

Lemma decode_length s bs : decode s = Ok bs -> (List.length bs <= List.length s)%nat.
Proof.
  unfold decode. repeat case_goal; try done. intros [= <-]. unfold buffer_from_base64.
  etransitivity; [apply sextet_bytes_length|]. etransitivity; [apply base64_sextets_length|].
  unfold replace_all. by rewrite !length_map.
Qed.
End base64url_facts.
