(* ===== verification/Json.v ===== *)
(** * Json: JavaScript values

    The values that reach the codecs: JSON data, plus what JavaScript can put
    in its place ([undefined], bigints, functions, exotic objects, objects
    whose prototype was changed). *)

From S2P Require Import Prelude Errors JsNum.

(** ** Values *)

(** [JObj proto props]: an object with its prototype and its own enumerable
    string-keyed properties. [JObjProto] is [Object.prototype] itself;
    [JFun] stands for functions and symbols, [JOther] for class instances
    ([Date], [Map], typed arrays). *)
#[warnings="-register-all"]
Inductive jsval : Type :=
| JUndefined
| JNull
| JBool (b : bool)
| JNum (n : jsnum)
| JStr (s : jsstr)
| JBig (z : Z)
| JArr (l : list jsval)
| JObj (proto : jsval) (props : list (jsstr * jsval))
| JObjProto
| JFun
| JOther.

(** An object literal. *)
Abbreviation plain props := (JObj JObjProto props).

(** The names [Object.prototype] defines. *)
Definition object_proto_names : list jsstr :=
  map js ["constructor"; "__defineGetter__"; "__defineSetter__"; "hasOwnProperty";
          "__lookupGetter__"; "__lookupSetter__"; "isPrototypeOf"; "propertyIsEnumerable";
          "toString"; "valueOf"; "__proto__"; "toLocaleString"]%string.

Definition proto_key : jsstr := js "__proto__".

(** [k in o]. The names the program looks up are not array or function
    methods, so those two only inherit from [Object.prototype]. *)
Fixpoint has_prop (o : jsval) (k : jsstr) : bool :=
  match o with
  | JObj proto props => map_has props k || has_prop proto k
  | JObjProto | JFun | JOther => bool_decide (k ∈ object_proto_names)
  | JArr _ => str_eqb k (js "length") || bool_decide (k ∈ object_proto_names)
  | _ => false
  end.

(** [Object.getPrototypeOf(o)] *)
Definition proto_of (o : jsval) : jsval :=
  match o with
  | JObj proto _ => proto
  | JArr _ | JFun | JOther => JOther
  | _ => JNull
  end.

(** Read [k] along the chain from [o]; an inherited method reads as a
    function, and the inherited [__proto__] accessor returns the prototype
    [recv] of the object the read started at. *)
Fixpoint lookup_chain (recv o : jsval) (k : jsstr) : jsval :=
  match o with
  | JObj proto props =>
      match map_get props k with
      | Some v => v
      | None => lookup_chain recv proto k
      end
  | JArr l =>
      if str_eqb k (js "length") then JNum (num_of_Z (Z.of_nat (List.length l)))
      else if str_eqb k proto_key then recv
      else if bool_decide (k ∈ object_proto_names) then JFun else JUndefined
  | JObjProto | JFun | JOther =>
      if str_eqb k proto_key then recv
      else if bool_decide (k ∈ object_proto_names) then JFun else JUndefined
  | _ => JUndefined
  end.

(** [o[k]] *)
Definition get_prop (o : jsval) (k : jsstr) : jsval := lookup_chain (proto_of o) o k.

(** Does assigning [__proto__] find the accessor of [Object.prototype] on
    this chain? An own data property of that name shadows it. *)
Fixpoint has_proto_setter (v : jsval) : bool :=
  match v with
  | JObj proto props => negb (map_has props proto_key) && has_proto_setter proto
  | JObjProto | JArr _ | JFun | JOther => true
  | _ => false
  end.

(** [typeof v === 'object' && v !== null] or a function. *)
Definition is_object (v : jsval) : bool :=
  match v with JArr _ | JObj _ _ | JObjProto | JFun | JOther => true | _ => false end.

(** [o[k] = v] on an ordinary object: [__proto__] goes through the accessor
    when the chain still has it, which changes the prototype and creates no
    property. *)
Definition assign (proto : jsval) (props : list (jsstr * jsval)) (k : jsstr) (v : jsval)
  : jsval * list (jsstr * jsval) :=
  if str_eqb k proto_key && has_proto_setter (JObj proto props) then
    match v with
    | JNull => (JNull, props)
    | _ => if is_object v then (v, props) else (proto, props)
    end
  else (proto, map_set props k v).

(** ** Induction through arrays and objects *)
Section jsval_ind.
Context (P : jsval -> Prop).
Hypothesis Hundef : P JUndefined.
Hypothesis Hnull : P JNull.
Hypothesis Hbool : forall b, P (JBool b).
Hypothesis Hnum : forall n, P (JNum n).
Hypothesis Hstr : forall s, P (JStr s).
Hypothesis Hbig : forall z, P (JBig z).
Hypothesis Harr : forall l, Forall P l -> P (JArr l).
Hypothesis Hobj : forall proto props,
  P proto -> Forall (fun kv : jsstr * jsval => P kv.2) props -> P (JObj proto props).
Hypothesis Hobjproto : P JObjProto.
Hypothesis Hfun : P JFun.
Hypothesis Hother : P JOther.

Fixpoint jsval_ind' (v : jsval) : P v :=
  match v with
  | JUndefined => Hundef
  | JNull => Hnull
  | JBool b => Hbool b
  | JNum n => Hnum n
  | JStr s => Hstr s
  | JBig z => Hbig z
  | JArr l =>
      Harr l ((fix all l : Forall P l :=
                 match l with
                 | [] => Forall_nil_2 _
                 | x :: l' => Forall_cons_2 _ x l' (jsval_ind' x) (all l')
                 end) l)
  | JObj proto props =>
      Hobj proto props (jsval_ind' proto)
        ((fix all l : Forall (fun kv : jsstr * jsval => P kv.2) l :=
            match l with
            | [] => Forall_nil_2 _
            | x :: l' => Forall_cons_2 _ x l' (jsval_ind' x.2) (all l')
            end) props)
  | JObjProto => Hobjproto
  | JFun => Hfun
  | JOther => Hother
  end.
End jsval_ind.

(** ** Well-formed values

    Numbers in normal form, strings of code units, own keys distinct: what
    every value of the runtime satisfies. *)
Fixpoint val_wf (v : jsval) : Prop :=
  match v with
  | JNum n => num_wf n = true
  | JStr s => Forall is_unit s
  | JArr l => Forall id (map val_wf l)
  | JObj proto props =>
      val_wf proto /\ NoDup props.*1
      /\ Forall id (map (fun kv => Forall is_unit kv.1 /\ val_wf kv.2) props)
  | _ => True
  end.

Lemma val_wf_arr l : val_wf (JArr l) <-> Forall val_wf l.
Proof. cbn [val_wf]. by rewrite Forall_map. Qed.

Lemma val_wf_obj proto props :
  val_wf (JObj proto props) <->
  val_wf proto /\ NoDup props.*1
  /\ Forall (fun kv => Forall is_unit kv.1 /\ val_wf kv.2) props.
Proof. cbn [val_wf]. by rewrite Forall_map. Qed.
