(* ===== verification/Canonical.v ===== *)
(** * Canonical: the canonical JSON serializer

    [src/typescript/src/canonical-json.ts], whose output is what the issuer
    signs. The [out] array the code pushes into is the concatenation of the
    returned strings; a member's value is written where the code writes it,
    so the first error is the code's. *)

From S2P Require Import Prelude Errors JsNum Text Json.

(** ** The writer *)

(** [validateUtf16] *)
Fixpoint validateUtf16 (s : jsstr) : res unit :=
  match s with
  | [] => Ok tt
  | c :: s' =>
      if (0xd800 <=? c) && (c <=? 0xdbff) then
        match s' with
        | n :: s'' =>
            if negb ((0xdc00 <=? n) && (n <=? 0xdfff)) then Throw errors.canonicalInvalidUTF8
            else validateUtf16 s''
        | [] => Throw errors.canonicalInvalidUTF8
        end
      else if (0xdc00 <=? c) && (c <=? 0xdfff) then Throw errors.canonicalInvalidUTF8
      else validateUtf16 s'
  end.

Definition HEX : jsstr := js "0123456789abcdef".
Definition hex_digit (n : Z) : Z := List.nth (Z.to_nat n) HEX 0.

(** The body of the loop of [writeString]. *)
Fixpoint write_chars (s : jsstr) : jsstr :=
  match s with
  | [] => []
  | c :: s' =>
      if (0xd800 <=? c) && (c <=? 0xdbff) then
        match s' with
        | d :: s'' => c :: d :: write_chars s''
        | [] => [c]
        end
      else if c =? 0x22 then [92; 34] ++ write_chars s'
      else if c =? 0x5c then [92; 92] ++ write_chars s'
      else if c =? 0x08 then js "\b" ++ write_chars s'
      else if c =? 0x09 then js "\t" ++ write_chars s'
      else if c =? 0x0a then js "\n" ++ write_chars s'
      else if c =? 0x0c then js "\f" ++ write_chars s'
      else if c =? 0x0d then js "\r" ++ write_chars s'
      else if c <? 0x20 then
        js "\u00" ++ [hex_digit (js_and (js_shr c 4) 0xf); hex_digit (js_and c 0xf)]
        ++ write_chars s'
      else c :: write_chars s'
  end.

Definition writeString (s : jsstr) : res jsstr :=
  let? _ := validateUtf16 s in
  Ok ([34] ++ write_chars s ++ [34]).

Definition writeNumber (n : jsnum) : res jsstr :=
  if negb (isFinite n) then Throw errors.canonicalInvalidNumber
  else
    match num_to_Z n with
    | None => Throw errors.canonicalInvalidNumber
    | Some z =>
        if bool_decide (n = NegZero) then Throw errors.canonicalInvalidNumber
        else if (MAX_SAFE <? z) || (z <? MIN_SAFE) then Throw errors.canonicalInvalidNumber
        else Ok (dec z)
    end.

(** [typeof 'bigint'] *)
Definition writeBigint (z : Z) : res jsstr :=
  if (MAX_SAFE <? z) || (z <? MIN_SAFE) then Throw errors.canonicalInvalidNumber else Ok (dec z).

(** [isPlainObject]; [Object.prototype] itself has a null prototype. *)
Definition isPlainObject (v : jsval) : bool :=
  match v with
  | JObj JObjProto _ | JObj JNull _ | JObjProto => true
  | _ => false
  end.

(** The loop of [writeArray], given what writing each element does. *)
Fixpoint write_elems (ws : list (res jsstr)) (first : bool) : res jsstr :=
  match ws with
  | [] => Ok []
  | w :: ws' =>
      let? s := w in
      let? rest := write_elems ws' false in
      Ok ((if first then [] else [44]) ++ s ++ rest)
  end.

(** [compareUtf16] as the order [keys.sort] uses. *)
Definition key_le {A} (p q : jsstr * A) : Prop := str_le p.1 q.1.
#[global] Instance key_le_dec {A} (p q : jsstr * A) : Decision (key_le p q).
Proof. unfold key_le. apply _. Defined.

(** The loop of [writeObject] over the sorted keys, given what writing each
    member's value does. *)
Fixpoint write_members (ms : list (jsstr * res jsstr)) (first : bool) (seen : list jsstr)
  : res jsstr :=
  match ms with
  | [] => Ok []
  | (k, w) :: ms' =>
      if bool_decide (k ∈ seen) then Throw (errors.canonicalDuplicateKey k)
      else
        let? ks := writeString k in
        let? vs := w in
        let? rest := write_members ms' false (k :: seen) in
        Ok ((if first then [] else [44]) ++ ks ++ [58] ++ vs ++ rest)
  end.

Definition writeArray (ws : list (res jsstr)) : res jsstr :=
  let? body := write_elems ws true in Ok ([91] ++ body ++ [93]).

Definition writeObject (ms : list (jsstr * res jsstr)) : res jsstr :=
  let keys := merge_sort key_le ms in
  let? body := write_members keys true [] in
  Ok ([123] ++ body ++ [125]).

Fixpoint writeValue (v : jsval) : res jsstr :=
  match v with
  | JNull => Ok (js "null")
  | JBool b => Ok (if b then js "true" else js "false")
  | JNum n => writeNumber n
  | JStr s => writeString s
  | JBig z => writeBigint z
  | JArr l => writeArray (map writeValue l)
  | JObj proto props =>
      if isPlainObject (JObj proto props)
      then writeObject (map (fun kv => (kv.1, writeValue kv.2)) props)
      else Throw errors.canonicalInvalidType
  | JObjProto => writeObject []
  | JOther => Throw errors.canonicalInvalidType
  | JUndefined | JFun => Throw errors.canonicalInvalidType
  end.

(** The text before [TEXT_ENCODER]. *)
Definition canonical_text (v : jsval) : res jsstr :=
  if isPlainObject v then writeValue v else Throw errors.canonicalInvalidTopLevel.

Definition canonicalize (v : jsval) : res (list Z) :=
  let? t := canonical_text v in Ok (utf8_encode t).

Definition canonicalizeToString (v : jsval) : res jsstr :=
  let? bs := canonicalize v in
  match text_decode bs with Some s => Ok s | None => Throw PlainError end.

(** ** What can be canonicalized, and what it stands for *)

Definition safe_int (z : Z) : bool := (MIN_SAFE <=? z) && (z <=? MAX_SAFE).

(** The values [writeValue] accepts. *)
Fixpoint canonicalizable (v : jsval) : bool :=
  match v with
  | JNull | JBool _ | JObjProto => true
  | JNum n =>
      match num_to_Z n with
      | Some z => negb (bool_decide (n = NegZero)) && safe_int z
      | None => false
      end
  | JStr s => well_formed16 s
  | JBig z => safe_int z
  | JArr l => forallb canonicalizable l
  | JObj proto props =>
      isPlainObject (JObj proto props)
      && forallb (fun kv => well_formed16 kv.1 && canonicalizable kv.2) props
  | _ => false
  end.

(** The value a canonical text denotes: members in key order, bigints and
    prototypes normalised. *)
Fixpoint canon (v : jsval) : jsval :=
  match v with
  | JBig z => JNum (num_of_Z z)
  | JArr l => JArr (map canon l)
  | JObj _ props => plain (merge_sort key_le (map (fun kv => (kv.1, canon kv.2)) props))
  | JObjProto => plain []
  | _ => v
  end.

(** ** Sorting members *)

Lemma key_sorted_unique {A} (l1 l2 : list (jsstr * A)) :
  NoDup l1.*1 -> StronglySorted key_le l1 -> StronglySorted key_le l2 -> l1 ≡ₚ l2 -> l1 = l2.
Proof.
  intros Hd H1 H2 Hp. apply (StronglySorted_unique_strong key_le); try done.
  intros [k1 x1] [k2 x2] Hx1 Hx2 Hle Hge.
  assert (k1 = k2) as <- by (by apply (anti_symm str_le)).
  rewrite <- Hp in Hx2. f_equal.
  apply elem_map_get in Hx1, Hx2; [congruence|done..].
Qed.

#[global] Instance key_le_total {A} : Total (@key_le A).
Proof. intros p q. apply (total str_le). Qed.
#[global] Instance key_le_trans {A} : Transitive (@key_le A).
Proof. intros p q r. unfold key_le. apply transitivity. Qed.

Lemma key_sort_sorted {A} (l : list (jsstr * A)) : StronglySorted key_le (merge_sort key_le l).
Proof. apply StronglySorted_merge_sort; apply _. Qed.

Definition on_value {A B} (f : A -> B) (kv : jsstr * A) : jsstr * B := (kv.1, f kv.2).

Lemma on_value_fst {A B} (f : A -> B) l : (map (on_value f) l).*1 = l.*1.
Proof. induction l as [|kv l IH]; [done|]. simpl. f_equal. apply IH. Qed.

Lemma sort_keys_nodup {A} (l : list (jsstr * A)) : NoDup l.*1 -> NoDup (merge_sort key_le l).*1.
Proof. by rewrite (merge_sort_Permutation key_le l). Qed.

(** Sorting looks at the keys only. *)
Lemma sort_on_value {A B} (f : A -> B) l :
  NoDup l.*1 -> merge_sort key_le (map (on_value f) l) = map (on_value f) (merge_sort key_le l).
Proof.
  intros Hd. apply key_sorted_unique.
  - apply sort_keys_nodup. by rewrite on_value_fst.
  - apply key_sort_sorted.
  - pose proof (key_sort_sorted l) as Hs. induction Hs as [|kv l' _ IH Hf]; [constructor|].
    simpl. constructor; [done|]. apply Forall_map. eapply Forall_impl; [exact Hf|]. done.
  - by rewrite !merge_sort_Permutation.
Qed.

Lemma sort_sorted_id {A} (l : list (jsstr * A)) :
  NoDup l.*1 -> merge_sort key_le (merge_sort key_le l) = merge_sort key_le l.
Proof.
  intros Hd. apply key_sorted_unique; try apply key_sort_sorted.
  - by apply sort_keys_nodup, sort_keys_nodup.
  - by rewrite merge_sort_Permutation.
Qed.

(** Two listings of the same members sort to the same list. *)
Lemma sort_perm {A} (l1 l2 : list (jsstr * A)) :
  NoDup l1.*1 -> l1 ≡ₚ l2 -> merge_sort key_le l1 = merge_sort key_le l2.
Proof.
  intros Hd Hp. apply key_sorted_unique; try apply key_sort_sorted.
  - by apply sort_keys_nodup.
  - by rewrite !merge_sort_Permutation.
Qed.

(** ** When the writer succeeds *)

Lemma validateUtf16_spec s :
  validateUtf16 s = if well_formed16 s then Ok tt else Throw errors.canonicalInvalidUTF8.
Proof.
  induction s as [|c s Hc IH|c Hc|c d s Hc IH1 IH2] using utf16_ind;
    cbn [validateUtf16 well_formed16]; [done|..].
  - unfold is_high in Hc. rewrite Hc. unfold is_high. rewrite Hc. unfold is_low.
    by destruct ((0xdc00 <=? c) && (c <=? 0xdfff)).
  - unfold is_high in *. by rewrite Hc.
  - unfold is_high in *. rewrite Hc. unfold is_low. by destruct ((0xdc00 <=? d) && (d <=? 0xdfff)).
Qed.

Lemma writeString_spec s :
  writeString s = if well_formed16 s then Ok ([34] ++ write_chars s ++ [34])
                  else Throw errors.canonicalInvalidUTF8.
Proof. unfold writeString. rewrite validateUtf16_spec. by destruct (well_formed16 s). Qed.

(** The members are written one after the other when their keys differ. *)
Lemma write_members_ok ms first seen t :
  write_members ms first seen = Ok t ->
  Forall (fun kw => well_formed16 kw.1 = true /\ exists s, kw.2 = Ok s) ms.
Proof.
  revert first seen t. induction ms as [|[k w] ms IH]; intros first seen t; cbn [write_members]; [done|].
  destruct (bool_decide _); [done|]. rewrite writeString_spec.
  destruct (well_formed16 k) eqn:Hk; simpl; [|done].
  destruct w as [s|e]; simpl; [|done].
  destruct (write_members ms false (k :: seen)) as [r|e] eqn:Hr; simpl; [|done]. intros _.
  apply Forall_cons. split; [|by eapply IH]. simpl. eauto.
Qed.

Lemma write_members_total ms first seen :
  NoDup ms.*1 -> (forall k, k ∈ ms.*1 -> k ∉ seen) ->
  Forall (fun kw => well_formed16 kw.1 = true /\ exists s, kw.2 = Ok s) ms ->
  exists t, write_members ms first seen = Ok t.
Proof.
  revert first seen. induction ms as [|[k w] ms IH]; intros first seen; cbn [write_members]; [eauto|].
  csimpl. intros [Hn Hd]%NoDup_cons Hs [[Hk [s Hw]] Hf]%Forall_cons. cbn in Hk, Hw. subst w.
  rewrite bool_decide_false by (apply Hs; left).
  rewrite writeString_spec, Hk. cbn [rbind].
  destruct (IH false (k :: seen)) as [r ->]; [done| |done|].
  - intros k' Hk' [->|Hin]%elem_of_cons; [done|]. eapply Hs; [right|]; done.
  - simpl. eauto.
Qed.

Lemma write_elems_ok ws first t :
  write_elems ws first = Ok t -> Forall (fun w => exists s, w = Ok s) ws.
Proof.
  revert first t. induction ws as [|w ws IH]; intros first t; simpl; [done|].
  destruct w as [s|e]; simpl; [|done]. destruct (write_elems ws false) eqn:E; simpl; [|done].
  intros _. apply Forall_cons. eauto.
Qed.

Lemma write_elems_total ws first :
  Forall (fun w => exists s, w = Ok s) ws -> exists t, write_elems ws first = Ok t.
Proof.
  intros H. revert first. induction H as [|w ws [s ->] _ IH]; intros first; simpl; [eauto|].
  destruct (IH false) as [r ->]. simpl. eauto.
Qed.

Ltac absurd_ok := split; [by intros [? ?]|done].

Lemma writeNumber_ok n :
  (exists t, writeNumber n = Ok t) <-> canonicalizable (JNum n) = true.
Proof.
  unfold writeNumber, canonicalizable, safe_int.
  destruct n as [|b| |m e]; simpl; [absurd_ok..|].
  destruct (0 <=? e); [|absurd_ok].
  simpl.
  destruct (MAX_SAFE <? m * 2 ^ e) eqn:E1, (m * 2 ^ e <? MIN_SAFE) eqn:E2; simpl; bool_prop;
    (split; [intros [t Ht]; try done|intros H; bool_prop; eauto]); try lia.
Qed.

Lemma writeBigint_ok z : (exists t, writeBigint z = Ok t) <-> safe_int z = true.
Proof.
  unfold writeBigint, safe_int.
  destruct (MAX_SAFE <? z) eqn:E1, (z <? MIN_SAFE) eqn:E2; simpl; bool_prop;
    (split; [intros [t Ht]; try done|intros H; bool_prop; eauto]); try lia.
Qed.

(** [writeValue] returns exactly on the values [canonicalizable] lists. *)
Lemma writeValue_ok v :
  val_wf v -> (exists t, writeValue v = Ok t) <-> canonicalizable v = true.
Proof.
  induction v as [| | |n|s|z|l IH|proto props _ IH| | |] using jsval_ind'; intros Hwf;
    try (simpl; first [absurd_ok | by split; eauto]); [apply writeNumber_ok| |apply writeBigint_ok|..].
  - cbn [writeValue canonicalizable]. rewrite writeString_spec.
    destruct (well_formed16 s); [split; eauto|absurd_ok].
  - apply val_wf_arr in Hwf. cbn [writeValue canonicalizable]. unfold writeArray.
    assert (Hall : Forall (fun w => exists s, w = Ok s) (map writeValue l)
                   <-> forallb canonicalizable l = true).
    { rewrite Forall_map, forallb_Forall, !Forall_forall in *.
      split; intros H x Hx; apply IH; eauto. }
    rewrite <- Hall. split.
    + intros [t Ht]. apply rbind_ok_inv in Ht as (b & Hb & _). by apply write_elems_ok in Hb.
    + intros H. destruct (write_elems_total _ true H) as [t ->]. simpl. eauto.
  - apply val_wf_obj in Hwf as (_ & Hd & Hwf). cbn [writeValue canonicalizable].
    destruct (isPlainObject _); [|simpl; absurd_ok]. simpl andb. unfold writeObject.
    fold (on_value writeValue). rewrite sort_on_value by done.
    assert (Hall : Forall (fun kw => well_formed16 kw.1 = true /\ exists s, kw.2 = Ok s)
                     (map (on_value writeValue) (merge_sort key_le props))
                   <-> forallb (fun kv => well_formed16 kv.1 && canonicalizable kv.2) props = true).
    { rewrite Forall_map, merge_sort_Permutation, forallb_Forall, !Forall_forall in *.
      split; intros H x Hx; specialize (IH x Hx (proj2 (Hwf x Hx))); specialize (H x Hx).
      - cbn in H. destruct H as [H1 H2]. rewrite H1. by apply IH.
      - apply andb_prop in H as [H1 H2]. split; [done|]. by apply IH. }
    rewrite <- Hall. split.
    + intros [t Ht]. apply rbind_ok_inv in Ht as (b & Hb & _). by apply write_members_ok in Hb.
    + intros H. destruct (write_members_total (map (on_value writeValue) (merge_sort key_le props)) true [])
        as [t ->]; [rewrite on_value_fst; by apply sort_keys_nodup|by intros ? _ ?%not_elem_of_nil|done|].
      simpl. eauto.
Qed.

(** Writing a value and writing what it stands for give one text. *)
Lemma writeValue_canon v :
  val_wf v -> canonicalizable v = true -> writeValue (canon v) = writeValue v.
Proof.
  induction v as [| | |n|s|z|l IH|proto props _ IH| | |] using jsval_ind'; intros Hwf Hc;
    try done; cbn [canon writeValue].
  - cbn in Hc. unfold safe_int in Hc. bool_prop. unfold MIN_SAFE, MAX_SAFE in *.
    unfold writeNumber, writeBigint. rewrite num_of_Z_exact by lia.
    assert (Hnz : norm z 0 <> NegZero).
    { destruct z as [|p|p]; simpl; [done|..]; by destruct (odd_part p 0). }
    assert (isFinite (norm z 0) = true) as ->.
    { destruct z as [|p|p]; simpl; [done|..]; by destruct (odd_part p 0). }
    simpl. by rewrite norm_to_Z, bool_decide_false.
  - apply val_wf_arr in Hwf. f_equal. rewrite map_map. apply map_ext_Forall.
    cbn [canonicalizable] in Hc. rewrite forallb_Forall, !Forall_forall in *. auto.
  - apply val_wf_obj in Hwf as (_ & Hd & Hwf). cbn [canonicalizable] in Hc.
    apply andb_prop in Hc as [-> Hc]. simpl isPlainObject. cbv iota. unfold writeObject.
    fold (on_value writeValue). fold (on_value canon).
    assert (Hd' : NoDup (map (on_value canon) props).*1) by (by rewrite on_value_fst).
    rewrite !(sort_on_value writeValue), sort_sorted_id, (sort_on_value canon)
      by auto using sort_keys_nodup.
    do 2 f_equal.
    rewrite map_map. apply map_ext_Forall. rewrite merge_sort_Permutation.
    rewrite forallb_Forall, !Forall_forall in *. intros x Hx. unfold on_value. simpl. f_equal.
    specialize (Hc x Hx). apply andb_prop in Hc as [_ Hc].
    apply IH; [done|by apply Hwf|done].
Qed.
