(* ===== verification/StrictJson.v ===== *)
(** * StrictJson: the strict JSON parser

    [src/typescript/src/strict-json.ts]. The parser's position is the
    remaining text: [ctx.text[ctx.i]] is its head, advancing drops it, a read
    past the end finds nothing. [parseValue] calls itself through the object
    and array loops, so it takes a fuel bound on nesting and loop length;
    [strictParse] starts with more than the length of the text, and
    [strictParse_no_diverge] shows that this is always enough. *)

From S2P Require Import Prelude Errors JsNum Text Json Canonical.

(** ** The parser *)

Definition malformed : exn := StrictJsonError TokenMalformed NoDetails.
Definition duplicateKey (key : jsstr) : exn :=
  StrictJsonError CanonicalJSONDuplicateKey (Strings [key]).

Definition is_ws (c : Z) : bool := (c =? 0x20) || (c =? 0x09) || (c =? 0x0a) || (c =? 0x0d).

Fixpoint skipWs (s : jsstr) : jsstr :=
  match s with
  | c :: s' => if is_ws c then skipWs s' else s
  | [] => []
  end.

Definition peekChar (s : jsstr) : option Z := head s.

Definition expectChar (s : jsstr) (ch : Z) : res jsstr :=
  match s with
  | c :: s' => if c =? ch then Ok s' else Throw malformed
  | [] => Throw malformed
  end.

(** [isDigit(ctx.text.charCodeAt(ctx.i))] *)
Definition digit_next (s : jsstr) : bool :=
  match s with c :: _ => isDigit c | [] => false end.

(** [while (isDigit(...)) ctx.i++], with the digits passed over. *)
Fixpoint span_digits (s : jsstr) : jsstr * jsstr :=
  match s with
  | c :: s' => if isDigit c then let '(ds, r) := span_digits s' in (c :: ds, r) else ([], s)
  | [] => ([], [])
  end.

Definition is_hex (c : Z) : bool :=
  isDigit c || ((97 <=? c) && (c <=? 102)) || ((65 <=? c) && (c <=? 70)).
Definition hex_val (c : Z) : Z :=
  if isDigit c then c - 48 else if 97 <=? c then c - 87 else c - 55.

(** [acc += ...] in front of what the rest of the loop reads. *)
Definition push (pre : jsstr) (r : res (jsstr * jsstr)) : res (jsstr * jsstr) :=
  let? (acc, s) := r in Ok (pre ++ acc, s).

(** The slow path of [parseString]: from the first escape on. *)
Fixpoint string_slow (s : jsstr) : res (jsstr * jsstr) :=
  match s with
  | [] => Throw malformed
  | ch :: s' =>
      if ch =? 0x22 then Ok ([], s')
      else if ch =? 0x5c then
        match s' with
        | [] => Throw malformed
        | e :: r =>
            if e =? 0x22 then push [0x22] (string_slow r)
            else if e =? 0x5c then push [0x5c] (string_slow r)
            else if e =? 0x2f then push [0x2f] (string_slow r)
            else if e =? 98 then push [0x08] (string_slow r)
            else if e =? 102 then push [0x0c] (string_slow r)
            else if e =? 110 then push [0x0a] (string_slow r)
            else if e =? 114 then push [0x0d] (string_slow r)
            else if e =? 116 then push [0x09] (string_slow r)
            else if e =? 117 then
              match r with
              | h1 :: h2 :: h3 :: h4 :: r' =>
                  if negb (is_hex h1 && is_hex h2 && is_hex h3 && is_hex h4) then Throw malformed
                  else push [hex_val h1 * 4096 + hex_val h2 * 256 + hex_val h3 * 16 + hex_val h4]
                         (string_slow r')
              | _ => Throw malformed
              end
            else Throw malformed
        end
      else if ch <? 0x20 then Throw malformed
      else
        match s' with
        | lo :: s'' =>
            if (0xd800 <=? ch) && (ch <=? 0xdbff) && ((0xdc00 <=? lo) && (lo <=? 0xdfff))
            then push [ch; lo] (string_slow s'')
            else push [ch] (string_slow s')
        | [] => push [ch] (string_slow s')
        end
  end.

(** The fast path: scan for the closing quote. *)
Fixpoint string_fast (s : jsstr) : res (jsstr * jsstr) :=
  match s with
  | [] => Throw malformed
  | c :: s' =>
      if c =? 0x22 then Ok ([], s')
      else if c =? 0x5c then string_slow s
      else if c <? 0x20 then Throw malformed
      else push [c] (string_fast s')
  end.

Definition parseString (s : jsstr) : res (jsstr * jsstr) :=
  let? s := expectChar s 0x22 in string_fast s.

(** Sign and digits after an [e]; the exponent they denote. *)
Definition parse_exponent (s : jsstr) : res (Z * jsstr) :=
  match s with
  | c :: s' =>
      if (c =? 101) || (c =? 69) then
        let '(sign, s1) := match s' with
                           | d :: r => if d =? 43 then (1, r) else if d =? 45 then (-1, r) else (1, s')
                           | [] => (1, s')
                           end in
        if negb (digit_next s1) then Throw malformed
        else let '(ds, r) := span_digits s1 in Ok (sign * dec_val ds, r)
      else Ok (0, s)
  | [] => Ok (0, s)
  end.

Definition parse_fraction (s : jsstr) : res (jsstr * jsstr) :=
  match s with
  | c :: s' =>
      if c =? 46 then
        if negb (digit_next s') then Throw malformed else Ok (span_digits s')
      else Ok ([], s)
  | [] => Ok ([], s)
  end.

Definition parse_integer (s : jsstr) : res (jsstr * jsstr) :=
  match s with
  | c :: s' =>
      if c =? 48 then Ok ([48], s')
      else if isDigit c then Ok (span_digits s) else Throw malformed
  | [] => Throw malformed
  end.

Definition parseNumber (s : jsstr) : res (jsval * jsstr) :=
  let '(neg, s) := match s with
                    | c :: s' => if c =? 45 then (true, s') else (false, s)
                    | [] => (false, s)
                    end in
  let? (ip, s) := parse_integer s in
  let? (fp, s) := parse_fraction s in
  let? (ex, s) := parse_exponent s in
  let num := literal_value neg ip fp ex in
  if negb (isFinite num) then Throw malformed else Ok (JNum num, s).

Fixpoint strip_prefix (p s : jsstr) : option jsstr :=
  match p, s with
  | [], _ => Some s
  | a :: p', b :: s' => if a =? b then strip_prefix p' s' else None
  | _ :: _, [] => None
  end.

Definition parseLiteral (s expected : jsstr) (value : jsval) : res (jsval * jsstr) :=
  match strip_prefix expected s with
  | Some r => Ok (value, r)
  | None => Throw malformed
  end.

(** The loop of [parseArray]; [pv] is [parseValue] one level down. *)
Fixpoint array_loop (pv : jsstr -> res (jsval * jsstr)) (fuel : nat) (out : list jsval) (s : jsstr)
  : res (jsval * jsstr) :=
  match fuel with
  | O => Throw Diverged
  | S f =>
      let? (v, s) := pv s in
      let out := out ++ [v] in
      match skipWs s with
      | next :: s' =>
          if next =? 44 then array_loop pv f out s'
          else if next =? 93 then Ok (JArr out, s')
          else Throw malformed
      | [] => Throw malformed
      end
  end.

Definition parseArray (pv : jsstr -> res (jsval * jsstr)) (fuel : nat) (s : jsstr)
  : res (jsval * jsstr) :=
  let? s := expectChar s 91 in
  let s := skipWs s in
  if bool_decide (peekChar s = Some 93) then Ok (JArr [], tail s)
  else array_loop pv fuel [] s.

(** The loop of [parseObject]; the object built so far is its prototype and
    its own properties. *)
Fixpoint object_loop (pv : jsstr -> res (jsval * jsstr)) (fuel : nat)
    (proto : jsval) (props : list (jsstr * jsval)) (s : jsstr) : res (jsval * jsstr) :=
  match fuel with
  | O => Throw Diverged
  | S f =>
      let s := skipWs s in
      if negb (bool_decide (peekChar s = Some 0x22)) then Throw malformed
      else
        let? (key, s) := parseString s in
        if map_has props key then Throw (duplicateKey key)
        else
          let? s := expectChar (skipWs s) 58 in
          let? (value, s) := pv s in
          let '(proto, props) := assign proto props key value in
          match skipWs s with
          | next :: s' =>
              if next =? 44 then object_loop pv f proto props s'
              else if next =? 125 then Ok (JObj proto props, s')
              else Throw malformed
          | [] => Throw malformed
          end
  end.

Definition parseObject (pv : jsstr -> res (jsval * jsstr)) (fuel : nat) (s : jsstr)
  : res (jsval * jsstr) :=
  let? s := expectChar s 123 in
  let s := skipWs s in
  if bool_decide (peekChar s = Some 125) then Ok (plain [], tail s)
  else object_loop pv fuel JObjProto [] s.

Fixpoint parseValue (fuel : nat) (s : jsstr) : res (jsval * jsstr) :=
  match fuel with
  | O => Throw Diverged
  | S f =>
      match skipWs s with
      | [] => Throw malformed
      | c :: r =>
          let s := c :: r in
          if c =? 0x7b then parseObject (parseValue f) f s
          else if c =? 0x5b then parseArray (parseValue f) f s
          else if c =? 0x22 then let? (v, r) := parseString s in Ok (JStr v, r)
          else if c =? 0x74 then parseLiteral s (js "true") (JBool true)
          else if c =? 0x66 then parseLiteral s (js "false") (JBool false)
          else if c =? 0x6e then parseLiteral s (js "null") JNull
          else if (c =? 0x2d) || ((0x30 <=? c) && (c <=? 0x39)) then parseNumber s
          else Throw malformed
      end
  end.

Definition strictParse (text : jsstr) : res jsval :=
  let? (value, s) := parseValue (S (List.length text)) (skipWs text) in
  match skipWs s with
  | [] => Ok value
  | _ => Throw malformed
  end.

(** No property is called [__proto__], at any depth. *)
Fixpoint no_proto_key (v : jsval) : bool :=
  match v with
  | JArr l => forallb no_proto_key l
  | JObj _ props =>
      forallb (fun kv => negb (str_eqb kv.1 proto_key) && no_proto_key kv.2) props
  | _ => true
  end.

(** What may follow a number in a canonical text. *)
Definition num_stop (rest : jsstr) : bool :=
  match rest with
  | [] => true
  | c :: _ => negb (isDigit c) && negb (c =? 46) && negb (c =? 101) && negb (c =? 69)
  end.

(** ** Termination *)

Definition progress {A} (s : jsstr) (r : res (A * jsstr)) : Prop :=
  match r with
  | Ok (_, s') => (List.length s' < List.length s)%nat
  | Throw e => e <> Diverged
  end.

Lemma skipWs_length s : (List.length (skipWs s) <= List.length s)%nat.
Proof. induction s as [|c s IH]; simpl; [lia|]. destruct (is_ws c); simpl; lia. Qed.

Lemma span_digits_length s : (List.length (span_digits s).2 <= List.length s)%nat.
Proof.
  induction s as [|c s IH]; simpl; [lia|]. destruct (isDigit c); [|simpl; lia].
  destruct (span_digits s); simpl in *; lia.
Qed.

Lemma push_progress pre s r : progress s r -> progress s (push pre r).
Proof. by destruct r as [[acc s']|e]. Qed.

Lemma progress_weaken {A} s1 s2 (r : res (A * jsstr)) :
  progress s1 r -> (List.length s1 <= List.length s2)%nat -> progress s2 r.
Proof. destruct r as [[a s']|e]; simpl; [lia|done]. Qed.

Ltac len := simpl in *; lia.

Lemma string_slow_progress s : progress s (string_slow s).
Proof.
  remember (List.length s) as n eqn:Hn. revert s Hn.
  induction n as [n IH] using lt_wf_ind. intros s ->.
  assert (Hrec : forall r pre, (List.length r < List.length s)%nat ->
            progress s (push pre (string_slow r))).
  { intros r pre Hr. apply push_progress. eapply progress_weaken; [by eapply IH|lia]. }
  destruct s as [|ch s']; [done|]. cbn [string_slow].
  destruct (ch =? 0x22); [simpl; lia|].
  destruct (ch =? 0x5c).
  - destruct s' as [|e r]; [done|].
    repeat (case_goal; subst; try done; try (apply Hrec; len)).
  - destruct (ch <? 0x20); [done|].
    destruct s' as [|lo s'']; [apply Hrec; len|]. case_goal; apply Hrec; len.
Qed.

Lemma string_fast_progress s : progress s (string_fast s).
Proof.
  induction s as [|c s IH]; [done|]. cbn [string_fast].
  repeat case_goal; try done; [simpl; lia|apply string_slow_progress|].
  apply push_progress. eapply progress_weaken; [exact IH|len].
Qed.

Lemma expectChar_progress s ch :
  match expectChar s ch with
  | Ok s' => (List.length s' < List.length s)%nat
  | Throw e => e <> Diverged
  end.
Proof. destruct s as [|c s]; simpl; [done|]. destruct (c =? ch); simpl; [lia|done]. Qed.

Lemma parseString_progress s : progress s (parseString s).
Proof.
  unfold parseString. pose proof (expectChar_progress s 0x22) as H.
  destruct (expectChar s 0x22) as [s'|e]; simpl; [|done].
  eapply progress_weaken; [apply string_fast_progress|lia].
Qed.

Lemma digits_shrink s : digit_next s = true -> (List.length (span_digits s).2 < List.length s)%nat.
Proof.
  destruct s as [|c s]; [done|]. cbn [digit_next span_digits]. intros ->.
  pose proof (span_digits_length s). destruct (span_digits s); len.
Qed.

(** A part of a number that may be empty. *)
Definition shrink {A} (s : jsstr) (r : res (A * jsstr)) : Prop :=
  match r with
  | Ok (_, s') => (List.length s' <= List.length s)%nat
  | Throw e => e <> Diverged
  end.

Lemma parse_fraction_shrink s : shrink s (parse_fraction s).
Proof.
  destruct s as [|c s]; [simpl; lia|]. cbn [parse_fraction]. case_goal; [|simpl; lia].
  case_goal; [done|]. bool_prop.
  match goal with H : digit_next ?l = true |- _ => apply digits_shrink in H end.
  destruct (span_digits s); len.
Qed.

Lemma parse_exponent_shrink s : shrink s (parse_exponent s).
Proof.
  destruct s as [|c s]; [simpl; lia|]. cbn [parse_exponent]. case_goal; [|simpl; lia].
  set (p := match s with
            | d :: r => if d =? 43 then (1, r) else if d =? 45 then (-1, r) else (1, s)
            | [] => (1, s)
            end).
  assert (List.length p.2 <= List.length s)%nat.
  { subst p. repeat (case_goal; try (simpl; lia)). }
  destruct p as [sign s1]. case_goal; [done|]. bool_prop.
  match goal with H : digit_next _ = true |- _ => apply digits_shrink in H end.
  destruct (span_digits s1); len.
Qed.

Lemma parse_integer_progress s : progress s (parse_integer s).
Proof.
  destruct s as [|c s]; [done|]. cbn [parse_integer]. case_goal; [simpl; lia|].
  case_goal; [|done]. pose proof (digits_shrink (c :: s)) as Hd. cbn [digit_next] in Hd.
  specialize (Hd ltac:(done)). destruct (span_digits (c :: s)); len.
Qed.

Lemma parseNumber_progress s : progress s (parseNumber s).
Proof.
  unfold parseNumber.
  set (p := match s with
            | c :: s' => if c =? 45 then (true, s') else (false, s)
            | [] => (false, s)
            end).
  assert (List.length p.2 <= List.length s)%nat.
  { subst p. repeat (case_goal; try (simpl; lia)). }
  destruct p as [neg s0]. simpl in *.
  pose proof (parse_integer_progress s0) as Hi.
  destruct (parse_integer s0) as [[ip s1]|e]; [|done]. simpl in *.
  pose proof (parse_fraction_shrink s1) as Hf.
  destruct (parse_fraction s1) as [[fp s2]|e]; [|done]. simpl in *.
  pose proof (parse_exponent_shrink s2) as He.
  destruct (parse_exponent s2) as [[ex s3]|e]; [|done]. simpl in *.
  case_goal; [done|len].
Qed.

Lemma strip_prefix_length p s r : strip_prefix p s = Some r ->
  List.length s = (List.length p + List.length r)%nat.
Proof.
  revert s. induction p as [|a p IH]; intros [|b s]; simpl; intros H; simplify_eq; try done.
  destruct (a =? b); [|done]. apply IH in H. lia.
Qed.

Lemma parseLiteral_progress s expected v :
  expected <> [] -> progress s (parseLiteral s expected v).
Proof.
  intros He. unfold parseLiteral. destruct (strip_prefix expected s) eqn:E; [|done].
  apply strip_prefix_length in E. destruct expected; [done|len].
Qed.

Section Loops.
Context (pv : jsstr -> res (jsval * jsstr)).

Lemma peek_tail s c : peekChar s = Some c -> List.length s = S (List.length (tail s)).
Proof. by destruct s. Qed.

Lemma array_loop_progress f out s :
  (forall s', (List.length s' <= List.length s)%nat -> progress s' (pv s')) ->
  (List.length s < f)%nat -> progress s (array_loop pv f out s).
Proof.
  revert out s. induction f as [|f IH]; intros out s Hpv Hf; [lia|]. cbn [array_loop].
  pose proof (Hpv s ltac:(lia)) as H. destruct (pv s) as [[v s1]|e]; [|done]. simpl in H |- *.
  pose proof (skipWs_length s1). destruct (skipWs s1) as [|c s2]; [done|].
  repeat (case_goal; try (simpl in *; (done || lia))).
  eapply progress_weaken; [apply IH|len]; [|len]. intros s' Hs'. apply Hpv. len.
Qed.

Lemma object_loop_progress f proto props s :
  (forall s', (List.length s' <= List.length s)%nat -> progress s' (pv s')) ->
  (List.length s < f)%nat -> progress s (object_loop pv f proto props s).
Proof.
  revert proto props s. induction f as [|f IH]; intros proto props s Hpv Hf; [lia|].
  cbn [object_loop]. cbv zeta. pose proof (skipWs_length s) as Hw.
  case_goal; [done|]. pose proof (parseString_progress (skipWs s)) as Hs.
  destruct (parseString (skipWs s)) as [[key s1]|e]; [|done]. simpl in Hs |- *.
  case_goal; [done|]. pose proof (skipWs_length s1).
  pose proof (expectChar_progress (skipWs s1) 58) as He.
  destruct (expectChar (skipWs s1) 58) as [s2|e]; [|done]. simpl in He |- *.
  pose proof (Hpv s2 ltac:(lia)) as Hv. destruct (pv s2) as [[v s3]|e]; [|done].
  simpl in Hv |- *. destruct (assign proto props key v) as [proto' props'].
  pose proof (skipWs_length s3). destruct (skipWs s3) as [|c s4]; [done|].
  repeat (case_goal; try (simpl in *; (done || lia))).
  eapply progress_weaken; [apply IH|len]; [|len]. intros s' Hs'. apply Hpv. len.
Qed.

Lemma parseArray_progress f s :
  (forall s', (List.length s' < List.length s)%nat -> progress s' (pv s')) ->
  (List.length s <= f)%nat -> progress s (parseArray pv f s).
Proof.
  intros Hpv Hf. unfold parseArray. pose proof (expectChar_progress s 91) as He.
  destruct (expectChar s 91) as [s1|e]; [|done]. simpl in He |- *.
  pose proof (skipWs_length s1). 
  assert (Hl : progress s (array_loop pv f [] (skipWs s1))).
  { eapply progress_weaken; [apply array_loop_progress|]; [|lia..].
    intros s' Hs'. apply Hpv. lia. }
  case_goal; [|done]. bool_prop.
  match goal with H : peekChar _ = _ |- _ => apply peek_tail in H end. len.
Qed.

Lemma parseObject_progress f s :
  (forall s', (List.length s' < List.length s)%nat -> progress s' (pv s')) ->
  (List.length s <= f)%nat -> progress s (parseObject pv f s).
Proof.
  intros Hpv Hf. unfold parseObject. pose proof (expectChar_progress s 123) as He.
  destruct (expectChar s 123) as [s1|e]; [|done]. simpl in He |- *.
  pose proof (skipWs_length s1).
  assert (Hl : progress s (object_loop pv f JObjProto [] (skipWs s1))).
  { eapply progress_weaken; [apply object_loop_progress|]; [|lia..].
    intros s' Hs'. apply Hpv. lia. }
  case_goal; [|done]. bool_prop.
  match goal with H : peekChar _ = _ |- _ => apply peek_tail in H end. len.
Qed.
End Loops.

(** With more fuel than text, the parser returns or raises one of its own
    errors, and a value it returns took some text. *)
Lemma parseValue_progress n s : (List.length s < n)%nat -> progress s (parseValue n s).
Proof.
  revert s. induction n as [|f IH]; intros s Hs; [lia|]. cbn [parseValue].
  pose proof (skipWs_length s) as Hw. destruct (skipWs s) as [|c r]; [done|].
  apply (progress_weaken (c :: r)); [|done].
  assert (Hlen : (List.length (c :: r) <= f)%nat) by lia.
  assert (Hpv : forall s', (List.length s' < List.length (c :: r))%nat ->
            progress s' (parseValue f s')) by (intros; apply IH; lia).
  repeat case_goal; try done;
    auto using parseObject_progress, parseArray_progress, parseNumber_progress;
    try (by apply parseLiteral_progress).
  pose proof (parseString_progress (c :: r)). by destruct (parseString _) as [[v r']|e].
Qed.

Lemma strictParse_no_diverge text : strictParse text <> Throw Diverged.
Proof.
  unfold strictParse.
  pose proof (parseValue_progress (S (List.length text)) (skipWs text)) as H.
  pose proof (skipWs_length text). specialize (H ltac:(lia)).
  destruct (parseValue _ _) as [[v s]|e]; simpl in *; [by destruct (skipWs s)|congruence].
Qed.

(** ** Reading back what the serializer writes *)

Lemma span_digits_app ds rest :
  forallb isDigit ds = true -> digit_next rest = false -> span_digits (ds ++ rest) = (ds, rest).
Proof.
  induction ds as [|d ds IH]; simpl.
  - intros _. destruct rest as [|c rest]; [done|]. cbn. by intros ->.
  - intros [-> Hd]%andb_prop Hr. by rewrite IH.
Qed.

Lemma num_stop_digit rest : num_stop rest = true -> digit_next rest = false.
Proof. destruct rest as [|c r]; [done|]. cbn [num_stop digit_next]. intros. by bool_prop. Qed.

Lemma parse_tail_stop rest :
  num_stop rest = true ->
  parse_fraction rest = Ok ([], rest) /\ parse_exponent rest = Ok (0, rest).
Proof.
  destruct rest as [|c r]; [done|]. cbn [num_stop parse_fraction parse_exponent].
  intros. bool_prop. by rewrite !(proj2 (Z.eqb_neq _ _)).
Qed.

Lemma isFinite_norm m e : isFinite (norm m e) = true.
Proof. destruct m as [|p|p]; simpl; [done|..]; by destruct (odd_part p e). Qed.

Lemma parse_integer_digits n rest fuel :
  1 <= n < 10 ^ Z.of_nat fuel -> digit_next rest = false ->
  parse_integer (dec_digits fuel n ++ rest) = Ok (dec_digits fuel n, rest).
Proof.
  intros Hn Hr. destruct (dec_digits_head fuel n Hn) as (d & ds & Heq & Hd).
  destruct (dec_digits_spec fuel n) as [_ Hds]; [lia|].
  rewrite <- (span_digits_app _ rest Hds Hr). rewrite Heq in *. cbn [app parse_integer].
  rewrite (proj2 (Z.eqb_neq d 48)) by lia. cbn [forallb] in Hds. by apply andb_prop in Hds as [-> _].
Qed.

Lemma parseNumber_dec z rest :
  Z.abs z <= 2 ^ 53 -> num_stop rest = true ->
  parseNumber (dec z ++ rest) = Ok (JNum (norm z 0), rest).
Proof.
  intros Hz Hr. destruct (parse_tail_stop rest Hr) as [Hf He].
  destruct (decide (z = 0)) as [->|Hnz].
  { cbn [dec app]. unfold parseNumber. simpl. rewrite Hf. simpl. rewrite He. done. }
  pose proof (dec_fuel (Z.abs z) (Z.abs_nonneg z)) as Hfuel.
  pose proof (parse_integer_digits (Z.abs z) rest _ ltac:(split; [lia|exact Hfuel])
                (num_stop_digit _ Hr)) as Hi.
  pose proof (literal_value_dec z Hz Hnz) as Hv.
  destruct (dec_digits_head _ (Z.abs z) ltac:(split; [lia|exact Hfuel])) as (d & ds & Hd & Hrange).
  unfold dec, parseNumber. set (digits := dec_digits _ (Z.abs z)) in *.
  destruct (z <? 0) in Hv |- *.
  - cbn [app]. change (45 =? 45) with true. cbv iota. rewrite Hi. cbn [rbind]. rewrite Hf. cbn [rbind].
    rewrite He. cbn [rbind]. cbv zeta. by rewrite Hv, isFinite_norm.
  - assert (match digits ++ rest with
            | c :: s' => if c =? 45 then (true, s') else (false, digits ++ rest)
            | [] => (false, digits ++ rest)
            end = (false, digits ++ rest)) as ->.
    { rewrite Hd. cbn [app]. by rewrite (proj2 (Z.eqb_neq d 45)) by lia. }
    rewrite Hi. cbn [rbind]. rewrite Hf. cbn [rbind]. rewrite He. cbn [rbind].
    cbv zeta. by rewrite Hv, isFinite_norm.
Qed.

(** The hexadecimal digits of a control character. *)
Lemma control_hex c :
  0 <= c < 32 ->
  let h3 := hex_digit (js_and (js_shr c 4) 0xf) in
  let h4 := hex_digit (js_and c 0xf) in
  is_hex h3 = true /\ is_hex h4 = true
  /\ hex_val 48 * 4096 + hex_val 48 * 256 + hex_val h3 * 16 + hex_val h4 = c.
Proof.
  intros Hc. assert (Hall : forallb (fun n => let c := Z.of_nat n in
    let h3 := hex_digit (js_and (js_shr c 4) 0xf) in
    let h4 := hex_digit (js_and c 0xf) in
    is_hex h3 && is_hex h4
    && (hex_val 48 * 4096 + hex_val 48 * 256 + hex_val h3 * 16 + hex_val h4 =? c)) (seq 0 32) = true)
    by reflexivity.
  rewrite forallb_Forall, Forall_forall in Hall. specialize (Hall (Z.to_nat c)).
  rewrite Z2Nat.id in Hall by lia. cbv zeta in *.
  assert (Z.to_nat c ∈ seq 0 32) as Hin by (apply elem_of_seq; lia).
  specialize (Hall Hin). by bool_prop.
Qed.

(** One character that is not part of a surrogate pair, read by the slow
    path. *)
Lemma string_slow_char c s rest :
  0 <= c -> is_high c = false ->
  string_slow (write_chars (c :: s) ++ rest) = push [c] (string_slow (write_chars s ++ rest)).
Proof.
  intros Hc Hh. cbn [write_chars]. unfold is_high in Hh. rewrite Hh.
  repeat (case_goal; [bool_prop; subst; reflexivity|]).
  case_goal.
  - bool_prop. destruct (control_hex c ltac:(lia)) as (H3 & H4 & Hv). cbv zeta in *.
    set (h3 := hex_digit (js_and (js_shr c 4) 15)) in *. set (h4 := hex_digit (js_and c 15)) in *.
    change (js "\u00") with [92; 117; 48; 48]. cbn [app string_slow].
    change (92 =? 34) with false. change (92 =? 92) with true. cbv iota.
    repeat change (117 =? _) with false. cbn -[hex_val Z.mul Z.add string_slow push write_chars is_hex].
    change (is_hex 48) with true. rewrite H3, H4. cbn [andb negb]. by rewrite Hv.
  - cbn [app string_slow]. bool_prop.
    rewrite !(proj2 (Z.eqb_neq c _)), (proj2 (Z.ltb_ge c 32)) by lia. rewrite Hh. cbn [andb].
    by destruct (write_chars s ++ rest).
Qed.

Lemma string_slow_pair c d s :
  is_high c = true -> is_low d = true ->
  string_slow (c :: d :: s) = push [c; d] (string_slow s).
Proof.
  intros Hc Hd. cbn [string_slow]. unfold is_high, is_low in Hc, Hd. rewrite Hc, Hd. bool_prop.
  by rewrite !(proj2 (Z.eqb_neq c _)), (proj2 (Z.ltb_ge c 32)) by lia.
Qed.

Lemma write_chars_pair c d s :
  is_high c = true -> write_chars (c :: d :: s) = c :: d :: write_chars s.
Proof. intros Hc. cbn [write_chars]. unfold is_high in Hc. by rewrite Hc. Qed.

Lemma string_slow_text s rest :
  Forall is_unit s -> well_formed16 s = true ->
  string_slow (write_chars s ++ 34 :: rest) = Ok (s, rest).
Proof.
  induction s as [|c s Hc IH|c Hc|c d s Hc IH1 IH2] using utf16_ind; [done|..].
  - intros [Hu Hs]%Forall_cons. cbn [well_formed16]. rewrite Hc.
    destruct (is_low c); [done|]. intros Hw. unfold is_unit in Hu.
    rewrite string_slow_char by (lia || done). by rewrite IH.
  - simpl. by rewrite Hc.
  - intros [Hu1 [Hu2 Hs]%Forall_cons]%Forall_cons. cbn [well_formed16]. rewrite Hc.
    intros [Hd Hw]%andb_prop. rewrite write_chars_pair by done. cbn [app].
    rewrite string_slow_pair by done. by rewrite IH1.
Qed.

Lemma string_fast_char c s :
  c <> 34 -> c <> 92 -> 32 <= c -> string_fast (c :: s) = push [c] (string_fast s).
Proof.
  intros. cbn [string_fast].
  by rewrite !(proj2 (Z.eqb_neq c _)), (proj2 (Z.ltb_ge c 32)) by lia.
Qed.

Lemma string_fast_text s rest :
  Forall is_unit s -> well_formed16 s = true ->
  string_fast (write_chars s ++ 34 :: rest) = Ok (s, rest).
Proof.
  induction s as [|c s Hc IH|c Hc|c d s Hc IH1 IH2] using utf16_ind; [done|..].
  - intros Hu Hw. pose proof (string_slow_text (c :: s) rest Hu Hw) as Hslow.
    apply Forall_cons in Hu as [Hu Hs]. cbn [well_formed16] in Hw. rewrite Hc in Hw.
    destruct (is_low c); [done|]. unfold is_unit in Hu. revert Hslow.
    cbn [write_chars]. unfold is_high in Hc. rewrite Hc.
    repeat (case_goal; [by intros <-|]). intros _. bool_prop. cbn [app].
    rewrite string_fast_char by lia. by rewrite IH.
  - simpl. by rewrite Hc.
  - intros [Hu1 [Hu2 Hs]%Forall_cons]%Forall_cons. cbn [well_formed16]. rewrite Hc.
    intros [Hd Hw]%andb_prop. rewrite write_chars_pair by done. cbn [app].
    surrogates. rewrite !string_fast_char by lia. by rewrite IH1.
Qed.

Lemma parseString_text s t rest :
  Forall is_unit s -> writeString s = Ok t -> parseString (t ++ rest) = Ok (s, rest).
Proof.
  intros Hu. rewrite writeString_spec. destruct (well_formed16 s) eqn:Hw; [|done].
  intros [= <-]. cbn [app]. rewrite <- app_assoc. cbn [app]. unfold parseString. simpl.
  by apply string_fast_text.
Qed.

(** ** Whole values *)

(** The first character of a value's text. *)
Definition value_head (c : Z) : bool :=
  negb (is_ws c) && negb (c =? 93) && negb (c =? 125).

Lemma dec_head z : exists c r, dec z = c :: r /\ (c = 45 \/ 48 <= c <= 57).
Proof.
  unfold dec. destruct (z <? 0) eqn:E; [eauto|]. bool_prop.
  destruct (decide (z = 0)) as [->|]; [by exists 48, []; split; [|lia]|].
  destruct (dec_digits_head _ (Z.abs z) ltac:(split; [lia|apply dec_fuel; lia]))
    as (d & ds & -> & Hd). exists d, ds. split; [done|lia].
Qed.

Lemma dec_value_head z : exists c r, dec z = c :: r /\ value_head c = true.
Proof.
  destruct (dec_head z) as (c & r & -> & Hc). exists c, r. split; [done|].
  unfold value_head, is_ws. by rewrite !(proj2 (Z.eqb_neq c _)) by lia.
Qed.

Lemma text_head v t : writeValue v = Ok t -> exists c r, t = c :: r /\ value_head c = true.
Proof.
  destruct v as [| |b|n|s|z|l|proto props| | |]; cbn [writeValue]; intros H; try done.
  - injection H as <-. by eexists _, _.
  - injection H as <-. destruct b; by eexists _, _.
  - unfold writeNumber in H. repeat (case_hyp H; try done). simplify_eq. apply dec_value_head.
  - rewrite writeString_spec in H. case_hyp H; [|done]. injection H as <-. by eexists _, _.
  - unfold writeBigint in H. case_hyp H; [done|]. simplify_eq. apply dec_value_head.
  - unfold writeArray in H. apply rbind_ok_inv in H as (b & _ & [= <-]). by eexists _, _.
  - case_hyp H; [|done]. apply rbind_ok_inv in H as (b & _ & [= <-]). by eexists _, _.
  - injection H as <-. by eexists _, _.
Qed.

Lemma skipWs_head c s : is_ws c = false -> skipWs (c :: s) = c :: s.
Proof. simpl. by intros ->. Qed.

(** The texts of two adjacent elements or members are separated by a comma. *)
Lemma write_elems_next ws t :
  ws <> [] -> write_elems ws false = Ok t -> exists t', t = 44 :: t' /\ write_elems ws true = Ok t'.
Proof.
  destruct ws as [|w ws]; [done|]. intros _ H. cbn [write_elems] in *.
  apply rbind_ok_inv in H as (s & -> & H). apply rbind_ok_inv in H as (r & Hr & [= <-]).
  cbn [rbind]. rewrite Hr. simpl. eauto.
Qed.

Lemma write_members_next ms seen t :
  ms <> [] -> write_members ms false seen = Ok t ->
  exists t', t = 44 :: t' /\ write_members ms true seen = Ok t'.
Proof.
  destruct ms as [|[k w] ms]; [done|]. intros _ H. cbn [write_members] in *.
  case_hyp H; [done|]. apply rbind_ok_inv in H as (ks & Hk & H). rewrite Hk.
  apply rbind_ok_inv in H as (s & -> & H). apply rbind_ok_inv in H as (r & Hr & [= <-]).
  cbn [rbind]. rewrite Hr. simpl. eauto.
Qed.

Section ReadBack.
Context (pv : jsstr -> res (jsval * jsstr)) (N : nat).

(** [pv] reads back the text of [v], given enough fuel. *)
Definition reads (v : jsval) : Prop := forall t rest,
  writeValue v = Ok t -> num_stop rest = true ->
  (List.length (t ++ rest) < N)%nat -> pv (t ++ rest) = Ok (canon v, rest).

Lemma array_loop_text l out f body rest :
  l <> [] -> Forall reads l -> write_elems (map writeValue l) true = Ok body ->
  (List.length (body ++ 93%Z :: rest) < f)%nat -> (f <= N)%nat ->
  array_loop pv f out (body ++ 93 :: rest) = Ok (JArr (out ++ map canon l), rest).
Proof.
  revert out f body. induction l as [|v l IH]; intros out f body; [done|].
  intros _ [Hv Hl]%Forall_cons Hb Hf HN. destruct f as [|f]; [lia|].
  cbn [map write_elems] in Hb. apply rbind_ok_inv in Hb as (t & Ht & Hb).
  apply rbind_ok_inv in Hb as (b & Hr & [= <-]).
  rewrite length_app in Hf. simpl app in Hf |- *. cbn [array_loop].
  rewrite <- app_assoc. rewrite length_app in Hf.
  destruct l as [|v' l'].
  - cbn [map write_elems] in *. simplify_eq. cbn [app].
    rewrite Hv; [|done|done|rewrite length_app; len]. cbn [rbind skipWs]. done.
  - apply write_elems_next in Hr as (t' & -> & Hw); [|done].
    rewrite Hv; [|done|done|cbn [app]; rewrite length_app; simpl; rewrite length_app; len].
    cbn [app rbind skipWs]. change (is_ws 44) with false. cbv iota. change (44 =? 44) with true.
    cbv iota. rewrite (IH (out ++ [canon v]) f t'); [|done|done|done| |lia].
    + by rewrite <- app_assoc.
    + rewrite length_app. simpl in *. lia.
Qed.

Lemma assign_new props k v :
  str_eqb k proto_key = false -> map_get props k = None ->
  assign JObjProto props k v = (JObjProto, props ++ [(k, v)]).
Proof. intros Hk Hg. unfold assign. rewrite Hk. simpl. by rewrite map_set_new. Qed.

(** Where the loop stands once it has read one more value. *)
Definition object_next (f : nat) (props : list (jsstr * jsval)) (rest : jsstr)
  : res (jsval * jsstr) :=
  match skipWs rest with
  | next :: s' =>
      if next =? 44 then object_loop pv f JObjProto props s'
      else if next =? 125 then Ok (JObj JObjProto props, s')
      else Throw malformed
  | [] => Throw malformed
  end.

Lemma object_loop_member k v props f ks vs rest :
  reads v -> Forall is_unit k -> str_eqb k proto_key = false -> map_get props k = None ->
  writeString k = Ok ks -> writeValue v = Ok vs -> num_stop rest = true ->
  (List.length (vs ++ rest) < N)%nat ->
  object_loop pv (S f) JObjProto props (ks ++ [58] ++ vs ++ rest)
  = object_next f (props ++ [(k, canon v)]) rest.
Proof.
  intros Hv Hu Hk Hg Hws Hwv Hr Hl.
  assert (Hkh : exists r, ks = 34 :: r).
  { rewrite writeString_spec in Hws. destruct (well_formed16 k); [|done]. injection Hws as <-. eauto. }
  assert (Hskip : forall l, skipWs (ks ++ l) = ks ++ l) by (by destruct Hkh as [r ->]).
  assert (Hpeek : forall l, bool_decide (peekChar (ks ++ l) = Some 34) = true).
  { destruct Hkh as [r ->]. intros l. by apply bool_decide_eq_true. }
  cbn [object_loop]. cbv zeta. rewrite Hskip, Hpeek. cbn [negb].
  rewrite (parseString_text k ks) by done. cbn [rbind]. unfold map_has.
  rewrite Hg. cbn [app skipWs]. change (is_ws 58) with false. cbv iota.
  cbn [expectChar]. change (58 =? 58) with true. cbv iota. cbn [rbind].
  rewrite Hv by done. cbn [rbind]. by rewrite assign_new.
Qed.

(** The loop reads a list of members and stands after them. *)
Lemma object_loop_text ms props seen f body rest :
  ms <> [] -> Forall (fun kv => reads kv.2 /\ Forall is_unit kv.1) ms ->
  forallb (fun kv : jsstr * jsval => negb (str_eqb kv.1 proto_key)) ms = true ->
  NoDup ms.*1 -> (forall k, k ∈ ms.*1 -> map_get props k = None) ->
  write_members (map (on_value writeValue) ms) true seen = Ok body ->
  num_stop rest = true -> (List.length (body ++ rest) < f)%nat -> (f <= N)%nat ->
  exists f', (List.length rest < f')%nat /\
  object_loop pv f JObjProto props (body ++ rest)
  = object_next f' (props ++ map (on_value canon) ms) rest.
Proof.
  revert props seen f body. induction ms as [|[k v] ms IH]; intros props seen f body; [done|].
  intros _ [[Hv Hu] Hms]%Forall_cons [Hk Hks]%andb_prop [Hn Hd]%NoDup_cons Hg Hb Hr Hf HN.
  destruct f as [|f]; [lia|]. cbn [map on_value fst snd write_members] in *.
  case_hyp Hb; [done|]. apply rbind_ok_inv in Hb as (ks & Hws & Hb).
  apply rbind_ok_inv in Hb as (vs & Hwv & Hb). apply rbind_ok_inv in Hb as (b & Hb' & [= <-]).
  bool_prop. cbn [app] in *. rewrite <- app_assoc. cbn [app]. rewrite <- app_assoc.
  rewrite !length_app in Hf. simpl in Hf. rewrite !length_app in Hf.
  assert (Hgk : map_get props k = None) by (apply Hg; csimpl; left).
  destruct ms as [|m' ms'].
  - cbn [map write_members] in *. simplify_eq. cbn [app]. exists f. split; [len|].
    apply (object_loop_member k v props f ks vs); try done.
    rewrite length_app. len.
  - apply write_members_next in Hb' as (t' & -> & Hw); [|done].
    edestruct (IH (props ++ [(k, canon v)]) (k :: seen) f t') as (f' & Hf' & IH');
      try done; [|..|].
    + intros k' Hk'. apply map_get_None. rewrite fmap_app, not_elem_of_app. split.
      * apply map_get_None, Hg. csimpl. by right.
      * csimpl. rewrite list_elem_of_singleton. by intros ->.
    + rewrite length_app. simpl in *. lia.
    + lia.
    + exists f'. split; [done|]. rewrite <- app_assoc in IH'. cbn [app] in IH' |- *.
      change (on_value canon (k, v)) with (k, canon v). rewrite <- IH'.
      apply (object_loop_member k v props f ks vs (44 :: t' ++ rest)); try done.
      rewrite length_app. simpl. rewrite length_app. len.
Qed.
End ReadBack.

Lemma canonicalizable_number n :
  canonicalizable (JNum n) = true -> num_wf n = true ->
  exists z, n = norm z 0 /\ Z.abs z <= 2 ^ 53 /\ writeNumber n = Ok (dec z).
Proof.
  cbn [canonicalizable]. intros Hc Hw. destruct (num_to_Z n) as [z|] eqn:Hz; [|done].
  unfold safe_int in Hc. bool_prop. exists z. split_and!.
  - by apply num_to_Z_norm.
  - unfold MIN_SAFE, MAX_SAFE in *. lia.
  - unfold writeNumber. rewrite Hz, bool_decide_false by done.
    rewrite (proj2 (Z.ltb_ge MAX_SAFE z)), (proj2 (Z.ltb_ge z MIN_SAFE)) by lia.
    destruct n; simpl in Hz |- *; done.
Qed.

Lemma write_elems_head l body rest :
  l <> [] -> write_elems (map writeValue l) true = Ok body ->
  skipWs (body ++ rest) = body ++ rest /\ peekChar (body ++ rest) <> Some 93.
Proof.
  destruct l as [|v l]; [done|]. intros _. cbn [map write_elems]. intros H.
  apply rbind_ok_inv in H as (t & Ht & H). apply rbind_ok_inv in H as (r & _ & [= <-]).
  destruct (text_head v t Ht) as (c & s & -> & Hc). unfold value_head in Hc. bool_prop. cbn [app].
  rewrite skipWs_head by done. split; [done|]. simpl. congruence.
Qed.

Lemma write_members_head ms seen body rest :
  ms <> [] -> write_members ms true seen = Ok body ->
  skipWs (body ++ rest) = body ++ rest /\ peekChar (body ++ rest) <> Some 125.
Proof.
  destruct ms as [|[k w] ms]; [done|]. intros _. cbn [write_members]. intros H. case_hyp H; [done|].
  apply rbind_ok_inv in H as (ks & Hk & H). apply rbind_ok_inv in H as (t & _ & H).
  apply rbind_ok_inv in H as (r & _ & [= <-]). rewrite writeString_spec in Hk.
  case_hyp Hk; [|done]. by injection Hk as <-.
Qed.

(** A number's text, read where [parseValue] dispatches on its head. *)
Lemma parseValue_dec f z rest :
  Z.abs z <= 2 ^ 53 -> num_stop rest = true ->
  parseValue (S f) (dec z ++ rest) = Ok (JNum (norm z 0), rest).
Proof.
  intros Hz Hr. pose proof (parseNumber_dec z rest Hz Hr) as Hp.
  destruct (dec_head z) as (c & r & Hd & Hc). rewrite Hd in *. cbn [app parseValue] in *.
  rewrite skipWs_head by (unfold is_ws; by rewrite !(proj2 (Z.eqb_neq c _)) by lia).
  rewrite !(proj2 (Z.eqb_neq c _)) by lia. rewrite Hp.
  destruct Hc as [->|Hc]; [done|].
  by rewrite (proj2 (Z.leb_le 48 c)), (proj2 (Z.leb_le c 57)), orb_true_r by lia.
Qed.

Lemma parseArray_text pv f l body rest :
  Forall (reads pv f) l -> write_elems (map writeValue l) true = Ok body ->
  (List.length (body ++ 93%Z :: rest) < f)%nat ->
  parseArray pv f (91 :: body ++ 93 :: rest) = Ok (JArr (map canon l), rest).
Proof.
  intros Hl Hb Hf. unfold parseArray. cbn [expectChar]. change (91 =? 91) with true. cbn [rbind].
  destruct (decide (l = [])) as [->|Hne]; [cbn in Hb; by simplify_eq|].
  destruct (write_elems_head l body (93 :: rest) Hne Hb) as [-> Hp].
  rewrite bool_decide_false by done. by rewrite (array_loop_text pv f l []).
Qed.

Lemma parseObject_text pv f ms body rest :
  Forall (fun kv => reads pv f kv.2 /\ Forall is_unit kv.1) ms ->
  forallb (fun kv : jsstr * jsval => negb (str_eqb kv.1 proto_key)) ms = true ->
  NoDup ms.*1 -> write_members (map (on_value writeValue) ms) true [] = Ok body ->
  (List.length (body ++ 125%Z :: rest) < f)%nat ->
  parseObject pv f (123 :: body ++ 125 :: rest) = Ok (plain (map (on_value canon) ms), rest).
Proof.
  intros Hms Hk Hd Hb Hf. unfold parseObject. cbn [expectChar]. change (123 =? 123) with true.
  cbn [rbind]. destruct (decide (ms = [])) as [->|Hne]; [cbn in Hb; by simplify_eq|].
  destruct (write_members_head _ [] body (125 :: rest) (fun H => Hne (map_eq_nil _ _ H)) Hb) as [-> Hp].
  rewrite bool_decide_false by done.
  edestruct (object_loop_text pv f ms [] [] f body (125 :: rest)) as (f' & _ & ->); done.
Qed.

Lemma parse_text v :
  val_wf v -> canonicalizable v = true -> no_proto_key v = true ->
  forall n, reads (parseValue n) n v.
Proof.
  induction v as [| | |n|s|z|l IH|proto props _ IH| | |] using jsval_ind';
    intros Hwf Hc Hp N t rest Ht Hr HN; try done; (destruct N as [|f]; [lia|]).
  - by injection Ht as <-.
  - injection Ht as <-. by destruct b.
  - destruct (canonicalizable_number n Hc Hwf) as (z & -> & Hz & Hw). cbn in Ht.
    rewrite Ht in Hw. injection Hw as ->. by apply parseValue_dec.
  - cbn [canonicalizable writeValue val_wf] in *. pose proof (parseString_text s t rest Hwf Ht) as Hs.
    rewrite writeString_spec, Hc in Ht. injection Ht as <-. cbn [app parseValue] in *.
    rewrite skipWs_head by done. cbv zeta. rewrite Hs. done.
  - cbn [canonicalizable canon writeValue] in *. unfold writeBigint in Ht. case_hyp Ht; [done|].
    injection Ht as <-. unfold safe_int, MIN_SAFE, MAX_SAFE in *. bool_prop.
    rewrite num_of_Z_exact by lia. apply parseValue_dec; [lia|done].
  - apply val_wf_arr in Hwf. cbn [canonicalizable canon writeValue no_proto_key] in *.
    unfold writeArray in Ht. apply rbind_ok_inv in Ht as (body & Hb & [= <-]).
    cbn [app parseValue] in *. rewrite <- app_assoc in *. cbn [app] in *.
    rewrite skipWs_head by done. cbv zeta. change (91 =? 123) with false. change (91 =? 91) with true.
    cbv iota. apply parseArray_text; [|done|len].
    rewrite forallb_Forall in Hc, Hp. rewrite !Forall_forall in *. auto.
  - apply val_wf_obj in Hwf as (_ & Hd & Hwf). cbn [canonicalizable canon writeValue no_proto_key] in *.
    apply andb_prop in Hc as [Hpl Hc]. rewrite Hpl in Ht. unfold writeObject in Ht.
    fold (on_value writeValue) in Ht. fold (on_value canon). rewrite sort_on_value in Ht by done.
    rewrite sort_on_value by done.
    apply rbind_ok_inv in Ht as (body & Hb & [= <-]).
    cbn [app parseValue] in *. rewrite <- app_assoc in *. cbn [app] in *.
    rewrite skipWs_head by done. cbv zeta. change (123 =? 123) with true. cbv iota.
    rewrite forallb_Forall in Hc, Hp. rewrite !Forall_forall in *.
    apply parseObject_text; [| |by apply sort_keys_nodup|done|len].
    + rewrite merge_sort_Permutation, Forall_forall. intros kv Hkv. destruct (Hwf kv Hkv).
      specialize (Hc kv Hkv). specialize (Hp kv Hkv). simpl in *. bool_prop. split; [|done].
      by apply IH.
    + rewrite forallb_Forall, merge_sort_Permutation, Forall_forall. intros kv Hkv.
      specialize (Hp kv Hkv). simpl in *. by apply andb_prop in Hp as [? _].
  - injection Ht as <-. done.
Qed.

(** A canonical text parses back to the value it was written from. *)
Lemma strictParse_text v t :
  val_wf v -> no_proto_key v = true -> canonical_text v = Ok t -> strictParse t = Ok (canon v).
Proof.
  intros Hwf Hp Ht. unfold canonical_text in Ht. case_hyp Ht; [|done].
  assert (Hc : canonicalizable v = true) by (apply writeValue_ok; eauto).
  destruct (text_head v t Ht) as (c & r & -> & Hh). unfold value_head in Hh. bool_prop.
  unfold strictParse. rewrite skipWs_head by done.
  assert (List.length ((c :: r) ++ []) < S (List.length (c :: r)))%nat as Hl
    by (rewrite app_nil_r; lia).
  pose proof (parse_text v Hwf Hc Hp _ (c :: r) [] Ht ltac:(done) Hl) as Hparse.
  rewrite app_nil_r in Hparse. by rewrite Hparse.
Qed.

(** ** Canonical bytes *)

Lemma well_formed16_app a b :
  well_formed16 a = true -> well_formed16 b = true -> well_formed16 (a ++ b) = true.
Proof.
  induction a as [|c s Hc IH|c Hc|c d s Hc IH1 IH2] using utf16_ind; cbn [well_formed16 app];
    try rewrite Hc; try done.
  - by destruct (is_low c).
  - intros [-> Hs]%andb_prop Hb. by rewrite IH1.
Qed.

(** Text of code units without unpaired surrogates: what UTF-8 can carry. *)
Definition text_ok (s : jsstr) : Prop := Forall is_unit s /\ well_formed16 s = true.

Lemma text_ok_app a b : text_ok a -> text_ok b -> text_ok (a ++ b).
Proof. intros [? ?] [? ?]. split; [by apply Forall_app|by apply well_formed16_app]. Qed.

Lemma text_ok_ascii s : forallb is_ascii s = true -> text_ok s.
Proof.
  induction s as [|c s IH]; [done|]. cbn [forallb]. intros [Hc Hs]%andb_prop.
  destruct (IH Hs) as [Hu Hw]. unfold is_ascii in Hc. bool_prop. split.
  - apply Forall_cons. split; [unfold is_unit; lia|done].
  - cbn [well_formed16]. unfold is_high, is_low.
    by rewrite (proj2 (Z.leb_gt 0xd800 c)), (proj2 (Z.leb_gt 0xdc00 c)) by lia.
Qed.

Lemma dec_ascii z : text_ok (dec z).
Proof.
  apply text_ok_ascii. unfold dec.
  destruct (dec_digits_spec _ (Z.abs z) (conj (Z.abs_nonneg z) (dec_fuel _ (Z.abs_nonneg z)))) as [_ Hd].
  assert (Ha : forallb is_ascii (dec_digits (S (Z.to_nat (Z.log2 (Z.abs z)))) (Z.abs z)) = true).
  { rewrite forallb_Forall in *. eapply Forall_impl; [exact Hd|]. intros c Hc.
    unfold isDigit, is_ascii in *. bool_prop.
    by rewrite (proj2 (Z.leb_le 0 c)), (proj2 (Z.ltb_lt c 128)) by lia. }
  destruct (z <? 0); [|done]. cbn [forallb]. by rewrite Ha.
Qed.

Lemma hex_digit_ascii n : is_ascii (hex_digit n) = true.
Proof.
  unfold hex_digit. generalize (Z.to_nat n). intros k.
  destruct (Nat.lt_ge_cases k 16).
  - do 16 (destruct k as [|k]; [done|]). lia.
  - rewrite nth_overflow; [done|]. change (List.length HEX) with 16%nat. done.
Qed.

Lemma write_chars_ok s : text_ok s -> text_ok (write_chars s).
Proof.
  unfold text_ok at 1.
  induction s as [|c s Hc IH|c Hc|c d s Hc IH1 IH2] using utf16_ind; [done|..].
  - intros [[Hu Hs]%Forall_cons Hw]. cbn [write_chars]. cbn [well_formed16] in Hw.
    rewrite Hc in Hw. destruct (is_low c) eqn:Hl; [done|].
    pose proof (conj Hc Hl) as Hcl. unfold is_high in Hc. rewrite Hc.
    specialize (IH (conj Hs Hw)).
    repeat (case_goal; [apply text_ok_app; [by apply text_ok_ascii|done]|]).
    case_goal.
    + apply text_ok_app; [by apply text_ok_ascii|].
      apply text_ok_app; [|done]. apply text_ok_ascii. cbn [forallb]. by rewrite !hex_digit_ascii.
    + apply (text_ok_app [c]); [|done]. split; [by apply Forall_singleton|].
      cbn [well_formed16]. destruct Hcl as [-> ->]. done.
  - intros [_ Hw]. cbn in Hw. by rewrite Hc in Hw.
  - intros [[Hu1 [Hu2 Hs]%Forall_cons]%Forall_cons Hw]. cbn [well_formed16] in Hw.
    rewrite Hc in Hw. apply andb_prop in Hw as [Hd Hw]. rewrite write_chars_pair by done.
    apply (text_ok_app [c; d]); [|by apply IH1]. split; [by repeat apply Forall_cons_2|].
    cbn [well_formed16]. by rewrite Hc, Hd.
Qed.

Lemma writeString_ok s t : Forall is_unit s -> writeString s = Ok t -> text_ok t.
Proof.
  intros Hu. rewrite writeString_spec. destruct (well_formed16 s) eqn:Hw; [|done]. intros [= <-].
  apply (text_ok_app [34]); [by apply text_ok_ascii|].
  apply text_ok_app; [by apply write_chars_ok|by apply text_ok_ascii].
Qed.

Lemma write_elems_text_ok ws first t :
  Forall (fun w => forall s, w = Ok s -> text_ok s) ws -> write_elems ws first = Ok t -> text_ok t.
Proof.
  intros H. revert first t. induction H as [|w ws Hw _ IH]; intros first t; cbn [write_elems].
  - by intros [= <-].
  - intros Ht. apply rbind_ok_inv in Ht as (s & -> & Ht). apply rbind_ok_inv in Ht as (r & Hr & [= <-]).
    apply text_ok_app; [by destruct first; apply text_ok_ascii|]. apply text_ok_app; eauto.
Qed.

Lemma write_members_text_ok ms first seen t :
  Forall (fun kw => Forall is_unit kw.1 /\ forall s, kw.2 = Ok s -> text_ok s) ms ->
  write_members ms first seen = Ok t -> text_ok t.
Proof.
  intros H. revert first seen t.
  induction H as [|[k w] ms [Hk Hw] _ IH]; intros first seen t; cbn [write_members].
  - by intros [= <-].
  - intros Ht. case_hyp Ht; [done|]. apply rbind_ok_inv in Ht as (ks & Hks & Ht).
    apply rbind_ok_inv in Ht as (s & Hs & Ht). apply rbind_ok_inv in Ht as (r & Hr & [= <-]).
    apply text_ok_app; [by destruct first; apply text_ok_ascii|].
    apply text_ok_app; [by eapply writeString_ok|].
    apply (text_ok_app [58]); [by apply text_ok_ascii|]. apply text_ok_app; eauto.
Qed.

(** Canonical text always survives UTF-8. *)
Lemma writeValue_text_ok v t : val_wf v -> writeValue v = Ok t -> text_ok t.
Proof.
  revert t. induction v as [| | |n|s|z|l IH|proto props _ IH| | |] using jsval_ind'; intros t Hwf H;
    cbn [writeValue] in H; try done.
  - injection H as <-. by apply text_ok_ascii.
  - injection H as <-. by destruct b; apply text_ok_ascii.
  - unfold writeNumber in H. repeat (case_hyp H; try done). simplify_eq. apply dec_ascii.
  - by eapply writeString_ok.
  - unfold writeBigint in H. case_hyp H; [done|]. simplify_eq. apply dec_ascii.
  - apply val_wf_arr in Hwf. unfold writeArray in H. apply rbind_ok_inv in H as (b & Hb & [= <-]).
    apply (text_ok_app [91]); [by apply text_ok_ascii|].
    apply text_ok_app; [|by apply text_ok_ascii]. eapply write_elems_text_ok; [|exact Hb].
    rewrite Forall_map. rewrite !Forall_forall in *. eauto.
  - apply val_wf_obj in Hwf as (_ & Hd & Hwf). case_hyp H; [|done]. unfold writeObject in H.
    apply rbind_ok_inv in H as (b & Hb & [= <-]).
    apply (text_ok_app [123]); [by apply text_ok_ascii|].
    apply text_ok_app; [|by apply text_ok_ascii]. eapply write_members_text_ok; [|exact Hb].
    rewrite merge_sort_Permutation, Forall_map. rewrite !Forall_forall in *.
    intros kv Hkv. destruct (Hwf kv Hkv). split; [done|]. simpl. intros s. by apply IH.
  - injection H as <-. by apply text_ok_ascii.
Qed.

(** Decoding the canonical bytes gives the canonical text back. *)
Lemma canonicalize_text v bs :
  val_wf v -> canonicalize v = Ok bs ->
  exists t, canonical_text v = Ok t /\ bs = utf8_encode t /\ text_decode bs = Some t
            /\ Forall is_byte bs.
Proof.
  intros Hwf H. unfold canonicalize in H. apply rbind_ok_inv in H as (t & Ht & [= <-]).
  exists t. split; [done|]. unfold canonical_text in Ht. case_hyp Ht; [|done].
  destruct (writeValue_text_ok v t Hwf Ht) as [Hu Hw]. split_and!; [done| |by apply utf8_encode_bytes].
  apply text_decode_encode; [done..|].
  destruct v as [| | | | | | |proto props| | |]; try done; cbn [writeValue] in Ht.
  - case_hyp Ht; [|done]. by apply rbind_ok_inv in Ht as (b & _ & [= <-]).
  - by injection Ht as <-.
Qed.

Lemma canonicalize_canon v :
  val_wf v -> canonicalizable v = true -> isPlainObject v = true ->
  exists bs, canonicalize v = Ok bs /\ canonicalize (canon v) = Ok bs.
Proof.
  intros Hwf Hc Hp. destruct (proj2 (writeValue_ok v Hwf) Hc) as [t Ht].
  exists (utf8_encode t). unfold canonicalize, canonical_text. rewrite Hp, Ht. split; [done|].
  assert (isPlainObject (canon v) = true) as ->.
  { destruct v as [| | | | | | |proto props| | |]; done. }
  by rewrite writeValue_canon, Ht.
Qed.

(** Which errors the parser raises. *)
Definition strict_error (e : exn) : Prop :=
  e = malformed \/ exists k, e = duplicateKey k.

Section Errors.
(** Every error of [r] is one of the parser's, or the loop ran dry. *)
Definition strict_res {A} (r : res A) : Prop :=
  match r with Ok _ => True | Throw e => strict_error e \/ e = Diverged end.

Lemma strict_malformed {A} : strict_res (A := A) (Throw malformed).
Proof. left. by left. Qed.

Lemma strict_bind {A B} (r : res A) (k : A -> res B) :
  strict_res r -> (forall a, strict_res (k a)) -> strict_res (rbind r k).
Proof. destruct r; simpl; auto. Qed.

Hint Resolve strict_malformed : core.

Lemma strict_push pre r : strict_res r -> strict_res (push pre r).
Proof. intros. by apply strict_bind; [|intros [? ?]]. Qed.

Lemma strict_expect s ch : strict_res (expectChar s ch).
Proof. destruct s; unfold expectChar; [auto|]. case_goal; [done|auto]. Qed.

Lemma strict_slow s : strict_res (string_slow s).
Proof.
  remember (List.length s) as n eqn:Hn. revert s Hn.
  induction n as [n IH] using lt_wf_ind. intros s ->.
  destruct s as [|ch s']; [auto|]. cbn [string_slow].
  repeat (case_goal; subst; try exact I; auto); apply strict_push; eapply IH; try done; simpl; lia.
Qed.

Lemma strict_fast s : strict_res (string_fast s).
Proof.
  induction s as [|c s IH]; cbn [string_fast]; [auto|].
  repeat (case_goal; try exact I; auto using strict_slow, strict_push).
Qed.

Lemma strict_string s : strict_res (parseString s).
Proof. apply strict_bind; [apply strict_expect|intros; apply strict_fast]. Qed.

Lemma strict_number_parts s :
  strict_res (parse_integer s) /\ strict_res (parse_fraction s) /\ strict_res (parse_exponent s).
Proof.
  split_and!; destruct s as [|c s]; unfold parse_integer, parse_fraction, parse_exponent; auto;
    try exact I; repeat (case_goal; subst; try exact I; auto).
Qed.

Lemma strict_number s : strict_res (parseNumber s).
Proof.
  unfold parseNumber.
  match goal with |- strict_res (match ?x with _ => _ end) => destruct x as [neg s0] end.
  apply strict_bind; [apply strict_number_parts|]. intros [ip s1].
  apply strict_bind; [apply strict_number_parts|]. intros [fp s2].
  apply strict_bind; [apply strict_number_parts|]. intros [ex s3].
  cbv zeta. case_goal; [auto|exact I].
Qed.

Lemma strict_literal s e v : strict_res (parseLiteral s e v).
Proof. unfold parseLiteral. case_goal; [done|auto]. Qed.

Lemma strict_array pv f out s :
  (forall s, strict_res (pv s)) -> strict_res (array_loop pv f out s).
Proof.
  intros Hpv. revert out s. induction f as [|f IH]; intros out s; [by right|]. cbn [array_loop].
  apply strict_bind; [done|]. intros [v s']. repeat (case_goal; try exact I; auto).
Qed.

Lemma strict_object pv f proto props s :
  (forall s, strict_res (pv s)) -> strict_res (object_loop pv f proto props s).
Proof.
  intros Hpv. revert proto props s. induction f as [|f IH]; intros proto props s; [by right|].
  cbn [object_loop]. cbv zeta. case_goal; [auto|].
  apply strict_bind; [apply strict_string|]. intros [key s1]. case_goal; [left; right; eauto|].
  apply strict_bind; [apply strict_expect|]. intros s2. apply strict_bind; [done|].
  intros [v s3]. destruct (assign proto props key v). repeat (case_goal; try exact I; auto).
Qed.

Lemma strict_value f s : strict_res (parseValue f s).
Proof.
  revert s. induction f as [|f IH]; intros s; [by right|]. cbn [parseValue].
  repeat (case_goal; auto using strict_number, strict_literal).
  - apply strict_bind; [apply strict_expect|]. intros. cbv beta zeta.
    case_goal; [exact I|by apply strict_object].
  - apply strict_bind; [apply strict_expect|]. intros. cbv beta zeta.
    case_goal; [exact I|by apply strict_array].
  - apply strict_bind; [apply strict_string|]. by intros [? ?].
Qed.
End Errors.

Lemma strictParse_error text e : strictParse text = Throw e -> strict_error e.
Proof.
  intros H. pose proof (strictParse_no_diverge text) as Hd.
  assert (Hs : strict_res (strictParse text)).
  { apply strict_bind; [apply strict_value|]. intros [v s]. case_goal; [exact I|apply strict_malformed]. }
  rewrite H in Hs. destruct Hs as [He| ->]; [done|by destruct Hd].
Qed.

(** A repeated key stops the object loop. *)
Lemma object_loop_dup pv f props k ks tail :
  Forall is_unit k -> writeString k = Ok ks -> map_has props k = true -> (0 < f)%nat ->
  object_loop pv f JObjProto props (ks ++ tail) = Throw (duplicateKey k).
Proof.
  intros Hu Hws Hh Hf. destruct f as [|f]; [lia|].
  assert (Hkh : exists r, ks = 34 :: r).
  { rewrite writeString_spec in Hws. destruct (well_formed16 k); [|done]. injection Hws as <-. eauto. }
  pose proof (parseString_text k ks tail Hu Hws) as Hps.
  destruct Hkh as [r ->]. cbn [app object_loop] in *. cbv zeta. rewrite skipWs_head by done.
  cbn [peekChar head]. rewrite bool_decide_true by done. cbn [negb]. rewrite Hps.
  cbn [rbind]. by rewrite Hh.
Qed.

Lemma parse_duplicate ms body k ks tail f :
  val_wf (plain ms) -> no_proto_key (plain ms) = true ->
  canonical_text (plain ms) = Ok ([123] ++ body ++ [125]) ->
  k ∈ ms.*1 -> writeString k = Ok ks ->
  (List.length ([123%Z] ++ body ++ [44%Z] ++ ks ++ tail) < S f)%nat ->
  parseValue (S f) ([123] ++ body ++ [44] ++ ks ++ tail) = Throw (duplicateKey k).
Proof.
  intros Hwf Hp Ht Hk Hks Hf.
  assert (Hc : canonicalizable (plain ms) = true) by (apply writeValue_ok; eauto).
  apply val_wf_obj in Hwf as (_ & Hd & Hwf). cbn [canonicalizable no_proto_key] in Hc, Hp.
  apply andb_prop in Hc as [_ Hc]. unfold canonical_text in Ht. cbn [isPlainObject writeValue] in Ht.
  unfold writeObject in Ht. fold (on_value writeValue) in Ht. rewrite sort_on_value in Ht by done.
  apply rbind_ok_inv in Ht as (b & Hb & [= Heq]).
  apply app_inv_tail in Heq as ->. rewrite forallb_Forall in Hc, Hp. rewrite !Forall_forall in *.
  cbn [app parseValue] in *. rewrite skipWs_head by done. cbv zeta.
  change (123 =? 123) with true. cbv iota. unfold parseObject. cbn [expectChar].
  change (123 =? 123) with true. cbn [rbind].
  assert (Hne : merge_sort key_le ms <> []).
  { intros Hn. pose proof (merge_sort_Permutation key_le ms) as Hpm. rewrite Hn in Hpm.
    apply Permutation_nil in Hpm. subst. by apply elem_of_nil in Hk. }
  destruct (write_members_head _ [] body (44 :: ks ++ tail) (fun H => Hne (map_eq_nil _ _ H)) Hb)
    as [-> Hpk].
  rewrite bool_decide_false by (destruct (write_members_head _ [] body (44 :: ks ++ tail)
    (fun H => Hne (map_eq_nil _ _ H)) Hb); done).
  edestruct (object_loop_text (parseValue f) f (merge_sort key_le ms) [] [] f body (44 :: ks ++ tail))
    as (f' & Hf' & ->); try done; [..|len|].
  - rewrite merge_sort_Permutation, Forall_forall. intros kv Hkv. destruct (Hwf kv Hkv).
    specialize (Hc kv Hkv). specialize (Hp kv Hkv). simpl in *. bool_prop. split; [|done].
    by apply parse_text.
  - rewrite forallb_Forall, merge_sort_Permutation, Forall_forall. intros kv Hkv.
    specialize (Hp kv Hkv). simpl in *. by apply andb_prop in Hp as [? _].
  - by apply sort_keys_nodup.
  - unfold object_next. cbn [app skipWs]. change (is_ws 44) with false. cbv iota.
    change (44 =? 44) with true. cbv iota. apply object_loop_dup; [|done| |simpl in Hf'; lia].
    + apply list_elem_of_fmap in Hk as (kv & -> & Hkv). by destruct (Hwf kv Hkv).
    + unfold map_has. destruct (map_get _ k) eqn:E; [done|]. apply map_get_None in E.
      rewrite on_value_fst in E. destruct E. by rewrite merge_sort_Permutation.
Qed.

(** ** Properties *)

(** C14: what the issuer writes is what a verifier reads: the canonical bytes
    of a value decode as UTF-8 and parse, with the strict parser, to the
    value itself (members in key order), for every value without a member
    called [__proto__]. *)
Theorem canonicalize_roundtrip v bs :
  val_wf v -> no_proto_key v = true -> canonicalize v = Ok bs ->
  exists t, text_decode bs = Some t /\ strictParse t = Ok (canon v).
Proof.
  intros Hwf Hp H. destruct (canonicalize_text v bs Hwf H) as (t & Ht & _ & Hd & _).
  exists t. split; [done|]. by apply strictParse_text.
Qed.

Definition sample_claims : jsval :=
  plain [(js "jti", JStr (js "a")); (js "exp", JNum (Fin 3 1)); (js "ent", JArr [JNull; JBool true])].

Lemma sample_claims_wf : val_wf sample_claims.
Proof.
  apply val_wf_obj. split_and!; [done| |].
  - decided.
  - repeat apply Forall_cons_2; try apply Forall_nil_2; (split; [decided|]).
    + cbn [val_wf snd]. decided.
    + reflexivity.
    + apply val_wf_arr. repeat constructor.
Qed.

Definition sample_bytes : list Z := jq "{'ent':[null,true],'exp':6,'jti':'a'}".

Lemma canonicalize_roundtrip_witness :
  canonicalize sample_claims = Ok sample_bytes
  /\ exists t, text_decode sample_bytes = Some t /\ strictParse t = Ok (canon sample_claims).
Proof.
  split; [reflexivity|].
  apply (canonicalize_roundtrip sample_claims); [apply sample_claims_wf|reflexivity|reflexivity].
Defined.

(** The canonical bytes identify the value: two values serialize to the
    same bytes exactly when they denote the same JSON data, whatever order
    their members were given in and whether integers came as numbers or
    bigints. *)
Theorem canonicalize_injective v v' bs bs' :
  val_wf v -> val_wf v' -> no_proto_key v = true -> no_proto_key v' = true ->
  canonicalize v = Ok bs -> canonicalize v' = Ok bs' ->
  bs = bs' <-> canon v = canon v'.
Proof.
  intros Hwf Hwf' Hp Hp' H H'.
  destruct (canonicalize_text v bs Hwf H) as (t & Ht & -> & Hd & _).
  destruct (canonicalize_text v' bs' Hwf' H') as (t' & Ht' & -> & Hd' & _).
  split; intros Heq.
  - rewrite Heq, Hd' in Hd. injection Hd as ->.
    apply strictParse_text in Ht, Ht'; [|done..]. congruence.
  - unfold canonical_text in Ht, Ht'. case_hyp Ht; [|done]. case_hyp Ht'; [|done].
    rewrite <- writeValue_canon in Ht, Ht' by (done || (apply writeValue_ok; eauto)). congruence.
Qed.

Lemma canonicalize_injective_witness :
  let v := plain [(js "b", JNum (Fin 1 0)); (js "a", JNull)] in
  let v' := plain [(js "a", JNull); (js "b", JBig 1)] in
  utf8_encode (jq "{'a':null,'b':1}") = utf8_encode (jq "{'a':null,'b':1}") <-> canon v = canon v'.
Proof.
  apply canonicalize_injective; try reflexivity.
  all: apply val_wf_obj; split_and!; [done|decided|].
  all: repeat apply Forall_cons_2; try apply Forall_nil_2; (split; [decided|done]).
Defined.

(** A duplicate key is refused at parse time: after the members of any
    canonical object, repeating one of its keys makes the parser throw
    [CanonicalJSONDuplicateKey] with that key, whatever text follows. *)
Theorem strictParse_rejects_duplicate ms body k ks tail :
  val_wf (plain ms) -> no_proto_key (plain ms) = true ->
  canonical_text (plain ms) = Ok ([123] ++ body ++ [125]) ->
  k ∈ ms.*1 -> writeString k = Ok ks ->
  strictParse ([123] ++ body ++ [44] ++ ks ++ tail) = Throw (duplicateKey k).
Proof.
  intros Hwf Hp Ht Hk Hks.
  assert (Hc : canonicalizable (plain ms) = true) by (apply writeValue_ok; eauto).
  unfold strictParse. cbn [app]. rewrite skipWs_head by done.
  rewrite (parse_duplicate ms body k ks tail) by (done || (cbn [app]; lia)). done.
Qed.

Lemma strictParse_rejects_duplicate_witness :
  strictParse (jq "{'a':1,'b':[],'a':2}") = Throw (duplicateKey (js "a")).
Proof.
  apply (strictParse_rejects_duplicate [(js "b", JArr []); (js "a", JNum (Fin 1 0))]
           (jq "'a':1,'b':[]") (js "a") (jq "'a'") (jq ":2}")); try reflexivity.
  - apply val_wf_obj. split_and!; [done|decided|].
    repeat apply Forall_cons_2; try apply Forall_nil_2; (split; [decided|]); [constructor|done].
  - apply (bool_decide_unpack _). reflexivity.
Defined.

(** C39: the parser always answers: on every text it returns a value or
    throws its own [TokenMalformed] or [CanonicalJSONDuplicateKey] error;
    the bound on its loops is never what stops it. *)
Theorem strictParse_total text :
  (exists v, strictParse text = Ok v) \/ exists e, strictParse text = Throw e /\ strict_error e.
Proof.
  destruct (strictParse text) as [v|e] eqn:E; [eauto|]. right. exists e. split; [done|].
  by apply strictParse_error in E.
Qed.

(** A duplicate of [__proto__] passes: the assignment goes to the accessor,
    which leaves no own key behind for the check to find. *)
Example strictParse_proto_duplicate :
  strictParse (jq "{'__proto__':{'a':1},'__proto__':{'b':2}}")
  = Ok (JObj (plain [(js "b", JNum (Fin 1 1))]) []).
Proof. reflexivity. Qed.
