(* ===== verification/Types.v ===== *)
(** * Types: the core entities

    [src/typescript/src/types.ts]. String-literal unions are inductive types
    with the literal each constructor stands for; nullable fields are
    options; an [Instant] or a [UUIDv7] is its string; counts and durations,
    which the schema constrains to integers, are integers. *)

From S2P Require Import Prelude Errors JsNum Json.

(** ** Enumerations *)

Inductive LicenseStatus : Type := pending | active | grace | expired | suspended | revoked.
Inductive UsageStatus : Type := u_active | u_revoked.
Inductive KeyState : Type := k_active | k_retiring.
Inductive KeyRole : Type := root | signing.
Inductive KeyAlg : Type := ed25519 | rs256_pss | hs256.
Inductive ActorKind : Type := actor_system | actor_admin | actor_client | actor_unknown.

#[global] Instance LicenseStatus_eq_dec : EqDecision LicenseStatus.
Proof. solve_decision. Defined.
#[global] Instance UsageStatus_eq_dec : EqDecision UsageStatus.
Proof. solve_decision. Defined.
#[global] Instance KeyState_eq_dec : EqDecision KeyState.
Proof. solve_decision. Defined.
#[global] Instance KeyRole_eq_dec : EqDecision KeyRole.
Proof. solve_decision. Defined.
#[global] Instance KeyAlg_eq_dec : EqDecision KeyAlg.
Proof. solve_decision. Defined.
#[global] Instance ActorKind_eq_dec : EqDecision ActorKind.
Proof. solve_decision. Defined.

(** The literal behind a constructor. *)
Definition status_str (s : LicenseStatus) : jsstr :=
  match s with
  | pending => js "pending" | active => js "active" | grace => js "grace"
  | expired => js "expired" | suspended => js "suspended" | revoked => js "revoked"
  end.

Definition usage_status_str (s : UsageStatus) : jsstr :=
  match s with u_active => js "active" | u_revoked => js "revoked" end.

Definition key_state_str (s : KeyState) : jsstr :=
  match s with k_active => js "active" | k_retiring => js "retiring" end.

Definition role_str (r : KeyRole) : jsstr :=
  match r with root => js "root" | signing => js "signing" end.

Definition alg_str (a : KeyAlg) : jsstr :=
  match a with
  | ed25519 => js "ed25519" | rs256_pss => js "rs256-pss" | hs256 => js "hs256"
  end.

Definition actor_kind_str (k : ActorKind) : jsstr :=
  match k with
  | actor_system => js "system" | actor_admin => js "admin" | actor_client => js "client" | actor_unknown => js "unknown"
  end.

Definition all_algs : list KeyAlg := [ed25519; rs256_pss; hs256].

(** The algorithm a string names, if it names one. *)
Definition alg_of_str (s : jsstr) : option KeyAlg :=
  List.find (fun a => str_eqb (alg_str a) s) all_algs.

Abbreviation Instant := jsstr (only parsing).
Abbreviation UUIDv7 := jsstr (only parsing).
Abbreviation Fingerprint := jsstr (only parsing).

(** ** Entities *)

Record License : Type := mkLicense {
  l_id : UUIDv7;
  l_scope_id : option UUIDv7;
  l_template_id : option UUIDv7;
  l_licensable_type : jsstr;
  l_licensable_id : jsstr;
  l_license_key : jsstr;
  l_status : LicenseStatus;
  l_max_usages : Z;
  l_is_trial : bool;
  l_activated_at : option Instant;
  l_expires_at : option Instant;
  l_grace_until : option Instant;
  l_meta : jsval;
  l_created_at : Instant;
  l_updated_at : Instant
}.

Record LicenseScope : Type := mkScope {
  sc_id : UUIDv7;
  sc_slug : jsstr;
  sc_name : jsstr;
  sc_meta : jsval;
  sc_created_at : Instant;
  sc_updated_at : Instant
}.

Record LicenseTemplate : Type := mkTemplate {
  t_id : UUIDv7;
  t_scope_id : option UUIDv7;
  t_parent_id : option UUIDv7;
  t_name : jsstr;
  t_max_usages : Z;
  t_trial_duration_sec : Z;
  t_trial_cooldown_sec : option Z;
  t_grace_duration_sec : Z;
  t_force_online_after_sec : option Z;
  t_entitlements : jsval;
  t_meta : jsval;
  t_created_at : Instant;
  t_updated_at : Instant
}.

Record LicenseUsage : Type := mkUsage {
  u_id : UUIDv7;
  u_license_id : UUIDv7;
  u_fingerprint : Fingerprint;
  u_status : UsageStatus;
  u_registered_at : Instant;
  u_revoked_at : option Instant;
  u_last_seen_at : Instant;
  u_client_meta : jsval;
  u_created_at : Instant;
  u_updated_at : Instant
}.

Record LicenseKey : Type := mkKey {
  k_id : UUIDv7;
  k_scope_id : option UUIDv7;
  k_kid : jsstr;
  k_alg : KeyAlg;
  k_role : KeyRole;
  k_state : KeyState;
  k_public_pem : jsstr;
  k_private_pem_enc : option jsstr;
  k_rotated_from : option UUIDv7;
  k_rotated_at : option Instant;
  k_not_before : Instant;
  k_not_after : option Instant;
  k_meta : jsval;
  k_created_at : Instant;
  k_updated_at : Instant
}.

Record AuditLogEntry : Type := mkAudit {
  a_id : UUIDv7;
  a_license_id : option UUIDv7;
  a_scope_id : option UUIDv7;
  a_actor : jsstr;
  a_actor_kind : ActorKind;
  a_actor_id : option jsstr;
  a_event : jsstr;
  a_prior_state : option jsval;
  a_new_state : option jsval;
  a_occurred_at : Instant
}.

Record TrialIssuance : Type := mkTrial {
  ti_id : UUIDv7;
  ti_template_id : option UUIDv7;
  ti_fingerprint_hash : jsstr;
  ti_issued_at : Instant
}.

Lemma alg_str_inj a b : alg_str a = alg_str b -> a = b.
Proof. by destruct a, b. Qed.

Lemma alg_of_str_spec s a : alg_of_str s = Some a <-> s = alg_str a.
Proof.
  unfold alg_of_str. split.
  - intros H%find_some. destruct H as [_ H]. unfold str_eqb in H. by bool_prop.
  - intros ->. by destruct a.
Qed.
