(* ===== verification/Crypto.v ===== *)
(** * Crypto: signature backends, algorithm registry, key bindings

    [src/typescript/src/crypto/types.ts]. A backend wraps the runtime's
    cryptography, which is a parameter here: its handles are abstract types
    and its operations fallible functions. *)

From S2P Require Import Prelude Errors JsNum Json Types.

(** The runtime's key objects. *)
Class KeyHandles : Type := {
  PrivateKeyHandle : Type;
  PublicKeyHandle : Type
}.

Record PemKeyMaterial : Type := mkPem {
  privatePem : option jsstr;
  publicPem : jsstr
}.

Record RawKeyMaterial : Type := mkRaw {
  privateRaw : option (list Z);
  publicRaw : list Z
}.

Record KeyRecord : Type := mkKeyRecord {
  kr_kid : jsstr;
  kr_alg : KeyAlg;
  kr_pem : PemKeyMaterial;
  kr_raw : RawKeyMaterial
}.

(** What an import takes: [PemKeyMaterial | RawKeyMaterial]. *)
Inductive KeyMaterial : Type :=
| PemMaterial (pem : PemKeyMaterial)
| RawMaterial (raw : RawKeyMaterial).

Section Crypto.
Context {KH : KeyHandles}.

(** [SignatureBackend]; the passphrase of [importPrivate] is optional, and
    [generate] draws on the entropy it is given. *)
Record SignatureBackend : Type := mkBackend {
  b_alg : KeyAlg;
  b_importPrivate : KeyMaterial -> option jsstr -> res PrivateKeyHandle;
  b_sign : PrivateKeyHandle -> list Z -> res (list Z);
  b_importPublic : KeyMaterial -> res PublicKeyHandle;
  b_verify : PublicKeyHandle -> list Z -> list Z -> res bool;
  b_generate : jsstr -> list Z -> res (PemKeyMaterial * RawKeyMaterial)
}.

(** A key pair of a backend: what [priv] signs, [pub] verifies, and a
    signature is a byte string. *)
Definition key_pair (b : SignatureBackend) (priv : PrivateKeyHandle) (pub : PublicKeyHandle) : Prop :=
  forall d s, b_sign b priv d = Ok s -> b_verify b pub d s = Ok true /\ Forall is_byte s.

(** ** [AlgorithmRegistry]

    A map from algorithms to backends, in registration order. *)
Definition AlgorithmRegistry : Type := list (KeyAlg * SignatureBackend).

Definition registry_register (r : AlgorithmRegistry) (b : SignatureBackend) : res AlgorithmRegistry :=
  if map_has r (b_alg b) then Throw (errors.algorithmAlreadyRegistered (alg_str (b_alg b)))
  else Ok (map_set r (b_alg b) b).

(** [get(alg: string)]: the map is keyed by the strings that name
    algorithms. *)
Definition registry_get (r : AlgorithmRegistry) (alg : jsstr) : res SignatureBackend :=
  match (alg_of_str alg) ≫= map_get r with
  | Some b => Ok b
  | None => Throw (errors.unsupportedAlgorithm alg)
  end.

Definition registry_has (r : AlgorithmRegistry) (alg : jsstr) : bool :=
  match alg_of_str alg with Some a => map_has r a | None => false end.

Definition registry_algs (r : AlgorithmRegistry) : list KeyAlg := r.*1.

(** Every backend sits under its own algorithm. *)
Definition registry_wf (r : AlgorithmRegistry) : Prop :=
  NoDup r.*1 /\ Forall (fun ab => b_alg ab.2 = ab.1) r.
End Crypto.

(** ** [KeyAlgBindings] *)

Definition KeyAlgBindings : Type := list (jsstr * KeyAlg).

Definition bindings_bind (m : KeyAlgBindings) (kid : jsstr) (alg : KeyAlg) : res KeyAlgBindings :=
  match map_get m kid with
  | Some existing =>
      if bool_decide (existing <> alg)
      then Throw (errors.algorithmMismatch (alg_str existing) (alg_str alg))
      else Ok (map_set m kid alg)
  | None => Ok (map_set m kid alg)
  end.

Definition bindings_expect (m : KeyAlgBindings) (kid alg : jsstr) : res KeyAlg :=
  match map_get m kid with
  | None => Throw (errors.unknownKid kid)
  | Some bound =>
      if bool_decide (alg_str bound <> alg)
      then Throw (errors.algorithmMismatch (alg_str bound) alg)
      else Ok bound
  end.

Definition bindings_get (m : KeyAlgBindings) (kid : jsstr) : option KeyAlg := map_get m kid.

(** ** Facts *)

Lemma registry_register_wf {KH : KeyHandles} r b r' :
  registry_wf r -> registry_register r b = Ok r' -> registry_wf r'.
Proof.
  intros [Hd Hf]. unfold registry_register, map_has. destruct (map_get r (b_alg b)) eqn:E; [done|].
  intros [= <-]. split; [by apply map_set_NoDup|]. rewrite map_set_new by done.
  apply Forall_app. split; [done|]. by apply Forall_singleton.
Qed.

Lemma registry_get_alg {KH : KeyHandles} r alg b :
  registry_wf r -> registry_get r alg = Ok b -> alg = alg_str (b_alg b).
Proof.
  intros [Hd Hf]. unfold registry_get. destruct (alg_of_str alg) as [a|] eqn:Ha; [|done]. simpl.
  destruct (map_get r a) as [b'|] eqn:E; [|done]. intros [= <-].
  apply alg_of_str_spec in Ha as ->. apply map_get_elem in E.
  rewrite Forall_forall in Hf. specialize (Hf _ E). simpl in Hf. by rewrite Hf.
Qed.

(** A binding never changes algorithm: rebinding is the identity or refused. *)
Lemma bindings_bind_get m kid alg m' kid' :
  bindings_bind m kid alg = Ok m' ->
  bindings_get m' kid' = if decide (kid' = kid) then Some alg else bindings_get m kid'.
Proof.
  unfold bindings_bind, bindings_get.
  assert (Hset : map_get (map_set m kid alg) kid'
                 = if decide (kid' = kid) then Some alg else map_get m kid').
  { case_decide; [subst; apply map_get_set_eq|by apply map_get_set_ne]. }
  destruct (map_get m kid) as [a|]; [case_bool_decide; [done|]|]; intros [= <-]; done.
Qed.

Lemma bindings_bind_stable m kid alg m' kid' a :
  bindings_bind m kid alg = Ok m' -> bindings_get m kid' = Some a -> bindings_get m' kid' = Some a.
Proof.
  intros Hb Hg. rewrite (bindings_bind_get _ _ _ _ _ Hb). case_decide; [subst|done].
  unfold bindings_bind, bindings_get in *. rewrite Hg in Hb. case_bool_decide; [done|].
  f_equal. destruct (decide (a = alg)); [done|naive_solver].
Qed.

Lemma bindings_expect_ok m kid alg a :
  bindings_expect m kid alg = Ok a <-> bindings_get m kid = Some a /\ alg = alg_str a.
Proof.
  unfold bindings_expect, bindings_get. destruct (map_get m kid) as [b|]; [|naive_solver].
  case_bool_decide; [naive_solver|]. destruct (decide (alg_str b = alg)); [|done].
  split; [naive_solver|]. intros [[= ->] _]. done.
Qed.

(** ** A concrete backend

    A checksum in the place of a signature: it forges trivially, but it shows
    that the laws asked of a backend can hold together. *)
Module toy.
#[global] Instance handles : KeyHandles := {| PrivateKeyHandle := Z; PublicKeyHandle := Z |}.

Definition sum (l : list Z) : Z := fold_left Z.add l 0.

Definition toy_sign (k : Z) (d : list Z) : list Z := repeat ((k + sum d) mod 256) 64.

Definition backend : SignatureBackend := mkBackend ed25519
  (fun _ _ => Ok 7)
  (fun k d => Ok (toy_sign k d))
  (fun _ => Ok 7)
  (fun k d s => Ok (bool_decide (s = toy_sign k d)))
  (fun _ _ => Ok (mkPem None (js "pub"), mkRaw (Some [7]) [7])).

Lemma toy_sign_bytes k d : Forall is_byte (toy_sign k d).
Proof.
  apply Forall_forall. intros x Hx. apply list_elem_of_In, repeat_spec in Hx as ->.
  unfold is_byte. zdiv.
Qed.

Lemma toy_key_pair : key_pair backend 7 7.
Proof.
  intros d s [= <-]. split; [|apply toy_sign_bytes]. cbn. f_equal. by apply bool_decide_eq_true.
Qed.

Definition record : KeyRecord :=
  mkKeyRecord (js "k1") ed25519 (mkPem None (js "pub")) (mkRaw None [7]).
End toy.
