(* ===== verification/TokenCodec.v ===== *)
(** * TokenCodec: prefix routing and verification

    [src/typescript/src/token-codec.ts] and the format-agnostic [verify] of
    [lic1.ts]. The module-level [codecs] map is explicit: every function that
    reads it takes it. *)

From S2P Require Import Prelude Errors JsNum Text Json Types Crypto.

(** [token.startsWith(prefix)] *)
Fixpoint startsWith (s p : jsstr) : bool :=
  match p, s with
  | [], _ => true
  | a :: p', b :: s' => (a =? b) && startsWith s' p'
  | _ :: _, [] => false
  end.

(** [s.slice(0, s.indexOf(c) + 1)] when [c] occurs in [s]. *)
Fixpoint through (c : Z) (s : jsstr) : option jsstr :=
  match s with
  | [] => None
  | d :: s' => if d =? c then Some [d] else cons d <$> through c s'
  end.

(** [s.split(c)] *)
Fixpoint split_on (c : Z) (s : jsstr) : list jsstr :=
  match s with
  | [] => [[]]
  | d :: s' =>
      if d =? c then [] :: split_on c s'
      else match split_on c s' with
           | seg :: segs => (d :: seg) :: segs
           | [] => [[d]]
           end
  end.

(** The [header] of an envelope: [alg] and [kid] for every format; LIC1
    keeps its [v] and [typ] fields too. *)
Record EnvelopeHeader : Type := mkHeader {
  h_v : option Z;
  h_typ : option jsstr;
  h_alg : KeyAlg;
  h_kid : jsstr
}.

Record DecodedEnvelope : Type := mkEnvelope {
  e_header : EnvelopeHeader;
  e_payload : jsval;
  e_signingInput : list Z;
  e_signature : list Z
}.

Inductive TokenFormat : Type := LIC1 | LIC2.
#[global] Instance TokenFormat_eq_dec : EqDecision TokenFormat.
Proof. solve_decision. Defined.

Definition FORMAT_PREFIXES (f : TokenFormat) : jsstr :=
  match f with LIC1 => js "LIC1." | LIC2 => js "v4.public." end.

Definition format_str (f : TokenFormat) : jsstr :=
  match f with LIC1 => js "LIC1" | LIC2 => js "LIC2" end.

Section TokenCodec.
Context {KH : KeyHandles}.

Record CodecEncodeInput : Type := mkEncodeInput {
  i_alg : KeyAlg;
  i_kid : jsstr;
  i_payload : jsval;
  i_privateKey : PrivateKeyHandle;
  i_backend : SignatureBackend
}.

Record TokenCodec : Type := mkCodec {
  c_prefix : jsstr;
  c_supportedAlgs : list KeyAlg;
  c_decode : jsstr -> res DecodedEnvelope;
  c_encode : CodecEncodeInput -> res jsstr
}.

Definition Codecs : Type := list (jsstr * TokenCodec).

Definition registerCodec (codecs : Codecs) (codec : TokenCodec) : res Codecs :=
  if map_has codecs (c_prefix codec) then Throw (errors.unsupportedTokenFormat (c_prefix codec))
  else Ok (map_set codecs (c_prefix codec) codec).

Definition registeredPrefixes (codecs : Codecs) : list jsstr := codecs.*1.

Definition unregisterCodecForTesting (codecs : Codecs) (prefix : jsstr) : Codecs :=
  map_delete codecs prefix.

Definition codecForFormat (codecs : Codecs) (format : TokenFormat) : res TokenCodec :=
  match map_get codecs (FORMAT_PREFIXES format) with
  | Some codec => Ok codec
  | None =>
      Throw (errors.unsupportedTokenFormat
        (js "token format " ++ format_str format ++ js " is not registered " ++ [0x2014]
         ++ js " its codec module was not imported"))
  end.

(** The first registered codec whose prefix starts the token; the error names
    the prefix up to the first dot, or the first 16 units. *)
Definition codecFor (codecs : Codecs) (token : jsstr) : res TokenCodec :=
  match List.find (fun pc => startsWith token (c_prefix pc.2)) codecs with
  | Some (_, codec) => Ok codec
  | None =>
      let prefix := match through 46 token with
                    | Some p => p
                    | None => take 16 token
                    end in
      Throw (errors.unsupportedTokenFormat prefix)
  end.

(** [decodeUnverified] *)
Definition decodeUnverified (codecs : Codecs) (token : jsstr) : res DecodedEnvelope :=
  let? codec := codecFor codecs token in c_decode codec token.

Record VerifyOptions : Type := mkVerifyOptions {
  v_registry : AlgorithmRegistry;
  v_bindings : KeyAlgBindings;
  v_keys : list (jsstr * KeyRecord)
}.

(** [verify] of [lic1.ts]. *)
Definition verify (codecs : Codecs) (token : jsstr) (opts : VerifyOptions) : res DecodedEnvelope :=
  let? parts := decodeUnverified codecs token in
  let kid := h_kid (e_header parts) in
  let alg := h_alg (e_header parts) in
  let? _ := bindings_expect (v_bindings opts) kid (alg_str alg) in
  let? backend := registry_get (v_registry opts) (alg_str alg) in
  match map_get (v_keys opts) kid with
  | None => Throw (errors.unknownKid kid)
  | Some record =>
      if bool_decide (kr_alg record <> alg)
      then Throw (errors.algorithmMismatch (alg_str (kr_alg record)) (alg_str alg))
      else
        let? publicKey := b_importPublic backend (PemMaterial (kr_pem record)) in
        let? ok := b_verify backend publicKey (e_signingInput parts) (e_signature parts) in
        if negb ok then Throw errors.tokenSignatureInvalid else Ok parts
  end.

(** A registry holds each codec under its own prefix. *)
Definition codecs_wf (codecs : Codecs) : Prop :=
  NoDup codecs.*1 /\ Forall (fun pc => c_prefix pc.2 = pc.1) codecs.
End TokenCodec.

(** ** Facts *)

Lemma startsWith_app p s : startsWith (p ++ s) p = true.
Proof. induction p as [|c p IH]; [by destruct s|]. simpl. by rewrite Z.eqb_refl. Qed.

Lemma split_on_no c s : forallb (fun d => negb (d =? c)) s = true -> split_on c s = [s].
Proof.
  induction s as [|d s IH]; [done|]. simpl. intros [H1 H2]%andb_prop. bool_prop.
  rewrite (proj2 (Z.eqb_neq d c)) by done. by rewrite IH.
Qed.

Lemma split_on_app c s t :
  forallb (fun d => negb (d =? c)) s = true -> split_on c (s ++ c :: t) = s :: split_on c t.
Proof.
  induction s as [|d s IH]; simpl.
  - by rewrite Z.eqb_refl.
  - intros [H1 H2]%andb_prop. bool_prop. rewrite (proj2 (Z.eqb_neq d c)) by done. by rewrite IH.
Qed.

(** Splitting and joining again is the identity. *)
Fixpoint join_with (c : Z) (segs : list jsstr) : jsstr :=
  match segs with
  | [] => []
  | [s] => s
  | s :: segs' => s ++ c :: join_with c segs'
  end.

Lemma split_on_cons c s : exists seg segs, split_on c s = seg :: segs.
Proof. destruct s as [|d s]; simpl; [eauto|]. destruct (d =? c); [eauto|]. destruct (split_on c s); eauto. Qed.

Lemma join_split c s : join_with c (split_on c s) = s.
Proof.
  induction s as [|d s IH]; [done|]. simpl. destruct (split_on_cons c s) as (seg & segs & Hs).
  rewrite Hs in IH |- *. destruct (d =? c) eqn:E.
  - bool_prop. rewrite <- IH. by subst.
  - rewrite <- IH. by destruct segs.
Qed.

Lemma split_on_length c s seg : seg ∈ split_on c s -> (List.length seg <= List.length s)%nat.
Proof.
  revert seg. induction s as [|d s IH]; intros seg; simpl.
  - intros ->%list_elem_of_singleton. simpl. lia.
  - destruct (d =? c).
    + intros [->|H]%elem_of_cons; [simpl; lia|]. apply IH in H. lia.
    + destruct (split_on c s) as [|s0 ss]; [intros ->%list_elem_of_singleton; simpl; lia|].
      intros [->|H]%elem_of_cons.
      * specialize (IH s0 ltac:(left)). simpl. lia.
      * specialize (IH seg ltac:(by right)). lia.
Qed.

Section Facts.
Context {KH : KeyHandles}.

Lemma codecFor_ok codecs token codec :
  codecs_wf codecs -> codecFor codecs token = Ok codec ->
  startsWith token (c_prefix codec) = true /\ (c_prefix codec, codec) ∈ codecs.
Proof.
  intros [_ Hf] H. unfold codecFor in H. destruct (List.find _ codecs) as [[p c]|] eqn:E; [|done].
  injection H as <-. apply find_some in E as [Hin Hs]. split; [done|].
  apply list_elem_of_In in Hin. rewrite Forall_forall in Hf. specialize (Hf _ Hin). simpl in Hf. by subst.
Qed.

Lemma registerCodec_wf codecs codec codecs' :
  codecs_wf codecs -> registerCodec codecs codec = Ok codecs' -> codecs_wf codecs'.
Proof.
  intros [Hd Hf]. unfold registerCodec, map_has.
  destruct (map_get codecs (c_prefix codec)) eqn:E; [done|]. intros [= <-].
  split; [by apply map_set_NoDup|]. rewrite map_set_new by done.
  apply Forall_app. split; [done|]. by apply Forall_singleton.
Qed.

(** What a verified token guarantees. *)
Lemma verify_inv codecs token opts parts :
  verify codecs token opts = Ok parts ->
  let kid := h_kid (e_header parts) in
  let alg := h_alg (e_header parts) in
  exists backend record publicKey,
    decodeUnverified codecs token = Ok parts
    /\ bindings_get (v_bindings opts) kid = Some alg
    /\ registry_get (v_registry opts) (alg_str alg) = Ok backend
    /\ map_get (v_keys opts) kid = Some record /\ kr_alg record = alg
    /\ b_importPublic backend (PemMaterial (kr_pem record)) = Ok publicKey
    /\ b_verify backend publicKey (e_signingInput parts) (e_signature parts) = Ok true.
Proof.
  intros H. unfold verify in H. apply rbind_ok_inv in H as (p & Hd & H).
  apply rbind_ok_inv in H as (a & Hb & H). apply rbind_ok_inv in H as (backend & Hr & H).
  destruct (map_get (v_keys opts) _) as [record|] eqn:Hk; [|done].
  case_bool_decide as Ha; [done|]. apply rbind_ok_inv in H as (pk & Hi & H).
  apply rbind_ok_inv in H as (ok & Hv & H). destruct ok; [|done]. injection H as <-.
  cbv zeta. apply bindings_expect_ok in Hb as [Hb Heq]. apply alg_str_inj in Heq as <-.
  exists backend, record, pk. split_and!; done.
Qed.
End Facts.
