(* ===== verification/Lic1.v ===== *)
(** * Lic1: the LIC1 token envelope

    [src/typescript/src/lic1.ts]: [LIC1.<header>.<payload>.<signature>], each
    segment base64url, the signature over the ASCII of the two middle
    segments joined by a dot. *)

From S2P Require Import Prelude Errors JsNum Text Json Canonical StrictJson Types Crypto TokenCodec.

(** ** Decoding *)

(** Does [String(v)] return? An object converts through the [toString] it
    finds on its chain, which JSON data can only replace by a value that is
    not callable; arrays convert their elements. (An array on a prototype
    chain is taken to convert.) *)
Fixpoint to_string_ok (v : jsval) : bool :=
  match v with
  | JArr l => forallb (fun x => match x with JUndefined | JNull => true | _ => to_string_ok x end) l
  | JObj _ _ => match get_prop v (js "toString") with JFun => true | _ => false end
  | _ => true
  end.

(** [String(v)]; the text itself only reaches error messages and details. *)
Definition string_of (v : jsval) : res jsstr :=
  if to_string_ok v then Ok (match v with JStr s => s | _ => [] end) else Throw PlainError.

Definition isJsonObject (v : jsval) : bool :=
  match v with JObj _ _ | JObjProto | JOther => true | _ => false end.

(** [Object.keys] *)
Definition own_keys (v : jsval) : list jsstr :=
  match v with JObj _ props => props.*1 | _ => [] end.

(** [parseJSONObject]: the parser's errors become [LicensingError]s. *)
Definition parseJSONObject (bytes : list Z) : res jsval :=
  match text_decode bytes with
  | None => Throw errors.tokenMalformed
  | Some text =>
      match strictParse text with
      | Throw (StrictJsonError CanonicalJSONDuplicateKey (Strings [key])) =>
          Throw (errors.canonicalDuplicateKey key)
      | Throw Diverged => Throw Diverged
      | Throw _ => Throw errors.tokenMalformed
      | Ok v => if isJsonObject v then Ok v else Throw errors.tokenMalformed
      end
  end.

Record LIC1Header : Type := mkLIC1Header { l1_alg : KeyAlg; l1_kid : jsstr }.

Definition HEADER_REQUIRED : list jsstr := map js ["v"; "typ"; "alg"; "kid"]%string.
Definition HEADER_ALLOWED_ALGS : list jsstr := map alg_str [ed25519; rs256_pss; hs256].

Definition parseHeader (bytes : list Z) : res LIC1Header :=
  let? obj := parseJSONObject bytes in
  if negb (forallb (fun k => bool_decide (k ∈ HEADER_REQUIRED)) (own_keys obj))
  then Throw errors.tokenMalformed
  else if negb (forallb (has_prop obj) HEADER_REQUIRED) then Throw errors.tokenMalformed
  else
    let? _ := match get_prop obj (js "v") with
              | JNum (Fin 1 0) => Ok tt
              | v => let? _ := string_of v in Throw errors.tokenMalformed
              end in
    let? _ := match get_prop obj (js "typ") with
              | JStr s => if str_eqb s (js "lic") then Ok tt else Throw errors.tokenMalformed
              | _ => Throw errors.tokenMalformed
              end in
    let? alg := match get_prop obj (js "alg") with
                | JStr s =>
                    match alg_of_str s with
                    | Some a => Ok a
                    | None => Throw (errors.unsupportedAlgorithm s)
                    end
                | v => let? s := string_of v in Throw (errors.unsupportedAlgorithm s)
                end in
    match get_prop obj (js "kid") with
    | JStr [] => Throw errors.tokenMalformed
    | JStr kid => Ok (mkLIC1Header alg kid)
    | _ => Throw errors.tokenMalformed
    end.

Definition parsePayload (bytes : list Z) : res jsval := parseJSONObject bytes.

(** The bytes a LIC1 signature covers, from the text of the two segments. *)
Definition lic1_signingInput (headerB64 payloadB64 : jsstr) : list Z :=
  utf8_encode (headerB64 ++ [46] ++ payloadB64).

Definition decodeLIC1 (token : jsstr) : res DecodedEnvelope :=
  match split_on 46 token with
  | [_; headerB64; payloadB64; sigB64] =>
      let? headerBytes := base64url.decode headerB64 in
      let? payloadBytes := base64url.decode payloadB64 in
      let? signature := base64url.decode sigB64 in
      let? header := parseHeader headerBytes in
      let? payload := parsePayload payloadBytes in
      Ok (mkEnvelope (mkHeader (Some 1) (Some (js "lic")) (l1_alg header) (l1_kid header))
            payload (lic1_signingInput headerB64 payloadB64) signature)
  | _ => Throw errors.tokenMalformed
  end.

(** ** Encoding *)

Definition header_object (alg : KeyAlg) (kid : jsstr) : jsval :=
  plain [(js "v", JNum (Fin 1 0)); (js "typ", JStr (js "lic"));
         (js "alg", JStr (alg_str alg)); (js "kid", JStr kid)].

Definition LIC1_PREFIX : jsstr := js "LIC1.".
Definition LIC1_ALGS : list KeyAlg := [ed25519; rs256_pss; hs256].

Section Lic1.
Context {KH : KeyHandles}.

(** [encode], at the header the codec builds. *)
Definition lic1_encode (input : CodecEncodeInput) : res jsstr :=
  let? headerBytes := canonicalize (header_object (i_alg input) (i_kid input)) in
  let? payloadBytes := canonicalize (i_payload input) in
  let headerB64 := base64url.encode headerBytes in
  let payloadB64 := base64url.encode payloadBytes in
  let signingInput := lic1_signingInput headerB64 payloadB64 in
  let? sig := b_sign (i_backend input) (i_privateKey input) signingInput in
  Ok (js "LIC1." ++ headerB64 ++ [46] ++ payloadB64 ++ [46] ++ base64url.encode sig).

Definition lic1Codec : TokenCodec := mkCodec LIC1_PREFIX LIC1_ALGS decodeLIC1 lic1_encode.

Definition decodeLIC1Parts (codecs : Codecs) (token : jsstr) : res DecodedEnvelope :=
  let? codec := codecFor codecs token in
  if negb (str_eqb (c_prefix codec) LIC1_PREFIX)
  then Throw (errors.unsupportedTokenFormat
    (c_prefix codec ++ [32; 0x2014]
     ++ js " decodeLIC1Parts only accepts LIC1 tokens; use decodeUnverified for any format"))
  else decodeLIC1 token.

Definition registerFormat (prefix : jsstr) : res unit :=
  Throw (errors.unsupportedTokenFormat
    (prefix ++ [32; 0x2014]
     ++ js " registerFormat() no longer takes a bare prefix; register a TokenCodec via registerCodec()")).
End Lic1.

(** ** Facts *)

Lemma alphabet_no_dot s :
  forallb base64url.alphabet s = true -> forallb (fun d => negb (d =? 46)) s = true.
Proof.
  rewrite !forallb_Forall. intros H. eapply Forall_impl; [exact H|]. intros c Hc.
  destruct (c =? 46) eqn:E; [|done]. by apply Z.eqb_eq in E as ->.
Qed.

Lemma alphabet_ascii s : forallb base64url.alphabet s = true -> forallb is_ascii s = true.
Proof.
  rewrite !forallb_Forall. intros H. eapply Forall_impl; [exact H|]. intros c Hc.
  unfold base64url.alphabet, is_ascii in *.
  apply andb_true_intro. rewrite Z.leb_le, Z.ltb_lt.
  repeat (apply orb_prop in Hc as [Hc|Hc]); bool_prop; lia.
Qed.

(** Canonical bytes of an object parse back as a JSON object. *)
Lemma parseJSONObject_canonical v bs :
  val_wf v -> no_proto_key v = true -> canonicalize v = Ok bs ->
  parseJSONObject bs = Ok (canon v).
Proof.
  intros Hwf Hp H. destruct (canonicalize_text v bs Hwf H) as (t & Ht & _ & Hd & _).
  unfold parseJSONObject. rewrite Hd, (strictParse_text v t) by done.
  unfold canonical_text in Ht. case_hyp Ht; [|done]. by destruct v.
Qed.

Lemma header_object_wf alg kid : Forall is_unit kid -> val_wf (header_object alg kid).
Proof.
  intros Hk. apply val_wf_obj. split_and!; [done|decided|].
  repeat apply Forall_cons_2; try apply Forall_nil_2; (split; [decided|]);
    cbn [val_wf snd]; [done|decided|destruct alg; decided|done].
Qed.

Lemma parseHeader_canonical alg kid bs :
  Forall is_unit kid -> kid <> [] -> canonicalize (header_object alg kid) = Ok bs ->
  parseHeader bs = Ok (mkLIC1Header alg kid).
Proof.
  intros Hu Hne H. unfold parseHeader.
  rewrite (parseJSONObject_canonical (header_object alg kid)) by (by try apply header_object_wf).
  cbn [rbind].
  assert (canon (header_object alg kid)
    = plain [(js "alg", JStr (alg_str alg)); (js "kid", JStr kid);
             (js "typ", JStr (js "lic")); (js "v", JNum (Fin 1 0))]) as ->.
  { by destruct alg. }
  destruct alg; destruct kid; done.
Qed.

Section Roundtrip.
Context {KH : KeyHandles}.

Lemma lic1_encode_inv input token :
  lic1_encode input = Ok token ->
  exists hb pb sig,
    canonicalize (header_object (i_alg input) (i_kid input)) = Ok hb
    /\ canonicalize (i_payload input) = Ok pb
    /\ b_sign (i_backend input) (i_privateKey input)
         (lic1_signingInput (base64url.encode hb) (base64url.encode pb)) = Ok sig
    /\ token = js "LIC1" ++ 46 :: base64url.encode hb ++ 46 :: base64url.encode pb
               ++ 46 :: base64url.encode sig.
Proof.
  intros H. unfold lic1_encode in H. apply rbind_ok_inv in H as (hb & Hh & H).
  apply rbind_ok_inv in H as (pb & Hp & H). apply rbind_ok_inv in H as (sig & Hs & [= <-]).
  by exists hb, pb, sig.
Qed.

Lemma lic1_split hb pb sb :
  Forall is_byte hb -> Forall is_byte pb -> Forall is_byte sb ->
  split_on 46 (js "LIC1" ++ 46 :: base64url.encode hb ++ 46 :: base64url.encode pb
               ++ 46 :: base64url.encode sb)
  = [js "LIC1"; base64url.encode hb; base64url.encode pb; base64url.encode sb].
Proof.
  intros. rewrite split_on_app by done.
  rewrite split_on_app by (by apply alphabet_no_dot, base64url_facts.encode_alphabet).
  rewrite split_on_app by (by apply alphabet_no_dot, base64url_facts.encode_alphabet).
  by rewrite split_on_no by (by apply alphabet_no_dot, base64url_facts.encode_alphabet).
Qed.

(** Decoding an encoded token gives back the key, the claims, the signed
    bytes and the signature. *)
Lemma lic1_decode_encode input token :
  text_ok (i_kid input) -> i_kid input <> [] ->
  val_wf (i_payload input) -> no_proto_key (i_payload input) = true ->
  (forall d s, b_sign (i_backend input) (i_privateKey input) d = Ok s -> Forall is_byte s) ->
  lic1_encode input = Ok token ->
  exists signingInput sig,
    b_sign (i_backend input) (i_privateKey input) signingInput = Ok sig
    /\ startsWith token LIC1_PREFIX = true
    /\ decodeLIC1 token
       = Ok (mkEnvelope (mkHeader (Some 1) (Some (js "lic")) (i_alg input) (i_kid input))
               (canon (i_payload input)) signingInput sig).
Proof.
  intros [Hku Hkw] Hkn Hwf Hp Hb H.
  destruct (lic1_encode_inv input token H) as (hb & pb & sig & Hh & Hpb & Hs & ->).
  pose proof (header_object_wf (i_alg input) _ Hku) as Hhwf.
  destruct (canonicalize_text _ hb Hhwf Hh) as (_ & _ & _ & _ & Hhb).
  destruct (canonicalize_text _ pb Hwf Hpb) as (_ & _ & _ & _ & Hpbb).
  exists (lic1_signingInput (base64url.encode hb) (base64url.encode pb)), sig.
  split_and!; [done|apply (startsWith_app LIC1_PREFIX)|].
  unfold decodeLIC1. rewrite lic1_split by eauto.
  rewrite !base64url_facts.decode_encode_bytes by eauto. cbn [rbind].
  rewrite (parseHeader_canonical (i_alg input) (i_kid input)) by done. cbn [rbind].
  unfold parsePayload. by rewrite (parseJSONObject_canonical (i_payload input)).
Qed.
End Roundtrip.

(** ** LIC1 signs the text it is carried by

    The signed bytes of a decoded token are the token's own text between the
    prefix and the signature, so no byte of header or payload can change
    without changing them. *)
Lemma decodeLIC1_inv token e :
  decodeLIC1 token = Ok e ->
  exists p h b s hb pb,
    token = p ++ 46 :: h ++ 46 :: b ++ 46 :: s
    /\ base64url.decode h = Ok hb /\ base64url.decode b = Ok pb
    /\ base64url.decode s = Ok (e_signature e)
    /\ e_signingInput e = h ++ 46 :: b
    /\ parseJSONObject pb = Ok (e_payload e)
    /\ parseHeader hb = Ok (mkLIC1Header (h_alg (e_header e)) (h_kid (e_header e))).
Proof.
  intros H. unfold decodeLIC1 in H. pose proof (join_split 46 token) as Hj.
  destruct (split_on 46 token) as [|p [|h [|b [|s [|]]]]]; try done.
  apply rbind_ok_inv in H as (hb & Hh & H). apply rbind_ok_inv in H as (pb & Hb & H).
  apply rbind_ok_inv in H as (sig & Hs & H). apply rbind_ok_inv in H as (hd & Hhd & H).
  apply rbind_ok_inv in H as (pl & Hpl & [= <-]).
  exists p, h, b, s, hb, pb. simpl in Hj. split_and!; try done.
  - simpl. unfold lic1_signingInput. rewrite utf8_encode_ascii; [done|].
    assert (Ha : forall t r, base64url.decode t = Ok r -> forallb is_ascii t = true).
    { intros t r Ht. unfold base64url.decode in Ht. case_hyp Ht; [done|].
      destruct (forallb base64url.alphabet t) eqn:E; [by apply alphabet_ascii|done]. }
    cbn [app]. rewrite forallb_app. cbn [forallb]. by rewrite (Ha h hb), (Ha b pb).
  - by destruct hd.
Qed.
