(* ===== verification/Lic2.v ===== *)
(** * Lic2: the LIC2 token envelope (PASETO v4.public)

    [src/typescript/src/lic2.ts]. The footer carries the key id and is fed
    into the pre-authentication encoding (PAE) that is signed. *)

From S2P Require Import Prelude Errors JsNum Text Json Canonical StrictJson Types Crypto TokenCodec Lic1.

Definition LIC2_PREFIX : jsstr := js "v4.public.".
Definition SIG_LEN : nat := 64.
Definition LIC2_ALGS : list KeyAlg := [ed25519].

(** The loop of [le64], [k] bytes to go. *)
Fixpoint le_bytes (k : nat) (v : Z) : list Z :=
  match k with
  | O => []
  | S k' => js_and v 0xff :: le_bytes k' (v / 256)
  end.

Definition le64 (n : Z) : list Z :=
  let out := le_bytes 8 n in
  <[7%nat := js_and (nth 7 out 0) 0x7f]> out.

Definition pae (pieces : list (list Z)) : list Z :=
  le64 (Z.of_nat (List.length pieces))
  ++ concat (map (fun p => le64 (Z.of_nat (List.length p)) ++ p) pieces).

Definition lic2_signingInputFor (message footer : list Z) : list Z :=
  pae [utf8_encode LIC2_PREFIX; message; footer; []].

(** [parseFooter]; errors of the strict parser are not translated. *)
Definition parseFooter (bytes : list Z) : res jsstr :=
  match text_decode bytes with
  | None => Throw errors.tokenMalformed
  | Some text =>
      let? obj := strictParse text in
      if negb (isJsonObject obj) then Throw errors.tokenMalformed
      else
        match get_prop obj (js "kid") with
        | JStr [] => Throw errors.tokenMalformed
        | JStr kid => Ok kid
        | _ => Throw errors.tokenMalformed
        end
  end.

Definition decodeLIC2 (token : jsstr) : res DecodedEnvelope :=
  let rest := drop (List.length LIC2_PREFIX) token in
  match rest with
  | [] => Throw errors.tokenMalformed
  | _ =>
      let segments := split_on 46 rest in
      if (2 <? Z.of_nat (List.length segments)) then Throw errors.tokenMalformed
      else
        let payloadB64 := nth 0 segments [] in
        let footerB64 := nth_error segments 1 in
        let? body := base64url.decode payloadB64 in
        if (List.length body <=? SIG_LEN)%nat then Throw errors.tokenMalformed
        else
          let message := take (List.length body - SIG_LEN) body in
          let signature := drop (List.length body - SIG_LEN) body in
          let? footerBytes := match footerB64 with
                              | None => Ok []
                              | Some f => base64url.decode f
                              end in
          match footerBytes with
          | [] => Throw errors.tokenMalformed
          | _ =>
              let? kid := parseFooter footerBytes in
              match text_decode message with
              | None => Throw errors.tokenMalformed
              | Some payloadText =>
                  let? payload := strictParse payloadText in
                  if negb (isJsonObject payload) then Throw errors.tokenMalformed
                  else Ok (mkEnvelope (mkHeader None None ed25519 kid) payload
                             (lic2_signingInputFor message footerBytes) signature)
              end
          end
  end.

Section Lic2.
Context {KH : KeyHandles}.

Definition lic2_encode (input : CodecEncodeInput) : res jsstr :=
  if negb (bool_decide (i_alg input ∈ LIC2_ALGS))
  then Throw (errors.unsupportedAlgorithm
    (js "LIC2 (PASETO v4.public) supports ed25519 only, got " ++ alg_str (i_alg input)
     ++ [32; 0x2014]
     ++ js " either switch the signing algorithm to ed25519, or issue LIC1 tokens instead"))
  else
    let? message := canonicalize (i_payload input) in
    let? footer := canonicalize (plain [(js "kid", JStr (i_kid input))]) in
    let? sig := b_sign (i_backend input) (i_privateKey input) (lic2_signingInputFor message footer) in
    let body := message ++ sig in
    Ok (LIC2_PREFIX ++ base64url.encode body ++ [46] ++ base64url.encode footer).

Definition lic2Codec : TokenCodec := mkCodec LIC2_PREFIX LIC2_ALGS decodeLIC2 lic2_encode.

(** The registry once both codec modules are loaded. *)
Definition default_codecs : Codecs :=
  match (let? cs := registerCodec [] lic1Codec in registerCodec cs lic2Codec) with
  | Ok cs => cs
  | Throw _ => []
  end.
End Lic2.

(** ** PAE is unambiguous *)

Lemma le_bytes_cons k v : le_bytes (S k) v = v mod 256 :: le_bytes k (v / 256).
Proof. cbn [le_bytes]. change 255 with (2 ^ 8 - 1). by rewrite js_and_ones. Qed.

Lemma le_bytes_inj k v v' :
  0 <= v < 256 ^ Z.of_nat k -> 0 <= v' < 256 ^ Z.of_nat k -> le_bytes k v = le_bytes k v' -> v = v'.
Proof.
  revert v v'. induction k as [|k IH]; intros v v'.
  - simpl. lia.
  - rewrite Nat2Z.inj_succ, Z.pow_succ_r, !le_bytes_cons by lia. intros Hv Hv' [= Hm Hd].
    assert (v / 256 = v' / 256) by (apply IH; [zdiv..|done]). zdiv.
Qed.

Lemma le_bytes_length k v : List.length (le_bytes k v) = k.
Proof. revert v. induction k as [|k IH]; intros v; simpl; [done|]. by rewrite IH. Qed.

Lemma le_bytes_nth k v i :
  (i < k)%nat -> nth i (le_bytes k v) 0 = (v / 256 ^ Z.of_nat i) mod 256.
Proof.
  revert v i. induction k as [|k IH]; intros v i Hi; [lia|]. rewrite le_bytes_cons.
  destruct i as [|i]; [by rewrite Z.pow_0_r, Z.div_1_r|]. cbn [nth].
  rewrite IH by lia. rewrite Nat2Z.inj_succ, Z.pow_succ_r by lia.
  by rewrite Z.div_div by lia.
Qed.

(** Clearing the top bit changes nothing below [2 ^ 63]. *)
Lemma le64_small n : 0 <= n < 2 ^ 63 -> le64 n = le_bytes 8 n.
Proof.
  intros Hn. unfold le64. change 127 with (2 ^ 7 - 1). rewrite js_and_ones by lia.
  rewrite le_bytes_nth by lia. change (256 ^ Z.of_nat 7) with (2 ^ 56).
  assert (Hq : 0 <= n / 2 ^ 56 < 2 ^ 7) by (split; [apply Z.div_pos; lia|apply Z.div_lt_upper_bound; lia]).
  rewrite (Z.mod_small _ 256), (Z.mod_small _ (2 ^ 7)) by lia.
  apply list_insert_id.
  destruct (lookup_lt_is_Some_2 (le_bytes 8 n) 7) as [x Hx]; [rewrite le_bytes_length; lia|].
  pose proof (nth_lookup_Some _ _ 0 _ Hx) as Hn'. rewrite le_bytes_nth in Hn' by lia.
  change (256 ^ Z.of_nat 7) with (2 ^ 56) in Hn'. rewrite Z.mod_small in Hn' by lia. by rewrite Hx, Hn'.
Qed.

Lemma le64_length n : List.length (le64 n) = 8%nat.
Proof. unfold le64. by rewrite length_insert, le_bytes_length. Qed.

Lemma le64_inj n m : 0 <= n < 2 ^ 63 -> 0 <= m < 2 ^ 63 -> le64 n = le64 m -> n = m.
Proof.
  intros Hn Hm. rewrite !le64_small by done. apply le_bytes_inj; simpl Z.of_nat; lia.
Qed.

(** A length a JavaScript typed array can have. *)
Definition js_length {A} (l : list A) : Prop := Z.of_nat (List.length l) < 2 ^ 53.

Lemma pae_inj ps qs :
  js_length ps -> js_length qs -> Forall js_length ps -> Forall js_length qs ->
  pae ps = pae qs -> ps = qs.
Proof.
  unfold js_length, pae. intros Hp Hq Hps Hqs H.
  apply app_inj_1 in H as [Hl H]; [|by rewrite !le64_length].
  apply le64_inj in Hl; [|lia..]. apply Nat2Z.inj in Hl. clear Hp Hq.
  revert qs Hqs Hl H. induction Hps as [|p ps Hp _ IH]; intros [|q qs]; try done.
  intros [Hq Hqs]%Forall_cons [= Hl]. cbn [map concat]. rewrite <- !app_assoc. intros H.
  apply app_inj_1 in H as [Hn H]; [|by rewrite !le64_length].
  apply le64_inj in Hn; [|lia..]. apply Nat2Z.inj in Hn.
  apply app_inj_1 in H as [-> H]; [|done]. f_equal. by apply IH.
Qed.

(** ** Round trip *)

Lemma parseFooter_canonical kid bs :
  Forall is_unit kid -> kid <> [] -> canonicalize (plain [(js "kid", JStr kid)]) = Ok bs ->
  parseFooter bs = Ok kid.
Proof.
  intros Hu Hne H.
  assert (Hwf : val_wf (plain [(js "kid", JStr kid)])).
  { apply val_wf_obj. split_and!; [done|decided|]. apply Forall_singleton. split; [decided|done]. }
  destruct (canonicalize_text _ bs Hwf H) as (t & Ht & _ & Hd & _).
  unfold parseFooter. rewrite Hd, (strictParse_text _ t Hwf) by done. cbn [rbind].
  by destruct kid.
Qed.

Lemma canonicalize_nonempty v bs : canonicalize v = Ok bs -> val_wf v -> bs <> [].
Proof.
  intros H Hwf ->. destruct (canonicalize_text v [] Hwf H) as (t & Ht & _ & Hd & _).
  injection Hd as <-. unfold canonical_text in Ht. case_hyp Ht; [|done].
  by destruct (text_head v [] Ht) as (? & ? & ? & ?).
Qed.

Section Roundtrip.
Context {KH : KeyHandles}.

Lemma lic2_encode_inv input token :
  lic2_encode input = Ok token ->
  exists mb fb sig,
    i_alg input = ed25519
    /\ canonicalize (i_payload input) = Ok mb
    /\ canonicalize (plain [(js "kid", JStr (i_kid input))]) = Ok fb
    /\ b_sign (i_backend input) (i_privateKey input) (lic2_signingInputFor mb fb) = Ok sig
    /\ token = LIC2_PREFIX ++ base64url.encode (mb ++ sig) ++ 46 :: base64url.encode fb.
Proof.
  intros H. unfold lic2_encode in H. case_hyp H; [done|]. bool_prop.
  apply rbind_ok_inv in H as (mb & Hm & H). apply rbind_ok_inv in H as (fb & Hf & H).
  apply rbind_ok_inv in H as (sig & Hs & [= <-]). exists mb, fb, sig. split_and!; try done.
  by match goal with H : _ ∈ LIC2_ALGS |- _ => apply list_elem_of_singleton in H end.
Qed.

Lemma lic2_decode_encode input token :
  text_ok (i_kid input) -> i_kid input <> [] ->
  val_wf (i_payload input) -> no_proto_key (i_payload input) = true ->
  (forall d s, b_sign (i_backend input) (i_privateKey input) d = Ok s ->
     Forall is_byte s /\ List.length s = SIG_LEN) ->
  lic2_encode input = Ok token ->
  exists signingInput sig,
    b_sign (i_backend input) (i_privateKey input) signingInput = Ok sig
    /\ startsWith token LIC2_PREFIX = true
    /\ decodeLIC2 token
       = Ok (mkEnvelope (mkHeader None None (i_alg input) (i_kid input))
               (canon (i_payload input)) signingInput sig).
Proof.
  intros [Hku Hkw] Hkn Hwf Hp Hb H.
  destruct (lic2_encode_inv input token H) as (mb & fb & sig & Ha & Hm & Hf & Hs & ->).
  destruct (Hb _ _ Hs) as [Hsb Hsl].
  destruct (canonicalize_text _ mb Hwf Hm) as (t & Ht & _ & Hmd & Hmb).
  assert (Hfwf : val_wf (plain [(js "kid", JStr (i_kid input))])).
  { apply val_wf_obj. split_and!; [done|decided|]. apply Forall_singleton. split; [decided|done]. }
  destruct (canonicalize_text _ fb Hfwf Hf) as (_ & _ & _ & _ & Hfb).
  exists (lic2_signingInputFor mb fb), sig. split_and!; [done|apply startsWith_app|].
  assert (Hbb : Forall is_byte (mb ++ sig)) by (by apply Forall_app).
  unfold decodeLIC2. rewrite drop_app_length. cbv zeta.
  assert (Hsplit : split_on 46 (base64url.encode (mb ++ sig) ++ 46 :: base64url.encode fb)
                   = [base64url.encode (mb ++ sig); base64url.encode fb]).
  { rewrite split_on_app by (by apply alphabet_no_dot, base64url_facts.encode_alphabet).
    by rewrite split_on_no by (by apply alphabet_no_dot, base64url_facts.encode_alphabet). }
  destruct (base64url.encode (mb ++ sig) ++ 46 :: base64url.encode fb) as [|c r] eqn:E.
  { by apply app_nil in E as [_ ?]. }
  rewrite Hsplit. cbn [List.length nth nth_error Z.of_nat]. change (2 <? _) with false. cbv iota.
  rewrite !base64url_facts.decode_encode_bytes by done. cbn [rbind].
  pose proof (canonicalize_nonempty _ _ Hm Hwf) as Hne.
  assert (Hlen : (List.length (mb ++ sig) <=? SIG_LEN)%nat = false).
  { rewrite length_app. apply Nat.leb_gt. destruct mb; [done|simpl; lia]. }
  rewrite Hlen. rewrite length_app, Hsl, Nat.add_sub, take_app_length, drop_app_length.
  rewrite (parseFooter_canonical (i_kid input)) by done.
  pose proof (canonicalize_nonempty _ _ Hf Hfwf) as Hfne. destruct fb as [|b0 fb]; [done|].
  cbn [rbind]. rewrite Hmd, (strictParse_text _ t Hwf) by done. cbn [rbind].
  unfold canonical_text in Ht. case_hyp Ht; [|done].
  assert (isJsonObject (canon (i_payload input)) = true) as -> by (by destruct (i_payload input)).
  by rewrite Ha.
Qed.
End Roundtrip.

Lemma decodeLIC2_inv token e :
  decodeLIC2 token = Ok e ->
  exists body fb text,
    Forall is_byte body /\ Forall is_byte fb
    /\ (SIG_LEN < List.length body)%nat
    /\ e_signingInput e = lic2_signingInputFor (take (List.length body - SIG_LEN) body) fb
    /\ e_signature e = drop (List.length body - SIG_LEN) body
    /\ text_decode (take (List.length body - SIG_LEN) body) = Some text
    /\ strictParse text = Ok (e_payload e)
    /\ e_header e = mkHeader None None ed25519 (h_kid (e_header e))
    /\ parseFooter fb = Ok (h_kid (e_header e))
    /\ (List.length body <= List.length token)%nat /\ (List.length fb <= List.length token)%nat.
Proof.
  intros H. unfold decodeLIC2 in H. cbv zeta in H.
  set (rest := drop (List.length LIC2_PREFIX) token) in *.
  assert (Hrest : (List.length rest <= List.length token)%nat) by (unfold rest; rewrite length_drop; lia).
  pose proof (split_on_length 46 rest) as Hseg. destruct (split_on_cons 46 rest) as (s0 & ss & Hs).
  rewrite Hs in H, Hseg. destruct rest as [|c r]; [done|]. case_hyp H; [done|].
  cbn [nth nth_error] in H. apply rbind_ok_inv in H as (body & Hb & H).
  destruct (_ <=? _)%nat eqn:Hl in H; [done|]. apply Nat.leb_gt in Hl.
  apply rbind_ok_inv in H as (fb & Hf & H). destruct ss as [|s1 ss]; [by injection Hf as <-|].
  cbn [hd_error nth_error] in Hf. destruct fb as [|b0 fb]; [done|].
  apply rbind_ok_inv in H as (kid & Hk & H). destruct (text_decode _) as [text|] eqn:Ht; [|done].
  apply rbind_ok_inv in H as (payload & Hp & H). case_hyp H; [done|]. injection H as <-.
  exists body, (b0 :: fb), text. pose proof (base64url_facts.decode_length _ _ Hb).
  pose proof (base64url_facts.decode_length _ _ Hf).
  assert (List.length s0 <= List.length token)%nat by (specialize (Hseg s0 ltac:(left)); lia).
  assert (List.length s1 <= List.length token)%nat
    by (specialize (Hseg s1 ltac:(right; left)); lia).
  split_and!; try done; eauto using base64url_facts.decode_bytes; lia.
Qed.
