(* ===== verification/Tokens.v ===== *)
(** * Tokens: what signing and verifying promise, for both formats

    The registry once [lic1.ts] and [lic2.ts] are loaded, and the theorems
    about [encode], [decodeUnverified] and [verify] over it. *)

From S2P Require Import Prelude Errors JsNum Text Json Canonical StrictJson Types Crypto TokenCodec Lic1 Lic2.

Section Tokens.
Context {KH : KeyHandles}.

Lemma default_codecs_eq :
  default_codecs = [(LIC1_PREFIX, lic1Codec); (LIC2_PREFIX, lic2Codec)].
Proof. reflexivity. Qed.

(** A LIC1 prefix and a LIC2 prefix exclude each other. *)
Lemma codecFor_default token codec :
  codecFor default_codecs token = Ok codec ->
  codec = lic1Codec /\ startsWith token LIC1_PREFIX = true
  \/ codec = lic2Codec /\ startsWith token LIC2_PREFIX = true.
Proof.
  rewrite default_codecs_eq. unfold codecFor. cbn [List.find snd lic1Codec lic2Codec c_prefix].
  destruct (startsWith token LIC1_PREFIX) eqn:E1; [intros [= <-]; by left|].
  destruct (startsWith token LIC2_PREFIX) eqn:E2; [intros [= <-]; by right|done].
Qed.

Lemma lic2_not_lic1 token : startsWith token LIC2_PREFIX = true -> startsWith token LIC1_PREFIX = false.
Proof.
  destruct token as [|c r]; [done|].
  change LIC2_PREFIX with (118 :: js "4.public."). change LIC1_PREFIX with (76 :: js "IC1.").
  cbn [startsWith]. destruct (118 =? c) eqn:E; [|done]. bool_prop. subst. done.
Qed.

Lemma decodeUnverified_lic1 token :
  startsWith token LIC1_PREFIX = true -> decodeUnverified default_codecs token = decodeLIC1 token.
Proof.
  intros H. unfold decodeUnverified, codecFor. rewrite default_codecs_eq.
  cbn [List.find snd lic1Codec lic2Codec c_prefix]. by rewrite H.
Qed.

Lemma decodeUnverified_lic2 token :
  startsWith token LIC2_PREFIX = true -> decodeUnverified default_codecs token = decodeLIC2 token.
Proof.
  intros H. unfold decodeUnverified, codecFor. rewrite default_codecs_eq.
  cbn [List.find snd lic1Codec lic2Codec c_prefix]. by rewrite (lic2_not_lic1 _ H), H.
Qed.

Lemma decodeUnverified_cases token e :
  decodeUnverified default_codecs token = Ok e ->
  decodeLIC1 token = Ok e \/ decodeLIC2 token = Ok e.
Proof.
  intros H. unfold decodeUnverified in H. apply rbind_ok_inv in H as (codec & Hc & H).
  apply codecFor_default in Hc as [[-> _]|[-> _]]; auto.
Qed.

(** A signer's output is a byte string; Ed25519's has 64 of them. *)
Definition signs_bytes (b : SignatureBackend) (priv : PrivateKeyHandle) : Prop :=
  forall d s, b_sign b priv d = Ok s ->
    Forall is_byte s /\ (b_alg b = ed25519 -> List.length s = SIG_LEN).

(** What the issuer encodes in a format, [decodeUnverified] decodes. *)
Lemma decode_encode f codec input token :
  codecForFormat default_codecs f = Ok codec -> c_encode codec input = Ok token ->
  text_ok (i_kid input) -> i_kid input <> [] ->
  val_wf (i_payload input) -> no_proto_key (i_payload input) = true ->
  b_alg (i_backend input) = i_alg input -> signs_bytes (i_backend input) (i_privateKey input) ->
  exists e, decodeUnverified default_codecs token = Ok e
    /\ h_alg (e_header e) = i_alg input /\ h_kid (e_header e) = i_kid input
    /\ e_payload e = canon (i_payload input)
    /\ b_sign (i_backend input) (i_privateKey input) (e_signingInput e) = Ok (e_signature e).
Proof.
  intros Hf He Hk Hkn Hwf Hp Ha Hs. unfold codecForFormat in Hf. rewrite default_codecs_eq in Hf.
  destruct f.
  - injection Hf as <-. cbn [c_encode lic1Codec] in He.
    destruct (lic1_decode_encode input token) as (d & sig & Hsig & Hst & Hd); try done.
    { intros d s Hds. by destruct (Hs d s Hds). }
    rewrite decodeUnverified_lic1 by done. eexists. split_and!; done.
  - injection Hf as <-. cbn [c_encode lic2Codec] in He.
    destruct (lic2_encode_inv input token He) as (_ & _ & _ & Hal & _).
    destruct (lic2_decode_encode input token) as (d & sig & Hsig & Hst & Hd); try done.
    { intros d s Hds. destruct (Hs d s Hds) as [? Hl]. split; [done|]. apply Hl. congruence. }
    rewrite decodeUnverified_lic2 by done. eexists. split_and!; done.
Qed.
End Tokens.

Lemma decode_alphabet s bs : base64url.decode s = Ok bs -> forallb base64url.alphabet s = true.
Proof.
  unfold base64url.decode. case_goal; [done|]. by destruct (forallb base64url.alphabet s).
Qed.

(** The first byte of a LIC1 signing input is a base64url character or the
    dot; of a LIC2 one, the length byte 4. *)
Lemma lic2_signingInput_head m f : exists r, lic2_signingInputFor m f = 4 :: r.
Proof. unfold lic2_signingInputFor, pae. by eexists. Qed.

Lemma lic1_signingInput_head token e : decodeLIC1 token = Ok e -> head (e_signingInput e) <> Some 4.
Proof.
  intros H. destruct (decodeLIC1_inv token e H) as (p & h & b & s & hb & pb & _ & Hh & _ & _ & -> & _).
  destruct h as [|c h]; [done|]. simpl. intros [= ->].
  by apply decode_alphabet in Hh.
Qed.

(** Text cut at its first dot. *)
Lemma cut_at_dot h h' b b' :
  forallb base64url.alphabet h = true -> forallb base64url.alphabet h' = true ->
  h ++ 46 :: b = h' ++ 46 :: b' -> h = h' /\ b = b'.
Proof.
  revert h'. induction h as [|c h IH]; intros [|c' h']; cbn [forallb app].
  - by intros _ _ [= ->].
  - intros _ [H _]%andb_prop [= <- _]. done.
  - intros [H _]%andb_prop _ [= -> _]. done.
  - intros [_ H]%andb_prop [_ H']%andb_prop [= <- Heq]. destruct (IH h' H H' Heq). by subst.
Qed.

Lemma lic1_input_claims t t' e e' :
  decodeLIC1 t = Ok e -> decodeLIC1 t' = Ok e' -> e_signingInput e = e_signingInput e' ->
  e_header e = e_header e' /\ e_payload e = e_payload e'.
Proof.
  intros H H' Heq.
  destruct (decodeLIC1_inv t e H) as (p & h & b & s & hb & pb & _ & Hh & Hb & _ & Hi & Hp & Hhd).
  destruct (decodeLIC1_inv t' e' H') as (p' & h' & b' & s' & hb' & pb' & _ & Hh' & Hb' & _ & Hi' & Hp' & Hhd').
  rewrite Hi, Hi' in Heq.
  apply cut_at_dot in Heq as [-> ->]; [|by eapply decode_alphabet..].
  rewrite Hh in Hh'. injection Hh' as <-. rewrite Hb in Hb'. injection Hb' as <-.
  rewrite Hp in Hp'. rewrite Hhd in Hhd'. injection Hp' as ->. injection Hhd' as Ha Hk.
  split; [|done]. unfold decodeLIC1 in H, H'.
  destruct (split_on 46 t) as [|? [|? [|? [|? [|]]]]]; try done.
  destruct (split_on 46 t') as [|? [|? [|? [|? [|]]]]]; try done.
  run_inv. simplify_eq. simpl in *. by rewrite Ha, Hk.
Qed.

Lemma lic2_input_claims t t' e e' :
  js_length t -> js_length t' ->
  decodeLIC2 t = Ok e -> decodeLIC2 t' = Ok e' -> e_signingInput e = e_signingInput e' ->
  e_header e = e_header e' /\ e_payload e = e_payload e'.
Proof.
  intros Hl Hl' H H' Heq.
  destruct (decodeLIC2_inv t e H) as (bd & fb & tx & _ & _ & _ & Hi & _ & Ht & Hp & Hh & Hk & Hbl & Hfl).
  destruct (decodeLIC2_inv t' e' H')
    as (bd' & fb' & tx' & _ & _ & _ & Hi' & _ & Ht' & Hp' & Hh' & Hk' & Hbl' & Hfl').
  unfold js_length in *. rewrite Hi, Hi' in Heq. apply pae_inj in Heq; [|done..| |].
  - injection Heq as Hm Hf. subst fb'. rewrite Hm, Ht' in Ht. injection Ht as <-.
    rewrite Hp' in Hp. injection Hp as ->. rewrite Hk' in Hk. injection Hk as Hk.
    rewrite Hh, Hh', Hk. done.
  - repeat apply Forall_cons_2; try apply Forall_nil_2; unfold js_length; rewrite ?length_take;
      [done|lia|lia|done].
  - repeat apply Forall_cons_2; try apply Forall_nil_2; unfold js_length; rewrite ?length_take;
      [done|lia|lia|done].
Qed.

(** The two formats never sign the same bytes. *)
Lemma signing_inputs_differ t t' e e' :
  decodeLIC1 t = Ok e -> decodeLIC2 t' = Ok e' -> e_signingInput e <> e_signingInput e'.
Proof.
  intros H H' Heq. apply lic1_signingInput_head in H. destruct H. rewrite Heq.
  destruct (decodeLIC2_inv t' e' H') as (b & f & _ & _ & _ & _ & -> & _).
  by destruct (lic2_signingInput_head (take (List.length b - SIG_LEN) b) f) as [r ->].
Qed.

(** ** A concrete key, registry and token *)

Definition toy_input (payload : jsval) : CodecEncodeInput (KH := toy.handles) :=
  mkEncodeInput ed25519 (js "k1") payload 7 toy.backend.

Definition toy_opts : VerifyOptions (KH := toy.handles) :=
  mkVerifyOptions [(ed25519, toy.backend)] [(js "k1", ed25519)] [(js "k1", toy.record)].

Definition toy_token (f : TokenFormat) : jsstr :=
  match (let? c := codecForFormat default_codecs f in c_encode c (toy_input sample_claims)) with
  | Ok t => t
  | Throw _ => []
  end.

Definition toy_envelope (f : TokenFormat) : DecodedEnvelope :=
  match decodeUnverified (KH := toy.handles) default_codecs (toy_token f) with
  | Ok e => e
  | Throw _ => mkEnvelope (mkHeader None None ed25519 []) JNull [] []
  end.

(** The token with the last character of its signature replaced: its low four
    bits are not part of any byte. *)
Definition bent_token : jsstr :=
  let t := toy_token LIC1 in
  take (List.length t - 1) t ++ map (Z.add 1) (drop (List.length t - 1) t).

Lemma toy_signs_bytes : signs_bytes toy.backend 7.
Proof. intros d s [= <-]. split; [apply toy.toy_sign_bytes|done]. Qed.

(** A token encoded with a key pair verifies under it. *)
Lemma encode_verifies {KH : KeyHandles} f codec input token opts record pub :
  codecForFormat default_codecs f = Ok codec -> c_encode codec input = Ok token ->
  text_ok (i_kid input) -> i_kid input <> [] ->
  val_wf (i_payload input) -> no_proto_key (i_payload input) = true ->
  b_alg (i_backend input) = i_alg input -> signs_bytes (i_backend input) (i_privateKey input) ->
  key_pair (i_backend input) (i_privateKey input) pub ->
  bindings_get (v_bindings opts) (i_kid input) = Some (i_alg input) ->
  registry_get (v_registry opts) (alg_str (i_alg input)) = Ok (i_backend input) ->
  map_get (v_keys opts) (i_kid input) = Some record -> kr_alg record = i_alg input ->
  b_importPublic (i_backend input) (PemMaterial (kr_pem record)) = Ok pub ->
  exists e, verify default_codecs token opts = Ok e
    /\ h_alg (e_header e) = i_alg input /\ h_kid (e_header e) = i_kid input
    /\ e_payload e = canon (i_payload input).
Proof.
  intros Hf He Hk Hkn Hwf Hp Ha Hs Hkp Hbind Hreg Hrec Hra Himp.
  destruct (decode_encode f codec input token) as (e & Hd & Hal & Hkid & Hpl & Hsig); try done.
  exists e. split_and!; try done. unfold verify. rewrite Hd. cbn [rbind]. rewrite Hal, Hkid.
  rewrite (proj2 (bindings_expect_ok _ _ _ (i_alg input))) by done. cbn [rbind]. rewrite Hreg, Hrec.
  cbn [rbind]. rewrite bool_decide_false by naive_solver. rewrite Himp. cbn [rbind].
  destruct (Hkp _ _ Hsig) as [-> _]. done.
Qed.

(** ** Properties *)

(** C12: issue and verify agree: a token encoded in either format with a key
    pair verifies under the bindings, registry and key record of that key,
    and verification returns the key id, the algorithm and exactly the
    claims that were signed. *)
Theorem encode_verify_roundtrip {KH : KeyHandles} f codec input token opts record pub :
  codecForFormat default_codecs f = Ok codec -> c_encode codec input = Ok token ->
  text_ok (i_kid input) -> i_kid input <> [] ->
  val_wf (i_payload input) -> no_proto_key (i_payload input) = true ->
  b_alg (i_backend input) = i_alg input -> signs_bytes (i_backend input) (i_privateKey input) ->
  key_pair (i_backend input) (i_privateKey input) pub ->
  bindings_get (v_bindings opts) (i_kid input) = Some (i_alg input) ->
  registry_get (v_registry opts) (alg_str (i_alg input)) = Ok (i_backend input) ->
  map_get (v_keys opts) (i_kid input) = Some record -> kr_alg record = i_alg input ->
  b_importPublic (i_backend input) (PemMaterial (kr_pem record)) = Ok pub ->
  exists e, verify default_codecs token opts = Ok e
    /\ h_alg (e_header e) = i_alg input /\ h_kid (e_header e) = i_kid input
    /\ e_payload e = canon (i_payload input).
Proof. exact (encode_verifies f codec input token opts record pub). Qed.

Lemma encode_verify_roundtrip_witness :
  exists e, verify default_codecs (toy_token LIC2) toy_opts = Ok e
    /\ h_alg (e_header e) = ed25519 /\ h_kid (e_header e) = js "k1"
    /\ e_payload e = canon sample_claims.
Proof.
  apply (encode_verify_roundtrip LIC2 lic2Codec (toy_input sample_claims) (toy_token LIC2)
           toy_opts toy.record 7); try reflexivity; try done.
  - split; [decided|reflexivity].
  - apply sample_claims_wf.
  - apply toy_signs_bytes.
  - apply toy.toy_key_pair.
Defined.



(** The signed bytes determine what is verified: two tokens, of
    whichever formats, that decode to the same signing input carry the same
    header and the same claims, so a signature cannot be moved to other
    claims nor from one format to the other. *)
Theorem signing_input_determines_claims {KH : KeyHandles} t t' e e' :
  js_length t -> js_length t' ->
  decodeUnverified default_codecs t = Ok e -> decodeUnverified default_codecs t' = Ok e' ->
  e_signingInput e = e_signingInput e' ->
  e_header e = e_header e' /\ e_payload e = e_payload e'.
Proof.
  intros Hl Hl' H H' Heq.
  destruct (decodeUnverified_cases t e H) as [H1|H2], (decodeUnverified_cases t' e' H') as [H1'|H2'].
  - by apply (lic1_input_claims t t').
  - by destruct (signing_inputs_differ t t' e e').
  - by destruct (signing_inputs_differ t' t e' e).
  - by apply (lic2_input_claims t t').
Qed.

Lemma signing_input_determines_claims_witness :
  bool_decide (bent_token = toy_token LIC1) = false
  /\ e_header (toy_envelope LIC1) = e_header (toy_envelope LIC1)
  /\ e_payload (toy_envelope LIC1) = e_payload (toy_envelope LIC1).
Proof.
  split; [vm_compute; reflexivity|].
  apply (signing_input_determines_claims (toy_token LIC1) bent_token); vm_compute; reflexivity.
Defined.

(** The signature segment is malleable: the decoder drops the unused bits of
    its last character, so two different tokens verify as one. *)
Example bent_token_verifies :
  bool_decide (bent_token = toy_token LIC1) = false
  /\ verify default_codecs bent_token toy_opts = verify default_codecs (toy_token LIC1) toy_opts
  /\ verify default_codecs bent_token toy_opts = Ok (toy_envelope LIC1).
Proof. split_and!; vm_compute; reflexivity. Qed.

(** The pre-authentication encoding is injective: two vectors of byte
    strings with the same encoding are the same vector. *)
Theorem pae_injective ps qs :
  js_length ps -> js_length qs -> Forall js_length ps -> Forall js_length qs ->
  pae ps = pae qs <-> ps = qs.
Proof. intros. split; [by apply pae_inj|by intros ->]. Qed.

Lemma pae_injective_witness :
  pae [[1]; [2; 3]] = pae [[1]; [2]; [3]] <-> [[1]; [2; 3]] = [[1]; [2]; [3]].
Proof. apply pae_injective; try reflexivity; repeat constructor. Defined.
