(* ===== verification/Id.v ===== *)
(** * Id: instants, clocks and UUIDv7 identifiers

    [src/typescript/src/id.ts]. Times are integers of milliseconds since the
    epoch; calendar arithmetic is that of ECMAScript's [Date]. The bytes of
    [randomFillSync] come from an entropy stream in the world. *)

From S2P Require Import Prelude Errors JsNum Text Types.

(** ** Fixed-width decimals *)

(** [k] decimal digits of [n], zero-padded. *)
Fixpoint pad (k : nat) (n : Z) : jsstr :=
  match k with
  | O => []
  | S k' => pad k' (n / 10) ++ [48 + n mod 10]
  end.

(** ** The calendar *)

Definition msPerDay : Z := 86400000.

(** First day of year [y], counted from 1970-01-01. *)
Definition day_from_year (y : Z) : Z :=
  365 * (y - 1970) + (y - 1969) / 4 - (y - 1901) / 100 + (y - 1601) / 400.

(** The year of day [d]: an estimate that is off by at most one. *)
Definition year_from_day (d : Z) : Z :=
  let y := 1970 + d * 400 / 146097 in
  if d <? day_from_year y then y - 1
  else if day_from_year (y + 1) <=? d then y + 1 else y.

Definition is_leap (y : Z) : bool := (day_from_year (y + 1) - day_from_year y) =? 366.

(** First day of month [m] (0 to 12) within a year. *)
Definition month_start (leap : bool) (m : Z) : Z :=
  let l := if leap then 1 else 0 in
  match m with
  | 0 => 0 | 1 => 31 | 2 => 59 + l | 3 => 90 + l | 4 => 120 + l | 5 => 151 + l
  | 6 => 181 + l | 7 => 212 + l | 8 => 243 + l | 9 => 273 + l | 10 => 304 + l | 11 => 334 + l
  | _ => 365 + l
  end.

(** The month (0 to 11) of day [doy] of a year. *)
Definition month_from_doy (leap : bool) (doy : Z) : Z :=
  Z.of_nat (List.length (List.filter (fun m => month_start leap m <=? doy)
                           [1; 2; 3; 4; 5; 6; 7; 8; 9; 10; 11])).

Record Civil : Type := mkCivil { cv_year : Z; cv_month : Z; cv_day : Z }.

(** Month and day counted from 1. *)
Definition civil_from_days (d : Z) : Civil :=
  let y := year_from_day d in
  let doy := d - day_from_year y in
  let m := month_from_doy (is_leap y) doy in
  mkCivil y (m + 1) (doy - month_start (is_leap y) m + 1).

Definition days_from_civil (c : Civil) : Z :=
  day_from_year (cv_year c) + month_start (is_leap (cv_year c)) (cv_month c - 1) + cv_day c - 1.

(** The year field of [toISOString]. *)
Definition iso_year (y : Z) : jsstr :=
  if (0 <=? y) && (y <=? 9999) then pad 4 y
  else (if y <? 0 then [45] else [43]) ++ pad 6 (Z.abs y).

Definition iso_date (d : Z) : jsstr :=
  let c := civil_from_days d in
  iso_year (cv_year c) ++ [45] ++ pad 2 (cv_month c) ++ [45] ++ pad 2 (cv_day c).

(** Hours, minutes, seconds and milliseconds of [t] ms into a day. *)
Definition iso_time (t : Z) : jsstr :=
  pad 2 (t / 3600000) ++ [58] ++ pad 2 (t / 60000 mod 60) ++ [58] ++ pad 2 (t / 1000 mod 60)
  ++ [46] ++ pad 3 (t mod 1000).

(** Largest magnitude of a time value. *)
Definition max_time : Z := 8640000000000000.

(** [isoFromMs]: [toISOString] throws a [RangeError] on an invalid date; the
    millisecond fraction is extended to six digits. *)
Definition isoFromMs (ms : Z) : res Instant :=
  if max_time <? Z.abs ms then Throw PlainError
  else Ok (iso_date (ms / msPerDay) ++ [84] ++ iso_time (ms mod msPerDay) ++ js "000Z").

(** ** Reading an instant back *)

(** The value of [k] digits at the head of [s], and the rest. *)
Fixpoint read_digits (k : nat) (acc : Z) (s : jsstr) : option (Z * jsstr) :=
  match k with
  | O => Some (acc, s)
  | S k' =>
      match s with
      | c :: s' => if isDigit c then read_digits k' (acc * 10 + (c - 48)) s' else None
      | [] => None
      end
  end.

Definition read_char (c : Z) (s : jsstr) : option jsstr :=
  match s with d :: s' => if d =? c then Some s' else None | [] => None end.

(** [Date.parse] on [YYYY-MM-DDTHH:mm:ss.sss...Z], the shape of every instant
    the program writes; digits past the millisecond are dropped. Other texts
    are left to [fallback], since the language leaves them to the engine. *)
Definition parse_iso (s : jsstr) : option Z :=
  '(y, s) ← read_digits 4 0 s; s ← read_char 45 s;
  '(mo, s) ← read_digits 2 0 s; s ← read_char 45 s;
  '(d, s) ← read_digits 2 0 s; s ← read_char 84 s;
  '(h, s) ← read_digits 2 0 s; s ← read_char 58 s;
  '(mi, s) ← read_digits 2 0 s; s ← read_char 58 s;
  '(sec, s) ← read_digits 2 0 s; s ← read_char 46 s;
  '(ms, s) ← read_digits 3 0 s;
  '(_, s) ← read_digits 3 0 s; s ← read_char 90 s;
  match s with
  | [] =>
      if (1 <=? mo) && (mo <=? 12) && (1 <=? d) && (d <=? 31) && (h <=? 23) && (mi <=? 59)
         && (sec <=? 59)
      then Some (days_from_civil (mkCivil y mo d) * msPerDay + h * 3600000 + mi * 60000
                 + sec * 1000 + ms)
      else None
  | _ => None
  end.

Class DateParse : Type := { date_parse_other : jsstr -> option Z }.

(** [Date.parse(iso)]; [None] is NaN. *)
Definition date_parse `{DateParse} (s : jsstr) : option Z :=
  match parse_iso s with Some t => Some t | None => date_parse_other s end.

(** ** Clocks *)

(** [systemClock] reads the machine's clock, here an arbitrary sequence of
    readings. *)
Inductive Clock : Type :=
| systemClock (readings : nat -> Z)
| fixedClock (ms : Z) (iso : Instant)
| advancingClock (ms stepMs : Z).

Definition createFixedClock `{DateParse} (iso : Instant) : res Clock :=
  match date_parse iso with Some ms => Ok (fixedClock ms iso) | None => Throw PlainError end.

Definition createAdvancingClock `{DateParse} (startIso : Instant) (stepMs : Z) : res Clock :=
  match date_parse startIso with
  | Some ms => Ok (advancingClock ms stepMs)
  | None => Throw PlainError
  end.

Definition clock_nowMs (c : Clock) : Z * Clock :=
  match c with
  | systemClock r => (r 0%nat, systemClock (fun n => r (S n)))
  | fixedClock ms _ => (ms, c)
  | advancingClock ms step => (ms, advancingClock (ms + step) step)
  end.

Definition clock_nowIso (c : Clock) : res Instant * Clock :=
  match c with
  | systemClock r => (isoFromMs (r 0%nat), systemClock (fun n => r (S n)))
  | fixedClock _ iso => (Ok iso, c)
  | advancingClock ms _ => (isoFromMs ms, c)
  end.

(** ** UUIDv7 *)

Definition hex_char (n : Z) : Z := if n <? 10 then 48 + n else 87 + n.
Definition hex_byte (b : Z) : jsstr := [hex_char (b / 16); hex_char (b mod 16)].
Definition hex_bytes (bs : list Z) : jsstr := concat (map hex_byte bs).

Definition formatUuid (b : list Z) : UUIDv7 :=
  hex_bytes (take 4 b) ++ [45] ++ hex_bytes (take 2 (drop 4 b)) ++ [45]
  ++ hex_bytes (take 2 (drop 6 b)) ++ [45] ++ hex_bytes (take 2 (drop 8 b)) ++ [45]
  ++ hex_bytes (drop 10 b).

(** The six timestamp bytes; a typed array stores modulo 256. *)
Definition ms_bytes (ms : Z) : list Z :=
  [js_and (ms / 2 ^ 40) 0xff; js_and (ms / 2 ^ 32) 0xff; js_ushr ms 24 mod 256;
   js_ushr ms 16 mod 256; js_ushr ms 8 mod 256; js_and ms 0xff].

(** Version and variant over the ten random bytes. *)
Definition mark_bytes (r : list Z) : list Z :=
  let r := <[0%nat := js_or (js_and (nth 0 r 0) 0x0f) 0x70]> r in
  <[2%nat := js_or (js_and (nth 2 r 0) 0x3f) 0x80]> r.

(** [newUuidV7] at time [ms], with the bytes the runtime filled in. *)
Definition newUuidV7 (ms : Z) (random : list Z) : res UUIDv7 :=
  if (ms <? 0) || (0xffffffffffff <? ms) then Throw PlainError
  else Ok (formatUuid (ms_bytes ms ++ mark_bytes random)).

(** [parseInt(s, 16)]: the longest prefix of hexadecimal digits, after an
    optional [0x]; [None] is NaN. Only called on text without sign or
    spaces. *)
Definition is_hex_digit (c : Z) : bool :=
  isDigit c || ((97 <=? c) && (c <=? 102)) || ((65 <=? c) && (c <=? 70)).
Definition hex_digit_val (c : Z) : Z :=
  if isDigit c then c - 48 else if 97 <=? c then c - 87 else c - 55.

Fixpoint hex_prefix (s : jsstr) : jsstr :=
  match s with
  | c :: s' => if is_hex_digit c then c :: hex_prefix s' else []
  | [] => []
  end.

Definition parse_hex (s : jsstr) : option Z :=
  let s := match s with
           | c :: x :: s' => if (c =? 48) && ((x =? 120) || (x =? 88)) then s' else s
           | _ => s
           end in
  match hex_prefix s with
  | [] => None
  | ds => Some (fold_left (fun a d => a * 16 + hex_digit_val d) ds 0)
  end.

(** [extractUuidV7Ms]; [None] inside is NaN. *)
Definition extractUuidV7Ms (id : UUIDv7) : res (option Z) :=
  let cleaned := List.filter (fun c => negb (c =? 45)) id in
  if negb (List.length cleaned =? 32)%nat then Throw PlainError
  else
    match parse_hex (take 1 (drop 12 cleaned)) with
    | Some 7 => Ok (parse_hex (take 12 cleaned))
    | _ => Throw PlainError
    end.

(** ** Fixed-width decimals compare like numbers *)

Lemma pad_length k n : List.length (pad k n) = k.
Proof. revert n. induction k as [|k IH]; intros n; simpl; [done|]. rewrite length_app, IH. simpl. lia. Qed.

Lemma pad_lt k a b :
  0 <= a < b -> b < 10 ^ Z.of_nat k -> str_ltb (pad k a) (pad k b) = true.
Proof.
  revert a b. induction k as [|k IH]; intros a b Hab Hb; [simpl in *; lia|].
  rewrite Nat2Z.inj_succ, Z.pow_succ_r in Hb by lia. cbn [pad].
  destruct (decide (a / 10 = b / 10)) as [Heq|Hne].
  - rewrite Heq, str_ltb_app_same. cbn [str_ltb].
    rewrite (proj2 (Z.eqb_neq _ _)) by zdiv. apply Z.ltb_lt. zdiv.
  - apply str_ltb_app_lt; [by rewrite !pad_length|]. apply IH; zdiv.
Qed.

(** One field after a common prefix, then whatever follows. *)
Lemma pad_app_lt k a b s t :
  0 <= a < b -> b < 10 ^ Z.of_nat k -> str_ltb (pad k a ++ s) (pad k b ++ t) = true.
Proof. intros. apply str_ltb_app_lt; [by rewrite !pad_length|]. by apply pad_lt. Qed.

Lemma read_digits_pad k acc n s :
  0 <= n < 10 ^ Z.of_nat k -> read_digits k acc (pad k n ++ s) = Some (acc * 10 ^ Z.of_nat k + n, s).
Proof.
  assert (Hgen : forall k acc n s j, 0 <= n < 10 ^ Z.of_nat k ->
    read_digits (k + j) acc (pad k n ++ s) = read_digits j (acc * 10 ^ Z.of_nat k + n) s).
  { clear. induction k as [|k IH]; intros acc n s j Hn.
    - simpl in *. f_equal. lia.
    - rewrite Nat2Z.inj_succ, Z.pow_succ_r in * by lia. cbn [pad]. rewrite <- app_assoc.
      replace (S k + j)%nat with (k + S j)%nat by lia. rewrite IH by zdiv.
      cbn [app read_digits]. unfold isDigit.
      rewrite (proj2 (Z.leb_le 48 _)), (proj2 (Z.leb_le _ 57)) by zdiv. cbn [andb]. f_equal. zdiv. }
  intros Hn. rewrite <- (Nat.add_0_r k) at 1. by rewrite Hgen.
Qed.

(** ** The calendar is consistent *)

Lemma year_from_day_spec d :
  day_from_year (year_from_day d) <= d < day_from_year (year_from_day d + 1).
Proof.
  unfold year_from_day, day_from_year. cbv zeta. repeat case_goal; bool_prop; zdiv.
Qed.

Lemma year_length y : 365 <= day_from_year (y + 1) - day_from_year y <= 366.
Proof. unfold day_from_year. zdiv. Qed.

Lemma year_end y : day_from_year (y + 1) = day_from_year y + (if is_leap y then 366 else 365).
Proof. pose proof (year_length y). unfold is_leap. case_goal; bool_prop; lia. Qed.

Lemma day_from_year_mono y y' : y < y' -> day_from_year (y + 1) <= day_from_year y'.
Proof. unfold day_from_year. zdiv. Qed.

Lemma year_mono d d' : d <= d' -> year_from_day d <= year_from_day d'.
Proof.
  intros H. pose proof (year_from_day_spec d). pose proof (year_from_day_spec d').
  destruct (Z.le_gt_cases (year_from_day d) (year_from_day d')) as [|Hgt]; [done|].
  pose proof (day_from_year_mono _ _ Hgt). lia.
Qed.

(** Case analysis over a small range of integers. *)
Lemma range_check (P : Z -> bool) n z :
  forallb (fun k => P (Z.of_nat k)) (seq 0 n) = true -> 0 <= z < Z.of_nat n -> P z = true.
Proof.
  rewrite forallb_Forall, Forall_forall. intros H Hz. rewrite <- (Z2Nat.id z) by lia.
  apply H, elem_of_seq. lia.
Qed.

Lemma month_from_doy_spec (leap : bool) doy :
  0 <= doy < (if leap then 366 else 365) ->
  let m := month_from_doy leap doy in
  0 <= m <= 11 /\ month_start leap m <= doy < month_start leap (m + 1).
Proof.
  intros H. cbv zeta.
  assert (Hc : (let m := month_from_doy leap doy in
    (0 <=? m) && (m <=? 11) && (month_start leap m <=? doy) && (doy <? month_start leap (m + 1))) = true).
  { destruct leap.
    - apply (range_check (fun doy => let m := month_from_doy true doy in
        (0 <=? m) && (m <=? 11) && (month_start true m <=? doy) && (doy <? month_start true (m + 1))) 366);
        [vm_compute; reflexivity|lia].
    - apply (range_check (fun doy => let m := month_from_doy false doy in
        (0 <=? m) && (m <=? 11) && (month_start false m <=? doy) && (doy <? month_start false (m + 1))) 365);
        [vm_compute; reflexivity|lia]. }
  cbv zeta in Hc. bool_prop. lia.
Qed.

Lemma month_start_step leap m :
  0 <= m < 12 -> month_start leap m + 28 <= month_start leap (m + 1).
Proof.
  intros Hm. apply Z.leb_le. destruct leap.
  - apply (range_check (fun m => month_start true m + 28 <=? month_start true (m + 1)) 12);
      [reflexivity|lia].
  - apply (range_check (fun m => month_start false m + 28 <=? month_start false (m + 1)) 12);
      [reflexivity|lia].
Qed.

Lemma month_start_mono leap a b : 0 <= a < b -> b <= 12 -> month_start leap a < month_start leap b.
Proof.
  intros Ha Hb. replace b with (a + 1 + Z.of_nat (Z.to_nat (b - a - 1))) in * by lia.
  assert (Ha0 : 0 <= a) by lia. clear Ha. revert Hb. generalize (Z.to_nat (b - a - 1)).
  induction n as [|k IH]; intros Hb; rewrite ?Z.add_0_r.
  - pose proof (month_start_step leap a ltac:(lia)). lia.
  - specialize (IH ltac:(lia)). pose proof (month_start_step leap (a + 1 + Z.of_nat k) ltac:(lia)).
    replace (a + 1 + Z.of_nat (S k)) with (a + 1 + Z.of_nat k + 1) by lia. lia.
Qed.

(** The fields of a date are in range and denote the day they came from. *)
Lemma civil_spec d :
  let c := civil_from_days d in
  1 <= cv_month c <= 12 /\ 1 <= cv_day c <= 31 /\ days_from_civil c = d.
Proof.
  cbv zeta. unfold civil_from_days, days_from_civil. cbn [cv_year cv_month cv_day].
  pose proof (year_from_day_spec d) as Hy. set (y := year_from_day d) in *.
  pose proof (year_end y) as He. set (doy := d - day_from_year y) in *.
  destruct (month_from_doy_spec (is_leap y) doy) as [Hm Hd].
  { destruct (is_leap y); lia. }
  set (m := month_from_doy (is_leap y) doy) in *. replace (m + 1 - 1) with m by lia.
  split_and!; try lia.
  assert (month_start (is_leap y) (m + 1) <= month_start (is_leap y) m + 31); [|lia].
  apply Z.leb_le. destruct (is_leap y).
  - apply (range_check (fun m => month_start true (m + 1) <=? month_start true m + 31) 12);
      [reflexivity|lia].
  - apply (range_check (fun m => month_start false (m + 1) <=? month_start false m + 31) 12);
      [reflexivity|lia].
Qed.

(** Within the years 0 to 9999, later days have greater dates. *)
Definition four_digit_day (d : Z) : Prop := day_from_year 0 <= d < day_from_year 10000.

Lemma four_digit_year d : four_digit_day d -> 0 <= year_from_day d <= 9999.
Proof.
  unfold four_digit_day. intros H. pose proof (year_from_day_spec d) as Hy.
  split.
  - destruct (Z.le_gt_cases 0 (year_from_day d)) as [|Hlt]; [done|].
    pose proof (day_from_year_mono _ _ Hlt). lia.
  - destruct (Z.le_gt_cases (year_from_day d) 9999) as [|Hlt]; [done|].
    assert (Hlt' : 9999 < year_from_day d) by lia. pose proof (day_from_year_mono _ _ Hlt') as Hm.
    change (9999 + 1) with 10000 in Hm. lia.
Qed.

Lemma iso_date_lt d d' s t :
  four_digit_day d -> four_digit_day d' -> d < d' ->
  str_ltb (iso_date d ++ s) (iso_date d' ++ t) = true.
Proof.
  intros Hd Hd' Hlt. apply four_digit_year in Hd, Hd'. unfold iso_date, civil_from_days.
  cbn [cv_year cv_month cv_day].
  pose proof (year_from_day_spec d) as Hy. pose proof (year_from_day_spec d') as Hy'.
  pose proof (year_mono d d' ltac:(lia)) as Hm. unfold iso_year.
  rewrite !(proj2 (Z.leb_le _ _)) by lia. cbn [andb].
  destruct (decide (year_from_day d = year_from_day d')) as [Heq|Hne].
  2:{ rewrite <- !app_assoc. apply pad_app_lt; simpl Z.of_nat; lia. }
  rewrite <- Heq in *. set (y := year_from_day d) in *. pose proof (year_end y) as He.
  pose proof (month_from_doy_spec (is_leap y) (d - day_from_year y)) as [Hmr Hmd].
  { destruct (is_leap y); lia. }
  pose proof (month_from_doy_spec (is_leap y) (d' - day_from_year y)) as [Hmr' Hmd'].
  { destruct (is_leap y); lia. }
  set (m := month_from_doy (is_leap y) (d - day_from_year y)) in *.
  set (m' := month_from_doy (is_leap y) (d' - day_from_year y)) in *.
  rewrite <- !app_assoc, str_ltb_app_same. cbn [app str_ltb]. rewrite Z.eqb_refl.
  destruct (Z.lt_trichotomy m m') as [Hlt'|[Heqm|Hgt]].
  - apply pad_app_lt; simpl Z.of_nat; lia.
  - rewrite <- Heqm in *. rewrite str_ltb_app_same. cbn [app str_ltb]. rewrite Z.eqb_refl.
    pose proof (civil_spec d') as (_ & Hcd & _). unfold civil_from_days in Hcd.
    cbn [cv_day] in Hcd. rewrite <- Heq in Hcd. fold y in Hcd. fold m' in Hcd. rewrite <- Heqm in Hcd.
    apply pad_app_lt; simpl Z.of_nat; lia.
  - exfalso. pose proof (month_start_mono (is_leap y) (m' + 1) m).
    destruct (decide (m' + 1 = m)) as [<-|]; [lia|].
    specialize (H ltac:(lia) ltac:(lia)). lia.
Qed.

Lemma iso_time_lt u v s t :
  0 <= u < v -> v < msPerDay -> str_ltb (iso_time u ++ s) (iso_time v ++ t) = true.
Proof.
  unfold msPerDay, iso_time. intros Hu Hv. rewrite <- !app_assoc.
  destruct (decide (u / 3600000 = v / 3600000)) as [Heq|].
  2:{ apply pad_app_lt; simpl Z.of_nat; zdiv. }
  rewrite Heq, str_ltb_app_same. cbn [app str_ltb]. rewrite Z.eqb_refl.
  destruct (decide (u / 60000 mod 60 = v / 60000 mod 60)) as [Heq2|].
  2:{ rewrite <- ?app_assoc. apply pad_app_lt; simpl Z.of_nat; zdiv. }
  rewrite Heq2, <- ?app_assoc, str_ltb_app_same. cbn [app str_ltb]. rewrite Z.eqb_refl.
  destruct (decide (u / 1000 mod 60 = v / 1000 mod 60)) as [Heq3|].
  2:{ apply pad_app_lt; simpl Z.of_nat; zdiv. }
  rewrite Heq3, str_ltb_app_same. cbn [app str_ltb]. rewrite Z.eqb_refl.
  apply pad_app_lt; simpl Z.of_nat; zdiv.
Qed.

(** The time range whose instants have a four-digit year. *)
Definition four_digit_time (ms : Z) : Prop :=
  day_from_year 0 * msPerDay <= ms < day_from_year 10000 * msPerDay.

#[global] Instance four_digit_time_dec ms : Decision (four_digit_time ms).
Proof. unfold four_digit_time. apply _. Defined.

Lemma four_digit_time_day ms : four_digit_time ms -> four_digit_day (ms / msPerDay).
Proof.
  unfold four_digit_time, four_digit_day, msPerDay.
  change (day_from_year 0) with (-719528). change (day_from_year 10000) with 2932897. zdiv.
Qed.

Lemma four_digit_time_valid ms : four_digit_time ms -> (max_time <? Z.abs ms) = false.
Proof.
  unfold four_digit_time, max_time, msPerDay. change (day_from_year 0) with (-719528).
  change (day_from_year 10000) with 2932897. intros. apply Z.ltb_ge. lia.
Qed.

Lemma isoFromMs_lt a b sa sb :
  four_digit_time a -> four_digit_time b -> isoFromMs a = Ok sa -> isoFromMs b = Ok sb ->
  a < b -> str_ltb sa sb = true.
Proof.
  intros Ha Hb. unfold isoFromMs. rewrite !four_digit_time_valid by done.
  intros [= <-] [= <-] Hlt. apply four_digit_time_day in Ha, Hb.
  destruct (decide (a / msPerDay = b / msPerDay)) as [Heq|].
  - rewrite Heq, str_ltb_app_same. cbn [app str_ltb]. rewrite Z.eqb_refl.
    apply iso_time_lt; unfold msPerDay in *; zdiv.
  - apply iso_date_lt; try done. unfold msPerDay in *. zdiv.
Qed.

(** ** Reading back *)

Lemma read_char_hit c s : read_char c (c :: s) = Some s.
Proof. simpl. by rewrite Z.eqb_refl. Qed.

Lemma micros_suffix : js "000Z" = pad 3 0 ++ [90].
Proof. reflexivity. Qed.

#[local] Opaque pad.

Lemma parse_isoFromMs ms s :
  four_digit_time ms -> isoFromMs ms = Ok s -> parse_iso s = Some ms.
Proof.
  intros Hms. unfold isoFromMs. rewrite four_digit_time_valid by done. intros [= <-].
  pose proof (four_digit_year _ (four_digit_time_day _ Hms)) as Hy.
  pose proof (civil_spec (ms / msPerDay)) as (Hmo & Hd & Hdays).
  set (c := civil_from_days (ms / msPerDay)) in *.
  change (year_from_day (ms / msPerDay)) with (cv_year c) in Hy.
  unfold parse_iso, iso_date, iso_time, iso_year. fold c.
  rewrite !(proj2 (Z.leb_le _ _)) by lia. cbn [andb]. cbv zeta. rewrite <- !app_assoc.
  set (t := ms mod msPerDay). assert (Ht : 0 <= t < msPerDay) by (apply Z.mod_pos_bound; done).
  assert (Hms' : ms = ms / msPerDay * msPerDay + t) by (rewrite Z.mul_comm; by apply Z.div_mod).
  unfold msPerDay in Ht.
  repeat (rewrite read_digits_pad by (simpl Z.of_nat; zdiv); cbn [mbind option_bind app];
          rewrite ?read_char_hit; cbn [mbind option_bind]).
  rewrite micros_suffix.
  repeat (rewrite read_digits_pad by (simpl Z.of_nat; zdiv); cbn [mbind option_bind app];
          rewrite ?read_char_hit; cbn [mbind option_bind]).
  rewrite !Z.mul_0_l, !Z.add_0_l.
  replace (mkCivil (cv_year c) (cv_month c) (cv_day c)) with c by (by destruct c).
  rewrite Hdays. rewrite !(proj2 (Z.leb_le _ _)) by zdiv. cbn [andb]. f_equal. zdiv.
Qed.

#[local] Transparent pad.

(** ** Identifiers sort by time *)

Lemma hex_char_lt a b : 0 <= a < b -> b < 16 -> hex_char a < hex_char b.
Proof. unfold hex_char. intros. repeat case_goal; bool_prop; lia. Qed.

Lemma hex_byte_lt a b s t :
  0 <= a < b -> b < 256 -> str_ltb (hex_byte a ++ s) (hex_byte b ++ t) = true.
Proof.
  intros Ha Hb. unfold hex_byte. cbn [app str_ltb].
  destruct (decide (a / 16 = b / 16)) as [Heq|Hne].
  - rewrite Heq, Z.eqb_refl. pose proof (hex_char_lt (a mod 16) (b mod 16) ltac:(zdiv) ltac:(zdiv)).
    rewrite (proj2 (Z.eqb_neq _ _)) by lia. by apply Z.ltb_lt.
  - pose proof (hex_char_lt (a / 16) (b / 16) ltac:(zdiv) ltac:(zdiv)).
    rewrite (proj2 (Z.eqb_neq _ _)) by lia. by apply Z.ltb_lt.
Qed.

(** The timestamp bytes are big-endian. *)
Lemma ms_bytes_spec ms :
  0 <= ms < 2 ^ 48 ->
  ms_bytes ms = [ms / 2 ^ 40; ms / 2 ^ 32 mod 256; ms / 2 ^ 24 mod 256; ms / 2 ^ 16 mod 256;
                 ms / 2 ^ 8 mod 256; ms mod 256].
Proof.
  intros Hms. unfold ms_bytes. change 255 with (2 ^ 8 - 1). rewrite !js_and_ones by lia.
  unfold js_ushr, toUint32. change (24 mod 32) with 24. change (16 mod 32) with 16. change (8 mod 32) with 8.
  rewrite !Z.shiftr_div_pow2 by lia.
  change (2 ^ 48) with 281474976710656 in *. change (2 ^ 40) with 1099511627776.
  change (2 ^ 32) with 4294967296. change (2 ^ 24) with 16777216. change (2 ^ 16) with 65536.
  change (2 ^ 8) with 256.
  do 6 (apply (f_equal2 cons); [zdiv|]). done.
Qed.

Lemma formatUuid_cons b0 b1 b2 b3 b4 b5 r :
  formatUuid (b0 :: b1 :: b2 :: b3 :: b4 :: b5 :: r)
  = hex_byte b0 ++ hex_byte b1 ++ hex_byte b2 ++ hex_byte b3 ++ [45] ++ hex_byte b4 ++ hex_byte b5
    ++ [45] ++ hex_bytes (take 2 r) ++ [45] ++ hex_bytes (take 2 (drop 2 r)) ++ [45]
    ++ hex_bytes (drop 4 r).
Proof. done. Qed.

Lemma newUuidV7_ok ms r u :
  newUuidV7 ms r = Ok u ->
  0 <= ms < 2 ^ 48
  /\ u = formatUuid ([ms / 2 ^ 40; ms / 2 ^ 32 mod 256; ms / 2 ^ 24 mod 256; ms / 2 ^ 16 mod 256;
                      ms / 2 ^ 8 mod 256; ms mod 256] ++ mark_bytes r).
Proof.
  unfold newUuidV7. destruct (_ || _) eqn:E; [done|]. bool_prop.
  rewrite ms_bytes_spec by lia. intros Hu. inversion Hu. split; [lia|done].
Qed.

Lemma newUuidV7_lt a b ra rb ua ub :
  newUuidV7 a ra = Ok ua -> newUuidV7 b rb = Ok ub -> a < b -> str_ltb ua ub = true.
Proof.
  intros [Ha ->]%newUuidV7_ok [Hb ->]%newUuidV7_ok Hlt. cbn [app]. rewrite !formatUuid_cons.
  change (2 ^ 48) with 281474976710656 in *.
  change (2 ^ 40) with 1099511627776. change (2 ^ 32) with 4294967296.
  change (2 ^ 24) with 16777216. change (2 ^ 16) with 65536. change (2 ^ 8) with 256.
  repeat match goal with
  | |- str_ltb ([45] ++ _) ([45] ++ _) = true => rewrite str_ltb_app_same
  | |- str_ltb (hex_byte ?x ++ _) (hex_byte ?y ++ _) = true =>
      let He := fresh "He" in
      destruct (decide (x = y)) as [He|?];
      [rewrite He, str_ltb_app_same|apply hex_byte_lt; zdiv]
  end.
  exfalso. zdiv.
Qed.

(** ** The timestamp can be read back *)

Lemma hex_char_val n : 0 <= n < 16 -> hex_digit_val (hex_char n) = n /\ is_hex_digit (hex_char n) = true.
Proof.
  intros Hn. assert (H : ((hex_digit_val (hex_char n) =? n) && is_hex_digit (hex_char n)) = true).
  { apply (range_check (fun n => (hex_digit_val (hex_char n) =? n) && is_hex_digit (hex_char n)) 16);
      [reflexivity|lia]. }
  by bool_prop.
Qed.

Lemma hex_byte_digits b : is_byte b -> forallb is_hex_digit (hex_byte b) = true.
Proof.
  unfold is_byte. intros. cbn [hex_byte forallb].
  destruct (hex_char_val (b / 16)) as [_ ->]; [zdiv|].
  by destruct (hex_char_val (b mod 16)) as [_ ->]; [zdiv|].
Qed.

Lemma hex_bytes_digits bs : Forall is_byte bs -> forallb is_hex_digit (hex_bytes bs) = true.
Proof.
  unfold hex_bytes. induction 1 as [|b bs Hb _ IH]; [done|]. cbn [map concat].
  by rewrite forallb_app, hex_byte_digits, IH.
Qed.

Lemma hex_bytes_length bs : List.length (hex_bytes bs) = (2 * List.length bs)%nat.
Proof.
  unfold hex_bytes. induction bs as [|b bs IH]; [done|]. cbn [map concat].
  rewrite length_app, IH. simpl. lia.
Qed.

Lemma hex_bytes_app a b : hex_bytes (a ++ b) = hex_bytes a ++ hex_bytes b.
Proof. unfold hex_bytes. by rewrite map_app, concat_app. Qed.

Lemma hex_prefix_all s : forallb is_hex_digit s = true -> hex_prefix s = s.
Proof. induction s as [|c s IH]; [done|]. simpl. intros [-> H]%andb_prop. by rewrite IH. Qed.

Definition hex_fold (acc : Z) (s : jsstr) : Z := fold_left (fun a d => a * 16 + hex_digit_val d) s acc.

Lemma hex_fold_bytes bs acc :
  Forall is_byte bs -> hex_fold acc (hex_bytes bs) = fold_left (fun a b => a * 256 + b) bs acc.
Proof.
  intros H. revert acc. induction H as [|b bs Hb _ IH]; intros acc; [done|].
  unfold hex_bytes, hex_fold. cbn [map concat hex_byte app fold_left].
  destruct (hex_char_val (b / 16)) as [-> _]; [unfold is_byte in Hb; zdiv|].
  destruct (hex_char_val (b mod 16)) as [-> _]; [zdiv|].
  unfold hex_bytes, hex_fold in IH. rewrite IH. f_equal. zdiv.
Qed.

Lemma parse_hex_digits s :
  s <> [] -> forallb is_hex_digit s = true -> parse_hex s = Some (hex_fold 0 s).
Proof.
  intros Hne H. unfold parse_hex.
  assert (match s with
          | c :: x :: s' => if (c =? 48) && ((x =? 120) || (x =? 88)) then s' else s
          | _ => s
          end = s) as ->.
  { destruct s as [|c [|x s]]; [done..|]. cbn [forallb] in H.
    destruct ((c =? 48) && ((x =? 120) || (x =? 88))) eqn:E; [|done]. exfalso.
    apply andb_prop in E as [_ E]. apply andb_prop in H as [_ H]. apply andb_prop in H as [H _].
    apply orb_prop in E as [E|E]; apply Z.eqb_eq in E as ->; done. }
  cbv zeta. rewrite hex_prefix_all by done. by destruct s.
Qed.

(** Removing the dashes of a UUID leaves its bytes. *)
Lemma no_dash s : forallb is_hex_digit s = true -> List.filter (fun c => negb (c =? 45)) s = s.
Proof.
  induction s as [|c s IH]; [done|]. simpl. intros [Hc H]%andb_prop.
  destruct (c =? 45) eqn:E; [apply Z.eqb_eq in E as ->; done|]. simpl. by rewrite IH.
Qed.

Lemma formatUuid_clean bs :
  Forall is_byte bs -> List.filter (fun c => negb (c =? 45)) (formatUuid bs) = hex_bytes bs.
Proof.
  intros H. unfold formatUuid. rewrite !List.filter_app. change (List.filter (fun c => negb (c =? 45)) [45]) with (@nil Z). cbn [app].
  rewrite !no_dash by (apply hex_bytes_digits; auto using Forall_take, Forall_drop).
  rewrite <- !hex_bytes_app. f_equal.
  assert (Hd : forall n k m, m = (k + n)%nat -> take n (drop k bs) ++ drop m bs = drop k bs).
  { intros n k m ->. rewrite <- (drop_drop bs n k). apply take_drop. }
  by rewrite (Hd 2%nat 8%nat 10%nat), (Hd 2%nat 6%nat 8%nat), (Hd 2%nat 4%nat 6%nat), take_drop.
Qed.

Lemma version_byte b :
  is_byte b -> (let v := js_or (js_and b 0x0f) 0x70 in (0 <=? v) && (v <? 256) && (v / 16 =? 7)) = true.
Proof.
  apply (range_check (fun b => let v := js_or (js_and b 0x0f) 0x70 in
    (0 <=? v) && (v <? 256) && (v / 16 =? 7)) 256). vm_compute. reflexivity.
Qed.

Lemma variant_byte b :
  is_byte b -> (let v := js_or (js_and b 0x3f) 0x80 in (0 <=? v) && (v <? 256)) = true.
Proof.
  apply (range_check (fun b => let v := js_or (js_and b 0x3f) 0x80 in
    (0 <=? v) && (v <? 256)) 256). vm_compute. reflexivity.
Qed.

Lemma mark_bytes_spec r :
  Forall is_byte r -> List.length r = 10%nat ->
  exists b6 r', mark_bytes r = b6 :: r' /\ is_byte b6 /\ Forall is_byte r'
                /\ List.length r' = 9%nat /\ b6 / 16 = 7.
Proof.
  intros Hr Hl. do 10 (destruct r as [|? r]; [done|]). destruct r; [|done].
  repeat match goal with H : Forall _ (_ :: _) |- _ => apply Forall_cons in H as [? H] end.
  unfold mark_bytes. cbn [nth insert list_insert].
  assert (Hv : forall b, is_byte b -> is_byte (js_or (js_and b 0x0f) 0x70)
                 /\ js_or (js_and b 0x0f) 0x70 / 16 = 7).
  { intros b Hb. apply version_byte in Hb. cbv zeta in Hb. unfold is_byte. bool_prop. lia. }
  assert (Hv8 : forall b, is_byte b -> is_byte (js_or (js_and b 0x3f) 0x80)).
  { intros b Hb. apply variant_byte in Hb. cbv zeta in Hb. unfold is_byte. bool_prop. lia. }
  eexists _, _. split; [done|]. split_and!; try apply Hv; try done.
  repeat apply Forall_cons_2; try apply Forall_nil_2; auto.
Qed.

Lemma extract_newUuid ms r u :
  Forall is_byte r -> List.length r = 10%nat -> newUuidV7 ms r = Ok u ->
  extractUuidV7Ms u = Ok (Some ms).
Proof.
  intros Hr Hl [Hms ->]%newUuidV7_ok.
  change (2 ^ 48) with 281474976710656 in *.
  change (2 ^ 40) with 1099511627776. change (2 ^ 32) with 4294967296.
  change (2 ^ 24) with 16777216. change (2 ^ 16) with 65536. change (2 ^ 8) with 256.
  set (tb := [_; _; _; _; _; _]).
  assert (Htb : Forall is_byte tb).
  { unfold tb, is_byte. repeat apply Forall_cons_2; try apply Forall_nil_2; zdiv. }
  destruct (mark_bytes_spec r Hr Hl) as (b6 & r' & Hm & Hb6 & Hr' & Hl' & Hv).
  rewrite Hm. unfold extractUuidV7Ms.
  assert (Hall : Forall is_byte (tb ++ b6 :: r')) by (apply Forall_app; split; [done|by apply Forall_cons_2]).
  rewrite formatUuid_clean, hex_bytes_length, length_app by done. cbn [List.length].
  rewrite Hl'. change (2 * (List.length tb + 10))%nat with 32%nat. rewrite Nat.eqb_refl. cbn [negb].
  rewrite hex_bytes_app.
  assert (Hlen : List.length (hex_bytes tb) = 12%nat) by (by rewrite hex_bytes_length).
  rewrite drop_app_length', take_app_length' by done.
  change (hex_bytes (b6 :: r')) with (hex_byte b6 ++ hex_bytes r').
  cbn [hex_byte app take]. rewrite Hv. change (parse_hex [hex_char 7]) with (Some 7). cbv iota.
  f_equal. rewrite parse_hex_digits by (done || by apply hex_bytes_digits).
  rewrite hex_fold_bytes by done. unfold tb. cbn [fold_left]. f_equal. zdiv.
Qed.

(** ** Instants and identifiers are plain text *)

Lemma digit_ascii n : is_ascii (48 + n mod 10) = true.
Proof. unfold is_ascii. rewrite (proj2 (Z.leb_le _ _)), (proj2 (Z.ltb_lt _ _)) by zdiv. done. Qed.

Lemma pad_ascii k n : forallb is_ascii (pad k n) = true.
Proof.
  revert n. induction k as [|k IH]; intros n; [done|]. cbn [pad].
  rewrite forallb_app, IH. cbn [forallb andb]. by rewrite digit_ascii.
Qed.

Lemma isoFromMs_ascii ms s : isoFromMs ms = Ok s -> forallb is_ascii s = true.
Proof.
  unfold isoFromMs. destruct (_ <? _); [done|]. intros H%Ok_inj. rewrite <- H.
  assert (Happ : forall a b, forallb is_ascii a = true -> forallb is_ascii b = true ->
                   forallb is_ascii (a ++ b) = true) by (intros a b Ha Hb; by rewrite forallb_app, Ha, Hb).
  unfold iso_date, iso_time, iso_year. cbv zeta.
  repeat match goal with |- forallb _ (?a ++ ?b) = true => apply (Happ a b) end;
    try apply pad_ascii; try reflexivity.
  destruct (_ && _); [apply pad_ascii|]. apply Happ; [by destruct (_ <? 0)|apply pad_ascii].
Qed.

Lemma hex_bytes_ascii bs : Forall is_byte bs -> forallb is_ascii (hex_bytes bs) = true.
Proof.
  intros Hb%hex_bytes_digits%forallb_Forall. apply forallb_Forall. eapply Forall_impl; [exact Hb|].
  intros c. unfold is_hex_digit, isDigit, is_ascii. intros H. apply andb_true_intro.
  split; [apply Z.leb_le|apply Z.ltb_lt]; repeat (apply orb_prop in H as [H|H]); bool_prop; lia.
Qed.

Lemma newUuidV7_ascii ms r u :
  Forall is_byte r -> List.length r = 10%nat -> newUuidV7 ms r = Ok u -> forallb is_ascii u = true.
Proof.
  intros Hr Hl [Hms ->]%newUuidV7_ok.
  change (2 ^ 48) with 281474976710656 in *.
  change (2 ^ 40) with 1099511627776. change (2 ^ 32) with 4294967296.
  change (2 ^ 24) with 16777216. change (2 ^ 16) with 65536. change (2 ^ 8) with 256.
  set (tb := [_; _; _; _; _; _]).
  assert (Htb : Forall is_byte tb).
  { unfold tb, is_byte. repeat apply Forall_cons_2; try apply Forall_nil_2; zdiv. }
  destruct (mark_bytes_spec r Hr Hl) as (b6 & r' & Hm & Hb6 & Hr' & _). rewrite Hm.
  assert (Hall : Forall is_byte (tb ++ b6 :: r')) by (apply Forall_app; split; [done|by apply Forall_cons_2]).
  unfold formatUuid. rewrite !forallb_app, !hex_bytes_ascii by auto using Forall_take, Forall_drop. done.
Qed.

(** ** Properties *)

(** Instants order as text: for every two times whose year has four
    digits, the earlier one's ISO string is the smaller string. *)
Theorem isoFromMs_order a b sa sb :
  four_digit_time a -> four_digit_time b -> isoFromMs a = Ok sa -> isoFromMs b = Ok sb ->
  a < b <-> str_ltb sa sb = true.
Proof.
  intros Ha Hb Hsa Hsb. split; [by eapply isoFromMs_lt|]. intros Hlt.
  destruct (Z.lt_trichotomy a b) as [|[Heq|Hgt]]; [done|..].
  - subst b. rewrite Hsa in Hsb. injection Hsb as <-. by rewrite str_ltb_irrefl in Hlt.
  - pose proof (isoFromMs_lt b a sb sa Hb Ha Hsb Hsa Hgt) as Hlt'.
    apply str_ltb_asym in Hlt'. congruence.
Qed.

Lemma isoFromMs_order_witness :
  0 < 1 <-> str_ltb (js "1970-01-01T00:00:00.000000Z") (js "1970-01-01T00:00:00.001000Z") = true.
Proof. apply (isoFromMs_order 0 1); [decided|decided|reflexivity|reflexivity]. Defined.

(** Reading an instant back: [Date.parse] of what [isoFromMs] wrote is
    the time it was written from, to the millisecond. *)
Theorem isoFromMs_roundtrip `{DateParse} ms :
  four_digit_time ms -> exists s, isoFromMs ms = Ok s /\ date_parse s = Some ms.
Proof.
  intros Hms. destruct (isoFromMs ms) as [s|e] eqn:E.
  - exists s. split; [done|]. unfold date_parse. by rewrite (parse_isoFromMs ms s).
  - unfold isoFromMs in E. by rewrite four_digit_time_valid in E.
Qed.

Definition no_other_dates : DateParse := {| date_parse_other := fun _ => None |}.

Lemma isoFromMs_roundtrip_witness :
  exists s, isoFromMs 1776074400123 = Ok s /\ date_parse (H := no_other_dates) s = Some 1776074400123.
Proof. apply (isoFromMs_roundtrip (H := no_other_dates) 1776074400123). decided. Defined.

(** Identifiers sort by creation time: of two UUIDv7 generated at
    different milliseconds, whatever their random bits, the earlier is the
    smaller string, and each one's timestamp can be extracted again. *)
Theorem newUuidV7_order a b ra rb ua ub :
  newUuidV7 a ra = Ok ua -> newUuidV7 b rb = Ok ub ->
  Forall is_byte ra -> List.length ra = 10%nat ->
  extractUuidV7Ms ua = Ok (Some a) /\ (a < b -> str_ltb ua ub = true).
Proof.
  intros Ha Hb Hr Hl. split; [by eapply extract_newUuid|]. by eapply newUuidV7_lt.
Qed.

Lemma newUuidV7_order_witness :
  extractUuidV7Ms (js "018bcfe5-6800-7000-8000-000000000000") = Ok (Some 1700000000000)
  /\ (1700000000000 < 1700000000001 ->
      str_ltb (js "018bcfe5-6800-7000-8000-000000000000")
              (js "018bcfe5-6801-7fff-bfff-ffffffffffff") = true).
Proof.
  apply (newUuidV7_order 1700000000000 1700000000001 (repeat 0 10) (repeat 255 10));
    [reflexivity|reflexivity|decided|reflexivity].
Defined.
