(* ===== verification/JsonLib.v ===== *)
(** * JsonLib: the runtime's [JSON] object and lossy UTF-8

    [JSON.parse], the string form of [JSON.stringify] and
    [Buffer.toString('utf8')], as the cursor and the client use them. The
    scanner for strings, digits and literals is the one of [StrictJson]: the
    two accept the same texts, but [JSON.parse] lets a repeated key win over
    the earlier one, makes [__proto__] an ordinary property and reads an
    oversized number as an infinity. *)

From S2P Require Import Prelude Errors JsNum Text Json Canonical StrictJson.

(** ** [JSON.parse] *)

(** [SyntaxError] *)
Definition syntax_error : exn := PlainError.

(** The scanners' own errors become syntax errors. *)
Definition as_syntax {A} (r : res A) : res A :=
  match r with Ok a => Ok a | Throw Diverged => Throw Diverged | Throw _ => Throw syntax_error end.

Definition json_number (s : jsstr) : res (jsval * jsstr) :=
  let '(neg, s) := match s with
                    | c :: s' => if c =? 45 then (true, s') else (false, s)
                    | [] => (false, s)
                    end in
  let? (ip, s) := parse_integer s in
  let? (fp, s) := parse_fraction s in
  let? (ex, s) := parse_exponent s in
  Ok (JNum (literal_value neg ip fp ex), s).

Fixpoint json_object_loop (pv : jsstr -> res (jsval * jsstr)) (fuel : nat)
    (props : list (jsstr * jsval)) (s : jsstr) : res (jsval * jsstr) :=
  match fuel with
  | O => Throw Diverged
  | S f =>
      let? (key, s) := parseString (skipWs s) in
      let? s := expectChar (skipWs s) 58 in
      let? (value, s) := pv s in
      let props := map_set props key value in
      match skipWs s with
      | next :: s' =>
          if next =? 44 then json_object_loop pv f props s'
          else if next =? 125 then Ok (plain props, s')
          else Throw malformed
      | [] => Throw malformed
      end
  end.

Fixpoint json_value (fuel : nat) (s : jsstr) : res (jsval * jsstr) :=
  match fuel with
  | O => Throw Diverged
  | S f =>
      match skipWs s with
      | [] => Throw malformed
      | c :: r =>
          let s := c :: r in
          if c =? 0x7b then
            let s := skipWs r in
            if bool_decide (peekChar s = Some 125) then Ok (plain [], tail s)
            else json_object_loop (json_value f) f [] s
          else if c =? 0x5b then parseArray (json_value f) f s
          else if c =? 0x22 then let? (v, r) := parseString s in Ok (JStr v, r)
          else if c =? 0x74 then parseLiteral s (js "true") (JBool true)
          else if c =? 0x66 then parseLiteral s (js "false") (JBool false)
          else if c =? 0x6e then parseLiteral s (js "null") JNull
          else if (c =? 0x2d) || isDigit c then json_number s
          else Throw malformed
      end
  end.

Definition json_parse (text : jsstr) : res jsval :=
  as_syntax (
    let? (value, s) := json_value (S (List.length text)) text in
    match skipWs s with
    | [] => Ok value
    | _ => Throw malformed
    end).

(** ** [JSON.stringify] of a string *)

Definition hex4 (c : Z) : jsstr :=
  map hex_digit [c / 4096; c / 256 mod 16; c / 16 mod 16; c mod 16].

(** A lone surrogate is written as an escape; the rest as in canonical JSON. *)
Fixpoint quote_chars (s : jsstr) : jsstr :=
  match s with
  | [] => []
  | c :: s' =>
      if is_high c then
        match s' with
        | d :: s'' => if is_low d then c :: d :: quote_chars s''
                      else js "\u" ++ hex4 c ++ quote_chars s'
        | [] => js "\u" ++ hex4 c
        end
      else if is_low c then js "\u" ++ hex4 c ++ quote_chars s'
      else write_chars [c] ++ quote_chars s'
  end.

Definition json_quote (s : jsstr) : jsstr := [34] ++ quote_chars s ++ [34].

(** ** [Buffer.toString('utf8')]

    The decoder keeps, inside a sequence, the number of continuation bytes
    still [need]ed, the range the next one must fall in, and the bits so
    far; a byte that does not continue the sequence puts a U+FFFD and starts
    over. *)
Record U8 : Type := mkU8 { need : nat; lower : Z; upper : Z; bits : Z }.

Definition u8_start (b : Z) : jsstr * option U8 :=
  if b <? 0x80 then ([b], None)
  else if (0xc2 <=? b) && (b <=? 0xdf) then ([], Some (mkU8 1 0x80 0xbf (b - 0xc0)))
  else if (0xe0 <=? b) && (b <=? 0xef) then
    ([], Some (mkU8 2 (if b =? 0xe0 then 0xa0 else 0x80) (if b =? 0xed then 0x9f else 0xbf) (b - 0xe0)))
  else if (0xf0 <=? b) && (b <=? 0xf4) then
    ([], Some (mkU8 3 (if b =? 0xf0 then 0x90 else 0x80) (if b =? 0xf4 then 0x8f else 0xbf) (b - 0xf0)))
  else ([0xfffd], None).

(** The UTF-16 units of a code point. *)
Definition units_of (cp : Z) : jsstr :=
  if cp <? 0x10000 then [cp]
  else [0xd800 + (cp - 0x10000) / 0x400; 0xdc00 + (cp - 0x10000) mod 0x400].

Definition u8_step (st : option U8) (b : Z) : jsstr * option U8 :=
  match st with
  | None => u8_start b
  | Some u =>
      if (lower u <=? b) && (b <=? upper u) then
        let cp := bits u * 64 + (b - 0x80) in
        match need u with
        | S (S k) => ([], Some (mkU8 (S k) 0x80 0xbf cp))
        | _ => (units_of cp, None)
        end
      else let '(out, st') := u8_start b in (0xfffd :: out, st')
  end.

Fixpoint u8_run (st : option U8) (bs : list Z) : jsstr :=
  match bs with
  | [] => match st with Some _ => [0xfffd] | None => [] end
  | b :: bs' => let '(out, st') := u8_step st b in out ++ u8_run st' bs'
  end.

Definition buffer_to_utf8 (bs : list Z) : jsstr := u8_run None bs.

(** ** Facts *)

Lemma buffer_to_utf8_ascii s : forallb is_ascii s = true -> buffer_to_utf8 s = s.
Proof.
  unfold buffer_to_utf8. induction s as [|c s IH]; [done|]. cbn [forallb]. intros [Hc Hs]%andb_prop.
  unfold is_ascii in Hc. bool_prop. cbn [u8_run u8_step]. unfold u8_start.
  rewrite (proj2 (Z.ltb_lt c 0x80)) by lia. simpl. by rewrite IH.
Qed.

Lemma ascii_not_surrogate c : is_ascii c = true -> is_high c = false /\ is_low c = false.
Proof.
  unfold is_ascii, is_high, is_low. intros. bool_prop.
  by rewrite (proj2 (Z.leb_gt 0xd800 c)), (proj2 (Z.leb_gt 0xdc00 c)) by lia.
Qed.

Lemma write_chars_cons c s :
  is_high c = false -> write_chars (c :: s) = write_chars [c] ++ write_chars s.
Proof.
  unfold is_high. intros Hc. cbn [write_chars]. rewrite Hc.
  repeat (case_goal; [by rewrite <- ?app_assoc, ?app_nil_r|]). done.
Qed.

Lemma quote_chars_ascii s : forallb is_ascii s = true -> quote_chars s = write_chars s.
Proof.
  induction s as [|c s IH]; [done|]. cbn [forallb]. intros [Hc Hs]%andb_prop.
  destruct (ascii_not_surrogate c Hc) as [Hh Hl]. cbn [quote_chars]. rewrite Hh, Hl, IH by done.
  by rewrite (write_chars_cons c s).
Qed.
