(* ===== verification/Cursor.v ===== *)
(** * Cursor: opaque pagination cursors

    [src/typescript/src/storage/memory/cursor.ts]. Rows are ordered by
    [(created_at, id)], both descending; a cursor is the pair of the last row
    of a page. *)

From S2P Require Import Prelude Errors JsNum Text Json Canonical StrictJson Types JsonLib.

Record CursorTuple : Type := mkCursor { cu_createdAt : jsstr; cu_id : jsstr }.

(** [JSON.stringify({ c, i })], base64url. *)
Definition encodeCursor (t : CursorTuple) : jsstr :=
  let json := jq "{'c':" ++ json_quote (cu_createdAt t) ++ jq ",'i':" ++ json_quote (cu_id t) ++ jq "}" in
  base64url.encode (utf8_encode json).

(** Any failure reads as no cursor. *)
Definition decodeCursor (s : option jsstr) : option CursorTuple :=
  match s with
  | None | Some [] => None
  | Some s =>
      let json := buffer_to_utf8 (buffer_from_base64 s) in
      match json_parse json with
      | Ok JNull | Throw _ => None
      | Ok obj =>
          match get_prop obj (js "c"), get_prop obj (js "i") with
          | JStr c, JStr i => Some (mkCursor c i)
          | _, _ => None
          end
      end
  end.

(** [compareDesc], on the [(created_at, id)] pairs of two rows. *)
Definition compareDesc (a b : CursorTuple) : Z :=
  if negb (str_eqb (cu_createdAt a) (cu_createdAt b)) then
    if str_ltb (cu_createdAt a) (cu_createdAt b) then 1 else -1
  else if negb (str_eqb (cu_id a) (cu_id b)) then
    if str_ltb (cu_id a) (cu_id b) then 1 else -1
  else 0.

Definition isAfter (row cursor : CursorTuple) : bool :=
  if negb (str_eqb (cu_createdAt row) (cu_createdAt cursor))
  then str_ltb (cu_createdAt row) (cu_createdAt cursor)
  else str_ltb (cu_id row) (cu_id cursor).

#[global] Instance CursorTuple_eq_dec : EqDecision CursorTuple.
Proof. solve_decision. Defined.

(** A cursor of ASCII fields survives its encoding. *)
Definition ascii_cursor (t : CursorTuple) : bool :=
  forallb is_ascii (cu_createdAt t) && forallb is_ascii (cu_id t).

(** ** Facts *)

Lemma str_eqb_spec a b : str_eqb a b = true <-> a = b.
Proof. unfold str_eqb. apply bool_decide_eq_true. Qed.

Lemma isAfter_compare a b : isAfter a b = true <-> compareDesc b a = -1.
Proof.
  unfold isAfter, compareDesc, str_eqb. rewrite (bool_decide_ext (cu_createdAt b = cu_createdAt a) (cu_createdAt a = cu_createdAt b)) by done.
  destruct (bool_decide (cu_createdAt a = cu_createdAt b)) eqn:E1; cbn [negb].
  - rewrite (bool_decide_ext (cu_id b = cu_id a) (cu_id a = cu_id b)) by done.
    destruct (bool_decide (cu_id a = cu_id b)) eqn:E2; cbn [negb]; bool_prop.
    + rewrite E2, str_ltb_irrefl. done.
    + destruct (str_ltb (cu_id b) (cu_id a)) eqn:E3.
      * apply str_ltb_asym in E3. rewrite E3. done.
      * destruct (str_ltb (cu_id a) (cu_id b)) eqn:E4; [done|]. by destruct E2; apply str_ltb_total.
  - bool_prop. destruct (str_ltb (cu_createdAt b) (cu_createdAt a)) eqn:E3.
    + apply str_ltb_asym in E3. rewrite E3. done.
    + destruct (str_ltb (cu_createdAt a) (cu_createdAt b)) eqn:E4; [done|].
      by destruct E1; apply str_ltb_total.
Qed.

(** Standing behind a cursor is a strict total order on pairs. *)
Lemma isAfter_spec a b :
  isAfter a b = true <->
  str_ltb (cu_createdAt a) (cu_createdAt b) = true
  \/ cu_createdAt a = cu_createdAt b /\ str_ltb (cu_id a) (cu_id b) = true.
Proof.
  unfold isAfter, str_eqb. case_bool_decide as E; cbn [negb].
  - rewrite E, str_ltb_irrefl. naive_solver.
  - naive_solver.
Qed.

Lemma isAfter_irrefl a : isAfter a a = false.
Proof. apply not_true_iff_false. rewrite isAfter_spec, !str_ltb_irrefl. naive_solver. Qed.

Lemma isAfter_trans a b c : isAfter a b = true -> isAfter b c = true -> isAfter a c = true.
Proof.
  rewrite !isAfter_spec. intros [H1|[E1 H1]] [H2|[E2 H2]];
    [left; by eapply str_ltb_trans|rewrite <- E2; by left|rewrite E1; by left|right].
  split; [congruence|by eapply str_ltb_trans].
Qed.

Lemma isAfter_total a b : isAfter a b = false -> isAfter b a = false -> a = b.
Proof.
  intros H1 H2. apply not_true_iff_false in H1, H2. rewrite isAfter_spec in *.
  assert (Hc : cu_createdAt a = cu_createdAt b) by (apply str_ltb_total; apply not_true_iff_false; auto).
  assert (Hi : cu_id a = cu_id b) by (apply str_ltb_total; apply not_true_iff_false; auto).
  destruct a, b. simpl in *. congruence.
Qed.

Lemma isAfter_asym a b : isAfter a b = true -> isAfter b a = false.
Proof.
  intros H. apply not_true_iff_false. intros H'. pose proof (isAfter_trans _ _ _ H H') as C.
  by rewrite isAfter_irrefl in C.
Qed.

Lemma compareDesc_le a b : compareDesc a b <= 0 <-> isAfter a b = false.
Proof.
  rewrite <- not_true_iff_false, isAfter_compare.
  assert (Hs : compareDesc b a = - compareDesc a b).
  { unfold compareDesc, str_eqb.
    rewrite (bool_decide_ext (cu_createdAt b = cu_createdAt a) (cu_createdAt a = cu_createdAt b)),
      (bool_decide_ext (cu_id b = cu_id a) (cu_id a = cu_id b)) by done.
    assert (Hflip : forall x y, x <> y -> (if str_ltb y x then 1 else -1) = - (if str_ltb x y then 1 else -1)).
    { intros x y Hne. destruct (str_ltb y x) eqn:E1; [by rewrite (str_ltb_asym _ _ E1)|].
      destruct (str_ltb x y) eqn:E2; [done|]. by destruct Hne; apply str_ltb_total. }
    repeat case_bool_decide; cbn [negb]; auto. }
  assert (compareDesc a b = -1 \/ compareDesc a b = 0 \/ compareDesc a b = 1).
  { unfold compareDesc. repeat case_goal; auto. }
  lia.
Qed.

Lemma ascii_text s : forallb is_ascii s = true -> Forall is_unit s /\ well_formed16 s = true.
Proof. intros H. by apply text_ok_ascii. Qed.

Lemma json_quote_ascii s :
  forallb is_ascii s = true -> writeString s = Ok (json_quote s).
Proof.
  intros H. rewrite writeString_spec. destruct (ascii_text s H) as [_ ->].
  unfold json_quote. by rewrite quote_chars_ascii.
Qed.

Lemma write_chars_ascii s : forallb is_ascii s = true -> forallb is_ascii (write_chars s) = true.
Proof.
  induction s as [|c s IH]; [done|]. intros Ha. cbn [forallb] in Ha.
  apply andb_prop in Ha as [Hc Hs]. destruct (ascii_not_surrogate c Hc) as [Hh _].
  cbn [write_chars]. unfold is_high in Hh. rewrite Hh.
  repeat (case_goal; [rewrite ?forallb_app, IH by done; cbn [forallb]; rewrite ?hex_digit_ascii; done|]).
  cbn [forallb]. by rewrite Hc, IH.
Qed.

Lemma json_quote_is_ascii s : forallb is_ascii s = true -> forallb is_ascii (json_quote s) = true.
Proof.
  intros H. unfold json_quote. rewrite quote_chars_ascii, !forallb_app, write_chars_ascii by done. done.
Qed.

(** Reading a quoted string where a value is expected. *)
Lemma json_value_string f s rest :
  forallb is_ascii s = true -> json_value (S f) (json_quote s ++ rest) = Ok (JStr s, rest).
Proof.
  intros H. destruct (ascii_text s H) as [Hu _].
  pose proof (parseString_text s (json_quote s) rest Hu (json_quote_ascii s H)) as Hp.
  unfold json_quote in *. cbn [app] in *. cbn [json_value]. rewrite skipWs_head by done. cbv zeta.
  change (34 =? 123) with false. change (34 =? 91) with false. change (34 =? 34) with true. cbv iota.
  by rewrite Hp.
Qed.

Lemma json_value_object f r :
  json_value (S f) (123 :: 34 :: r) = json_object_loop (json_value f) f [] (34 :: r).
Proof. reflexivity. Qed.

Lemma json_member pv f props s key s1 s2 v s3 :
  parseString (skipWs s) = Ok (key, s1) -> expectChar (skipWs s1) 58 = Ok s2 -> pv s2 = Ok (v, s3) ->
  json_object_loop pv (S f) props s
  = match skipWs s3 with
    | next :: s' =>
        if next =? 44 then json_object_loop pv f (map_set props key v) s'
        else if next =? 125 then Ok (plain (map_set props key v), s')
        else Throw malformed
    | [] => Throw malformed
    end.
Proof. intros H1 H2 H3. cbn [json_object_loop]. rewrite H1. cbn [rbind]. rewrite H2. cbn [rbind]. by rewrite H3. Qed.

Lemma json_parse_cursor c i :
  forallb is_ascii c = true -> forallb is_ascii i = true ->
  json_parse (jq "{'c':" ++ json_quote c ++ jq ",'i':" ++ json_quote i ++ jq "}")
  = Ok (plain [(js "c", JStr c); (js "i", JStr i)]).
Proof.
  intros Hc Hi. unfold json_parse.
  change (jq "{'c':" ++ json_quote c ++ jq ",'i':" ++ json_quote i ++ jq "}")
    with (123 :: 34 :: 99 :: 34 :: 58 :: json_quote c
          ++ 44 :: 34 :: 105 :: 34 :: 58 :: json_quote i ++ [125]).
  cbn [List.length]. generalize (List.length (json_quote c ++ 44 :: 34 :: 105 :: 34 :: 58 :: json_quote i ++ [125])).
  intros n. rewrite json_value_object.
  erewrite json_member; [|reflexivity|reflexivity|by apply json_value_string].
  cbn [skipWs is_ws Z.eqb Pos.eqb orb].
  erewrite json_member; [|reflexivity|reflexivity|by apply json_value_string].
  done.
Qed.

Lemma decode_encode_cursor t : ascii_cursor t = true -> decodeCursor (Some (encodeCursor t)) = Some t.
Proof.
  destruct t as [c i]. unfold ascii_cursor, encodeCursor. cbn [cu_createdAt cu_id].
  intros [Hc Hi]%andb_prop.
  set (json := jq "{'c':" ++ json_quote c ++ jq ",'i':" ++ json_quote i ++ jq "}").
  assert (Hj : forallb is_ascii json = true).
  { unfold json. rewrite !forallb_app, !json_quote_is_ascii by done. done. }
  pose proof (text_ok_ascii json Hj) as [Hju _].
  assert (Hb : Forall is_byte json).
  { rewrite <- (utf8_encode_ascii json Hj). by apply utf8_encode_bytes. }
  rewrite utf8_encode_ascii by done. unfold decodeCursor.
  destruct (base64url.encode json) as [|x l] eqn:E.
  { pose proof (base64url_facts.buffer_from_encode json Hb) as H. by rewrite E in H. }
  rewrite <- E, base64url_facts.buffer_from_encode, buffer_to_utf8_ascii by done.
  unfold json. by rewrite json_parse_cursor.
Qed.
