(* ===== verification/Storage.v ===== *)
(** * Storage: the contract between the services and an adapter

    [src/typescript/src/storage/types.ts]: input, patch, filter and page
    shapes, the [Storage] interface as a class over a world, the world's
    clock and entropy, and the actor classification every adapter shares.

    An optional field of a patch or a filter is an [option]; where the field
    is itself nullable it is an [option] of an [option]: absent, present and
    null, present with a value. *)

From S2P Require Import Prelude Errors JsNum Json Types Id Cursor.

(** ** Inputs *)

Record LicenseInput : Type := mkLicenseInput {
  li_scope_id : option UUIDv7;
  li_template_id : option UUIDv7;
  li_licensable_type : jsstr;
  li_licensable_id : jsstr;
  li_license_key : jsstr;
  li_status : LicenseStatus;
  li_max_usages : Z;
  li_activated_at : option Instant;
  li_expires_at : option Instant;
  li_grace_until : option Instant;
  li_meta : jsval;
  (** not declared by the interface; the adapter reads it when present *)
  li_is_trial : option bool
}.

Record LicenseScopeInput : Type := mkScopeInput {
  sci_slug : jsstr;
  sci_name : jsstr;
  sci_meta : jsval
}.

Record LicenseTemplateInput : Type := mkTemplateInput {
  tpi_scope_id : option UUIDv7;
  tpi_parent_id : option UUIDv7;
  tpi_name : jsstr;
  tpi_max_usages : Z;
  tpi_trial_duration_sec : Z;
  tpi_trial_cooldown_sec : option Z;
  tpi_grace_duration_sec : Z;
  tpi_force_online_after_sec : option Z;
  tpi_entitlements : jsval;
  tpi_meta : jsval
}.

Record LicenseUsageInput : Type := mkUsageInput {
  ui_license_id : UUIDv7;
  ui_fingerprint : jsstr;
  ui_status : UsageStatus;
  ui_registered_at : Instant;
  ui_revoked_at : option Instant;
  ui_client_meta : jsval
}.

Record LicenseKeyInput : Type := mkKeyInput {
  ki_scope_id : option UUIDv7;
  ki_kid : jsstr;
  ki_alg : KeyAlg;
  ki_role : KeyRole;
  ki_state : KeyState;
  ki_public_pem : jsstr;
  ki_private_pem_enc : option jsstr;
  ki_rotated_from : option UUIDv7;
  ki_rotated_at : option Instant;
  ki_not_before : Instant;
  ki_not_after : option Instant;
  ki_meta : jsval
}.

Record AuditLogInput : Type := mkAuditInput {
  ai_license_id : option UUIDv7;
  ai_scope_id : option UUIDv7;
  ai_actor : jsstr;
  ai_actor_kind : option ActorKind;
  ai_actor_id : option jsstr;
  ai_event : jsstr;
  ai_prior_state : option jsval;
  ai_new_state : option jsval;
  ai_occurred_at : Instant
}.

Record TrialIssuanceInput : Type := mkTrialInput {
  tri_template_id : option UUIDv7;
  tri_fingerprint_hash : jsstr
}.

(** ** Patches *)

Record LicensePatch : Type := mkLicensePatch {
  lp_status : option LicenseStatus;
  lp_max_usages : option Z;
  lp_activated_at : option (option Instant);
  lp_expires_at : option (option Instant);
  lp_grace_until : option (option Instant);
  lp_meta : option jsval;
  lp_scope_id : option (option UUIDv7);
  lp_template_id : option (option UUIDv7);
  lp_license_key : option jsstr
}.

Definition no_license_patch : LicensePatch :=
  mkLicensePatch None None None None None None None None None.

Record LicenseScopePatch : Type := mkScopePatch {
  scp_name : option jsstr;
  scp_meta : option jsval
}.

Record LicenseTemplatePatch : Type := mkTemplatePatch {
  tp_name : option jsstr;
  tp_parent_id : option (option UUIDv7);
  tp_max_usages : option Z;
  tp_trial_duration_sec : option Z;
  tp_trial_cooldown_sec : option (option Z);
  tp_grace_duration_sec : option Z;
  tp_force_online_after_sec : option (option Z);
  tp_entitlements : option jsval;
  tp_meta : option jsval
}.

Record LicenseUsagePatch : Type := mkUsagePatch {
  up_status : option UsageStatus;
  up_revoked_at : option (option Instant);
  up_last_seen_at : option Instant;
  up_client_meta : option jsval
}.

Record LicenseKeyPatch : Type := mkKeyPatch {
  kp_state : option KeyState;
  kp_rotated_from : option (option UUIDv7);
  kp_rotated_at : option (option Instant);
  kp_not_after : option (option Instant);
  kp_meta : option jsval
}.

(** [{ ...cur, ...patch, updated_at }]: a present field replaces. *)
Definition patched {A} (p : option A) (cur : A) : A :=
  match p with Some a => a | None => cur end.

Definition patch_license (cur : License) (p : LicensePatch) (now : Instant) : License :=
  mkLicense (l_id cur) (patched (lp_scope_id p) (l_scope_id cur))
    (patched (lp_template_id p) (l_template_id cur)) (l_licensable_type cur) (l_licensable_id cur)
    (patched (lp_license_key p) (l_license_key cur)) (patched (lp_status p) (l_status cur))
    (patched (lp_max_usages p) (l_max_usages cur)) (l_is_trial cur)
    (patched (lp_activated_at p) (l_activated_at cur)) (patched (lp_expires_at p) (l_expires_at cur))
    (patched (lp_grace_until p) (l_grace_until cur)) (patched (lp_meta p) (l_meta cur))
    (l_created_at cur) now.

Definition patch_scope (cur : LicenseScope) (p : LicenseScopePatch) (now : Instant) : LicenseScope :=
  mkScope (sc_id cur) (sc_slug cur) (patched (scp_name p) (sc_name cur))
    (patched (scp_meta p) (sc_meta cur)) (sc_created_at cur) now.

Definition patch_template (cur : LicenseTemplate) (p : LicenseTemplatePatch) (now : Instant)
  : LicenseTemplate :=
  mkTemplate (t_id cur) (t_scope_id cur) (patched (tp_parent_id p) (t_parent_id cur))
    (patched (tp_name p) (t_name cur)) (patched (tp_max_usages p) (t_max_usages cur))
    (patched (tp_trial_duration_sec p) (t_trial_duration_sec cur))
    (patched (tp_trial_cooldown_sec p) (t_trial_cooldown_sec cur))
    (patched (tp_grace_duration_sec p) (t_grace_duration_sec cur))
    (patched (tp_force_online_after_sec p) (t_force_online_after_sec cur))
    (patched (tp_entitlements p) (t_entitlements cur)) (patched (tp_meta p) (t_meta cur))
    (t_created_at cur) now.

Definition patch_usage (cur : LicenseUsage) (p : LicenseUsagePatch) (now : Instant) : LicenseUsage :=
  mkUsage (u_id cur) (u_license_id cur) (u_fingerprint cur) (patched (up_status p) (u_status cur))
    (u_registered_at cur) (patched (up_revoked_at p) (u_revoked_at cur))
    (patched (up_last_seen_at p) (u_last_seen_at cur))
    (patched (up_client_meta p) (u_client_meta cur)) (u_created_at cur) now.

Definition patch_key (cur : LicenseKey) (p : LicenseKeyPatch) (now : Instant) : LicenseKey :=
  mkKey (k_id cur) (k_scope_id cur) (k_kid cur) (k_alg cur) (k_role cur)
    (patched (kp_state p) (k_state cur)) (k_public_pem cur) (k_private_pem_enc cur)
    (patched (kp_rotated_from p) (k_rotated_from cur)) (patched (kp_rotated_at p) (k_rotated_at cur))
    (k_not_before cur) (patched (kp_not_after p) (k_not_after cur)) (patched (kp_meta p) (k_meta cur))
    (k_created_at cur) now.

(** ** Pages and filters *)

Record PageRequest : Type := mkPageRequest { pr_limit : Z; pr_cursor : option jsstr }.

Record Page (T : Type) : Type := mkPage { pg_items : list T; pg_cursor : option jsstr }.
Arguments mkPage {T} _ _.
Arguments pg_items {T} _.
Arguments pg_cursor {T} _.

Record LicenseFilter : Type := mkLicenseFilter {
  lf_scope_id : option (option UUIDv7);
  lf_status : option (list LicenseStatus);
  lf_licensable_type : option jsstr;
  lf_licensable_id : option jsstr;
  lf_template_id : option (option UUIDv7)
}.

Record LicenseScopeFilter : Type := mkScopeFilter { scf_slug : option jsstr }.

Record LicenseTemplateFilter : Type := mkTemplateFilter {
  tf_scope_id : option (option UUIDv7);
  tf_name : option jsstr;
  tf_parent_id : option (option UUIDv7)
}.

Record LicenseUsageFilter : Type := mkUsageFilter {
  uf_license_id : option UUIDv7;
  uf_fingerprint : option jsstr;
  uf_status : option (list UsageStatus)
}.

Record LicenseKeyFilter : Type := mkKeyFilter {
  kf_scope_id : option (option UUIDv7);
  kf_kid : option jsstr;
  kf_alg : option KeyAlg;
  kf_role : option KeyRole;
  kf_state : option KeyState
}.

(** A single event name is a one-element list. *)
Record AuditLogFilter : Type := mkAuditFilter {
  af_license_id : option (option UUIDv7);
  af_scope_id : option (option UUIDv7);
  af_event : option (list jsstr);
  af_licensable_type : option jsstr;
  af_licensable_id : option jsstr;
  af_actor : option jsstr;
  af_since : option Instant;
  af_until : option Instant
}.

Record TrialIssuanceLookup : Type := mkTrialLookup {
  tl_template_id : option UUIDv7;
  tl_fingerprint_hash : jsstr
}.

Record FindByLicensableQuery : Type := mkLicensableQuery {
  fq_type : jsstr;
  fq_id : jsstr;
  fq_scope_id : option (option UUIDv7)
}.

(** ** The tables

    What a store holds, one insertion-ordered table per entity. *)

Record State : Type := mkState {
  s_licenses : list (UUIDv7 * License);
  s_scopes : list (UUIDv7 * LicenseScope);
  s_templates : list (UUIDv7 * LicenseTemplate);
  s_usages : list (UUIDv7 * LicenseUsage);
  s_keys : list (UUIDv7 * LicenseKey);
  s_audit : list (UUIDv7 * AuditLogEntry);
  s_trialIssuances : list (UUIDv7 * TrialIssuance)
}.

Definition emptyState : State := mkState [] [] [] [] [] [] [].

Definition set_licenses m (s : State) : State :=
  mkState m (s_scopes s) (s_templates s) (s_usages s) (s_keys s) (s_audit s) (s_trialIssuances s).
Definition set_scopes m (s : State) : State :=
  mkState (s_licenses s) m (s_templates s) (s_usages s) (s_keys s) (s_audit s) (s_trialIssuances s).
Definition set_templates m (s : State) : State :=
  mkState (s_licenses s) (s_scopes s) m (s_usages s) (s_keys s) (s_audit s) (s_trialIssuances s).
Definition set_usages m (s : State) : State :=
  mkState (s_licenses s) (s_scopes s) (s_templates s) m (s_keys s) (s_audit s) (s_trialIssuances s).
Definition set_keys m (s : State) : State :=
  mkState (s_licenses s) (s_scopes s) (s_templates s) (s_usages s) m (s_audit s) (s_trialIssuances s).
Definition set_audit m (s : State) : State :=
  mkState (s_licenses s) (s_scopes s) (s_templates s) (s_usages s) (s_keys s) m (s_trialIssuances s).
Definition set_trials m (s : State) : State :=
  mkState (s_licenses s) (s_scopes s) (s_templates s) (s_usages s) (s_keys s) (s_audit s) m.

(** ** The world of a running issuer *)

Class HasClock (W : Type) : Type := {
  nowMs : prog W Z;
  nowIso : prog W Instant
}.

Class HasEntropy (W : Type) : Type := {
  randomFill : nat -> prog W (list Z)
}.

(** [newUuidV7(clock)]: the range check comes before the random bytes. *)
Definition freshUuid {W} `{HasClock W, HasEntropy W} : prog W UUIDv7 :=
  let* ms := nowMs in
  if (ms <? 0) || (0xffffffffffff <? ms) then throw PlainError
  else let* r := randomFill 10 in lift (newUuidV7 ms r).

(** ** The interface *)

Class Storage (W : Type) : Type := {
  createLicense : LicenseInput -> prog W License;
  getLicense : UUIDv7 -> prog W (option License);
  getLicenseByKey : jsstr -> prog W (option License);
  listLicenses : LicenseFilter -> PageRequest -> prog W (Page License);
  findLicensesByLicensable : FindByLicensableQuery -> prog W (list License);
  updateLicense : UUIDv7 -> LicensePatch -> prog W License;
  createScope : LicenseScopeInput -> prog W LicenseScope;
  getScope : UUIDv7 -> prog W (option LicenseScope);
  getScopeBySlug : jsstr -> prog W (option LicenseScope);
  listScopes : LicenseScopeFilter -> PageRequest -> prog W (Page LicenseScope);
  updateScope : UUIDv7 -> LicenseScopePatch -> prog W LicenseScope;
  createTemplate : LicenseTemplateInput -> prog W LicenseTemplate;
  getTemplate : UUIDv7 -> prog W (option LicenseTemplate);
  listTemplates : LicenseTemplateFilter -> PageRequest -> prog W (Page LicenseTemplate);
  updateTemplate : UUIDv7 -> LicenseTemplatePatch -> prog W LicenseTemplate;
  createUsage : LicenseUsageInput -> prog W LicenseUsage;
  getUsage : UUIDv7 -> prog W (option LicenseUsage);
  listUsages : LicenseUsageFilter -> PageRequest -> prog W (Page LicenseUsage);
  updateUsage : UUIDv7 -> LicenseUsagePatch -> prog W LicenseUsage;
  createKey : LicenseKeyInput -> prog W LicenseKey;
  getKey : UUIDv7 -> prog W (option LicenseKey);
  getKeyByKid : jsstr -> prog W (option LicenseKey);
  listKeys : LicenseKeyFilter -> PageRequest -> prog W (Page LicenseKey);
  updateKey : UUIDv7 -> LicenseKeyPatch -> prog W LicenseKey;
  appendAudit : AuditLogInput -> prog W AuditLogEntry;
  getAudit : UUIDv7 -> prog W (option AuditLogEntry);
  listAudit : AuditLogFilter -> PageRequest -> prog W (Page AuditLogEntry);
  recordTrialIssuance : TrialIssuanceInput -> prog W TrialIssuance;
  findTrialIssuance : TrialIssuanceLookup -> prog W (option TrialIssuance);
  deleteTrialIssuance : UUIDv7 -> prog W unit;
  withTransaction : forall {T}, prog W T -> prog W T
}.

(** ** Actor classification *)

Definition starts_with (s p : jsstr) : bool := bool_decide (take (List.length p) s = p).

Definition deriveActorKind (actor : jsstr) : ActorKind :=
  if str_eqb actor (js "system") || starts_with actor (js "system:") then actor_system
  else if str_eqb actor (js "admin") || starts_with actor (js "admin:") then actor_admin
  else if str_eqb actor (js "client") || starts_with actor (js "client:") then actor_client
  else actor_unknown.

Definition resolveActorKind (input : AuditLogInput) : ActorKind :=
  match ai_actor_kind input with
  | Some k => k
  | None => deriveActorKind (ai_actor input)
  end.

(** The row an audit input becomes. *)
Definition audit_row (id : UUIDv7) (i : AuditLogInput) : AuditLogEntry :=
  mkAudit id (ai_license_id i) (ai_scope_id i) (ai_actor i) (resolveActorKind i) (ai_actor_id i)
    (ai_event i) (ai_prior_state i) (ai_new_state i) (ai_occurred_at i).

(** ** What a store promises

    Rows are filed under their own id, and the natural keys of the schema
    hold at most one row each. *)

Definition rows {A} (m : list (UUIDv7 * A)) : list A := m.*2.

Definition keyed {A} (id_of : A -> UUIDv7) (m : list (UUIDv7 * A)) : Prop :=
  NoDup m.*1 /\ Forall (fun p => id_of p.2 = p.1) m.

(** [key] gives the natural key of a row, if the constraint covers it. *)
Definition unique_on {A K} (key : A -> option K) (m : list (UUIDv7 * A)) : Prop :=
  forall i j x y k, map_get m i = Some x -> map_get m j = Some y ->
    key x = Some k -> key y = Some k -> i = j.

Definition active_seat (u : LicenseUsage) : option (UUIDv7 * Fingerprint) :=
  if bool_decide (u_status u = u_active) then Some (u_license_id u, u_fingerprint u) else None.

Definition active_signing (k : LicenseKey) : option (option UUIDv7) :=
  if bool_decide (k_role k = signing) && bool_decide (k_state k = k_active)
  then Some (k_scope_id k) else None.

(** The order of every listing: newest first, ids break ties. *)
Definition usage_key_of (r : LicenseUsage) : CursorTuple := mkCursor (u_created_at r) (u_id r).

Record state_ok (s : State) : Prop := {
  ok_licenses : keyed l_id (s_licenses s);
  ok_scopes : keyed sc_id (s_scopes s);
  ok_templates : keyed t_id (s_templates s);
  ok_usages : keyed u_id (s_usages s);
  ok_keys : keyed k_id (s_keys s);
  ok_audit : keyed a_id (s_audit s);
  ok_trials : keyed ti_id (s_trialIssuances s);
  ok_license_key : unique_on (fun l => Some (l_license_key l)) (s_licenses s);
  ok_slug : unique_on (fun x => Some (sc_slug x)) (s_scopes s);
  ok_active_seat : unique_on active_seat (s_usages s);
  ok_kid : unique_on (fun k => Some (k_kid k)) (s_keys s);
  ok_active_signing : unique_on active_signing (s_keys s);
  ok_trial : unique_on (fun t => Some (ti_template_id t, ti_fingerprint_hash t)) (s_trialIssuances s);
  ok_usage_cursors : Forall (fun u => ascii_cursor (usage_key_of u) = true) (rows (s_usages s))
}.

(** Every writing call of the interface. *)
Inductive WriteOp : Type :=
| WCreateLicense (i : LicenseInput) | WUpdateLicense (id : UUIDv7) (p : LicensePatch)
| WCreateScope (i : LicenseScopeInput) | WUpdateScope (id : UUIDv7) (p : LicenseScopePatch)
| WCreateTemplate (i : LicenseTemplateInput) | WUpdateTemplate (id : UUIDv7) (p : LicenseTemplatePatch)
| WCreateUsage (i : LicenseUsageInput) | WUpdateUsage (id : UUIDv7) (p : LicenseUsagePatch)
| WCreateKey (i : LicenseKeyInput) | WUpdateKey (id : UUIDv7) (p : LicenseKeyPatch)
| WAppendAudit (i : AuditLogInput)
| WRecordTrial (i : TrialIssuanceInput) | WDeleteTrial (id : UUIDv7).

Definition exec_write {W} `{Storage W} (op : WriteOp) : prog W unit :=
  match op with
  | WCreateLicense i => do* createLicense i; ret tt
  | WUpdateLicense id p => do* updateLicense id p; ret tt
  | WCreateScope i => do* createScope i; ret tt
  | WUpdateScope id p => do* updateScope id p; ret tt
  | WCreateTemplate i => do* createTemplate i; ret tt
  | WUpdateTemplate id p => do* updateTemplate id p; ret tt
  | WCreateUsage i => do* createUsage i; ret tt
  | WUpdateUsage id p => do* updateUsage id p; ret tt
  | WCreateKey i => do* createKey i; ret tt
  | WUpdateKey id p => do* updateKey id p; ret tt
  | WAppendAudit i => do* appendAudit i; ret tt
  | WRecordTrial i => do* recordTrialIssuance i; ret tt
  | WDeleteTrial id => deleteTrialIssuance id
  end.

(** [filter.f !== undefined && r.f !== filter.f] is false. *)
Definition matches {A} `{EqDecision A} (f : option A) (v : A) : bool :=
  match f with Some a => bool_decide (v = a) | None => true end.

Definition usage_matches (filter : LicenseUsageFilter) (r : LicenseUsage) : bool :=
  matches (uf_license_id filter) (u_license_id r)
  && matches (uf_fingerprint filter) (u_fingerprint r)
  && match uf_status filter with Some ss => bool_decide (u_status r ∈ ss) | None => true end.

Section Ordering.
Context {T : Type} (key : T -> CursorTuple).

Definition desc_le (a b : T) : Prop := compareDesc (key a) (key b) <= 0.
#[export] Instance desc_le_dec a b : Decision (desc_le a b).
Proof. unfold desc_le. apply _. Defined.

(** The rows a listing has left after row [after]. *)
Definition rest_after (l : list T) (after : option T) : list T :=
  match after with
  | None => l
  | Some r => List.filter (fun x => isAfter (key x) (key r)) l
  end.

(** A page of what is left: the cursor is there exactly when rows remain. *)
Definition keyset_page (cur : T -> jsstr) (limit : nat) (rest : list T) : Page T :=
  mkPage (take limit rest)
    (if (limit <? List.length rest)%nat then cur <$> last (take limit rest) else None).
End Ordering.

Definition usage_listing (filter : LicenseUsageFilter) (s : State) : list LicenseUsage :=
  merge_sort (desc_le usage_key_of) (List.filter (usage_matches filter) (rows (s_usages s))).

(** ** What the services rely on

    An adapter exposes the tables its operations act on and how many
    transactions are open. Operations other than the ones below may fail (a
    clock out of range), but then they leave the tables alone. *)
Class StorageLaws (W : Type) `{HasClock W, Storage W} : Type := {
  tables : W -> State;
  tx_depth : W -> Z;

  (** reading the clock touches no table *)
  nowIso_frame : forall w,
    tables (nowIso w).2 = tables w /\ tx_depth (nowIso w).2 = tx_depth w;

  getLicense_law : forall id w,
    getLicense id w = (Ok (map_get (s_licenses (tables w)) id), w);

  updateLicense_missing : forall id p w,
    map_get (s_licenses (tables w)) id = None ->
    updateLicense id p w = (Throw (errors.licenseNotFound id), w);

  updateLicense_law : forall id p cur w r w',
    map_get (s_licenses (tables w)) id = Some cur ->
    updateLicense id p w = (r, w') ->
    tx_depth w' = tx_depth w
    /\ match r with
       | Ok next => exists now, next = patch_license cur p now
           /\ tables w' = set_licenses (map_set (s_licenses (tables w)) id next) (tables w)
       | Throw _ => tables w' = tables w
       end;

  appendAudit_law : forall i w r w',
    appendAudit i w = (r, w') ->
    tx_depth w' = tx_depth w
    /\ match r with
       | Ok row => row = audit_row (a_id row) i
           /\ tables w' = set_audit (map_set (s_audit (tables w)) (a_id row) row) (tables w)
       | Throw _ => tables w' = tables w
       end;

  (** no write breaks a key or a constraint *)
  write_ok : forall op w r w',
    exec_write op w = (r, w') -> state_ok (tables w) -> state_ok (tables w');

  createLicense_law : forall i w r w',
    createLicense i w = (r, w') ->
    tx_depth w' = tx_depth w
    /\ match r with
       | Ok row =>
           l_scope_id row = li_scope_id i /\ l_template_id row = li_template_id i
           /\ l_licensable_type row = li_licensable_type i
           /\ l_licensable_id row = li_licensable_id i /\ l_license_key row = li_license_key i
           /\ l_status row = li_status i /\ l_max_usages row = li_max_usages i
           /\ l_activated_at row = li_activated_at i /\ l_expires_at row = li_expires_at i
           /\ l_grace_until row = li_grace_until i /\ l_meta row = li_meta i
           /\ tables w' = set_licenses (map_set (s_licenses (tables w)) (l_id row) row) (tables w)
       | Throw _ => tables w' = tables w
       end;

  getLicenseByKey_law : forall key w,
    getLicenseByKey key w
    = (Ok (List.find (fun l => str_eqb (l_license_key l) key) (rows (s_licenses (tables w)))), w);

  createUsage_law : forall i w r w',
    createUsage i w = (r, w') ->
    tx_depth w' = tx_depth w
    /\ match r with
       | Ok row => (exists now, row = mkUsage (u_id row) (ui_license_id i) (ui_fingerprint i)
             (ui_status i) (ui_registered_at i) (ui_revoked_at i) (ui_registered_at i)
             (ui_client_meta i) now now)
           /\ tables w' = set_usages (map_set (s_usages (tables w)) (u_id row) row) (tables w)
       | Throw _ => tables w' = tables w
       end;

  getUsage_law : forall id w, getUsage id w = (Ok (map_get (s_usages (tables w)) id), w);

  updateUsage_missing : forall id p w,
    map_get (s_usages (tables w)) id = None ->
    updateUsage id p w = (Throw (errors.uniqueConstraintViolation (js "pk") id), w);

  updateUsage_law : forall id p cur w r w',
    map_get (s_usages (tables w)) id = Some cur ->
    updateUsage id p w = (r, w') ->
    tx_depth w' = tx_depth w
    /\ match r with
       | Ok next => (exists now, next = patch_usage cur p now)
           /\ tables w' = set_usages (map_set (s_usages (tables w)) id next) (tables w)
       | Throw _ => tables w' = tables w
       end;

  (** listing writes nothing, whatever the cursor *)
  listUsages_pure : forall filter page w, (listUsages filter page w).2 = w;

  (** a cursor names the row it was made from, and a page resumes behind it *)
  usage_cursor : LicenseUsage -> jsstr;
  listUsages_law : forall filter limit after w,
    state_ok (tables w) -> (1 <= limit <= 500)%nat ->
    match after with Some r => ascii_cursor (usage_key_of r) = true | None => True end ->
    listUsages filter (mkPageRequest (Z.of_nat limit) (usage_cursor <$> after)) w
    = (Ok (keyset_page usage_cursor limit
             (rest_after usage_key_of (usage_listing filter (tables w)) after)), w);

  (** a transaction runs its body on the same tables; what the body did
      stays when it returns and is undone when it throws *)
  withTransaction_law : forall T (fn : prog W T) w,
    tx_depth w = 0 ->
    exists w0, tables w0 = tables w /\ tx_depth w0 = 1 /\ (nowIso w0).1 = (nowIso w).1 /\
      let '(r, w1) := fn w0 in
      exists w2, withTransaction fn w = (r, w2)
        /\ tx_depth w2 = tx_depth w1 - 1
        /\ tables w2 = match r with Ok _ => tables w1 | Throw _ => tables w end
}.

(** [randomFillSync] fills the buffer and touches no table. *)
Class EntropyLaws (W : Type) {HC : HasClock W} {HE : HasEntropy W} {ST : Storage W} {SL : StorageLaws W}
  : Type := {
  randomFill_law : forall n w, exists bytes w',
    randomFill n w = (Ok bytes, w') /\ List.length bytes = n /\ Forall is_byte bytes
    /\ tables w' = tables w /\ tx_depth w' = tx_depth w
}.

(** ** Facts about listings *)

Section Listings.
Context {T : Type} (key : T -> CursorTuple).

Lemma desc_le_after a b : desc_le key a b <-> isAfter (key a) (key b) = false.
Proof. apply compareDesc_le. Qed.

#[export] Instance desc_le_trans : Transitive (desc_le key).
Proof.
  intros a b c. rewrite !desc_le_after. intros H1 H2. apply not_true_iff_false. intros H.
  destruct (isAfter (key b) (key a)) eqn:E.
  - by rewrite (isAfter_trans _ _ _ E H) in H2.
  - assert (key a = key b) as He by (by apply isAfter_total). congruence.
Qed.

#[export] Instance desc_le_total : Total (desc_le key).
Proof.
  intros a b. rewrite !desc_le_after. destruct (isAfter (key a) (key b)) eqn:E; [|by left].
  right. by apply isAfter_asym.
Qed.

(** Once a sorted list is behind a cursor it stays behind it. *)
Lemma after_stays (l : list T) x c :
  Forall (desc_le key x) l -> isAfter (key x) c = true ->
  List.filter (fun y => isAfter (key y) c) l = l.
Proof.
  intros Hx E. induction Hx as [|y l Hy Hx IH]; [done|]. simpl.
  assert (isAfter (key y) c = true) as ->; [|by f_equal].
  apply desc_le_after in Hy. destruct (isAfter (key y) (key x)) eqn:E2; [by eapply isAfter_trans|].
  by rewrite <- (isAfter_total _ _ Hy E2).
Qed.

(** The rows left behind the last row of a page are those left behind the
    page. *)
Lemma rest_after_app (l1 l2 : list T) r :
  StronglySorted (desc_le key) (l1 ++ r :: l2) -> NoDup (key <$> l1 ++ r :: l2) ->
  List.filter (fun x => isAfter (key x) (key r)) (l1 ++ r :: l2) = l2.
Proof.
  intros Hs Hn.
  assert (H2 : forall l, Forall (desc_le key r) l -> key r ∉ key <$> l ->
                List.filter (fun x => isAfter (key x) (key r)) l = l).
  { induction l as [|y l IH]; [done|]. intros [Hy Hl]%Forall_cons Hnin. csimpl in Hnin.
    apply not_elem_of_cons in Hnin as [Hne Hnin]. simpl. apply desc_le_after in Hy.
    destruct (isAfter (key y) (key r)) eqn:E; [f_equal; auto|].
    by destruct Hne; apply isAfter_total. }
  induction l1 as [|x l1 IH]; simpl in *.
  - rewrite isAfter_irrefl. apply StronglySorted_inv in Hs as [_ Hs].
    apply NoDup_cons in Hn as [Hn _]. auto.
  - apply StronglySorted_inv in Hs as [Hs Hx]. apply NoDup_cons in Hn as [_ Hn].
    rewrite Forall_forall in Hx. assert (Hxr : desc_le key x r) by (apply Hx, elem_of_app; right; left).
    apply desc_le_after in Hxr. rewrite Hxr. auto.
Qed.
End Listings.

(** ** Facts about tables *)

Section Tables.
Context {A : Type}.
Implicit Types (m : list (UUIDv7 * A)) (row : A).

Lemma map_get_set (m : list (UUIDv7 * A)) k k' v :
  map_get (map_set m k v) k' = if decide (k = k') then Some v else map_get m k'.
Proof.
  case_decide; [subst; apply map_get_set_eq|by apply map_get_set_ne].
Qed.

Lemma map_get_delete m k k' :
  map_get (map_delete m k) k' = if decide (k = k') then None else map_get m k'.
Proof.
  case_decide; [subst; apply map_get_delete_eq|by apply map_get_delete_ne].
Qed.

Lemma map_get_rows m k row : map_get m k = Some row -> row ∈ rows m.
Proof. intros H%map_get_elem. by apply (list_elem_of_fmap_2 snd _ (k, row)). Qed.

Lemma rows_map_get (id_of : A -> UUIDv7) m row :
  keyed id_of m -> row ∈ rows m -> map_get m (id_of row) = Some row.
Proof.
  intros [Hd Hk] ([k r] & -> & Hin)%list_elem_of_fmap. rewrite Forall_forall in Hk.
  specialize (Hk _ Hin). simpl in *. subst. by apply elem_map_get.
Qed.

Lemma keyed_get id_of m k row : keyed id_of m -> map_get m k = Some row -> id_of row = k.
Proof. intros [_ Hk] H%map_get_elem. rewrite Forall_forall in Hk. by apply (Hk (k, row)). Qed.

Lemma Forall_map_set (P : UUIDv7 * A -> Prop) m k row :
  Forall P m -> P (k, row) -> Forall P (map_set m k row).
Proof.
  induction m as [|[k0 r0] m IH]; simpl; intros Hm Hr; [by constructor|].
  apply Forall_cons in Hm as [H0 Hm]. case_decide; subst; constructor; auto.
Qed.

Lemma Forall_rows_set (P : A -> Prop) m k row :
  Forall P (rows m) -> P row -> Forall P (rows (map_set m k row)).
Proof.
  unfold rows. rewrite !Forall_fmap. intros Hm Hr. by apply Forall_map_set.
Qed.

Lemma keyed_set id_of m k row : keyed id_of m -> id_of row = k -> keyed id_of (map_set m k row).
Proof. intros [Hd Hk] Hr. split; [by apply map_set_NoDup|by apply Forall_map_set]. Qed.

Lemma keyed_delete id_of m k : keyed id_of m -> keyed id_of (map_delete m k).
Proof.
  intros [Hd Hk]. split.
  - unfold map_delete. clear Hk. induction m as [|[k0 r0] m IH]; [done|].
    csimpl in Hd. apply NoDup_cons in Hd as [Hn Hd]. rewrite filter_cons. case_decide; [|auto].
    csimpl. apply NoDup_cons. split; [|auto]. intros (p & Hp & Hin)%list_elem_of_fmap.
    apply list_elem_of_filter in Hin as [_ Hin]. apply Hn. rewrite Hp. by apply list_elem_of_fmap_2.
  - apply Forall_forall. intros p [_ Hin]%list_elem_of_filter. rewrite Forall_forall in Hk. auto.
Qed.

Lemma unique_set {K} (key : A -> option K) m k row :
  unique_on key m ->
  (forall j y x, j <> k -> map_get m j = Some y -> key row = Some x -> key y = Some x -> False) ->
  unique_on key (map_set m k row).
Proof.
  intros Hu Hnew i j x y z. rewrite !map_get_set. intros Hi Hj Hx Hy.
  repeat case_decide; simplify_eq; eauto; exfalso; eauto.
Qed.

(** Replacing a row by one with the same natural key. *)
Lemma unique_replace {K} (key : A -> option K) m k cur row :
  unique_on key m -> map_get m k = Some cur ->
  (forall x, key row = Some x -> key cur = Some x) -> unique_on key (map_set m k row).
Proof.
  intros Hu Hc Hk. apply unique_set; [done|]. intros j y x Hj Hy Hx Hyx. apply Hj. eauto.
Qed.

Lemma unique_delete {K} (key : A -> option K) m k : unique_on key m -> unique_on key (map_delete m k).
Proof.
  intros Hu i j x y z. rewrite !map_get_delete. repeat case_decide; try done. eauto.
Qed.
End Tables.

#[export] Hint Resolve keyed_set keyed_delete unique_delete : licensing.

Lemma keyed_singleton {A} (id_of : A -> UUIDv7) k v : id_of v = k -> keyed id_of [(k, v)].
Proof. intros H. split; [apply NoDup_singleton|by apply Forall_singleton]. Qed.

Lemma unique_singleton {A K} (key : A -> option K) (k : UUIDv7) v : unique_on key [(k, v)].
Proof. intros i j x y z. simpl. repeat case_decide; congruence. Qed.

Lemma emptyState_ok : state_ok emptyState.
Proof.
  assert (Hk : forall A (f : A -> UUIDv7), keyed f []) by (split; [constructor|done]).
  split; try apply Hk; try (by intros ? ? ? ?); done.
Qed.

(** ** Running a transaction *)

Lemma tx_run {W} {HC : HasClock W} {ST : Storage W} {SL : StorageLaws W} {T} (fn : prog W T) w r w' :
  tx_depth w = 0 -> withTransaction fn w = (r, w') ->
  exists w0 w1, tables w0 = tables w /\ tx_depth w0 = 1 /\ (nowIso w0).1 = (nowIso w).1
    /\ fn w0 = (r, w1) /\ tx_depth w' = tx_depth w1 - 1
    /\ tables w' = match r with Ok _ => tables w1 | Throw _ => tables w end.
Proof.
  intros Hd H. destruct (withTransaction_law _ fn w Hd) as (w0 & Ht0 & Hd0 & Hn0 & Hlaw).
  destruct (fn w0) as [r0 w1] eqn:Hr. destruct Hlaw as (w2 & Htx & Hd2 & Ht2).
  rewrite Htx in H. injection H as <- <-. exists w0, w1. by split_and!.
Qed.

(** A write of the interface keeps [state_ok]. *)
Lemma write_keeps_ok {W} {HC : HasClock W} {ST : Storage W} {SL : StorageLaws W} {A}
    op (c : prog W A) w r w' :
  exec_write op = (do* c; ret tt) -> c w = (r, w') -> state_ok (tables w) -> state_ok (tables w').
Proof.
  intros He Hc Hok. destruct (exec_write op w) as [r' w2] eqn:Hx.
  assert (w2 = w') as ->.
  { rewrite He in Hx. unfold bind, ret in Hx. rewrite Hc in Hx. destruct r; by injection Hx. }
  by eapply write_ok.
Qed.

(** ** Bodies that keep the store well-formed

    [keeps c]: run from a well-formed store, [c] leaves one, whether it
    returns or throws, with the same number of open transactions. *)
Section Keeps.
Context {W : Type} {HC : HasClock W} {ST : Storage W} {SL : StorageLaws W}.

Definition keeps {A} (c : prog W A) : Prop := forall w r w',
  c w = (r, w') -> state_ok (tables w) -> state_ok (tables w') /\ tx_depth w' = tx_depth w.

Lemma keeps_ret {A} (a : A) : keeps (ret a).
Proof. by intros w r w' [= <- <-]. Qed.

Lemma keeps_throw {A} e : keeps (throw (A := A) e).
Proof. by intros w r w' [= <- <-]. Qed.

Lemma keeps_lift {A} (r : res A) : keeps (lift r).
Proof. by intros w r' w' [= <- <-]. Qed.

Lemma keeps_bind {A B} (c : prog W A) (k : A -> prog W B) :
  keeps c -> (forall a, keeps (k a)) -> keeps (bind c k).
Proof.
  intros Hc Hk w r w'. unfold bind. destruct (c w) as [[a|e] w1] eqn:E; intros H Hok;
    destruct (Hc _ _ _ E Hok) as [Hok1 Hd1].
  - destruct (Hk _ _ _ _ H Hok1). split; [done|congruence].
  - by injection H as <- <-.
Qed.

Lemma keeps_nowIso : keeps nowIso.
Proof.
  intros w r w' H. pose proof (nowIso_frame w) as F. rewrite H in F. simpl in F.
  by destruct F as [-> ->].
Qed.

Lemma keeps_getLicense id : keeps (getLicense id).
Proof. intros w r w'. rewrite getLicense_law. by intros [= <- <-]. Qed.

Lemma keeps_getUsage id : keeps (getUsage id).
Proof. intros w r w'. rewrite getUsage_law. by intros [= <- <-]. Qed.

Lemma keeps_listUsages f p : keeps (listUsages f p).
Proof. intros w r w' H. pose proof (listUsages_pure f p w) as F. rewrite H in F. by simpl in F; subst. Qed.

Lemma keeps_appendAudit i : keeps (appendAudit i).
Proof.
  intros w r w' H Hok. split; [by eapply (write_keeps_ok (WAppendAudit i))|]. by eapply appendAudit_law.
Qed.

Lemma keeps_createUsage i : keeps (createUsage i).
Proof.
  intros w r w' H Hok. split; [by eapply (write_keeps_ok (WCreateUsage i))|]. by eapply createUsage_law.
Qed.

Lemma keeps_createLicense i : keeps (createLicense i).
Proof.
  intros w r w' H Hok. split; [by eapply (write_keeps_ok (WCreateLicense i))|]. by eapply createLicense_law.
Qed.

Lemma keeps_updateLicense id p : keeps (updateLicense id p).
Proof.
  intros w r w' H Hok. split; [by eapply (write_keeps_ok (WUpdateLicense id p))|].
  destruct (map_get (s_licenses (tables w)) id) eqn:E; [by eapply updateLicense_law|].
  rewrite updateLicense_missing in H by done. by injection H as _ <-.
Qed.

Lemma keeps_updateUsage id p : keeps (updateUsage id p).
Proof.
  intros w r w' H Hok. split; [by eapply (write_keeps_ok (WUpdateUsage id p))|].
  destruct (map_get (s_usages (tables w)) id) eqn:E; [by eapply updateUsage_law|].
  rewrite updateUsage_missing in H by done. by injection H as _ <-.
Qed.

(** A transaction around a body that keeps. *)
Lemma keeps_tx {T} (fn : prog W T) w r w' :
  keeps fn -> tx_depth w = 0 -> withTransaction fn w = (r, w') -> state_ok (tables w) ->
  state_ok (tables w') /\ tx_depth w' = 0.
Proof.
  intros Hk Hd H Hok. destruct (tx_run fn w r w' Hd H) as (w0 & w1 & Ht0 & Hd0 & _ & Hr & Hd' & Ht').
  rewrite <- Ht0 in Hok. destruct (Hk _ _ _ Hr Hok) as [Hok1 Hd1].
  split; [|lia]. rewrite Ht'. destruct r; [done|congruence].
Qed.
End Keeps.

Create HintDb keeps.
#[export] Hint Resolve keeps_ret keeps_throw keeps_lift keeps_nowIso keeps_getLicense keeps_getUsage
  keeps_listUsages keeps_appendAudit keeps_createUsage keeps_createLicense keeps_updateLicense keeps_updateUsage : keeps.

(** Walk a body step by step. *)
Ltac keeps_steps :=
  repeat match goal with
  | |- keeps (bind _ _) => apply keeps_bind; [|intros ?]
  | |- keeps (if ?b then _ else _) => destruct b
  | |- keeps (match ?x with _ => _ end) => destruct x
  | |- keeps _ => solve [eauto with keeps]
  end.
