(* ===== verification/Pages.v ===== *)
(** * Pages: loops that walk a listing page by page

    The services read whole listings with one loop shape,
    [while (true) { page = list(cursor); ...; if (page.cursor === null) break;
    cursor = page.cursor; }]. The loop is bounded by fuel; with more fuel
    than rows it never runs out. *)

From S2P Require Import Prelude Errors Types Cursor Storage.

(** What a loop body decides: go on with an accumulator, or leave the
    function with a result. *)
Inductive step (A R : Type) : Type :=
| Continue (a : A)
| Return (r : R).
Arguments Continue {A R} a.
Arguments Return {A R} r.

Section Walk.
Context {W T A R : Type}.
Variable fetch : option jsstr -> prog W (Page T).
Variable body : A -> list T -> prog W (step A R).
Variable fin : A -> R.

Fixpoint walkPages (fuel : nat) (acc : A) (cursor : option jsstr) : prog W R :=
  match fuel with
  | O => throw Diverged
  | S fuel' =>
      let* page := fetch cursor in
      let* next := body acc (pg_items page) in
      match next with
      | Return r => ret r
      | Continue acc =>
          match pg_cursor page with
          | None => ret (fin acc)
          | Some c => walkPages fuel' acc (Some c)
          end
      end
  end.
End Walk.

Lemma walkPages_ext {W T A R} (fetch : option jsstr -> prog W (Page T)) body body' (fin : A -> R) fuel :
  (forall a items w, body a items w = body' a items w) ->
  forall acc c w, walkPages fetch body fin fuel acc c w = walkPages fetch body' fin fuel acc c w.
Proof.
  intros Hb. induction fuel as [|fuel IH]; intros acc c w; [done|]. cbn [walkPages]. unfold bind.
  destruct (fetch c w) as [[pg|e] w1]; [|done]. rewrite Hb.
  destruct (body' acc (pg_items pg) w1) as [[[a|r]|e] w2]; try done. destruct (pg_cursor pg); [apply IH|done].
Qed.

Lemma keeps_walkPages {W} {HC : HasClock W} {ST : Storage W} {SL : StorageLaws W} {T A R}
    (fetch : option jsstr -> prog W (Page T)) body (fin : A -> R) fuel acc cursor :
  (forall c, keeps (fetch c)) -> (forall a items, keeps (body a items)) ->
  keeps (walkPages fetch body fin fuel acc cursor).
Proof.
  intros Hf Hb. revert acc cursor. induction fuel as [|fuel IH]; intros acc cursor;
    cbn [walkPages]; keeps_steps; auto.
Qed.

(** [for (const row of page.items) ...] with an early return. *)
Fixpoint fold_step {T A R} (g : A -> T -> step A R) (acc : A) (items : list T) : step A R :=
  match items with
  | [] => Continue acc
  | x :: items' =>
      match g acc x with
      | Return r => Return r
      | Continue acc => fold_step g acc items'
      end
  end.

Definition finish {A R} (fin : A -> R) (s : step A R) : R :=
  match s with Return r => r | Continue a => fin a end.

Lemma fold_step_app {T A R} (g : A -> T -> step A R) acc l1 l2 :
  fold_step g acc (l1 ++ l2)
  = match fold_step g acc l1 with Return r => Return r | Continue a => fold_step g a l2 end.
Proof. revert acc. induction l1 as [|x l1 IH]; intros acc; [done|]. simpl. by destruct (g acc x). Qed.

(** The two folds the services use. *)
Lemma fold_step_find {T} (p : T -> bool) l :
  finish (fun _ : unit => None)
    (fold_step (fun (_ : unit) x => if p x then Return (Some x) else Continue tt) tt l)
  = List.find p l.
Proof. induction l as [|x l IH]; [done|]. simpl. by destruct (p x). Qed.

Lemma fold_step_count {T R} (l : list T) n :
  fold_step (R := R) (fun n _ => Continue (n + 1)) n l = Continue (n + Z.of_nat (List.length l)).
Proof.
  revert n. induction l as [|x l IH]; intros n; simpl; [f_equal; lia|]. rewrite IH. f_equal. lia.
Qed.

(** What is left behind the last row of a prefix is the rest. *)
Lemma rest_after_prefix {T} (key : T -> CursorTuple) l pre rest :
  StronglySorted (desc_le key) l -> NoDup (key <$> l) ->
  l = pre ++ rest -> rest_after key l (last pre) = rest.
Proof.
  intros Hs Hk Hl. destruct (last pre) as [r|] eqn:E; simpl; [|by apply last_None in E; subst].
  apply last_Some in E as [l1 ->]. rewrite Hl, <- app_assoc in *. by apply rest_after_app.
Qed.

Section ReadOnly.
Context {W T A R : Type} (key : T -> CursorTuple) (cur : T -> jsstr) (limit : nat).
Variables (fetch : option jsstr -> prog W (Page T)) (w : W) (l : list T).
Hypothesis limit_pos : (1 <= limit)%nat.
Hypothesis l_sorted : StronglySorted (desc_le key) l.
Hypothesis l_keys : NoDup (key <$> l).
Hypothesis fetch_page : forall after,
  match after with Some r => r ∈ l | None => True end ->
  fetch (cur <$> after) w = (Ok (keyset_page cur limit (rest_after key l after)), w).

(** A loop that only reads folds its body over the whole listing. *)
Lemma walk_fold (g : A -> T -> step A R) (fin : A -> R) fuel : forall pre rest acc,
  l = pre ++ rest -> (List.length rest < fuel)%nat ->
  walkPages fetch (fun a items => ret (fold_step g a items)) fin fuel acc (cur <$> last pre) w
  = (Ok (finish fin (fold_step g acc rest)), w).
Proof.
  induction fuel as [|fuel IH]; intros pre rest acc Hl Hf; [lia|]. cbn [walkPages].
  unfold bind at 1. rewrite fetch_page; cycle 1.
  { destruct (last pre) eqn:E; [|done]. apply last_Some in E as [l1 ->]. subst l.
    apply elem_of_app. left. apply elem_of_app. right. left. }
  rewrite (rest_after_prefix key l pre rest l_sorted l_keys Hl). unfold keyset_page. cbn [pg_items pg_cursor].
  assert (Hfold : fold_step g acc rest = match fold_step g acc (take limit rest) with
    | Return r => Return r | Continue a => fold_step g a (drop limit rest) end)
    by (by rewrite <- fold_step_app, take_drop).
  rewrite Hfold. unfold bind, ret.
  destruct (fold_step g acc (take limit rest)) as [a|r]; [|done].
  destruct (limit <? List.length rest)%nat eqn:E; rewrite ?Nat.ltb_lt, ?Nat.ltb_ge in E.
  - assert (Hlast : last (pre ++ take limit rest) = last (take limit rest)).
    { rewrite last_app. destruct (last (take limit rest)) eqn:El; [done|].
      apply last_None in El. apply (f_equal List.length) in El.
      rewrite length_take in El. simpl in El. lia. }
    destruct (last (take limit rest)) as [r|] eqn:El; cbn [fmap option_fmap option_map].
    + change (Some (cur r)) with (cur <$> Some r). rewrite <- Hlast. apply IH.
      * by rewrite <- app_assoc, take_drop.
      * rewrite length_drop. lia.
    + apply last_None in El. apply (f_equal List.length) in El.
      rewrite length_take in El. simpl in El. lia.
  - by rewrite (drop_ge rest) by lia.
Qed.

Corollary walk_all (g : A -> T -> step A R) (fin : A -> R) fuel acc :
  (List.length l < fuel)%nat ->
  walkPages fetch (fun a items => ret (fold_step g a items)) fin fuel acc None w
  = (Ok (finish fin (fold_step g acc l)), w).
Proof. intros Hf. by apply (walk_fold g fin fuel [] l acc). Qed.
End ReadOnly.

(** ** Listings of seats *)

Lemma elem_usage_listing filter s u :
  u ∈ usage_listing filter s <-> u ∈ rows (s_usages s) /\ usage_matches filter u = true.
Proof.
  unfold usage_listing. by rewrite merge_sort_Permutation, elem_filter.
Qed.

Lemma rows_NoDup {A} (id_of : A -> UUIDv7) m : keyed id_of m -> NoDup (id_of <$> rows m).
Proof.
  intros [Hd Hk]. assert (id_of <$> rows m = m.*1) as ->; [|done].
  unfold rows. rewrite <- list_fmap_compose. induction Hk as [|[k r] m He Hk IH]; [done|].
  csimpl in *. apply NoDup_cons in Hd as [_ Hd]. f_equal; [done|auto].
Qed.

Lemma NoDup_filter_fmap {A B} (f : A -> B) (p : A -> bool) l :
  NoDup (f <$> l) -> NoDup (f <$> List.filter p l).
Proof.
  induction l as [|x l IH]; [done|]. csimpl. intros [Hn Hd]%NoDup_cons.
  destruct (p x); [|auto]. csimpl. apply NoDup_cons. split; [|auto].
  intros (y & Hy & Hin)%list_elem_of_fmap. apply Hn. rewrite Hy. apply list_elem_of_fmap_2.
  by apply elem_filter in Hin as [Hin _].
Qed.

Lemma usage_listing_keys filter s :
  state_ok s -> NoDup (usage_key_of <$> usage_listing filter s).
Proof.
  intros Hok. unfold usage_listing. rewrite merge_sort_Permutation. apply NoDup_filter_fmap.
  eapply (NoDup_fmap_1 cu_id). rewrite <- list_fmap_compose. apply (rows_NoDup u_id), Hok.
Qed.

Lemma usage_listing_length filter s :
  (List.length (usage_listing filter s) <= List.length (s_usages s))%nat.
Proof.
  unfold usage_listing. rewrite merge_sort_Permutation.
  etransitivity; [apply filter_length_le|]. unfold rows. by rewrite length_fmap.
Qed.

Lemma usage_listing_ascii filter s u :
  state_ok s -> u ∈ usage_listing filter s -> ascii_cursor (usage_key_of u) = true.
Proof.
  intros Hok [Hin _]%elem_usage_listing. pose proof (ok_usage_cursors s Hok) as H.
  rewrite Forall_forall in H. auto.
Qed.

Section UsageWalk.
Context {W : Type} {HC : HasClock W} {ST : Storage W} {SL : StorageLaws W}.

Lemma walk_usages {A R} filter limit (g : A -> LicenseUsage -> step A R) fin fuel acc w :
  state_ok (tables w) -> (1 <= limit <= 500)%nat -> (List.length (s_usages (tables w)) < fuel)%nat ->
  walkPages (fun c => listUsages filter (mkPageRequest (Z.of_nat limit) c))
    (fun a items => ret (fold_step g a items)) fin fuel acc None w
  = (Ok (finish fin (fold_step g acc (usage_listing filter (tables w)))), w).
Proof.
  intros Hok Hl Hf. pose proof (usage_listing_length filter (tables w)).
  apply (walk_all usage_key_of usage_cursor limit);
    [lia|apply StronglySorted_merge_sort; apply _|by apply usage_listing_keys| |lia].
  intros after Ha. apply listUsages_law; [done..|]. destruct after; [|done].
  by eapply usage_listing_ascii.
Qed.
End UsageWalk.
