(* ===== verification/LicenseKeyFormat.v ===== *)
(** * LicenseKeyFormat: generation and normalization of license keys

    [src/typescript/src/license-key.ts]. A generated key carries 160 bits of
    entropy in Crockford Base32; a typed key is trimmed, uppercased and
    matched against one pattern. Uppercasing a character outside ASCII is
    the runtime's Unicode table, a parameter. *)

From S2P Require Import Prelude Errors JsNum Text Id Storage.

(** Crockford Base32: no I, L, O, U. *)
Definition ALPHABET : jsstr := js "0123456789ABCDEFGHJKMNPQRSTVWXYZ".

Definition symbol (i : Z) : Z := nth (Z.to_nat i) ALPHABET 0.

(** [while (bits >= 5)] *)
Fixpoint base32_drain (fuel : nat) (out : jsstr) (buf bits : Z) : jsstr * Z :=
  match fuel with
  | O => (out, bits)
  | S fuel' =>
      if 5 <=? bits then
        let bits := bits - 5 in
        base32_drain fuel' (out ++ [symbol (js_and (js_shr buf bits) 0x1f)]) buf bits
      else (out, bits)
  end.

Fixpoint base32_loop (bytes : list Z) (out : jsstr) (buf bits : Z) : jsstr :=
  match bytes with
  | [] => if 0 <? bits then out ++ [symbol (js_and (js_shl buf (5 - bits)) 0x1f)] else out
  | byte :: bytes' =>
      let buf := js_or (js_shl buf 8) byte in
      let bits := bits + 8 in
      let '(out, bits) := base32_drain (Z.to_nat bits) out buf bits in
      base32_loop bytes' out buf bits
  end.

Definition base32Encode (bytes : list Z) : jsstr := base32_loop bytes [] 0 0.

(** [for (let i = 0; i < s.length; i += size) parts.push(s.slice(i, i + size))] *)
Fixpoint slices (fuel : nat) (s : jsstr) (size : nat) : list jsstr :=
  match fuel with
  | O => []
  | S fuel' => match s with [] => [] | _ => take size s :: slices fuel' (drop size s) size end
  end.

Fixpoint join (sep : jsstr) (parts : list jsstr) : jsstr :=
  match parts with
  | [] => []
  | [p] => p
  | p :: ps => p ++ sep ++ join sep ps
  end.

Definition formatGroups (s : jsstr) (size : nat) : jsstr :=
  join (js "-") (slices (List.length s) s size).

(** [generateLicenseKey] on the bytes the runtime filled in. *)
Definition license_key_of_bytes (bytes : list Z) : jsstr :=
  js "LIC-" ++ formatGroups (base32Encode bytes) 4.

Definition generateLicenseKey {W} `{HasEntropy W} : prog W jsstr :=
  let* bytes := randomFill 20 in ret (license_key_of_bytes bytes).

(** ** Normalization *)

(** White space and line terminators of [String.prototype.trim]. *)
Definition is_trim_space (c : Z) : bool :=
  ((9 <=? c) && (c <=? 13)) || (c =? 32) || (c =? 0xa0) || (c =? 0x1680)
  || ((0x2000 <=? c) && (c <=? 0x200a)) || (c =? 0x2028) || (c =? 0x2029) || (c =? 0x202f)
  || (c =? 0x205f) || (c =? 0x3000) || (c =? 0xfeff).

Fixpoint trim_start (s : jsstr) : jsstr :=
  match s with
  | c :: s' => if is_trim_space c then trim_start s' else s
  | [] => []
  end.

Definition js_trim (s : jsstr) : jsstr := rev (trim_start (rev (trim_start s))).

(** The Unicode uppercase mapping of a code point outside ASCII, given as
    its code units. *)
Class CaseMap : Type := { upper_other : jsstr -> jsstr }.

Definition upper_ascii (c : Z) : Z := if (97 <=? c) && (c <=? 122) then c - 32 else c.

Fixpoint toUpperCase `{CaseMap} (s : jsstr) : jsstr :=
  match s with
  | [] => []
  | c :: s' =>
      if is_ascii c then upper_ascii c :: toUpperCase s'
      else
        match s' with
        | d :: s'' =>
            if is_high c && is_low d then upper_other [c; d] ++ toUpperCase s''
            else upper_other [c] ++ toUpperCase s'
        | [] => upper_other [c]
        end
  end.

(** The character class of the pattern. *)
Definition is_crockford (c : Z) : bool :=
  ((48 <=? c) && (c <=? 57)) || ((65 <=? c) && (c <=? 72)) || (c =? 74) || (c =? 75) || (c =? 77)
  || (c =? 78) || ((80 <=? c) && (c <=? 84)) || ((86 <=? c) && (c <=? 90)).

(** Groups of four joined by hyphens, at least [min] of them. *)
Fixpoint match_groups (min : nat) (s : jsstr) : bool :=
  match s with
  | a :: b :: c :: d :: s' =>
      is_crockford a && is_crockford b && is_crockford c && is_crockford d
      && match s' with
         | [] => (min <=? 1)%nat
         | e :: s'' => (e =? 45) && match_groups (pred min) s''
         end
  | _ => false
  end.

(** [LICENSE_KEY_REGEX.test] *)
Definition LICENSE_KEY_REGEX (s : jsstr) : bool :=
  starts_with s (js "LIC-") && match_groups 5 (drop 4 s).

Definition normalizeLicenseKey `{CaseMap} (input : jsstr) : option jsstr :=
  let trimmed := toUpperCase (js_trim input) in
  if LICENSE_KEY_REGEX trimmed then Some trimmed else None.

Definition assertLicenseKey `{CaseMap} (input : jsstr) : res jsstr :=
  match normalizeLicenseKey input with
  | Some normalized => Ok normalized
  | None => Throw errors.invalidLicenseKey
  end.

(** ** The encoder writes the big-endian number in base 32 *)

Definition be_value (bytes : list Z) : Z := fold_left (fun a b => a * 256 + b) bytes 0.

Fixpoint base32_digits (k : nat) (n : Z) : jsstr :=
  match k with
  | O => []
  | S k' => base32_digits k' (n / 32) ++ [symbol (n mod 32)]
  end.

(** [buf] holds the low 32 bits of the number read so far. *)
Definition low32 (buf v : Z) : Prop := toUint32 buf = toUint32 v.

Lemma toInt32_low a : toInt32 a mod 2 ^ 32 = a mod 2 ^ 32.
Proof. unfold toInt32. cbv zeta. destruct (_ <? _); zdiv. Qed.

(** Or-ing a byte below a multiple of 256 adds it. *)
Lemma lor_byte t b : t mod 256 = 0 -> is_byte b -> Z.lor t b = t + b.
Proof.
  intros Hm Hb. rewrite Z.add_nocarry_lor; [done|]. unfold is_byte in Hb.
  apply Z.bits_inj'. intros n Hn. rewrite Z.land_spec, Z.bits_0. destruct (decide (n < 8)) as [Hlt|Hge].
  - rewrite <- (Z.mod_pow2_bits_low t 8 n) by lia. change (2 ^ 8) with 256. by rewrite Hm, Z.bits_0.
  - rewrite <- (Z.mod_small b (2 ^ 8)) by (simpl; lia).
    rewrite Z.mod_pow2_bits_high by lia. apply andb_false_r.
Qed.

Lemma low32_byte buf v b : low32 buf v -> is_byte b -> low32 (js_or (js_shl buf 8) b) (v * 256 + b).
Proof.
  unfold low32, toUint32. intros H Hb. unfold js_or.
  assert (toInt32 b = b) as Hib.
  { unfold is_byte in Hb. unfold toInt32. rewrite Z.mod_small by lia.
    destruct (_ <? _) eqn:E; bool_prop; lia. }
  rewrite Hib. set (t := toInt32 (js_shl buf 8)).
  assert (Ht : t mod 2 ^ 32 = (v * 256) mod 2 ^ 32).
  { unfold t. rewrite toInt32_low. unfold js_shl. rewrite toInt32_low.
    change (8 mod 32) with 8. rewrite Z.shiftl_mul_pow2 by lia. change (2 ^ 8) with 256.
    pose proof (toInt32_low buf) as Hl. rewrite H in Hl.
    rewrite Z.mul_mod, Hl, <- Z.mul_mod by done. done. }
  assert (Hm : t mod 256 = 0).
  { change (2 ^ 32) with 4294967296 in Ht. zdiv. }
  rewrite lor_byte by done.
  rewrite Z.add_mod, Ht, <- Z.add_mod by done. done.
Qed.

(** Five bits of [buf] are five bits of the number. *)
Lemma low32_symbol buf v k :
  low32 buf v -> 0 <= k <= 27 -> js_and (js_shr buf k) 0x1f = v / 2 ^ k mod 32.
Proof.
  intros H Hk. change 0x1f with (2 ^ 5 - 1). rewrite js_and_ones by lia. change (2 ^ 5) with 32.
  unfold js_shr. rewrite (Z.mod_small k) by lia. rewrite Z.shiftr_div_pow2 by lia.
  pose proof (toInt32_low buf) as Hl. unfold low32, toUint32 in H. rewrite H in Hl.
  assert (Hp : 0 < 2 ^ k) by (apply Z.pow_pos_nonneg; lia).
  assert (Hd : 2 ^ 32 = 2 ^ k * 32 * 2 ^ (27 - k)).
  { change 32 with (2 ^ 5) at 2. rewrite <- !Z.pow_add_r by lia. f_equal. lia. }
  assert (Hmod : forall x y, x mod 2 ^ 32 = y mod 2 ^ 32 -> x / 2 ^ k mod 32 = y / 2 ^ k mod 32).
  { intros x y Hxy.
    assert (Hq : forall z m, (m | 2 ^ 32) -> z mod m = z mod 2 ^ 32 mod m)
      by (intros z m Hm; symmetry; by apply Z.mod_mod_divide).
    assert (H1 : x mod (2 ^ k * 32) = y mod (2 ^ k * 32)).
    { rewrite (Hq x), (Hq y), Hxy; [done|..]; exists (2 ^ (27 - k)); rewrite Hd; ring. }
    assert (H2 : x mod 2 ^ k = y mod 2 ^ k).
    { rewrite (Hq x), (Hq y), Hxy; [done|..]; exists (32 * 2 ^ (27 - k)); rewrite Hd; ring. }
    rewrite !Z.rem_mul_r in H1 by lia. rewrite H2 in H1.
    apply (Z.mul_cancel_l _ _ (2 ^ k)); lia. }
  by apply Hmod.
Qed.

Lemma base32_digits_S k n : base32_digits (S k) n = base32_digits k (n / 32) ++ [symbol (n mod 32)].
Proof. done. Qed.

Lemma base32_drain_step f out buf bits :
  5 <= bits -> base32_drain (S f) out buf bits
  = base32_drain f (out ++ [symbol (js_and (js_shr buf (bits - 5)) 0x1f)]) buf (bits - 5).
Proof. intros H. cbn [base32_drain]. by rewrite (proj2 (Z.leb_le _ _) H). Qed.

Lemma base32_drain_stop f out buf bits : bits < 5 -> base32_drain f out buf bits = (out, bits).
Proof. intros H. destruct f; [done|]. cbn [base32_drain]. by rewrite (proj2 (Z.leb_gt _ _) H). Qed.

(** One byte: the symbols its eight bits complete. *)
Lemma base32_drain_spec buf v m bits b :
  low32 buf v -> is_byte b -> 0 <= bits <= 4 ->
  let buf' := js_or (js_shl buf 8) b in
  exists m' bits', base32_drain (Z.to_nat (bits + 8)) (base32_digits m (v / 2 ^ bits)) buf' (bits + 8)
    = (base32_digits m' ((v * 256 + b) / 2 ^ bits'), bits')
    /\ 0 <= bits' <= 4 /\ 5 * Z.of_nat m' + bits' = 5 * Z.of_nat m + bits + 8
    /\ low32 buf' (v * 256 + b).
Proof.
  intros Hl Hb Hr buf'. assert (Hl' : low32 buf' (v * 256 + b)) by (by apply low32_byte).
  unfold is_byte in Hb.
  assert (Hone : forall k, 0 <= k <= 27 ->
    base32_digits m ((v * 256 + b) / 2 ^ k / 32) ++ [symbol (js_and (js_shr buf' k) 0x1f)]
    = base32_digits (S m) ((v * 256 + b) / 2 ^ k)).
  { intros k Hk. by rewrite (low32_symbol _ _ _ Hl' Hk), base32_digits_S. }
  assert (Hv : forall j, 0 <= j -> v / 2 ^ j = (v * 256 + b) / 2 ^ (j + 8)).
  { intros j Hj. rewrite Z.pow_add_r by lia. change (2 ^ 8) with 256.
    rewrite (Z.mul_comm (2 ^ j)), <- Z.div_div by lia. f_equal. zdiv. }
  rewrite (Hv bits) by lia.
  assert (Hs : forall j k, j = k + 5 -> 0 <= k -> (v * 256 + b) / 2 ^ j = (v * 256 + b) / 2 ^ k / 32).
  { intros j k -> Hk. rewrite Z.pow_add_r, Z.div_div by lia. done. }
  destruct (Z.to_nat (bits + 8)) as [|[|f]] eqn:Ef; [lia..|].
  rewrite base32_drain_step by lia. replace (bits + 8 - 5) with (bits + 3) by lia.
  rewrite (Hs (bits + 8) (bits + 3)), Hone by lia.
  destruct (decide (bits + 3 < 5)).
  - exists (S m), (bits + 3). rewrite base32_drain_stop by lia. split_and!; (done || lia).
  - rewrite base32_drain_step by lia. replace (bits + 3 - 5) with (bits - 2) by lia.
    rewrite (Hs (bits + 3) (bits - 2)), (low32_symbol _ _ _ Hl'), <- base32_digits_S by lia.
    exists (S (S m)), (bits - 2). rewrite base32_drain_stop by lia. split_and!; (done || lia).
Qed.

Lemma base32_loop_spec bytes : forall v m buf bits,
  Forall is_byte bytes -> low32 buf v -> 0 <= bits <= 4 -> 0 <= v ->
  let n := 5 * Z.of_nat m + bits + 8 * Z.of_nat (List.length bytes) in
  let total := fold_left (fun a b => a * 256 + b) bytes v in
  base32_loop bytes (base32_digits m (v / 2 ^ bits)) buf bits
  = base32_digits (Z.to_nat ((n + 4) / 5)) (total * 2 ^ (5 * ((n + 4) / 5) - n)).
Proof.
  induction bytes as [|b bytes IH]; intros v m buf bits Hb Hl Hr Hv n total.
  - subst n total. cbn [base32_loop fold_left List.length]. destruct (0 <? bits) eqn:E; bool_prop.
    + replace ((5 * Z.of_nat m + bits + 8 * Z.of_nat 0 + 4) / 5) with (Z.of_nat m + 1) by zdiv.
      rewrite Z2Nat.inj_add, Nat2Z.id, Nat.add_1_r by lia. rewrite base32_digits_S.
      replace (5 * (Z.of_nat m + 1) - (5 * Z.of_nat m + bits + 8 * Z.of_nat 0)) with (5 - bits) by lia.
      assert (H32 : 32 = 2 ^ bits * 2 ^ (5 - bits)).
      { rewrite <- Z.pow_add_r by lia. by replace (bits + (5 - bits)) with 5 by lia. }
      f_equal.
      * f_equal. rewrite H32 at 1. rewrite (Z.mul_comm (2 ^ bits)), <- Z.div_div, Z.div_mul by lia. done.
      * f_equal. f_equal. change 0x1f with (2 ^ 5 - 1). rewrite js_and_ones by lia. change (2 ^ 5) with 32.
        assert (Hlow : js_shl buf (5 - bits) mod 2 ^ 32 = (v * 2 ^ (5 - bits)) mod 2 ^ 32).
        { unfold js_shl. rewrite toInt32_low, (Z.mod_small (5 - bits)), Z.shiftl_mul_pow2 by lia.
          pose proof (toInt32_low buf) as Hi. unfold low32, toUint32 in Hl. rewrite Hl in Hi.
          rewrite Z.mul_mod, Hi, <- Z.mul_mod by lia. done. }
        assert (Hd : (32 | 2 ^ 32)) by (by exists (2 ^ 27)).
        by rewrite <- (Z.mod_mod_divide _ _ _ Hd), Hlow, (Z.mod_mod_divide _ _ _ Hd).
    + assert (bits = 0) as -> by lia.
      replace ((5 * Z.of_nat m + 0 + 8 * Z.of_nat 0 + 4) / 5) with (Z.of_nat m) by zdiv.
      rewrite Nat2Z.id. replace (5 * Z.of_nat m - (5 * Z.of_nat m + 0 + 8 * Z.of_nat 0)) with 0 by lia.
      change (2 ^ 0) with 1. by rewrite Z.div_1_r, Z.mul_1_r.
  - apply Forall_cons in Hb as [Hb Hbs]. cbn [base32_loop]. cbv zeta.
    destruct (base32_drain_spec buf v m bits b Hl Hb Hr) as (m' & bits' & Hd & Hr' & Hn & Hl').
    rewrite Hd. rewrite IH by (done || unfold is_byte in Hb; lia).
    assert (5 * Z.of_nat m' + bits' + 8 * Z.of_nat (List.length bytes) = n) as ->; [|done].
    subst n. cbn [List.length]. lia.
Qed.

(** The number a symbol stands for. *)
Definition unsymbol (c : Z) : Z :=
  Z.of_nat (List.length (List.filter (fun d => d <? c) ALPHABET)).

Lemma symbol_facts i : 0 <= i < 32 -> unsymbol (symbol i) = i /\ is_crockford (symbol i) = true.
Proof.
  intros Hi. assert ((unsymbol (symbol i) =? i) && is_crockford (symbol i) = true) as H.
  { apply (range_check (fun i => (unsymbol (symbol i) =? i) && is_crockford (symbol i)) 32); [|done].
    vm_compute. reflexivity. }
  bool_prop. done.
Qed.

Lemma unsymbol_mod n : unsymbol (symbol (n mod 32)) = n mod 32.
Proof. apply symbol_facts. zdiv. Qed.

Lemma base32_digits_inj k : forall a b,
  0 <= a < 32 ^ Z.of_nat k -> 0 <= b < 32 ^ Z.of_nat k -> base32_digits k a = base32_digits k b -> a = b.
Proof.
  induction k as [|k IH]; intros a b; [simpl; lia|].
  rewrite Nat2Z.inj_succ, Z.pow_succ_r by lia. cbn [base32_digits]. intros Ha Hb H.
  apply app_inj_tail in H as [H1 H2]. apply IH in H1; [|zdiv..].
  apply (f_equal unsymbol) in H2. rewrite !unsymbol_mod in H2. zdiv.
Qed.

Lemma be_value_bound bytes v :
  Forall is_byte bytes -> 0 <= v ->
  v * 256 ^ Z.of_nat (List.length bytes) <= fold_left (fun a b => a * 256 + b) bytes v
    < (v + 1) * 256 ^ Z.of_nat (List.length bytes).
Proof.
  intros H. revert v. induction H as [|b bytes Hb _ IH]; intros v Hv; [simpl; lia|].
  cbn [fold_left List.length]. rewrite Nat2Z.inj_succ, Z.pow_succ_r by lia.
  unfold is_byte in Hb. specialize (IH (v * 256 + b)). nia.
Qed.

Lemma be_value_inj b1 b2 :
  Forall is_byte b1 -> Forall is_byte b2 -> List.length b1 = List.length b2 ->
  be_value b1 = be_value b2 -> b1 = b2.
Proof.
  unfold be_value. intros H1 H2 Hl. revert b2 H2 Hl.
  assert (Hgen : forall b2 v1 v2, Forall is_byte b2 -> List.length b1 = List.length b2 ->
    0 <= v1 -> 0 <= v2 ->
    fold_left (fun a b => a * 256 + b) b1 v1 = fold_left (fun a b => a * 256 + b) b2 v2 ->
    v1 = v2 /\ b1 = b2).
  { induction H1 as [|x b1 Hx H1 IH]; intros [|y b2] v1 v2 H2 Hl Hv1 Hv2; try done.
    apply Forall_cons in H2 as [Hy H2]. injection Hl as Hl. cbn [fold_left]. intros He.
    unfold is_byte in *. apply IH in He as [He ->]; [|done|done|lia|lia].
    assert (v1 = v2 /\ x = y) as [-> ->] by lia. done. }
  intros b2 H2 Hl He. by apply (Hgen b2 0 0).
Qed.

(** ** Keys have the shape the pattern asks for *)

Lemma base32_digits_length k n : List.length (base32_digits k n) = k.
Proof. revert n. induction k as [|k IH]; intros n; [done|]. cbn [base32_digits]. rewrite length_app, IH. simpl. lia. Qed.

Lemma base32_digits_crockford k n : forallb is_crockford (base32_digits k n) = true.
Proof.
  revert n. induction k as [|k IH]; intros n; [done|]. cbn [base32_digits].
  rewrite forallb_app, IH. cbn [forallb andb].
  destruct (symbol_facts (n mod 32)) as [_ ->]; [zdiv|done].
Qed.

Lemma base32Encode_20 bytes :
  Forall is_byte bytes -> List.length bytes = 20%nat -> base32Encode bytes = base32_digits 32 (be_value bytes).
Proof.
  intros Hb Hl. unfold base32Encode.
  pose proof (base32_loop_spec bytes 0 0 0 0 Hb eq_refl) as H. rewrite Hl in H. cbn [base32_digits] in H.
  rewrite H by lia. cbn -[base32_digits be_value]. rewrite Z.mul_1_r. done.
Qed.

Lemma concat_slices fuel s size : (0 < size)%nat -> (List.length s <= fuel)%nat -> concat (slices fuel s size) = s.
Proof.
  intros Hs. revert s. induction fuel as [|fuel IH]; intros s Hf; [by destruct s; simpl in *; [|lia]|].
  destruct s as [|c s]; [done|]. cbn [slices concat].
  rewrite IH; [by rewrite take_drop|]. rewrite length_drop. simpl in *. lia.
Qed.

(** A group of the pattern. *)
Definition is_group (p : jsstr) : Prop := List.length p = 4%nat /\ forallb is_crockford p = true.

Lemma slices_groups fuel k s :
  List.length s = (4 * k)%nat -> forallb is_crockford s = true -> (k <= fuel)%nat ->
  Forall is_group (slices fuel s 4) /\ List.length (slices fuel s 4) = k.
Proof.
  revert s fuel. induction k as [|k IH]; intros s fuel Hl Hc Hf.
  - destruct s; [|done]. by destruct fuel.
  - destruct fuel as [|fuel]; [lia|]. do 4 (destruct s as [|? s]; [simpl in Hl; lia|]).
    cbn [slices drop take]. cbn [forallb] in Hc.
    destruct (IH s fuel) as [IH1 IH2]; [simpl in Hl; lia| |lia|].
    { by repeat (apply andb_prop in Hc as [? Hc]). }
    change (drop 0 s) with s. split; [|cbn [List.length]; lia]. constructor; [|done]. split; [done|].
    change (take 0 s) with (@nil Z). cbn [forallb].
    repeat (apply andb_prop in Hc as [-> Hc]). done.
Qed.

Lemma match_groups_join min parts :
  parts <> [] -> (min <= List.length parts)%nat -> Forall is_group parts ->
  match_groups min (join (js "-") parts) = true.
Proof.
  revert min. induction parts as [|p parts IH]; intros min Hne Hm Hg; [done|].
  apply Forall_cons in Hg as [[Hl Hc] Hg]. destruct p as [|a [|b [|c [|d [|]]]]]; try done.
  cbn [forallb] in Hc. rewrite andb_true_r in Hc.
  repeat (apply andb_prop in Hc as [? Hc]). destruct parts as [|p' parts].
  - cbn [join match_groups]. simpl in Hm.
    repeat match goal with H : is_crockford _ = true |- _ => rewrite H; clear H end. cbn [andb].
    apply Nat.leb_le. lia.
  - change (join (js "-") ([a; b; c; d] :: p' :: parts))
      with (a :: b :: c :: d :: 45 :: join (js "-") (p' :: parts)). cbn [match_groups].
    repeat match goal with H : is_crockford _ = true |- _ => rewrite H; clear H end. cbn [andb].
    change (45 =? 45) with true. cbn [andb]. apply IH; [done|simpl in *; lia|done].
Qed.

Lemma formatGroups_pattern s :
  List.length s = 32%nat -> forallb is_crockford s = true -> match_groups 5 (formatGroups s 4) = true.
Proof.
  intros Hl Hc. unfold formatGroups. rewrite Hl.
  destruct (slices_groups 32 8 s Hl Hc) as [Hg Hn]; [lia|].
  apply match_groups_join; [|lia|done]. intros E. by rewrite E in Hn.
Qed.

Lemma license_key_of_bytes_pattern bytes :
  Forall is_byte bytes -> List.length bytes = 20%nat ->
  LICENSE_KEY_REGEX (license_key_of_bytes bytes) = true.
Proof.
  intros Hb Hl. unfold LICENSE_KEY_REGEX, license_key_of_bytes. rewrite base32Encode_20 by done.
  apply andb_true_intro. split; [reflexivity|].
  change (drop 4 (js "LIC-" ++ formatGroups (base32_digits 32 (be_value bytes)) 4))
    with (formatGroups (base32_digits 32 (be_value bytes)) 4).
  apply formatGroups_pattern; [apply base32_digits_length|apply base32_digits_crockford].
Qed.

(** Dropping the hyphens undoes the grouping. *)
Lemma formatGroups_inj s1 s2 :
  forallb is_crockford s1 = true -> forallb is_crockford s2 = true ->
  formatGroups s1 4 = formatGroups s2 4 -> s1 = s2.
Proof.
  assert (Hjoin : forall parts, Forall (fun p => forallb is_crockford p = true) parts ->
    List.filter (fun c => negb (c =? 45)) (join (js "-") parts) = concat parts).
  { assert (Hc : forall p, forallb is_crockford p = true -> List.filter (fun c => negb (c =? 45)) p = p).
    { intros p. rewrite forallb_Forall. induction 1 as [|c p Hc Hp IH]; [done|]. simpl.
      destruct (c =? 45) eqn:E; bool_prop; [by subst|]. by rewrite IH. }
    induction 1 as [|p parts Hp Hps IH]; [done|]. destruct parts as [|p' parts].
    - simpl. by rewrite app_nil_r, Hc.
    - change (join (js "-") (p :: p' :: parts)) with (p ++ 45 :: join (js "-") (p' :: parts)).
      rewrite List.filter_app, Hc by done. cbn [List.filter Z.eqb Pos.eqb negb]. rewrite IH. done. }
  assert (Hgen : forall s, forallb is_crockford s = true ->
    List.filter (fun c => negb (c =? 45)) (formatGroups s 4) = s).
  { intros s Hs. unfold formatGroups. rewrite Hjoin; [apply concat_slices; lia|].
    generalize (List.length s) as n. intros n. revert s Hs.
    induction n as [|n IH]; intros s Hs; [constructor|]. destruct s as [|c s]; [constructor|].
    cbn [slices]. constructor; [|apply IH]; apply forallb_Forall; apply forallb_Forall in Hs;
      [by apply Forall_take|by apply Forall_drop]. }
  intros H1 H2 H. by rewrite <- (Hgen s1 H1), <- (Hgen s2 H2), H.
Qed.

(** ** Typed keys *)

(** The characters of a well-formed key. *)
Definition is_key_char (c : Z) : bool := is_crockford c || (c =? 45) || (c =? 73) || (c =? 76).

Lemma match_groups_chars s : forall min, match_groups min s = true -> forallb is_key_char s = true.
Proof.
  assert (Hk : forall c, is_crockford c = true -> is_key_char c = true)
    by (intros c Hc; unfold is_key_char; by rewrite Hc).
  assert (Hgen : forall n s min, (List.length s <= n)%nat -> match_groups min s = true ->
    forallb is_key_char s = true).
  { induction n as [|n IH]; intros t min Hl; [by destruct t; simpl in *; [|lia]|].
    destruct t as [|a [|b [|c [|d t]]]]; try done. cbn [match_groups forallb]. intros H.
    repeat (apply andb_prop in H as [H ?]). rewrite !Hk by done. cbn [andb].
    destruct t as [|e t]; [done|]. cbn [forallb].
    match goal with He : (e =? 45) && _ = true |- _ => apply andb_prop in He as [He1 He2] end.
    bool_prop. subst e. change (is_key_char 45) with true. cbn [andb]. eapply IH; [|exact He2].
    simpl in *. lia. }
  intros min. by apply (Hgen (List.length s)).
Qed.

Lemma regex_chars k : LICENSE_KEY_REGEX k = true -> forallb is_key_char k = true.
Proof.
  unfold LICENSE_KEY_REGEX, starts_with. intros [Hp Hg]%andb_prop. bool_prop.
  apply match_groups_chars in Hg. rewrite <- (take_drop 4 k). rewrite forallb_app, Hg.
  change (List.length (js "LIC-")) with 4%nat in Hp. by rewrite Hp.
Qed.

Lemma key_char_facts c : is_key_char c = true -> is_ascii c = true /\ is_trim_space c = false /\ upper_ascii c = c.
Proof.
  intros H. assert (0 <= c < 128) as Hc.
  { unfold is_key_char, is_crockford in H. repeat (apply orb_prop in H as [H|H]); bool_prop; lia. }
  assert (implb (is_key_char c) (is_ascii c && negb (is_trim_space c) && (upper_ascii c =? c)) = true) as Hx.
  { apply (range_check (fun c => implb (is_key_char c)
      (is_ascii c && negb (is_trim_space c) && (upper_ascii c =? c))) 128); [vm_compute; reflexivity|done]. }
  rewrite H in Hx. cbn [implb] in Hx. bool_prop. done.
Qed.

(** [b] is [c], or [c] in lower case. *)
Definition case_of (b c : Z) : Prop := is_ascii b = true /\ upper_ascii b = c.

Lemma case_of_not_space b c : case_of b c -> is_key_char c = true -> is_trim_space b = false.
Proof.
  intros [Ha Hu] Hc. unfold is_ascii in Ha. bool_prop.
  assert (implb (is_key_char (upper_ascii b)) (negb (is_trim_space b)) = true) as Hx.
  { apply (range_check (fun b => implb (is_key_char (upper_ascii b)) (negb (is_trim_space b))) 128);
      [vm_compute; reflexivity|lia]. }
  rewrite Hu, Hc in Hx. cbn [implb] in Hx. by bool_prop.
Qed.

Lemma trim_start_app pre s :
  forallb is_trim_space pre = true -> trim_start (pre ++ s) = trim_start s.
Proof.
  induction pre as [|c pre IH]; [done|]. cbn [forallb app trim_start]. intros [-> H]%andb_prop. auto.
Qed.

Lemma trim_start_keep c s : is_trim_space c = false -> trim_start (c :: s) = c :: s.
Proof. cbn [trim_start]. by intros ->. Qed.

Lemma js_trim_around pre body post :
  forallb is_trim_space pre = true -> forallb is_trim_space post = true ->
  forallb (fun c => negb (is_trim_space c)) body = true -> js_trim (pre ++ body ++ post) = body.
Proof.
  intros Hpre Hpost Hbody. unfold js_trim. rewrite trim_start_app by done.
  assert (Hkeep : forall l t, forallb (fun c => negb (is_trim_space c)) l = true -> l <> [] ->
    trim_start (l ++ t) = l ++ t).
  { intros [|c l] t Hl Hn; [done|]. cbn [forallb] in Hl. bool_prop. cbn [app]. by apply trim_start_keep. }
  destruct body as [|c body].
  - cbn [app]. rewrite <- (app_nil_r post), trim_start_app by done. done.
  - rewrite Hkeep by done. rewrite rev_app_distr.
    rewrite trim_start_app by (rewrite forallb_forall in *; intros x Hx; apply Hpost; by rewrite in_rev).
    rewrite <- (app_nil_r (rev (c :: body))), Hkeep; [by rewrite app_nil_r, rev_involutive|..].
    + rewrite forallb_forall in *. intros x Hx. apply Hbody. by rewrite in_rev.
    + intros E. apply (f_equal List.length) in E. rewrite length_rev in E. done.
Qed.

Section Normalize.
Context {CM : CaseMap}.

Lemma toUpperCase_case body k : Forall2 case_of body k -> toUpperCase body = k.
Proof.
  induction 1 as [|b c body k [Ha Hu] _ IH]; [done|]. cbn [toUpperCase]. by rewrite Ha, Hu, IH.
Qed.

Lemma normalize_typed k pre body post :
  LICENSE_KEY_REGEX k = true -> Forall2 case_of body k ->
  forallb is_trim_space pre = true -> forallb is_trim_space post = true ->
  normalizeLicenseKey (pre ++ body ++ post) = Some k.
Proof.
  intros Hk Hb Hpre Hpost. unfold normalizeLicenseKey. rewrite js_trim_around; [|done..|].
  - by rewrite (toUpperCase_case _ k), Hk.
  - pose proof (regex_chars k Hk) as Hc. clear Hk. induction Hb as [|b c body k' Hbc _ IH]; [done|].
    cbn [forallb] in *. apply andb_prop in Hc as [Hc Hcs].
    rewrite (case_of_not_space _ _ Hbc Hc). by rewrite IH.
Qed.

Lemma case_of_refl k : forallb is_key_char k = true -> Forall2 case_of k k.
Proof.
  rewrite forallb_Forall. induction 1 as [|c k Hc _ IH]; constructor; [|done].
  destruct (key_char_facts c Hc) as (? & _ & ?). done.
Qed.

(** A normalized key normalizes to itself. *)
Lemma normalize_idempotent s k : normalizeLicenseKey s = Some k -> normalizeLicenseKey k = Some k.
Proof.
  unfold normalizeLicenseKey at 1. destruct (LICENSE_KEY_REGEX _) eqn:E; [|done]. intros [= <-].
  pose proof (normalize_typed _ [] _ [] E (case_of_refl _ (regex_chars _ E)) eq_refl eq_refl) as H.
  cbn [app] in H. by rewrite app_nil_r in H.
Qed.
End Normalize.

(** ** Properties *)

(** A generated key carries all of its entropy: keys generated from
    different random bytes are different, so 20 random bytes give 160 bits. *)
Theorem license_key_injective b1 b2 :
  Forall is_byte b1 -> Forall is_byte b2 -> List.length b1 = 20%nat -> List.length b2 = 20%nat ->
  license_key_of_bytes b1 = license_key_of_bytes b2 -> b1 = b2.
Proof.
  intros H1 H2 L1 L2 H. unfold license_key_of_bytes in H. apply app_inv_head in H.
  apply formatGroups_inj in H; rewrite ?base32Encode_20 in * by done;
    try apply base32_digits_crockford.
  apply base32_digits_inj in H.
  - apply be_value_inj; [done..|congruence|done].
  - pose proof (be_value_bound b1 0 H1) as B. unfold be_value. rewrite L1 in B.
    change (32 ^ Z.of_nat 32) with (256 ^ Z.of_nat 20). lia.
  - pose proof (be_value_bound b2 0 H2) as B. unfold be_value. rewrite L2 in B.
    change (32 ^ Z.of_nat 32) with (256 ^ Z.of_nat 20). lia.
Qed.

Lemma license_key_injective_witness :
  license_key_of_bytes (replicate 20 7) = js "LIC-0W3G-E1R7-0W3G-E1R7-0W3G-E1R7-0W3G-E1R7"
  /\ replicate 20 7 = replicate 20 7.
Proof.
  split; [vm_compute; reflexivity|].
  apply (license_key_injective (replicate 20 7) (replicate 20 7)); [decided|decided|reflexivity..].
Defined.

(** A key is found however it is typed: in any letter case, with white
    space around it, every well-formed key, in particular every generated
    one, normalizes to itself. *)
Theorem typed_key_normalizes `{CaseMap} bytes k pre body post :
  k = license_key_of_bytes bytes /\ Forall is_byte bytes /\ List.length bytes = 20%nat
  \/ LICENSE_KEY_REGEX k = true ->
  Forall2 case_of body k -> Forall (fun c => is_trim_space c = true) pre ->
  Forall (fun c => is_trim_space c = true) post ->
  normalizeLicenseKey (pre ++ body ++ post) = Some k.
Proof.
  intros Hk Hb Hpre Hpost. apply normalize_typed; [|done|by apply forallb_Forall..].
  destruct Hk as [(-> & Hbs & Hl)|Hk]; [by apply license_key_of_bytes_pattern|done].
Qed.

(** No character outside ASCII changes in this case map. *)
Definition no_case_map : CaseMap := {| upper_other := fun s => s |}.

Lemma typed_key_normalizes_witness :
  @normalizeLicenseKey no_case_map (js "  lic-0w3g-e1r7-0w3g-E1R7-0W3G " ++ [10])
  = Some (js "LIC-0W3G-E1R7-0W3G-E1R7-0W3G").
Proof.
  apply (@typed_key_normalizes no_case_map [] (js "LIC-0W3G-E1R7-0W3G-E1R7-0W3G") (js "  ")
           (js "lic-0w3g-e1r7-0w3g-E1R7-0W3G") (js " " ++ [10])).
  - right. vm_compute. reflexivity.
  - unfold case_of. repeat constructor.
  - repeat constructor.
  - repeat constructor.
Defined.
