(* ===== verification/Memory.v ===== *)
(** * Memory: the in-memory storage adapter

    [src/typescript/src/storage/memory/adapter.ts]. A table is an
    insertion-ordered map from ids to rows. The adapter's [this.state] and
    [this.txDepth], the injected clock and the runtime's entropy make up the
    world every operation runs in. *)

From S2P Require Import Prelude Errors JsNum Json Types Id Storage Cursor.

(** ** The world *)

Record World : Type := mkWorld {
  w_state : State;
  w_txDepth : Z;
  w_clock : Clock;
  w_entropy : nat -> Z
}.

Definition with_state (s : State) (w : World) : World :=
  mkWorld s (w_txDepth w) (w_clock w) (w_entropy w).
Definition with_depth (d : Z) (w : World) : World :=
  mkWorld (w_state w) d (w_clock w) (w_entropy w).
Definition with_clock (c : Clock) (w : World) : World :=
  mkWorld (w_state w) (w_txDepth w) c (w_entropy w).

(** [this.state] of the current frame. *)
Definition get_state : prog World State := fun w => (Ok (w_state w), w).
Definition put_state (f : State -> State) : prog World unit :=
  fun w => (Ok tt, with_state (f (w_state w)) w).

#[global] Instance world_clock : HasClock World := {|
  nowMs := fun w => let '(ms, c) := clock_nowMs (w_clock w) in (Ok ms, with_clock c w);
  nowIso := fun w => let '(r, c) := clock_nowIso (w_clock w) in (r, with_clock c w)
|}.

#[global] Instance world_entropy : HasEntropy World := {|
  randomFill := fun n w =>
    (Ok (map (fun i => w_entropy w i mod 256) (seq 0 n)),
     mkWorld (w_state w) (w_txDepth w) (w_clock w) (fun i => w_entropy w (n + i)%nat))
|}.

(** [this.nowIso()] *)
Definition adapter_nowIso : prog World Instant := let* ms := nowMs in lift (isoFromMs ms).

(** [for (const row of table.values()) if (...) throw ...] *)
Fixpoint for_rows {A} (check : A -> option exn) (rows : list A) : res unit :=
  match rows with
  | [] => Ok tt
  | row :: rows' => match check row with Some e => Throw e | None => for_rows check rows' end
  end.

(** [x ?? 'null'] *)
Definition or_null (o : option jsstr) : jsstr := match o with Some s => s | None => js "null" end.

(** ** Pagination *)

Section Paginate.
Context {T : Type} (key : T -> CursorTuple).

(** The position of the first row after the cursor. *)
Fixpoint findIndex (p : T -> bool) (l : list T) : option nat :=
  match l with
  | [] => None
  | x :: l' => if p x then Some O else S <$> findIndex p l'
  end.

Definition paginate (items : list T) (page : PageRequest) : Page T :=
  let limit := Z.to_nat (Z.max 1 (Z.min (pr_limit page) 500)) in
  let sorted := merge_sort (desc_le key) items in
  let cursor := decodeCursor (pr_cursor page) in
  let start := match cursor with
               | None => Some O
               | Some c => findIndex (fun r => isAfter (key r) c) sorted
               end in
  match start with
  | None => mkPage [] None
  | Some start =>
      let slice := take limit (drop start sorted) in
      let hasMore := (start + List.length slice <? List.length sorted)%nat in
      mkPage slice
        (if hasMore then
           match last slice with Some r => Some (encodeCursor (key r)) | None => None end
         else None)
  end.
End Paginate.

(** ** Licenses *)

Definition license_conflict (input : LicenseInput) (row : License) : option exn :=
  if str_eqb (l_license_key row) (li_license_key input)
  then Some (errors.licenseKeyConflict (li_license_key input))
  else if str_eqb (l_licensable_type row) (li_licensable_type input)
          && str_eqb (l_licensable_id row) (li_licensable_id input)
          && bool_decide (l_scope_id row = li_scope_id input)
  then Some (errors.uniqueConstraintViolation (js "licensable_scope")
         (li_licensable_type input ++ [58] ++ li_licensable_id input ++ [58]
          ++ or_null (li_scope_id input)))
  else None.

Definition mem_createLicense (input : LicenseInput) : prog World License :=
  let* s := get_state in
  do* lift (for_rows (license_conflict input) (rows (s_licenses s)));
  let* now := adapter_nowIso in
  let* id := freshUuid in
  let row := mkLicense id (li_scope_id input) (li_template_id input) (li_licensable_type input)
    (li_licensable_id input) (li_license_key input) (li_status input) (li_max_usages input)
    (match li_is_trial input with Some b => b | None => false end)
    (li_activated_at input) (li_expires_at input) (li_grace_until input) (li_meta input) now now in
  do* put_state (fun s => set_licenses (map_set (s_licenses s) id row) s);
  ret row.

Definition mem_getLicense (id : UUIDv7) : prog World (option License) :=
  let* s := get_state in ret (map_get (s_licenses s) id).

Definition mem_getLicenseByKey (licenseKey : jsstr) : prog World (option License) :=
  let* s := get_state in
  ret (List.find (fun row => str_eqb (l_license_key row) licenseKey) (rows (s_licenses s))).

Definition license_matches (filter : LicenseFilter) (r : License) : bool :=
  matches (lf_scope_id filter) (l_scope_id r)
  && match lf_status filter with Some ss => bool_decide (l_status r ∈ ss) | None => true end
  && matches (lf_licensable_type filter) (l_licensable_type r)
  && matches (lf_licensable_id filter) (l_licensable_id r)
  && matches (lf_template_id filter) (l_template_id r).

Definition license_key_of (r : License) : CursorTuple := mkCursor (l_created_at r) (l_id r).

Definition mem_listLicenses (filter : LicenseFilter) (page : PageRequest) : prog World (Page License) :=
  let* s := get_state in
  let filtered := List.filter (license_matches filter) (rows (s_licenses s)) in
  ret (paginate license_key_of filtered page).

Definition mem_findLicensesByLicensable (query : FindByLicensableQuery) : prog World (list License) :=
  let* s := get_state in
  let found := List.filter (fun r =>
    str_eqb (l_licensable_type r) (fq_type query) && str_eqb (l_licensable_id r) (fq_id query)
    && matches (fq_scope_id query) (l_scope_id r)) (rows (s_licenses s)) in
  ret (merge_sort (desc_le license_key_of) found).

Definition mem_updateLicense (id : UUIDv7) (patch : LicensePatch) : prog World License :=
  let* s := get_state in
  match map_get (s_licenses s) id with
  | None => throw (errors.licenseNotFound id)
  | Some cur =>
      do* lift (match lp_license_key patch with
                | None => Ok tt
                | Some key =>
                    for_rows (fun row =>
                      if negb (str_eqb (l_id row) id) && str_eqb (l_license_key row) key
                      then Some (errors.uniqueConstraintViolation (js "license_key") key) else None)
                      (rows (s_licenses s))
                end);
      let* now := adapter_nowIso in
      let next := patch_license cur patch now in
      do* put_state (fun s => set_licenses (map_set (s_licenses s) id next) s);
      ret next
  end.

(** ** Scopes *)

Definition mem_createScope (input : LicenseScopeInput) : prog World LicenseScope :=
  let* s := get_state in
  do* lift (for_rows (fun row =>
    if str_eqb (sc_slug row) (sci_slug input)
    then Some (errors.uniqueConstraintViolation (js "slug") (sci_slug input)) else None)
    (rows (s_scopes s)));
  let* now := adapter_nowIso in
  let* id := freshUuid in
  let row := mkScope id (sci_slug input) (sci_name input) (sci_meta input) now now in
  do* put_state (fun s => set_scopes (map_set (s_scopes s) id row) s);
  ret row.

Definition mem_getScope (id : UUIDv7) : prog World (option LicenseScope) :=
  let* s := get_state in ret (map_get (s_scopes s) id).

Definition mem_getScopeBySlug (slug : jsstr) : prog World (option LicenseScope) :=
  let* s := get_state in
  ret (List.find (fun row => str_eqb (sc_slug row) slug) (rows (s_scopes s))).

Definition mem_listScopes (filter : LicenseScopeFilter) (page : PageRequest)
  : prog World (Page LicenseScope) :=
  let* s := get_state in
  ret (paginate (fun r => mkCursor (sc_created_at r) (sc_id r))
         (List.filter (fun r => matches (scf_slug filter) (sc_slug r)) (rows (s_scopes s))) page).

Definition mem_updateScope (id : UUIDv7) (patch : LicenseScopePatch) : prog World LicenseScope :=
  let* s := get_state in
  match map_get (s_scopes s) id with
  | None => throw (errors.uniqueConstraintViolation (js "pk") id)
  | Some cur =>
      let* now := adapter_nowIso in
      let next := patch_scope cur patch now in
      do* put_state (fun s => set_scopes (map_set (s_scopes s) id next) s);
      ret next
  end.

(** ** Templates *)

(** The loop of [walkParentChain], [fuel] hops left. *)
Fixpoint walk_chain (fuel : nat) (templates : list (UUIDv7 * LicenseTemplate))
    (visited : list UUIDv7) (cursor : option UUIDv7) (forbidden : UUIDv7) : option (list UUIDv7) :=
  match fuel, cursor with
  | S f, Some c =>
      let visited := visited ++ [c] in
      if str_eqb c forbidden then Some visited
      else
        match map_get templates c with
        | None => None
        | Some node => walk_chain f templates visited (t_parent_id node) forbidden
        end
  | _, _ => None
  end.

Definition walkParentChain (templates : list (UUIDv7 * LicenseTemplate))
    (startParent : option UUIDv7) (forbidden : UUIDv7) : option (list UUIDv7) :=
  match startParent with
  | None => None
  | Some _ => walk_chain 64 templates [] startParent forbidden
  end.

Definition mem_createTemplate (input : LicenseTemplateInput) : prog World LicenseTemplate :=
  let* s := get_state in
  do* lift (for_rows (fun row =>
    if bool_decide (t_scope_id row = tpi_scope_id input) && str_eqb (t_name row) (tpi_name input)
    then Some (errors.uniqueConstraintViolation (js "scope_name")
                 (or_null (tpi_scope_id input) ++ [58] ++ tpi_name input)) else None)
    (rows (s_templates s)));
  do* lift (match tpi_parent_id input with
            | Some p => if negb (map_has (s_templates s) p)
                        then Throw (errors.uniqueConstraintViolation (js "parent_id") p) else Ok tt
            | None => Ok tt
            end);
  let* id := freshUuid in
  let* now := adapter_nowIso in
  let row := mkTemplate id (tpi_scope_id input) (tpi_parent_id input) (tpi_name input)
    (tpi_max_usages input) (tpi_trial_duration_sec input) (tpi_trial_cooldown_sec input)
    (tpi_grace_duration_sec input) (tpi_force_online_after_sec input) (tpi_entitlements input)
    (tpi_meta input) now now in
  do* put_state (fun s => set_templates (map_set (s_templates s) id row) s);
  ret row.

Definition mem_getTemplate (id : UUIDv7) : prog World (option LicenseTemplate) :=
  let* s := get_state in ret (map_get (s_templates s) id).

Definition mem_listTemplates (filter : LicenseTemplateFilter) (page : PageRequest)
  : prog World (Page LicenseTemplate) :=
  let* s := get_state in
  ret (paginate (fun r => mkCursor (t_created_at r) (t_id r))
         (List.filter (fun r => matches (tf_scope_id filter) (t_scope_id r)
                                && matches (tf_name filter) (t_name r)
                                && matches (tf_parent_id filter) (t_parent_id r))
            (rows (s_templates s))) page).

Definition mem_updateTemplate (id : UUIDv7) (patch : LicenseTemplatePatch) : prog World LicenseTemplate :=
  let* s := get_state in
  match map_get (s_templates s) id with
  | None => throw (errors.uniqueConstraintViolation (js "pk") id)
  | Some cur =>
      do* lift (match tp_parent_id patch with
                | None => Ok tt
                | Some parent =>
                    let? _ := match parent with
                              | Some p =>
                                  if negb (map_has (s_templates s) p)
                                  then Throw (errors.uniqueConstraintViolation (js "parent_id") p)
                                  else Ok tt
                              | None => Ok tt
                              end in
                    match walkParentChain (s_templates s) parent id with
                    | Some chain => Throw (errors.templateCycle id chain)
                    | None => Ok tt
                    end
                end);
      let* now := adapter_nowIso in
      let next := patch_template cur patch now in
      do* put_state (fun s => set_templates (map_set (s_templates s) id next) s);
      ret next
  end.

(** ** Usages *)

Definition usage_conflict (license_id : UUIDv7) (fingerprint : jsstr) (skip : option UUIDv7)
    (row : LicenseUsage) : option exn :=
  if negb (bool_decide (Some (u_id row) = skip))
     && str_eqb (u_license_id row) license_id && str_eqb (u_fingerprint row) fingerprint
     && bool_decide (u_status row = u_active)
  then Some (errors.uniqueConstraintViolation (js "license_fingerprint_active")
               (license_id ++ [58] ++ fingerprint))
  else None.

Definition mem_createUsage (input : LicenseUsageInput) : prog World LicenseUsage :=
  let* s := get_state in
  do* lift (if bool_decide (ui_status input = u_active)
            then for_rows (usage_conflict (ui_license_id input) (ui_fingerprint input) None)
                   (rows (s_usages s))
            else Ok tt);
  let* now := adapter_nowIso in
  let* id := freshUuid in
  let row := mkUsage id (ui_license_id input) (ui_fingerprint input) (ui_status input)
    (ui_registered_at input) (ui_revoked_at input) (ui_registered_at input) (ui_client_meta input)
    now now in
  do* put_state (fun s => set_usages (map_set (s_usages s) id row) s);
  ret row.

Definition mem_getUsage (id : UUIDv7) : prog World (option LicenseUsage) :=
  let* s := get_state in ret (map_get (s_usages s) id).

Definition mem_listUsages (filter : LicenseUsageFilter) (page : PageRequest)
  : prog World (Page LicenseUsage) :=
  let* s := get_state in
  ret (paginate usage_key_of (List.filter (usage_matches filter) (rows (s_usages s))) page).

Definition mem_updateUsage (id : UUIDv7) (patch : LicenseUsagePatch) : prog World LicenseUsage :=
  let* s := get_state in
  match map_get (s_usages s) id with
  | None => throw (errors.uniqueConstraintViolation (js "pk") id)
  | Some cur =>
      do* lift (if bool_decide (up_status patch = Some u_active)
                   && negb (bool_decide (u_status cur = u_active))
                then for_rows (usage_conflict (u_license_id cur) (u_fingerprint cur) (Some id))
                       (rows (s_usages s))
                else Ok tt);
      let* now := adapter_nowIso in
      let next := patch_usage cur patch now in
      do* put_state (fun s => set_usages (map_set (s_usages s) id next) s);
      ret next
  end.

(** ** Signing keys *)

Definition active_signing_conflict (scope : option UUIDv7) (skip : option UUIDv7) (row : LicenseKey)
  : option exn :=
  if negb (bool_decide (Some (k_id row) = skip))
     && bool_decide (k_role row = signing) && bool_decide (k_state row = k_active)
     && bool_decide (k_scope_id row = scope)
  then Some (errors.uniqueConstraintViolation (js "scope_active_signing") (or_null scope))
  else None.

Definition mem_createKey (input : LicenseKeyInput) : prog World LicenseKey :=
  let* s := get_state in
  do* lift (for_rows (fun row =>
    if str_eqb (k_kid row) (ki_kid input)
    then Some (errors.uniqueConstraintViolation (js "kid") (ki_kid input)) else None)
    (rows (s_keys s)));
  do* lift (if bool_decide (ki_role input = signing) && bool_decide (ki_state input = k_active)
            then for_rows (active_signing_conflict (ki_scope_id input) None) (rows (s_keys s))
            else Ok tt);
  let* now := adapter_nowIso in
  let* id := freshUuid in
  let row := mkKey id (ki_scope_id input) (ki_kid input) (ki_alg input) (ki_role input)
    (ki_state input) (ki_public_pem input) (ki_private_pem_enc input) (ki_rotated_from input)
    (ki_rotated_at input) (ki_not_before input) (ki_not_after input) (ki_meta input) now now in
  do* put_state (fun s => set_keys (map_set (s_keys s) id row) s);
  ret row.

Definition mem_getKey (id : UUIDv7) : prog World (option LicenseKey) :=
  let* s := get_state in ret (map_get (s_keys s) id).

Definition mem_getKeyByKid (kid : jsstr) : prog World (option LicenseKey) :=
  let* s := get_state in ret (List.find (fun row => str_eqb (k_kid row) kid) (rows (s_keys s))).

Definition key_matches (filter : LicenseKeyFilter) (r : LicenseKey) : bool :=
  matches (kf_scope_id filter) (k_scope_id r) && matches (kf_kid filter) (k_kid r)
  && matches (kf_alg filter) (k_alg r) && matches (kf_role filter) (k_role r)
  && matches (kf_state filter) (k_state r).

Definition key_key_of (r : LicenseKey) : CursorTuple := mkCursor (k_created_at r) (k_id r).

Definition mem_listKeys (filter : LicenseKeyFilter) (page : PageRequest) : prog World (Page LicenseKey) :=
  let* s := get_state in
  ret (paginate key_key_of (List.filter (key_matches filter) (rows (s_keys s))) page).

Definition mem_updateKey (id : UUIDv7) (patch : LicenseKeyPatch) : prog World LicenseKey :=
  let* s := get_state in
  match map_get (s_keys s) id with
  | None => throw (errors.uniqueConstraintViolation (js "pk") id)
  | Some cur =>
      do* lift (if bool_decide (kp_state patch = Some k_active)
                   && negb (bool_decide (k_state cur = k_active))
                   && bool_decide (k_role cur = signing)
                then for_rows (active_signing_conflict (k_scope_id cur) (Some id)) (rows (s_keys s))
                else Ok tt);
      let* now := adapter_nowIso in
      let next := patch_key cur patch now in
      do* put_state (fun s => set_keys (map_set (s_keys s) id next) s);
      ret next
  end.

(** ** Audit log *)

Definition mem_appendAudit (input : AuditLogInput) : prog World AuditLogEntry :=
  let* id := freshUuid in
  let row := audit_row id input in
  do* put_state (fun s => set_audit (map_set (s_audit s) id row) s);
  ret row.

Definition mem_getAudit (id : UUIDv7) : prog World (option AuditLogEntry) :=
  let* s := get_state in ret (map_get (s_audit s) id).

(** The ids of the licenses the licensable filter selects; [None] when there
    is no such filter. *)
Definition licensable_ids (filter : AuditLogFilter) (licenses : list License) : option (list UUIDv7) :=
  match af_licensable_type filter, af_licensable_id filter with
  | None, None => None
  | ty, li =>
      Some (map l_id (List.filter (fun l => matches ty (l_licensable_type l)
                                            && matches li (l_licensable_id l)) licenses))
  end.

Definition audit_matches (filter : AuditLogFilter) (ids : option (list UUIDv7)) (r : AuditLogEntry)
  : bool :=
  matches (af_license_id filter) (a_license_id r)
  && matches (af_scope_id filter) (a_scope_id r)
  && match af_event filter with Some es => bool_decide (a_event r ∈ es) | None => true end
  && matches (af_actor filter) (a_actor r)
  && match af_since filter with Some t => negb (str_ltb (a_occurred_at r) t) | None => true end
  && match af_until filter with Some t => str_ltb (a_occurred_at r) t | None => true end
  && match ids with
     | None => true
     | Some ids => match a_license_id r with Some i => bool_decide (i ∈ ids) | None => false end
     end.

Definition mem_listAudit (filter : AuditLogFilter) (page : PageRequest)
  : prog World (Page AuditLogEntry) :=
  let* s := get_state in
  let ids := licensable_ids filter (rows (s_licenses s)) in
  ret (paginate (fun r => mkCursor (a_occurred_at r) (a_id r))
         (List.filter (audit_matches filter ids) (rows (s_audit s))) page).

(** ** Trial issuances *)

Definition mem_recordTrialIssuance (input : TrialIssuanceInput) : prog World TrialIssuance :=
  let* s := get_state in
  do* lift (for_rows (fun existing =>
    if bool_decide (ti_template_id existing = tri_template_id input)
       && str_eqb (ti_fingerprint_hash existing) (tri_fingerprint_hash input)
    then Some (errors.uniqueConstraintViolation (js "template_fingerprint")
                 (or_null (tri_template_id input) ++ [58] ++ tri_fingerprint_hash input)) else None)
    (rows (s_trialIssuances s)));
  let* id := freshUuid in
  let* now := adapter_nowIso in
  let row := mkTrial id (tri_template_id input) (tri_fingerprint_hash input) now in
  do* put_state (fun s => set_trials (map_set (s_trialIssuances s) id row) s);
  ret row.

Definition mem_findTrialIssuance (query : TrialIssuanceLookup) : prog World (option TrialIssuance) :=
  let* s := get_state in
  ret (List.find (fun row => bool_decide (ti_template_id row = tl_template_id query)
                             && str_eqb (ti_fingerprint_hash row) (tl_fingerprint_hash query))
         (rows (s_trialIssuances s))).

Definition mem_deleteTrialIssuance (id : UUIDv7) : prog World unit :=
  put_state (fun s => set_trials (map_delete (s_trialIssuances s) id) s).

(** ** Transactions

    The body runs on a copy of the tables; the copy stays when it returns
    and the old tables come back when it throws. Clock and entropy are not
    part of the tables. *)
Definition mem_withTransaction {T} (fn : prog World T) : prog World T := fun w =>
  if 0 <? w_txDepth w then (Throw PlainError, w)
  else
    let live := w_state w in
    match fn (with_depth (w_txDepth w + 1) w) with
    | (Ok r, w') => (Ok r, with_depth (w_txDepth w' - 1) w')
    | (Throw e, w') => (Throw e, with_depth (w_txDepth w' - 1) (with_state live w'))
    end.

#[global] Instance MemoryStorage : Storage World := {|
  createLicense := mem_createLicense;
  getLicense := mem_getLicense;
  getLicenseByKey := mem_getLicenseByKey;
  listLicenses := mem_listLicenses;
  findLicensesByLicensable := mem_findLicensesByLicensable;
  updateLicense := mem_updateLicense;
  createScope := mem_createScope;
  getScope := mem_getScope;
  getScopeBySlug := mem_getScopeBySlug;
  listScopes := mem_listScopes;
  updateScope := mem_updateScope;
  createTemplate := mem_createTemplate;
  getTemplate := mem_getTemplate;
  listTemplates := mem_listTemplates;
  updateTemplate := mem_updateTemplate;
  createUsage := mem_createUsage;
  getUsage := mem_getUsage;
  listUsages := mem_listUsages;
  updateUsage := mem_updateUsage;
  createKey := mem_createKey;
  getKey := mem_getKey;
  getKeyByKid := mem_getKeyByKid;
  listKeys := mem_listKeys;
  updateKey := mem_updateKey;
  appendAudit := mem_appendAudit;
  getAudit := mem_getAudit;
  listAudit := mem_listAudit;
  recordTrialIssuance := mem_recordTrialIssuance;
  findTrialIssuance := mem_findTrialIssuance;
  deleteTrialIssuance := mem_deleteTrialIssuance;
  withTransaction := @mem_withTransaction
|}.
