(* ===== verification/MemoryLaws.v ===== *)
(** * MemoryLaws: the memory adapter keeps the storage contract

    What each operation of [Memory] does to the tables, that no write breaks
    a key or a unique constraint of the schema, that pages enumerate a
    listing, and the [StorageLaws] instance the services run on. *)

From S2P Require Import Prelude Errors JsNum Text Json Types Id JsonLib Cursor Storage Memory.

(** ** Small steps *)

Lemma for_rows_ok {A} (check : A -> option exn) l :
  for_rows check l = Ok tt <-> Forall (fun x => check x = None) l.
Proof.
  induction l as [|x l IH]; simpl; [by split|]. rewrite Forall_cons, <- IH.
  destruct (check x); naive_solver.
Qed.

Lemma for_rows_get {A} (check : A -> option exn) (m : list (UUIDv7 * A)) j y :
  for_rows check (rows m) = Ok tt -> map_get m j = Some y -> check y = None.
Proof.
  rewrite for_rows_ok, Forall_forall. intros H Hy. apply H. by eapply map_get_rows.
Qed.

(** Two worlds with the same tables and the same open transaction. *)
Definition same_db (w w' : World) : Prop :=
  w_state w' = w_state w /\ w_txDepth w' = w_txDepth w.

(** A step that touches no table, with what its result satisfies. *)
Definition frames {A} (c : prog World A) (Q : A -> Prop) : Prop :=
  forall w, same_db w (c w).2 /\ match (c w).1 with Ok a => Q a | Throw _ => True end.

Lemma adapter_nowIso_frames : frames adapter_nowIso (fun now => forallb is_ascii now = true).
Proof.
  intros w. unfold adapter_nowIso, bind, nowMs, world_clock, lift.
  destruct (clock_nowMs (w_clock w)) as [ms c]. simpl. split; [done|].
  destruct (isoFromMs ms) eqn:E; [|done]. by eapply isoFromMs_ascii.
Qed.

Lemma freshUuid_frames : frames (freshUuid (W := World)) (fun id => forallb is_ascii id = true).
Proof.
  intros w. unfold freshUuid, bind, nowMs, world_clock. destruct (clock_nowMs (w_clock w)) as [ms c].
  destruct (_ || _); [done|]. cbv beta iota. unfold randomFill, world_entropy, lift. cbn [fst snd].
  split; [done|]. destruct (newUuidV7 ms _) eqn:E; [|done].
  refine (newUuidV7_ascii _ _ _ _ _ E); [|by rewrite length_map, length_seq].
  apply Forall_fmap, Forall_true. intros i. unfold is_byte. simpl. zdiv.
Qed.

(** [c] leaves the tables as [post] says when it returns and untouched when
    it throws. *)
Definition wrote {A} (post : A -> State -> State -> Prop) (c : prog World A) (w : World) : Prop :=
  w_txDepth (c w).2 = w_txDepth w
  /\ match (c w).1 with
     | Ok a => post a (w_state w) (w_state (c w).2)
     | Throw _ => w_state (c w).2 = w_state w
     end.

Lemma wrote_frame {A B} (c : prog World A) Q (k : A -> prog World B) post w :
  frames c Q -> (forall a w1, same_db w w1 -> Q a -> wrote post (k a) w1) -> wrote post (bind c k) w.
Proof.
  intros Hf Hk. destruct (Hf w) as [Hs Hq]. unfold wrote, bind.
  destruct (c w) as [[a|e] w1]; simpl in *; [|destruct Hs; split; congruence].
  destruct (Hk a w1 Hs Hq) as [Hd Hp]. destruct Hs as [Hs Hd']. rewrite Hs, Hd' in *. by split.
Qed.

Lemma wrote_get {B} (k : State -> prog World B) post w :
  wrote post (k (w_state w)) w -> wrote post (bind get_state k) w.
Proof. done. Qed.

Lemma wrote_check {A B} (r : res A) (k : A -> prog World B) post w :
  (forall a, r = Ok a -> wrote post (k a) w) -> wrote post (bind (lift r) k) w.
Proof. intros H. unfold wrote, bind, lift. destruct r; [by apply H|done]. Qed.

Lemma wrote_put {A} f (a : A) (post : A -> State -> State -> Prop) w :
  post a (w_state w) (f (w_state w)) -> wrote post (do* put_state f; ret a) w.
Proof. done. Qed.

Lemma wrote_throw {A} e (post : A -> State -> State -> Prop) w : wrote post (throw e) w.
Proof. done. Qed.

Lemma wrote_impl {A} (post post' : A -> State -> State -> Prop) c w :
  wrote post c w -> (forall a s', post a (w_state w) s' -> post' a (w_state w) s') -> wrote post' c w.
Proof. unfold wrote. intros [Hd Hp] Hi. split; [done|]. destruct (c w) as [[a|e] w']; simpl in *; auto. Qed.

(** Walk through a write up to its [put_state]. *)
Ltac wrote_steps :=
  repeat match goal with
  | |- wrote _ (bind get_state _) _ => apply wrote_get; cbv beta
  | |- wrote _ (bind (lift _) _) _ => apply wrote_check; intros [] ?; cbv beta
  | |- wrote _ (bind adapter_nowIso _) _ =>
      eapply wrote_frame; [exact adapter_nowIso_frames|intros ? ? [? ?] ?]
  | |- wrote _ (bind freshUuid _) _ =>
      eapply wrote_frame; [exact freshUuid_frames|intros ? ? [? ?] ?]
  | |- wrote _ (throw _) _ => apply wrote_throw
  | |- wrote _ (match ?m with _ => _ end) _ => destruct m eqn:?
  | |- wrote _ (bind (put_state _) _) _ => apply wrote_put
  end.

(** Close the final state of a write: the tables it read are those it began
    with. *)
Ltac wrote_done :=
  repeat match goal with H : w_state ?w' = _ |- _ => is_var w'; try rewrite H; clear H end;
  try (eexists _, _); (split_and!; try reflexivity); eauto; try congruence.

Definition plain_text (s : jsstr) : Prop := forallb is_ascii s = true.

(** ** What each write does *)

Lemma mem_createLicense_wrote i w :
  wrote (fun row s s' => exists id now,
    for_rows (license_conflict i) (rows (s_licenses s)) = Ok tt
    /\ row = mkLicense id (li_scope_id i) (li_template_id i) (li_licensable_type i)
         (li_licensable_id i) (li_license_key i) (li_status i) (li_max_usages i)
         (match li_is_trial i with Some b => b | None => false end)
         (li_activated_at i) (li_expires_at i) (li_grace_until i) (li_meta i) now now
    /\ s' = set_licenses (map_set (s_licenses s) id row) s) (mem_createLicense i) w.
Proof.
  unfold mem_createLicense. wrote_steps. wrote_done.
Qed.

Lemma mem_updateLicense_wrote id p w :
  wrote (fun next s s' => exists cur now,
    map_get (s_licenses s) id = Some cur /\ next = patch_license cur p now
    /\ (forall key j row, lp_license_key p = Some key -> map_get (s_licenses s) j = Some row ->
          l_id row <> id -> l_license_key row <> key)
    /\ s' = set_licenses (map_set (s_licenses s) id next) s) (mem_updateLicense id p) w.
Proof.
  unfold mem_updateLicense. wrote_steps. wrote_done.
  intros key j row Hk Hg Hne He. rewrite Hk in *.
  match goal with Hf : for_rows _ _ = Ok _ |- _ => eapply for_rows_get in Hf; [|exact Hg] end.
  rewrite He in *. unfold str_eqb in *. rewrite bool_decide_false, bool_decide_true in * by done. done.
Qed.

Lemma mem_createScope_wrote i w :
  wrote (fun row s s' => exists id now,
    (forall j r, map_get (s_scopes s) j = Some r -> sc_slug r <> sci_slug i)
    /\ row = mkScope id (sci_slug i) (sci_name i) (sci_meta i) now now
    /\ s' = set_scopes (map_set (s_scopes s) id row) s) (mem_createScope i) w.
Proof.
  unfold mem_createScope. wrote_steps. wrote_done. intros j r Hg He.
  match goal with Hf : for_rows _ _ = Ok _ |- _ => eapply for_rows_get in Hf; [|exact Hg] end.
  rewrite He in *. unfold str_eqb in *. by rewrite bool_decide_true in * by done.
Qed.

Lemma mem_updateScope_wrote id p w :
  wrote (fun next s s' => exists cur now,
    map_get (s_scopes s) id = Some cur /\ next = patch_scope cur p now
    /\ s' = set_scopes (map_set (s_scopes s) id next) s) (mem_updateScope id p) w.
Proof. unfold mem_updateScope. wrote_steps. wrote_done. Qed.

Lemma mem_createTemplate_wrote i w :
  wrote (fun row s s' => exists id now,
    (forall j r, map_get (s_templates s) j = Some r ->
       (t_scope_id r, t_name r) <> (tpi_scope_id i, tpi_name i))
    /\ (forall q, tpi_parent_id i = Some q -> map_has (s_templates s) q = true)
    /\ row = mkTemplate id (tpi_scope_id i) (tpi_parent_id i) (tpi_name i)
         (tpi_max_usages i) (tpi_trial_duration_sec i) (tpi_trial_cooldown_sec i)
         (tpi_grace_duration_sec i) (tpi_force_online_after_sec i) (tpi_entitlements i)
         (tpi_meta i) now now
    /\ s' = set_templates (map_set (s_templates s) id row) s) (mem_createTemplate i) w.
Proof.
  unfold mem_createTemplate. wrote_steps. wrote_done.
  - intros j r Hg He. injection He as He1 He2.
    match goal with Hf : for_rows _ _ = Ok _ |- _ => eapply for_rows_get in Hf; [|exact Hg] end.
    rewrite He1, He2 in *. unfold str_eqb in *. by rewrite !bool_decide_true in * by done.
  - intros q Hq. rewrite Hq in *. by destruct (map_has _ q).
Qed.

Lemma mem_updateTemplate_wrote id p w :
  wrote (fun next s s' => exists cur now,
    map_get (s_templates s) id = Some cur /\ next = patch_template cur p now
    /\ (forall parent, tp_parent_id p = Some parent ->
          walkParentChain (s_templates s) parent id = None
          /\ forall q, parent = Some q -> map_has (s_templates s) q = true)
    /\ s' = set_templates (map_set (s_templates s) id next) s) (mem_updateTemplate id p) w.
Proof.
  unfold mem_updateTemplate. wrote_steps. wrote_done. intros parent Hp.
  match goal with Hf : match tp_parent_id p with _ => _ end = Ok _ |- _ => rewrite Hp in Hf; revert Hf end.
  destruct (walkParentChain _ _ _); destruct parent as [q|]; try destruct (map_has _ q) eqn:Eq;
    cbn [negb rbind]; intros Hf; try discriminate Hf; (split; [reflexivity|]).
  - intros q0 Hq0. injection Hq0 as <-. exact Eq.
  - discriminate.
Qed.

Lemma usage_conflict_none l f skip row :
  usage_conflict l f skip row = None -> Some (u_id row) <> skip ->
  active_seat row <> Some (l, f).
Proof.
  unfold usage_conflict, active_seat, str_eqb. intros H Hs. rewrite (bool_decide_false _ Hs) in H.
  destruct (bool_decide (u_status row = u_active)); [|done]. intros Hl. injection Hl as <- <-.
  by rewrite (bool_decide_true (u_license_id row = _)), (bool_decide_true (u_fingerprint row = _)) in H by done.
Qed.

Lemma mem_createUsage_wrote i w :
  wrote (fun row s s' => exists id now,
    (ui_status i = u_active -> forall j r, map_get (s_usages s) j = Some r ->
       active_seat r <> Some (ui_license_id i, ui_fingerprint i))
    /\ plain_text id /\ plain_text now
    /\ row = mkUsage id (ui_license_id i) (ui_fingerprint i) (ui_status i) (ui_registered_at i)
         (ui_revoked_at i) (ui_registered_at i) (ui_client_meta i) now now
    /\ s' = set_usages (map_set (s_usages s) id row) s) (mem_createUsage i) w.
Proof.
  unfold mem_createUsage. wrote_steps. wrote_done. intros Ha j r Hg.
  rewrite bool_decide_true in * by done.
  match goal with Hf : for_rows _ _ = Ok _ |- _ => eapply for_rows_get in Hf; [|exact Hg] end.
  by eapply usage_conflict_none.
Qed.

Lemma mem_updateUsage_wrote id p w :
  wrote (fun next s s' => exists cur now,
    map_get (s_usages s) id = Some cur /\ next = patch_usage cur p now
    /\ (up_status p = Some u_active -> u_status cur <> u_active ->
          forall j r, map_get (s_usages s) j = Some r -> u_id r <> id ->
            active_seat r <> Some (u_license_id cur, u_fingerprint cur))
    /\ s' = set_usages (map_set (s_usages s) id next) s) (mem_updateUsage id p) w.
Proof.
  unfold mem_updateUsage. wrote_steps. wrote_done. intros Ha Hc j r Hg Hne.
  rewrite bool_decide_true, bool_decide_false in * by done. simpl in *.
  match goal with Hf : for_rows _ _ = Ok _ |- _ => eapply for_rows_get in Hf; [|exact Hg] end.
  eapply usage_conflict_none; [done|congruence].
Qed.

Lemma active_signing_conflict_none scope skip row :
  active_signing_conflict scope skip row = None -> Some (k_id row) <> skip ->
  active_signing row <> Some scope.
Proof.
  unfold active_signing_conflict, active_signing. intros H Hs. rewrite (bool_decide_false _ Hs) in H.
  cbn [negb andb] in H. destruct (bool_decide (k_role row = signing) && _); [|done]. intros Hk.
  injection Hk as <-. by rewrite bool_decide_true in H by done.
Qed.

Lemma mem_createKey_wrote i w :
  wrote (fun row s s' => exists id now,
    (forall j r, map_get (s_keys s) j = Some r -> k_kid r <> ki_kid i)
    /\ (ki_role i = signing -> ki_state i = k_active -> forall j r, map_get (s_keys s) j = Some r ->
          active_signing r <> Some (ki_scope_id i))
    /\ row = mkKey id (ki_scope_id i) (ki_kid i) (ki_alg i) (ki_role i) (ki_state i)
         (ki_public_pem i) (ki_private_pem_enc i) (ki_rotated_from i) (ki_rotated_at i)
         (ki_not_before i) (ki_not_after i) (ki_meta i) now now
    /\ s' = set_keys (map_set (s_keys s) id row) s) (mem_createKey i) w.
Proof.
  unfold mem_createKey. wrote_steps. wrote_done.
  - intros j r Hg He.
    match goal with Hf : for_rows (fun _ => _) _ = Ok _ |- _ => eapply for_rows_get in Hf; [|exact Hg] end.
    rewrite He in *. unfold str_eqb in *. by rewrite bool_decide_true in * by done.
  - intros Hr Ha j r Hg. rewrite !bool_decide_true in * by done. simpl in *.
    match goal with Hf : for_rows (active_signing_conflict _ _) _ = Ok _ |- _ =>
      eapply for_rows_get in Hf; [|exact Hg] end.
    by eapply active_signing_conflict_none.
Qed.

Lemma mem_updateKey_wrote id p w :
  wrote (fun next s s' => exists cur now,
    map_get (s_keys s) id = Some cur /\ next = patch_key cur p now
    /\ (kp_state p = Some k_active -> k_state cur <> k_active -> k_role cur = signing ->
          forall j r, map_get (s_keys s) j = Some r -> k_id r <> id ->
            active_signing r <> Some (k_scope_id cur))
    /\ s' = set_keys (map_set (s_keys s) id next) s) (mem_updateKey id p) w.
Proof.
  unfold mem_updateKey. wrote_steps. wrote_done. intros Ha Hc Hr j r Hg Hne.
  rewrite (bool_decide_true (kp_state p = _)), (bool_decide_false (k_state _ = _)),
    (bool_decide_true (k_role _ = _)) in * by done. simpl in *.
  match goal with Hf : for_rows _ _ = Ok _ |- _ => eapply for_rows_get in Hf; [|exact Hg] end.
  eapply active_signing_conflict_none; [done|congruence].
Qed.

Lemma mem_appendAudit_wrote i w :
  wrote (fun row s s' => row = audit_row (a_id row) i
    /\ s' = set_audit (map_set (s_audit s) (a_id row) row) s) (mem_appendAudit i) w.
Proof. unfold mem_appendAudit. wrote_steps. cbv zeta. wrote_steps. wrote_done. Qed.

Lemma mem_recordTrialIssuance_wrote i w :
  wrote (fun row s s' => exists id now,
    (forall j r, map_get (s_trialIssuances s) j = Some r ->
       (ti_template_id r, ti_fingerprint_hash r) <> (tri_template_id i, tri_fingerprint_hash i))
    /\ row = mkTrial id (tri_template_id i) (tri_fingerprint_hash i) now
    /\ s' = set_trials (map_set (s_trialIssuances s) id row) s) (mem_recordTrialIssuance i) w.
Proof.
  unfold mem_recordTrialIssuance. wrote_steps. wrote_done. intros j r Hg [= He1 He2].
  match goal with Hf : for_rows _ _ = Ok _ |- _ => eapply for_rows_get in Hf; [|exact Hg] end.
  rewrite He1, He2 in *. unfold str_eqb in *. by rewrite !bool_decide_true in * by done.
Qed.

(** ** No write breaks a key or a constraint *)

Lemma exec_wrote {A} (c : prog World A) post w (R : State -> Prop) :
  wrote post c w -> R (w_state w) -> (forall a s', post a (w_state w) s' -> R s') ->
  R (w_state ((do* c; ret tt) w).2).
Proof.
  intros [_ Hp] H0 Hr. unfold bind, ret. destruct (c w) as [[a|e] w']; simpl in *; [eauto|by rewrite Hp].
Qed.

(** The constraints the other tables carry are untouched by a write to one
    table; what is left are those of the written table. *)
Ltac one_table Hok :=
  let H := fresh "Hok" in pose proof Hok as H; destruct H; split; cbn; try assumption;
  eauto with licensing.

Lemma row_patched {A} (id_of : A -> UUIDv7) m k cur next :
  keyed id_of m -> map_get m k = Some cur -> id_of next = id_of cur -> keyed id_of (map_set m k next).
Proof. intros Hk Hg Hn. apply keyed_set; [done|]. rewrite Hn. by eapply keyed_get. Qed.

Lemma ok_license_created s i id now b :
  state_ok s -> for_rows (license_conflict i) (rows (s_licenses s)) = Ok tt ->
  state_ok (set_licenses (map_set (s_licenses s) id
    (mkLicense id (li_scope_id i) (li_template_id i) (li_licensable_type i) (li_licensable_id i)
       (li_license_key i) (li_status i) (li_max_usages i) b (li_activated_at i) (li_expires_at i)
       (li_grace_until i) (li_meta i) now now)) s).
Proof.
  intros Hok Hf. one_table Hok. apply unique_set; [done|]. intros j y x _ Hy [= <-] [= Hk].
  eapply for_rows_get in Hf; [|exact Hy]. unfold license_conflict, str_eqb in Hf.
  by rewrite bool_decide_true in Hf.
Qed.

Lemma ok_license_patched s id p cur now :
  state_ok s -> map_get (s_licenses s) id = Some cur ->
  (forall key j row, lp_license_key p = Some key -> map_get (s_licenses s) j = Some row ->
     l_id row <> id -> l_license_key row <> key) ->
  state_ok (set_licenses (map_set (s_licenses s) id (patch_license cur p now)) s).
Proof.
  intros Hok Hc Hk. one_table Hok; [by eapply row_patched|].
  destruct (lp_license_key p) as [key|] eqn:Ek.
  - apply unique_set; [done|]. intros j y x Hj Hy. cbn. rewrite Ek. intros [= <-] [= Hx].
    eapply Hk; [done|exact Hy| |done]. intros Hid. apply Hj.
    by rewrite <- (keyed_get _ _ _ _ ok_licenses Hy).
  - eapply unique_replace; [done..|]. cbn. by rewrite Ek.
Qed.

Lemma ok_usage_patched s id p cur now :
  state_ok s -> map_get (s_usages s) id = Some cur ->
  (up_status p = Some u_active -> u_status cur <> u_active ->
     forall j r, map_get (s_usages s) j = Some r -> u_id r <> id ->
       active_seat r <> Some (u_license_id cur, u_fingerprint cur)) ->
  state_ok (set_usages (map_set (s_usages s) id (patch_usage cur p now)) s).
Proof.
  intros Hok Hc Hk. one_table Hok; [by eapply row_patched| |].
  - apply unique_set; [done|]. intros j y x Hj Hy. unfold active_seat at 1. cbn.
    case_bool_decide as Ha; [|done]. intros [= <-] Hx.
    destruct (decide (u_status cur = u_active)) as [Hcur|Hcur].
    + apply Hj. eapply ok_active_seat; [exact Hy|exact Hc|exact Hx|].
      unfold active_seat. by rewrite bool_decide_true.
    + destruct (up_status p) as [st|] eqn:Es; cbn in Ha; [subst st|done].
      eapply Hk; [done..|exact Hy| |exact Hx].
      intros Hid. apply Hj. by rewrite <- (keyed_get _ _ _ _ ok_usages Hy).
  - apply Forall_rows_set; [done|]. rewrite Forall_forall in ok_usage_cursors.
    apply (ok_usage_cursors cur). by eapply map_get_rows.
Qed.

Lemma ok_key_patched s id p cur now :
  state_ok s -> map_get (s_keys s) id = Some cur ->
  (kp_state p = Some k_active -> k_state cur <> k_active -> k_role cur = signing ->
     forall j r, map_get (s_keys s) j = Some r -> k_id r <> id ->
       active_signing r <> Some (k_scope_id cur)) ->
  state_ok (set_keys (map_set (s_keys s) id (patch_key cur p now)) s).
Proof.
  intros Hok Hc Hk. one_table Hok; [by eapply row_patched|by eapply unique_replace|].
  apply unique_set; [done|]. intros j y x Hj Hy. unfold active_signing at 1. cbn.
  destruct (_ && _) eqn:Ha; [|done]. bool_prop. intros [= <-] Hx.
  destruct (decide (k_state cur = k_active)) as [Hcur|Hcur].
  - apply Hj. eapply ok_active_signing; [exact Hy|exact Hc|exact Hx|].
    unfold active_signing. by rewrite !bool_decide_true.
  - destruct (kp_state p) as [st|] eqn:Es; cbn in *; [subst st|done].
    eapply Hk; [done..|exact Hy| |exact Hx].
    intros Hid. apply Hj. by rewrite <- (keyed_get _ _ _ _ ok_keys Hy).
Qed.

Lemma ok_key_created s i id now :
  state_ok s -> (forall j r, map_get (s_keys s) j = Some r -> k_kid r <> ki_kid i) ->
  (ki_role i = signing -> ki_state i = k_active -> forall j r, map_get (s_keys s) j = Some r ->
     active_signing r <> Some (ki_scope_id i)) ->
  state_ok (set_keys (map_set (s_keys s) id
    (mkKey id (ki_scope_id i) (ki_kid i) (ki_alg i) (ki_role i) (ki_state i) (ki_public_pem i)
       (ki_private_pem_enc i) (ki_rotated_from i) (ki_rotated_at i) (ki_not_before i)
       (ki_not_after i) (ki_meta i) now now)) s).
Proof.
  intros Hok Hkid Hact. one_table Hok; (apply unique_set; [done|]).
  - intros j y x _ Hy [= <-] [= Hk]. by eapply Hkid.
  - intros j y x _ Hy. unfold active_signing at 1. cbn. destruct (_ && _) eqn:Ha; [|done].
    bool_prop. intros [= <-] Hx. by eapply Hact.
Qed.

Lemma ok_usage_created s i id now :
  state_ok s -> plain_text id -> plain_text now ->
  (ui_status i = u_active -> forall j r, map_get (s_usages s) j = Some r ->
     active_seat r <> Some (ui_license_id i, ui_fingerprint i)) ->
  state_ok (set_usages (map_set (s_usages s) id
    (mkUsage id (ui_license_id i) (ui_fingerprint i) (ui_status i) (ui_registered_at i)
       (ui_revoked_at i) (ui_registered_at i) (ui_client_meta i) now now)) s).
Proof.
  intros Hok Hid Hnow Hact. one_table Hok.
  - apply unique_set; [done|]. intros j y x _ Hy. unfold active_seat at 1. cbn.
    case_bool_decide; [|done]. intros [= <-] Hx. by eapply Hact.
  - apply Forall_rows_set; [done|]. unfold ascii_cursor. cbn. unfold plain_text in *. by rewrite Hid, Hnow.
Qed.

Lemma mem_write_ok op w :
  state_ok (w_state w) -> state_ok (w_state (exec_write (W := World) op w).2).
Proof.
  intros Hok. destruct op; cbn [exec_write createLicense updateLicense createScope updateScope
    createTemplate updateTemplate createUsage updateUsage createKey updateKey appendAudit
    recordTrialIssuance deleteTrialIssuance MemoryStorage].
  - eapply exec_wrote; [apply mem_createLicense_wrote|done|]. intros a s' (? & ? & ? & -> & ->).
    by apply ok_license_created.
  - eapply exec_wrote; [apply mem_updateLicense_wrote|done|]. intros a s' (? & ? & ? & -> & ? & ->).
    by apply ok_license_patched.
  - eapply exec_wrote; [apply mem_createScope_wrote|done|]. intros a s' (? & ? & Hs & -> & ->).
    one_table Hok. apply unique_set; [done|]. intros j y z _ Hy [= <-] [= Hk]. by eapply Hs.
  - eapply exec_wrote; [apply mem_updateScope_wrote|done|]. intros a s' (? & ? & ? & -> & ->).
    one_table Hok; [by eapply row_patched|by eapply unique_replace].
  - eapply exec_wrote; [apply mem_createTemplate_wrote|done|]. intros a s' (? & ? & ? & ? & -> & ->).
    one_table Hok.
  - eapply exec_wrote; [apply mem_updateTemplate_wrote|done|]. intros a s' (? & ? & ? & -> & ? & ->).
    one_table Hok. by eapply row_patched.
  - eapply exec_wrote; [apply mem_createUsage_wrote|done|]. intros a s' (? & ? & ? & ? & ? & -> & ->).
    by apply ok_usage_created.
  - eapply exec_wrote; [apply mem_updateUsage_wrote|done|]. intros a s' (? & ? & ? & -> & ? & ->).
    by apply ok_usage_patched.
  - eapply exec_wrote; [apply mem_createKey_wrote|done|]. intros a s' (? & ? & ? & ? & -> & ->).
    by apply ok_key_created.
  - eapply exec_wrote; [apply mem_updateKey_wrote|done|]. intros a s' (? & ? & ? & -> & ? & ->).
    by apply ok_key_patched.
  - eapply exec_wrote; [apply mem_appendAudit_wrote|done|]. intros a s' (_ & ->). one_table Hok.
  - eapply exec_wrote; [apply mem_recordTrialIssuance_wrote|done|].
    intros a s' (? & ? & Ht & -> & ->). one_table Hok. apply unique_set; [done|].
    intros j y z _ Hy [= <-] [= Hk1 Hk2]. eapply Ht; [done|congruence].
  - unfold mem_deleteTrialIssuance, put_state. cbn. one_table Hok.
Qed.

(** ** Pages *)

Section Pages.
Context {T : Type} (key : T -> CursorTuple).

Lemma findIndex_after (l : list T) c :
  StronglySorted (desc_le key) l ->
  match findIndex (fun x => isAfter (key x) c) l with
  | None => List.filter (fun x => isAfter (key x) c) l = []
  | Some n => List.filter (fun x => isAfter (key x) c) l = drop n l
  end.
Proof.
  induction 1 as [|x l Hs IH Hx]; [done|]. simpl. destruct (isAfter (key x) c) eqn:E.
  - simpl. f_equal. by eapply after_stays.
  - destruct (findIndex (fun x => isAfter (key x) c) l); exact IH.
Qed.

(** [paginate] behind a cursor is a keyset page of the sorted rows. *)
Lemma paginate_keyset items limit (after : option T) :
  (1 <= limit <= 500)%nat ->
  match after with Some r => ascii_cursor (key r) = true | None => True end ->
  paginate key items (mkPageRequest (Z.of_nat limit) ((fun r => encodeCursor (key r)) <$> after))
  = keyset_page (fun r => encodeCursor (key r)) limit
      (rest_after key (merge_sort (desc_le key) items) after).
Proof.
  intros Hl Ha. unfold paginate. cbn [pr_limit pr_cursor].
  replace (Z.to_nat (Z.max 1 (Z.min (Z.of_nat limit) 500))) with limit by lia.
  assert (Hpage : forall n sorted,
    (let slice := take limit (drop n sorted) in
     mkPage slice (if (n + List.length slice <? List.length sorted)%nat
       then match last slice with Some r => Some (encodeCursor (key r)) | None => None end else None))
    = keyset_page (fun r => encodeCursor (key r)) limit (drop n sorted)).
  { intros n sorted. unfold keyset_page. cbv zeta. f_equal. rewrite length_take, length_drop.
    destruct (_ + _ <? _)%nat eqn:E1, (limit <? _)%nat eqn:E2; rewrite ?Nat.ltb_lt, ?Nat.ltb_ge in *;
      try lia; reflexivity. }
  set (sorted := merge_sort (desc_le key) items).
  destruct after as [r|]; simpl rest_after; cbn [fmap option_fmap option_map].
  - rewrite decode_encode_cursor by done.
    pose proof (StronglySorted_merge_sort (desc_le key) items) as Hs. fold sorted in Hs.
    pose proof (findIndex_after sorted (key r) Hs) as Hf.
    destruct (findIndex _ sorted) as [n|]; rewrite Hf; [apply Hpage|].
    unfold keyset_page. by rewrite take_nil.
  - exact (Hpage 0%nat sorted).
Qed.
End Pages.

(** ** The instance *)

(** Read a write off its specification. *)
Lemma wrote_result {A} (post : A -> State -> State -> Prop) c w r w' :
  wrote post c w -> c w = (r, w') ->
  w_txDepth w' = w_txDepth w
  /\ match r with Ok a => post a (w_state w) (w_state w') | Throw _ => w_state w' = w_state w end.
Proof. unfold wrote. intros H E. by rewrite E in H. Qed.

#[global] Program Instance memory_laws : StorageLaws World := {|
  tables := w_state;
  tx_depth := w_txDepth;
  usage_cursor := fun r => encodeCursor (usage_key_of r)
|}.
Next Obligation.
  intros w. unfold nowIso, world_clock. by destruct (clock_nowIso (w_clock w)).
Qed.
Next Obligation. done. Qed.
Next Obligation.
  intros id p w H. cbn. unfold mem_updateLicense, bind, get_state. by rewrite H.
Qed.
Next Obligation.
  intros id p cur w r w' H Hw. destruct (wrote_result _ _ _ _ _ (mem_updateLicense_wrote id p w) Hw) as [Hd Hr].
  split; [done|]. destruct r; [|done]. destruct Hr as (cur' & now & Hc & -> & _ & Hs). simplify_eq.
  by exists now.
Qed.
Next Obligation.
  intros i w r w' Hw. by apply (wrote_result _ _ _ _ _ (mem_appendAudit_wrote i w)).
Qed.
Next Obligation.
  intros op w r w' Hw Hok. apply (mem_write_ok op) in Hok. by rewrite Hw in Hok.
Qed.
Next Obligation.
  intros i w r w' Hw. destruct (wrote_result _ _ _ _ _ (mem_createLicense_wrote i w) Hw) as [Hd Hr].
  split; [done|]. destruct r; [|done]. destruct Hr as (id & now & _ & -> & Hs). done.
Qed.
Next Obligation. done. Qed.
Next Obligation.
  intros i w r w' Hw. destruct (wrote_result _ _ _ _ _ (mem_createUsage_wrote i w) Hw) as [Hd Hr].
  split; [done|]. destruct r; [|done]. destruct Hr as (id & now & _ & _ & _ & -> & Hs). eauto.
Qed.
Next Obligation. done. Qed.
Next Obligation.
  intros id p w H. cbn. unfold mem_updateUsage, bind, get_state. by rewrite H.
Qed.
Next Obligation.
  intros id p cur w r w' H Hw. destruct (wrote_result _ _ _ _ _ (mem_updateUsage_wrote id p w) Hw) as [Hd Hr].
  split; [done|]. destruct r; [|done]. destruct Hr as (cur' & now & Hc & -> & _ & Hs). simplify_eq. eauto.
Qed.
Next Obligation. done. Qed.
Next Obligation.
  intros filter limit after w _ Hl Ha. cbn. unfold mem_listUsages, bind, get_state, ret.
  by rewrite paginate_keyset.
Qed.
Next Obligation.
  intros T fn w Hd. exists (with_depth (w_txDepth w + 1) w). split; [done|].
  split; [simpl; lia|]. split; [unfold nowIso, world_clock; simpl; by destruct (clock_nowIso _)|].
  cbn. unfold mem_withTransaction. rewrite Hd. cbn.
  destruct (fn _) as [[r|e] w1]; (eexists; split; [done|]; split; done).
Qed.

#[global] Instance memory_entropy : EntropyLaws World.
Proof.
  split. intros n w. eexists _, _. split; [reflexivity|]. split_and!; [by rewrite length_map, length_seq| |done..].
  apply Forall_fmap, Forall_true. intros i. unfold is_byte. simpl. zdiv.
Qed.
