(* ===== verification/MemoryProps.v ===== *)
(** * MemoryProps: what the memory adapter guarantees

    The unique constraints of the schema as an invariant of every write,
    transactions that roll back, and pagination that visits every row of a
    listing once. *)

From S2P Require Import Prelude Errors JsNum Json Types Id Cursor Storage Pages Memory MemoryLaws.

(** ** The constraints of the schema *)

Definition licensable_key (l : License) : option (jsstr * jsstr * option UUIDv7) :=
  Some (l_licensable_type l, l_licensable_id l, l_scope_id l).

Definition template_key (t : LicenseTemplate) : option (option UUIDv7 * jsstr) :=
  Some (t_scope_id t, t_name t).

Definition db_ok (s : State) : Prop :=
  state_ok s /\ unique_on licensable_key (s_licenses s) /\ unique_on template_key (s_templates s).

(** The two patches that move a row to another natural key, which the
    adapter does not check. *)
Definition renames (op : WriteOp) : bool :=
  match op with
  | WUpdateLicense _ p => match lp_scope_id p with Some _ => true | None => false end
  | WUpdateTemplate _ p => match tp_name p with Some _ => true | None => false end
  | _ => false
  end.

Definition names_ok (s : State) : Prop :=
  unique_on licensable_key (s_licenses s) /\ unique_on template_key (s_templates s).

Lemma names_license_created s i id now b :
  names_ok s -> for_rows (license_conflict i) (rows (s_licenses s)) = Ok tt ->
  names_ok (set_licenses (map_set (s_licenses s) id
    (mkLicense id (li_scope_id i) (li_template_id i) (li_licensable_type i) (li_licensable_id i)
       (li_license_key i) (li_status i) (li_max_usages i) b (li_activated_at i) (li_expires_at i)
       (li_grace_until i) (li_meta i) now now)) s).
Proof.
  intros [Hl Ht] Hf. split; [|done]. apply unique_set; [done|]. intros j y x _ Hy [= <-] [= H1 H2 H3].
  eapply for_rows_get in Hf; [|exact Hy]. unfold license_conflict, str_eqb in Hf.
  case_match; [done|]. by rewrite !bool_decide_true in Hf.
Qed.

Lemma mem_names_ok op w :
  renames op = false -> names_ok (w_state w) -> names_ok (w_state (exec_write (W := World) op w).2).
Proof.
  intros Hr Hn. pose proof Hn as [Hl Ht].
  destruct op; cbn [exec_write createLicense updateLicense createScope updateScope
    createTemplate updateTemplate createUsage updateUsage createKey updateKey appendAudit
    recordTrialIssuance deleteTrialIssuance MemoryStorage].
  - eapply exec_wrote; [apply mem_createLicense_wrote|done|]. intros a s' (? & ? & ? & -> & ->).
    by apply names_license_created.
  - eapply exec_wrote; [apply mem_updateLicense_wrote|done|]. intros a s' (? & ? & ? & -> & _ & ->).
    split; [|done]. eapply unique_replace; [exact Hl|done|]. unfold licensable_key. cbn in *.
    by destruct (lp_scope_id p).
  - eapply exec_wrote; [apply mem_createScope_wrote|done|]. intros a s' (? & ? & _ & _ & ->). done.
  - eapply exec_wrote; [apply mem_updateScope_wrote|done|]. intros a s' (? & ? & _ & _ & ->). done.
  - eapply exec_wrote; [apply mem_createTemplate_wrote|done|]. intros a s' (? & ? & Hk & _ & -> & ->).
    split; [done|]. apply unique_set; [done|]. intros j y z _ Hy [= <-] [= H1 H2].
    eapply Hk; [done|congruence].
  - eapply exec_wrote; [apply mem_updateTemplate_wrote|done|]. intros a s' (? & ? & ? & -> & _ & ->).
    split; [done|]. eapply unique_replace; [exact Ht|done|]. unfold template_key. cbn in *.
    by destruct (tp_name p).
  - eapply exec_wrote; [apply mem_createUsage_wrote|done|]. intros a s' (? & ? & _ & _ & _ & _ & ->). done.
  - eapply exec_wrote; [apply mem_updateUsage_wrote|done|]. intros a s' (? & ? & _ & _ & _ & ->). done.
  - eapply exec_wrote; [apply mem_createKey_wrote|done|]. intros a s' (? & ? & _ & _ & _ & ->). done.
  - eapply exec_wrote; [apply mem_updateKey_wrote|done|]. intros a s' (? & ? & _ & _ & _ & ->). done.
  - eapply exec_wrote; [apply mem_appendAudit_wrote|done|]. intros a s' (_ & ->). done.
  - eapply exec_wrote; [apply mem_recordTrialIssuance_wrote|done|]. intros a s' (? & ? & _ & _ & ->). done.
  - done.
Qed.

(** Histories of writes. *)
Definition run_writes (ops : list WriteOp) (w : World) : World :=
  fold_left (fun w op => (exec_write op w).2) ops w.

Lemma run_writes_ok ops : forall w,
  forallb (fun op => negb (renames op)) ops = true -> db_ok (w_state w) -> db_ok (w_state (run_writes ops w)).
Proof.
  induction ops as [|op ops IH]; intros w Hr Hok; [done|]. cbn [forallb] in Hr. bool_prop.
  unfold run_writes in *. cbn [fold_left]. apply IH; [done|]. destruct Hok as [Hok Hn].
  split; [by apply mem_write_ok|by apply mem_names_ok].
Qed.

(** ** Walking all pages *)

Section Collect.
Context {T : Type} (key : T -> CursorTuple).

(** Follow the cursors of [paginate] from the first page to the last. *)
Fixpoint collect_pages (fuel : nat) (items : list T) (limit : Z) (cursor : option jsstr)
  : option (list (list T)) :=
  match fuel with
  | O => None
  | S fuel' =>
      let page := paginate key items (mkPageRequest limit cursor) in
      match pg_cursor page with
      | None => Some [pg_items page]
      | Some c => cons (pg_items page) <$> collect_pages fuel' items limit (Some c)
      end
  end.

(** The limit the adapter really uses. *)
Definition clamped (limit : Z) : nat := Z.to_nat (Z.max 1 (Z.min limit 500)).

Lemma paginate_clamped items limit cursor :
  paginate key items (mkPageRequest limit cursor)
  = paginate key items (mkPageRequest (Z.of_nat (clamped limit)) cursor).
Proof.
  unfold paginate, clamped. cbn [pr_limit].
  replace (Z.max 1 (Z.min (Z.of_nat (Z.to_nat (Z.max 1 (Z.min limit 500)))) 500))
    with (Z.max 1 (Z.min limit 500)) by lia. done.
Qed.

Lemma collect_pages_run items limit fuel : forall pre rest,
  let sorted := merge_sort (desc_le key) items in
  NoDup (key <$> items) -> Forall (fun r => ascii_cursor (key r) = true) items ->
  sorted = pre ++ rest -> (List.length rest < fuel)%nat ->
  exists pages, collect_pages fuel items limit ((fun r => encodeCursor (key r)) <$> last pre) = Some pages
    /\ concat pages = rest
    /\ Forall (fun p => (List.length p <= clamped limit)%nat) pages
    /\ (rest <> [] -> Forall (fun p => p <> []) pages).
Proof.
  induction fuel as [|fuel IH]; intros pre rest sorted Hn Ha Hs Hf; [lia|]. cbn [collect_pages].
  rewrite paginate_clamped. set (n := clamped limit). assert (Hlim : (1 <= n <= 500)%nat) by (unfold n, clamped; lia).
  assert (Hsn : NoDup (key <$> sorted)) by (unfold sorted; by rewrite merge_sort_Permutation).
  assert (Hss : StronglySorted (desc_le key) sorted) by (apply StronglySorted_merge_sort; apply _).
  assert (Hlast : match last pre with Some r => ascii_cursor (key r) = true | None => True end).
  { destruct (last pre) as [r|] eqn:E; [|done]. apply last_Some in E as [l1 ->].
    rewrite Forall_forall in Ha. apply Ha. unfold sorted in Hs. rewrite <- (merge_sort_Permutation (desc_le key) items), Hs.
    apply elem_of_app. left. apply elem_of_app. right. left. }
  rewrite (paginate_keyset key items n (last pre) Hlim Hlast). fold sorted.
  rewrite (rest_after_prefix key sorted pre rest Hss Hsn Hs). unfold keyset_page. cbn [pg_items pg_cursor].
  destruct (n <? List.length rest)%nat eqn:E.
  - apply Nat.ltb_lt in E. destruct (last (take n rest)) as [r|] eqn:El.
    + cbn [fmap option_fmap option_map].
      destruct (IH (pre ++ take n rest) (drop n rest) Hn Ha) as (pages & Hp & Hc & Hl & Hne).
      { fold sorted. by rewrite <- app_assoc, take_drop. }
      { rewrite length_drop. lia. }
      rewrite last_app, El in Hp. cbn [fmap option_fmap option_map] in Hp.
      assert (Hdrop : drop n rest <> []).
      { intros H. apply (f_equal List.length) in H. rewrite length_drop in H. simpl in H. lia. }
      exists (take n rest :: pages). rewrite Hp. split_and!; [done| | |].
      * cbn [concat]. by rewrite Hc, take_drop.
      * constructor; [rewrite length_take; lia|done].
      * intros _. constructor; [by intros H; rewrite H in El|auto].
    + apply last_None in El. apply (f_equal List.length) in El. rewrite length_take in El. simpl in El. lia.
  - apply Nat.ltb_ge in E. exists [take n rest]. rewrite take_ge by lia. split_and!; [done| | |].
    + cbn [concat]. apply app_nil_r.
    + constructor; [lia|done].
    + intros H. by constructor.
Qed.
End Collect.

(** ** Properties *)


Definition empty_world : World := mkWorld emptyState 0 (advancingClock 1767225600000 1) Z.of_nat.

Definition sample_template (name : jsstr) : LicenseTemplateInput :=
  mkTemplateInput None None name 1 0 None 0 None (plain []) (plain []).

Lemma empty_db_ok : db_ok emptyState.
Proof. split; [apply emptyState_ok|]. split; by intros ? ? ? ?. Qed.


(** Renaming a template onto a sibling's name is accepted. *)
Example rename_breaks_constraint :
  let w := run_writes [WCreateTemplate (sample_template (js "basic")); WCreateTemplate (sample_template (js "pro"))] empty_world in
  let id := match rows (s_templates (w_state w)) with t :: _ => t_id t | [] => [] end in
  let p := mkTemplatePatch (Some (js "pro")) None None None None None None None None in
  map t_name (rows (s_templates (w_state (run_writes [WUpdateTemplate id p] w)))) = [js "pro"; js "pro"].
Proof. vm_compute. reflexivity. Qed.

(** C31: following the cursors of a listing from the first page until a page
    has none visits every row exactly once, newest first, in pages of at
    most the clamped limit, none of them empty unless the listing is. *)
Theorem pagination_complete {T} (key : T -> CursorTuple) items limit fuel :
  NoDup (key <$> items) -> Forall (fun r => ascii_cursor (key r) = true) items ->
  (List.length items < fuel)%nat ->
  exists pages, collect_pages key fuel items limit None = Some pages
    /\ concat pages = merge_sort (desc_le key) items
    /\ Forall (fun p => (List.length p <= clamped limit)%nat) pages
    /\ (items <> [] -> Forall (fun p => p <> []) pages).
Proof.
  intros Hn Ha Hf.
  destruct (collect_pages_run key items limit fuel [] (merge_sort (desc_le key) items) Hn Ha eq_refl)
    as (pages & H1 & H2 & H3 & H4).
  { by rewrite (merge_sort_Permutation (desc_le key) items). }
  exists pages. split_and!; [done..|]. intros Hne. apply H4. intros H. apply Hne.
  apply Permutation_nil. by rewrite <- H, (merge_sort_Permutation (desc_le key) items).
Qed.

Lemma pagination_complete_witness :
  let rows := [mkCursor (js "2026-01") (js "a"); mkCursor (js "2026-03") (js "b"); mkCursor (js "2026-03") (js "c")] in
  exists pages, collect_pages (fun r => r) 4 rows 2 None = Some pages
    /\ concat pages = merge_sort (desc_le (fun r => r)) rows
    /\ Forall (fun p => (List.length p <= clamped 2)%nat) pages
    /\ (rows <> [] -> Forall (fun p => p <> []) pages).
Proof.
  apply pagination_complete; [decided|decided|vm_compute; lia].
Defined.
