(* ===== verification/Lifecycle.v ===== *)
(** * Lifecycle: the license state machine

    [src/typescript/src/lifecycle.ts]. The transitions run against any
    storage; a caller opens the transaction around them. *)

From stdpp Require Import relations.
From S2P Require Import Prelude Errors JsNum Json Types Id Storage.

Record TransitionOptions : Type := mkTransitionOptions {
  to_actor : option jsstr;
  to_actorKind : option ActorKind;
  to_actorId : option (option jsstr)
}.

Definition no_options : TransitionOptions := mkTransitionOptions None None None.

Record RenewOptions : Type := mkRenewOptions {
  ro_transition : TransitionOptions;
  ro_expires_at : option Instant;
  ro_grace_until : option (option Instant)
}.

(** The status a license has at [nowIso], whatever the stored column says;
    instants compare as strings. *)
Definition effectiveStatus (license : License) (nowIso : Instant) : LicenseStatus :=
  match l_status license with
  | revoked => revoked
  | suspended => suspended
  | pending => pending
  | expired => expired
  | active | grace =>
      match l_expires_at license with
      | Some expires_at =>
          if negb (str_ltb nowIso expires_at) then
            match l_grace_until license with
            | Some grace_until => if str_ltb nowIso grace_until then grace else expired
            | None => expired
            end
          else l_status license
      | None => l_status license
      end
  end.

Definition assertNotRevoked (license : License) : res unit :=
  if bool_decide (l_status license = revoked) then Throw errors.licenseRevoked else Ok tt.

Definition illegalTransition (from to : LicenseStatus) : exn :=
  errors.illegalLifecycleTransition (status_str from) (status_str to).

Definition nullable_str (o : option jsstr) : jsval :=
  match o with Some s => JStr s | None => JNull end.

Definition stateSnapshot (l : License) : jsval :=
  plain [(js "status", JStr (status_str (l_status l)));
         (js "activated_at", nullable_str (l_activated_at l));
         (js "expires_at", nullable_str (l_expires_at l));
         (js "grace_until", nullable_str (l_grace_until l))].

(** The audit input every service builds from its options: the actor
    defaults to [system], the acting principal is carried when given. *)
Definition audit_input (license_id scope_id : option UUIDv7) (opts : TransitionOptions) (event : jsstr)
    (prior_state new_state : option jsval) (occurred_at : Instant) : AuditLogInput :=
  mkAuditInput license_id scope_id
    (match to_actor opts with Some a => a | None => js "system" end)
    (to_actorKind opts)
    (match to_actorId opts with Some i => i | None => None end)
    event prior_state new_state occurred_at.

Definition transition_audit (prior next : License) (event : jsstr) (occurredAt : Instant)
    (opts : TransitionOptions) : AuditLogInput :=
  audit_input (Some (l_id prior)) (l_scope_id prior) opts event
    (Some (stateSnapshot prior)) (Some (stateSnapshot next)) occurredAt.

Section Lifecycle.
Context {W : Type} {HC : HasClock W} {ST : Storage W}.

Definition writeAudit (prior next : License) (event : jsstr) (occurredAt : Instant)
    (opts : TransitionOptions) : prog W unit :=
  do* appendAudit (transition_audit prior next event occurredAt opts); ret tt.

Definition status_patch (s : LicenseStatus) : LicensePatch :=
  mkLicensePatch (Some s) None None None None None None None None.

(** The tail every transition shares: stamp, update, audit. *)
Definition apply_transition (license : License) (patch : Instant -> LicensePatch) (event : jsstr)
    (opts : TransitionOptions) : prog W License :=
  let* now := nowIso in
  let* updated := updateLicense (l_id license) (patch now) in
  do* writeAudit license updated event now opts;
  ret updated.

Definition activate (license : License) (opts : TransitionOptions) : prog W License :=
  do* lift (assertNotRevoked license);
  if bool_decide (l_status license = active) then ret license
  else if negb (bool_decide (l_status license = pending))
  then throw (illegalTransition (l_status license) active)
  else
    apply_transition license
      (fun now => mkLicensePatch (Some active) None (Some (Some now)) None None None None None None)
      (js "license.activated") opts.

Definition suspend (license : License) (opts : TransitionOptions) : prog W License :=
  do* lift (assertNotRevoked license);
  if bool_decide (l_status license = suspended) then ret license
  else apply_transition license (fun _ => status_patch suspended) (js "license.suspended") opts.

Definition resume (license : License) (opts : TransitionOptions) : prog W License :=
  do* lift (assertNotRevoked license);
  if negb (bool_decide (l_status license = suspended))
  then throw (illegalTransition (l_status license) active)
  else apply_transition license (fun _ => status_patch active) (js "license.resumed") opts.

Definition revoke (license : License) (opts : TransitionOptions) : prog W License :=
  if bool_decide (l_status license = revoked) then ret license
  else apply_transition license (fun _ => status_patch revoked) (js "license.revoked") opts.

Definition expire (license : License) (opts : TransitionOptions) : prog W License :=
  do* lift (assertNotRevoked license);
  if bool_decide (l_status license = expired) then ret license
  else if bool_decide (l_status license = suspended) || bool_decide (l_status license = pending)
  then throw (illegalTransition (l_status license) expired)
  else apply_transition license (fun _ => status_patch expired) (js "license.expired") opts.

Definition renew (license : License) (opts : RenewOptions) : prog W License :=
  do* lift (assertNotRevoked license);
  if bool_decide (l_status license = suspended)
  then throw (illegalTransition (l_status license) active)
  else
    apply_transition license
      (fun _ => mkLicensePatch (Some active) None None (Some (ro_expires_at opts))
                  (ro_grace_until opts) None None None None)
      (js "license.renewed") (ro_transition opts).

Definition tick (license : License) (opts : TransitionOptions) : prog W License :=
  let* now := nowIso in
  let target := effectiveStatus license now in
  if bool_decide (target = l_status license) then ret license
  else
    match target with
    | grace =>
        let* updated := updateLicense (l_id license) (status_patch grace) in
        do* writeAudit license updated (js "license.grace_entered") now opts;
        ret updated
    | expired =>
        let* updated := updateLicense (l_id license) (status_patch expired) in
        do* writeAudit license updated (js "license.expired") now opts;
        ret updated
    | _ => ret license
    end.

(** ** The abstract machine *)

Inductive LifecycleOp : Type :=
| Activate | Suspend | Resume | Revoke | Expire | Renew (o : RenewOptions) | Tick.

Definition run_op (op : LifecycleOp) (license : License) (opts : TransitionOptions) : prog W License :=
  match op with
  | Activate => activate license opts
  | Suspend => suspend license opts
  | Resume => resume license opts
  | Revoke => revoke license opts
  | Expire => expire license opts
  | Renew o => renew license o
  | Tick => tick license opts
  end.
End Lifecycle.

(** The transitions the machine makes, as a relation on statuses: which
    operation leads from where to where. *)
Inductive transition : LifecycleOp -> LicenseStatus -> LicenseStatus -> Prop :=
| tr_activate : transition Activate pending active
| tr_suspend s : s <> revoked -> s <> suspended -> transition Suspend s suspended
| tr_resume : transition Resume suspended active
| tr_revoke s : s <> revoked -> transition Revoke s revoked
| tr_expire s : s = active \/ s = grace -> transition Expire s expired
| tr_renew o s : s <> revoked -> s <> suspended -> transition (Renew o) s active
| tr_tick_grace : transition Tick active grace
| tr_tick_expired s : s = active \/ s = grace -> transition Tick s expired.

(** One step of any kind. *)
Definition moves (s s' : LicenseStatus) : Prop := exists op, transition op s s'.

(** ** Facts *)

Lemma revoked_terminal op s : ~ transition op revoked s.
Proof. intros H. inversion H; subst; intuition congruence. Qed.

(** Reachability only leaves [revoked] by staying there. *)
Lemma moves_from_revoked s : rtc moves revoked s -> s = revoked.
Proof.
  intros H. inversion H as [|? y ? [op Hop]]; [done|]. by apply revoked_terminal in Hop.
Qed.

Lemma effectiveStatus_tick license now :
  effectiveStatus license now <> l_status license ->
  transition Tick (l_status license) (effectiveStatus license now).
Proof.
  unfold effectiveStatus. destruct (l_status license) eqn:Hs; try done; intros Hne;
    repeat case_hyp Hne; repeat case_goal; simplify_eq; try done; constructor; auto.
Qed.

Section Facts.
Context {W : Type} {HC : HasClock W} {ST : Storage W} {SL : StorageLaws W}.

(** What one transition leaves behind: the license row replaced, one audit
    row that names the event and both states, nothing else. *)
Definition transitioned (license next : License) (w w' : W) : Prop :=
  exists row,
    a_license_id row = Some (l_id license)
    /\ a_prior_state row = Some (stateSnapshot license)
    /\ a_new_state row = Some (stateSnapshot next)
    /\ tables w' = set_audit (map_set (s_audit (tables w)) (a_id row) row)
         (set_licenses (map_set (s_licenses (tables w)) (l_id license) next) (tables w)).

(** The stored row of a license. *)
Definition stored (w : W) (license : License) : Prop :=
  map_get (s_licenses (tables w)) (l_id license) = Some license.

Lemma update_and_audit license patch event now opts w next w' :
  stored w license ->
  (let* updated := updateLicense (l_id license) patch in
   do* writeAudit license updated event now opts; ret updated) w = (Ok next, w') ->
  transitioned license next w w' /\ tx_depth w' = tx_depth w
  /\ exists t, next = patch_license license patch t.
Proof.
  intros Hst H. apply bind_ok_inv in H as (u & w1 & Hu & H).
  destruct (updateLicense_law _ _ _ _ _ _ Hst Hu) as [Hd1 (t & -> & Ht1)].
  apply bind_ok_inv in H as ([] & w2 & Ha & H). unfold ret in H. injection H as <- <-.
  unfold writeAudit in Ha. apply bind_ok_inv in Ha as (row & w3 & Ha & H).
  unfold ret in H. injection H as <-.
  destruct (appendAudit_law _ _ _ _ Ha) as [Hd2 [Hrow Ht2]].
  split_and!; [|congruence|eauto]. exists row. rewrite Hrow. split_and!; try done.
  rewrite Ht2, Ht1, <- Hrow. done.
Qed.

Lemma apply_transition_ok license patch event opts w next w' :
  stored w license -> apply_transition license patch event opts w = (Ok next, w') ->
  transitioned license next w w' /\ tx_depth w' = tx_depth w
  /\ exists now t, next = patch_license license (patch now) t.
Proof.
  intros Hst H. unfold apply_transition in H. apply bind_ok_inv in H as (now & w1 & Hn & H).
  pose proof (nowIso_frame w) as [Ht Hd]. rewrite Hn in Ht, Hd. simpl in Ht, Hd.
  apply update_and_audit in H as (Htr & Hd' & t & ->); [|unfold stored; by rewrite Ht].
  unfold transitioned in *. rewrite Ht in Htr. split_and!; [done|congruence|eauto].
Qed.

Lemma tick_ok license opts w next w' :
  stored w license -> tick license opts w = (Ok next, w') ->
  (next = license /\ tables w' = tables w \/ transitioned license next w w'
     /\ transition Tick (l_status license) (l_status next))
  /\ tx_depth w' = tx_depth w /\ l_id next = l_id license.
Proof.
  intros Hst H. unfold tick in H. apply bind_ok_inv in H as (now & w1 & Hn & H).
  pose proof (nowIso_frame w) as [Ht Hd]. rewrite Hn in Ht, Hd. simpl in Ht, Hd.
  cbv zeta in H. case_bool_decide as He; [unfold ret in H; simplify_eq; auto|].
  apply effectiveStatus_tick in He.
  assert (Hst1 : stored w1 license) by (unfold stored; by rewrite Ht).
  destruct (effectiveStatus license now) eqn:Hes; try (unfold ret in H; simplify_eq; auto; fail);
    (apply update_and_audit in H as (Htr & Hd' & t & ->); [|done]);
    unfold transitioned in *; rewrite Ht in Htr; (split_and!; [|congruence|done]); right; auto.
Qed.

(** Every successful run either changed nothing or made one transition of
    the machine. *)
Lemma run_op_ok op license opts w next w' :
  stored w license -> run_op op license opts w = (Ok next, w') ->
  (next = license /\ tables w' = tables w \/ transitioned license next w w'
     /\ transition op (l_status license) (l_status next))
  /\ tx_depth w' = tx_depth w /\ l_id next = l_id license.
Proof.
  intros Hst H.
  assert (Hnr : forall c : prog W License, (do* lift (assertNotRevoked license); c) w = (Ok next, w') ->
            l_status license <> revoked /\ c w = (Ok next, w')).
  { intros c. unfold assertNotRevoked. case_bool_decide; [done|]. auto. }
  assert (Hap : forall patch event o, apply_transition license patch event o w = (Ok next, w') ->
    transition op (l_status license) (l_status next) \/
      (forall now, exists st, lp_status (patch now) = Some st /\ transition op (l_status license) st) ->
    (next = license /\ tables w' = tables w \/ transitioned license next w w'
     /\ transition op (l_status license) (l_status next))
    /\ tx_depth w' = tx_depth w /\ l_id next = l_id license).
  { intros patch event o Ha Htr. apply apply_transition_ok in Ha as (Ht & Hd & now & t & ->); [|done].
    split_and!; try done. right. split; [done|]. destruct Htr as [|Htr]; [done|].
    destruct (Htr now) as (st & Hps & ?). cbn. by rewrite Hps. }
  assert (Hnoop : (Ok license, w) = (Ok (E := exn) next, w') ->
    (next = license /\ tables w' = tables w \/ transitioned license next w w'
     /\ transition op (l_status license) (l_status next))
    /\ tx_depth w' = tx_depth w /\ l_id next = l_id license) by (intros [= <- <-]; auto).
  destruct op; cbn [run_op] in H.
  - apply Hnr in H as [Hr H]. case_bool_decide; [by apply Hnoop|].
    case_bool_decide as Hp; [|done]. cbn [negb] in H. eapply Hap; [exact H|].
    right. intros now. eexists. split; [done|]. rewrite Hp. constructor.
  - apply Hnr in H as [Hr H]. case_bool_decide; [by apply Hnoop|]. eapply Hap; [exact H|].
    right. intros now. eexists. split; [done|]. by constructor.
  - apply Hnr in H as [Hr H]. case_bool_decide as Hp; [|done]. cbn [negb] in H.
    eapply Hap; [exact H|]. right. intros now. eexists. split; [done|]. rewrite Hp. constructor.
  - unfold revoke in H. case_bool_decide; [by apply Hnoop|]. eapply Hap; [exact H|].
    right. intros now. eexists. split; [done|]. by constructor.
  - apply Hnr in H as [Hr H]. case_bool_decide; [by apply Hnoop|].
    destruct (_ || _) eqn:Ho; [done|]. bool_prop. eapply Hap; [exact H|].
    right. intros now. eexists. split; [done|]. constructor. destruct (l_status license); auto; done.
  - apply Hnr in H as [Hr H]. case_bool_decide; [done|]. eapply Hap; [exact H|].
    right. intros now. eexists. split; [done|]. by constructor.
  - by eapply tick_ok.
Qed.
End Facts.
