(* ===== verification/LifecycleProps.v ===== *)
(** * LifecycleProps: the state machine is what runs

    The abstract machine is a verdict: an operation on a license at an
    instant stays, goes to a status, or is refused. The code of [Lifecycle],
    run in a transaction of any store that keeps the contract, does exactly
    that, and histories of calls move statuses along the machine's edges. *)

From stdpp Require Import relations.
From S2P Require Import Prelude Errors JsNum Json Types Id Cursor Storage Memory MemoryLaws Lifecycle.

(** ** The abstract machine *)

Inductive verdict : Type :=
| Stay
| Go (s : LicenseStatus)
| Refuse (e : exn).

Definition verdict_of (op : LifecycleOp) (license : License) (now : Instant) : verdict :=
  let s := l_status license in
  match op, s with
  | Tick, _ =>
      let target := effectiveStatus license now in
      if bool_decide (target = s) then Stay else Go target
  | Revoke, revoked => Stay
  | Revoke, _ => Go revoked
  | _, revoked => Refuse errors.licenseRevoked
  | Activate, active => Stay
  | Activate, pending => Go active
  | Activate, _ => Refuse (illegalTransition s active)
  | Suspend, suspended => Stay
  | Suspend, _ => Go suspended
  | Resume, suspended => Go active
  | Resume, _ => Refuse (illegalTransition s active)
  | Expire, expired => Stay
  | Expire, (suspended | pending) => Refuse (illegalTransition s expired)
  | Expire, _ => Go expired
  | Renew _, suspended => Refuse (illegalTransition s active)
  | Renew _, _ => Go active
  end.

(** The columns an operation writes. *)
Definition op_patch (op : LifecycleOp) (s : LicenseStatus) (now : Instant) : LicensePatch :=
  match op with
  | Activate => mkLicensePatch (Some s) None (Some (Some now)) None None None None None None
  | Renew o =>
      mkLicensePatch (Some s) None None (Some (ro_expires_at o)) (ro_grace_until o) None None None None
  | _ => status_patch s
  end.

Definition op_event (op : LifecycleOp) (s : LicenseStatus) : jsstr :=
  match op with
  | Activate => js "license.activated" | Suspend => js "license.suspended"
  | Resume => js "license.resumed" | Revoke => js "license.revoked"
  | Expire => js "license.expired" | Renew _ => js "license.renewed"
  | Tick => if bool_decide (s = grace) then js "license.grace_entered" else js "license.expired"
  end.

Definition op_options (op : LifecycleOp) (opts : TransitionOptions) : TransitionOptions :=
  match op with Renew o => ro_transition o | _ => opts end.

Section Refinement.
Context {W : Type} {HC : HasClock W} {ST : Storage W} {SL : StorageLaws W}.

(** What one committed operation leaves: the new row in its place and one
    audit row naming the event, the actor and both states. *)
Definition committed (op : LifecycleOp) (s : LicenseStatus) (opts : TransitionOptions) (now : Instant)
    (license next : License) (w w' : W) : Prop :=
  exists stamp audit_id,
    next = patch_license license (op_patch op s now) stamp
    /\ tables w' =
         set_audit (map_set (s_audit (tables w)) audit_id
           (audit_row audit_id
              (transition_audit license next (op_event op s) now (op_options op opts))))
         (set_licenses (map_set (s_licenses (tables w)) (l_id license) next) (tables w)).

(** The body of a step: it throws, or it commits; either way the depth of
    open transactions is kept. *)
Lemma update_audit_run license patch event now opts w r w' :
  stored w license ->
  (let* updated := updateLicense (l_id license) patch in
   do* writeAudit license updated event now opts; ret updated) w = (r, w') ->
  tx_depth w' = tx_depth w /\
  match r with
  | Throw _ => True
  | Ok next => exists stamp audit_id, next = patch_license license patch stamp
      /\ tables w' = set_audit (map_set (s_audit (tables w)) audit_id
           (audit_row audit_id (transition_audit license next event now opts)))
         (set_licenses (map_set (s_licenses (tables w)) (l_id license) next) (tables w))
  end.
Proof.
  intros Hst. unfold bind at 1. destruct (updateLicense _ _ w) as [[u|e] w1] eqn:Hu;
    destruct (updateLicense_law _ _ _ _ _ _ Hst Hu) as [Hd1 Hr1]; [|by intros [= <- <-]].
  destruct Hr1 as (t & -> & Ht1). unfold writeAudit, bind, ret.
  destruct (appendAudit _ w1) as [[row|e] w2] eqn:Ha; destruct (appendAudit_law _ _ _ _ Ha) as [Hd2 Hr2];
    intros [= <- <-]; (split; [congruence|]); [|done].
  destruct Hr2 as [Hrow Ht2]. exists t, (a_id row). split; [done|]. rewrite Ht2, Ht1.
  rewrite Hrow at 2. done.
Qed.

Lemma apply_transition_run license patch event opts now w r w' :
  stored w license -> (nowIso w).1 = Ok now ->
  apply_transition license patch event opts w = (r, w') ->
  tx_depth w' = tx_depth w /\
  match r with
  | Throw _ => True
  | Ok next => exists stamp audit_id, next = patch_license license (patch now) stamp
      /\ tables w' = set_audit (map_set (s_audit (tables w)) audit_id
           (audit_row audit_id (transition_audit license next event now opts)))
         (set_licenses (map_set (s_licenses (tables w)) (l_id license) next) (tables w))
  end.
Proof.
  intros Hst Hn. unfold apply_transition, bind at 1. pose proof (nowIso_frame w) as [Ht Hd].
  destruct (nowIso w) as [rn w1]. simpl in *. subst rn. intros H.
  apply update_audit_run in H; [|unfold stored; by rewrite Ht]. by rewrite Hd, Ht in H.
Qed.

(** What [run_op] does, against the verdict. *)
Lemma run_op_verdict op license opts now w r w' :
  stored w license -> (nowIso w).1 = Ok now -> run_op op license opts w = (r, w') ->
  tx_depth w' = tx_depth w /\
  match verdict_of op license now with
  | Refuse e => r = Throw e
  | Stay => r = Ok license /\ tables w' = tables w
  | Go s => match r with Throw _ => True | Ok next => committed op s opts now license next w w' end
  end.
Proof.
  intros Hst Hn H. destruct op; cbn [run_op] in H.
  7:{ unfold tick, bind at 1 in H. pose proof (nowIso_frame w) as [Ht Hd].
      destruct (nowIso w) as [rn w1]. simpl in *. subst rn. cbv zeta in H. unfold verdict_of.
      destruct (bool_decide (effectiveStatus license now = l_status license)) eqn:E.
      { unfold ret in H. injection H as <- <-. auto. }
      bool_prop. apply effectiveStatus_tick in E.
      assert (Hst1 : stored w1 license) by (unfold stored; by rewrite Ht).
      destruct (effectiveStatus license now) eqn:Es; inversion E; subst;
        (apply update_audit_run in H; [|done]); rewrite Ht, Hd in H; exact H. }
  all: unfold activate, suspend, resume, revoke, expire, renew, assertNotRevoked in H;
    unfold verdict_of; destruct (l_status license) eqn:Es; cbn in H;
    try (unfold throw, ret in H; injection H as <- <-; auto; fail).
  all: apply (apply_transition_run _ _ _ _ now) in H; auto.
Qed.

Lemma run_op_depth op license opts w r w' :
  stored w license -> run_op op license opts w = (r, w') -> tx_depth w' = tx_depth w.
Proof.
  intros Hst H. destruct (nowIso w).1 as [now|e] eqn:Hn; [by eapply run_op_verdict|].
  pose proof (nowIso_frame w) as [_ Hd].
  assert (Ha : forall patch event o, apply_transition license patch event o w = (r, w') -> tx_depth w' = tx_depth w).
  { intros patch event o. unfold apply_transition, bind. destruct (nowIso w) as [rn w1]. simpl in *. subst rn.
    by intros [= _ <-]. }
  destruct op; cbn [run_op] in H.
  7:{ unfold tick, bind at 1 in H. destruct (nowIso w) as [rn w1]. simpl in *. subst rn. by injection H as _ <-. }
  all: unfold activate, suspend, resume, revoke, expire, renew, assertNotRevoked in H;
    destruct (l_status license); cbn in H; try (eapply Ha; exact H);
    unfold throw, ret in H; by inversion H.
Qed.

Lemma run_op_keeps op license opts : keeps (run_op op license opts).
Proof.
  destruct op; cbn [run_op]; unfold activate, suspend, resume, revoke, expire, renew, tick,
    apply_transition, writeAudit; cbv zeta; keeps_steps.
Qed.

(** The same inside a transaction: what threw is undone. *)
Lemma run_op_tx op license opts now w r w' :
  stored w license -> tx_depth w = 0 -> (nowIso w).1 = Ok now ->
  withTransaction (run_op op license opts) w = (r, w') ->
  tx_depth w' = 0 /\
  match verdict_of op license now with
  | Refuse e => r = Throw e /\ tables w' = tables w
  | Stay => r = Ok license /\ tables w' = tables w
  | Go s => match r with
            | Throw _ => tables w' = tables w
            | Ok next => committed op s opts now license next w w'
            end
  end.
Proof.
  intros Hst Hd Hn H.
  destruct (withTransaction_law _ (run_op op license opts) w Hd) as (w0 & Ht0 & Hd0 & Hn0 & Hlaw).
  destruct (run_op op license opts w0) as [r0 w1] eqn:Hrun. destruct Hlaw as (w2 & Htx & Hd2 & Ht2).
  rewrite Htx in H. injection H as <- <-.
  apply (run_op_verdict _ _ _ now) in Hrun; [|unfold stored; by rewrite Ht0|by rewrite Hn0].
  destruct Hrun as [Hd1 Hv]. split; [lia|].
  destruct (verdict_of op license now).
  - destruct Hv as [-> Hv]. split; [done|]. by rewrite Ht2, Hv.
  - destruct r0 as [next|e]; [|done]. unfold committed in *. by rewrite Ht2, <- Ht0.
  - subst r0. done.
Qed.
End Refinement.

(** ** Calls and histories

    The admin route's [lifecycleTransition] ([http/admin-handlers.ts]) fetches
    the license and then transacts; a missing license is its 404, here
    [None]. *)
Section Calls.
Context {W : Type} {HC : HasClock W} {ST : Storage W}.

Definition lifecycleTransition (id : UUIDv7) (op : LifecycleOp) (opts : TransitionOptions)
  : prog W (option License) :=
  let* found := getLicense id in
  match found with
  | None => ret None
  | Some license => let* updated := withTransaction (run_op op license opts) in ret (Some updated)
  end.

Record Call : Type := mkCall { call_id : UUIDv7; call_op : LifecycleOp; call_opts : TransitionOptions }.

(** One call after another, whatever each returns. *)
Definition run_calls (calls : list Call) (w : W) : W :=
  fold_left (fun w c => (lifecycleTransition (call_id c) (call_op c) (call_opts c) w).2) calls w.
End Calls.

Section Histories.
Context {W : Type} {HC : HasClock W} {ST : Storage W} {SL : StorageLaws W}.

Lemma verdict_transition op license now s :
  verdict_of op license now = Go s -> transition op (l_status license) s.
Proof.
  destruct op; unfold verdict_of; try (destruct (l_status license); intros H; simplify_eq; constructor; auto; fail).
  destruct (bool_decide _) eqn:E; [done|]. bool_prop. intros [= <-]. by apply effectiveStatus_tick.
Qed.

(** One call, seen from any license: its row stays or moves along one
    edge. *)
Lemma call_moves op id opts w jd l r w' :
  tx_depth w = 0 -> keyed l_id (s_licenses (tables w)) ->
  map_get (s_licenses (tables w)) jd = Some l ->
  lifecycleTransition id op opts w = (r, w') ->
  tx_depth w' = 0 /\ keyed l_id (s_licenses (tables w')) /\
  exists l', map_get (s_licenses (tables w')) jd = Some l'
    /\ (l' = l \/ transition op (l_status l) (l_status l')).
Proof.
  intros Hd Hk Hl. unfold lifecycleTransition, bind at 1. rewrite getLicense_law.
  destruct (map_get (s_licenses (tables w)) id) as [cur|] eqn:Ec; [|intros [= <- <-]; eauto 10].
  assert (Hid : l_id cur = id) by (by eapply keyed_get).
  assert (Hst : stored w cur) by (unfold stored; by rewrite Hid).
  destruct (withTransaction_law _ (run_op op cur opts) w Hd) as (w0 & Ht0 & Hd0 & _ & Hlaw).
  destruct (run_op op cur opts w0) as [r0 w1] eqn:Hrun. destruct Hlaw as (w2 & Htx & Hd2 & Ht2).
  unfold bind. rewrite Htx. destruct r0 as [next|e]; intros [= <- <-].
  - apply run_op_ok in Hrun as [Hr [Hd1 Hid']]; [|unfold stored; by rewrite Ht0].
    split; [lia|]. destruct Hr as [[-> Hs]|[(row & _ & _ & _ & Ht) Htr]].
    + rewrite Ht2, Hs, Ht0. eauto 10.
    + rewrite Ht2, Ht, Ht0. cbn [s_licenses set_audit set_licenses].
      split; [apply keyed_set; [done|congruence]|].
      rewrite map_get_set. case_decide as Hj; [|eauto]. rewrite Hid in Hj. subst jd. simplify_eq. eauto.
  - assert (Hd1 : tx_depth w1 = tx_depth w0) by (eapply run_op_depth; [|exact Hrun]; unfold stored; by rewrite Ht0).
    rewrite Ht2. split; [lia|eauto].
Qed.

Lemma run_calls_moves calls : forall w jd l,
  tx_depth w = 0 -> keyed l_id (s_licenses (tables w)) ->
  map_get (s_licenses (tables w)) jd = Some l ->
  exists l', map_get (s_licenses (tables (run_calls calls w))) jd = Some l'
    /\ rtc moves (l_status l) (l_status l') /\ (l_status l = revoked -> l' = l).
Proof.
  induction calls as [|c calls IH]; intros w jd l Hd Hk Hl; [by exists l|].
  unfold run_calls in *. cbn [fold_left].
  destruct (lifecycleTransition (call_id c) (call_op c) (call_opts c) w) as [r w'] eqn:Hc.
  destruct (call_moves _ _ _ _ _ _ _ _ Hd Hk Hl Hc) as (Hd' & Hk' & l1 & Hl1 & Hm). cbn [snd].
  destruct (IH w' jd l1 Hd' Hk' Hl1) as (l2 & Hl2 & Hr & Hrev). exists l2. split; [done|].
  destruct Hm as [->|Htr]; [done|]. split.
  - eapply rtc_l; [by eexists|done].
  - intros Hs. rewrite Hs in Htr. by apply revoked_terminal in Htr.
Qed.

(** ** Properties *)


(** C6: over any history of calls, on this license and on others, with
    whatever fails among them, a license's status moves along the edges of
    the machine, and the row of a revoked license never changes again. *)
Theorem revoked_forever calls w id l :
  tx_depth w = 0 -> keyed l_id (s_licenses (tables w)) ->
  map_get (s_licenses (tables w)) id = Some l ->
  exists l', map_get (s_licenses (tables (run_calls calls w))) id = Some l'
    /\ rtc moves (l_status l) (l_status l') /\ (l_status l = revoked -> l' = l).
Proof. apply run_calls_moves. Qed.
End Histories.

(** ** On the memory adapter *)

(** A world with one license and a fixed clock (2026-01-01). *)
Definition sample_iso : Instant := js "2026-01-01T00:00:00.000000Z".
Definition sample_license (s : LicenseStatus) : License :=
  mkLicense (js "l1") None None (js "User") (js "42") (js "K") s 2 false None
    (Some (js "2026-02-01T00:00:00.000000Z")) None (plain []) sample_iso sample_iso.
Definition sample_world (s : LicenseStatus) : World :=
  mkWorld (set_licenses [(js "l1", sample_license s)] emptyState) 0
    (fixedClock 1767225600000 sample_iso) Z.of_nat.


Lemma revoked_forever_witness :
  let calls := [mkCall (js "l1") Revoke no_options; mkCall (js "l1") Resume no_options;
                mkCall (js "l1") Activate no_options] in
  exists l', map_get (s_licenses (tables (run_calls calls (sample_world suspended)))) (js "l1") = Some l'
    /\ rtc moves suspended (l_status l') /\ (suspended = revoked -> l' = sample_license suspended).
Proof.
  apply (revoked_forever _ (sample_world suspended) (js "l1") (sample_license suspended));
    [reflexivity| |reflexivity].
  split; [decided|]. apply Forall_singleton. reflexivity.
Defined.

(** A snapshot taken before another request revoked the license: the
    transition checks the snapshot, so committing it brings the license
    back. The handler reads the license outside the transaction. *)
Example stale_snapshot_unrevokes :
  let stale := sample_license active in
  let '(_, w1) := lifecycleTransition (js "l1") Revoke no_options (sample_world active) in
  let '(_, w2) := withTransaction (run_op Suspend stale no_options) w1 in
  (l_status <$> map_get (s_licenses (tables w1)) (js "l1"),
   l_status <$> map_get (s_licenses (tables w2)) (js "l1")) = (Some revoked, Some suspended).
Proof. vm_compute. reflexivity. Qed.
