(* ===== verification/LicenseService.v ===== *)
(** * LicenseService: creating licenses, finding them by key, rotating keys

    [src/typescript/src/license-service.ts]. Each operation is one storage
    transaction; the options of the source's three option types are the
    fields of [TransitionOptions]. *)

From S2P Require Import Prelude Errors JsNum Json Types Id Cursor Storage Pages LicenseKeyFormat Lifecycle.

Record CreateLicenseInput : Type := mkCreateLicense {
  cl_scope_id : option UUIDv7;
  cl_template_id : option UUIDv7;
  cl_licensable_type : jsstr;
  cl_licensable_id : jsstr;
  cl_license_key : option jsstr;
  cl_status : option LicenseStatus;
  cl_max_usages : Z;
  cl_activated_at : option Instant;
  cl_expires_at : option Instant;
  cl_grace_until : option Instant;
  cl_meta : option jsval
}.

Record RotateLicenseKeyResult : Type := mkRotated {
  rot_license : License;
  rot_revokedUsageIds : list UUIDv7
}.

Definition js_int (z : Z) : jsval := JNum (num_of_Z z).

Definition created_state (license : License) : jsval :=
  plain [(js "status", JStr (status_str (l_status license)));
         (js "license_key", JStr (l_license_key license));
         (js "max_usages", js_int (l_max_usages license));
         (js "expires_at", nullable_str (l_expires_at license));
         (js "grace_until", nullable_str (l_grace_until license));
         (js "template_id", nullable_str (l_template_id license))].

(** What [createLicense] hands to the store. *)
Definition license_input (input : CreateLicenseInput) (license_key : jsstr) : LicenseInput :=
  mkLicenseInput (cl_scope_id input) (cl_template_id input) (cl_licensable_type input)
    (cl_licensable_id input) license_key
    (match cl_status input with Some s => s | None => pending end)
    (cl_max_usages input) (cl_activated_at input) (cl_expires_at input) (cl_grace_until input)
    (match cl_meta input with Some m => m | None => plain [] end) None.

Section LicenseService.
Context {W : Type} {HC : HasClock W} {HE : HasEntropy W} {CM : CaseMap} {ST : Storage W}.

Definition writeCreatedAudit (license : License) (occurred_at : Instant) (opts : TransitionOptions)
  : prog W unit :=
  do* appendAudit (audit_input (Some (l_id license)) (l_scope_id license) opts (js "license.created")
        None (Some (created_state license)) occurred_at);
  ret tt.

(** The body of the transaction. *)
Definition create_body (input : CreateLicenseInput) (license_key : jsstr) (opts : TransitionOptions)
  : prog W License :=
  let* created := createLicense (license_input input license_key) in
  let* now := nowIso in
  do* writeCreatedAudit created now opts;
  ret created.

Definition create_license (input : CreateLicenseInput) (opts : TransitionOptions) : prog W License :=
  let* license_key := match cl_license_key input with
                      | Some key => lift (assertLicenseKey key)
                      | None => generateLicenseKey
                      end in
  withTransaction (create_body input license_key opts).

Definition findLicenseByKey (licenseKey : jsstr) : prog W (option License) :=
  match normalizeLicenseKey licenseKey with
  | None => ret None
  | Some normalized => getLicenseByKey normalized
  end.

(** ** Rotation *)

Definition revoked_patch (now : Instant) : LicenseUsagePatch :=
  mkUsagePatch (Some u_revoked) (Some (Some now)) None None.

(** [for (const usage of page.items) { updateUsage(...); push(usage.id) }] *)
Fixpoint revoke_all (now : Instant) (acc : list UUIDv7) (items : list LicenseUsage)
  : prog W (list UUIDv7) :=
  match items with
  | [] => ret acc
  | usage :: items' =>
      do* updateUsage (u_id usage) (revoked_patch now);
      revoke_all now (acc ++ [u_id usage]) items'
  end.

Definition active_of (license_id : UUIDv7) : LicenseUsageFilter :=
  mkUsageFilter (Some license_id) None (Some [u_active]).

Definition rotation_audit (license : License) (n : Z) (now : Instant) (opts : TransitionOptions)
  : AuditLogInput :=
  audit_input (Some (l_id license)) (l_scope_id license) opts (js "license.key_rotated")
    (Some (plain [(js "active_usages", js_int n)]))
    (Some (plain [(js "active_usages", js_int 0); (js "usages_revoked", js_int n)])) now.

Definition rotate_body (fuel : nat) (licenseId : UUIDv7) (opts : TransitionOptions)
  : prog W RotateLicenseKeyResult :=
  let* found := getLicense licenseId in
  match found with
  | None => throw (errors.licenseNotFound licenseId)
  | Some license =>
      if bool_decide (l_status license = revoked) then throw errors.licenseRevoked
      else
        let* key := generateLicenseKey in
        let* updated := updateLicense (l_id license)
          (mkLicensePatch None None None None None None None None (Some key)) in
        let* now := nowIso in
        let* revokedUsageIds :=
          walkPages (fun c => listUsages (active_of (l_id license)) (mkPageRequest 500 c))
            (fun acc items => let* acc := revoke_all now acc items in ret (Continue acc))
            (fun acc => acc) fuel [] None in
        do* appendAudit (rotation_audit license (Z.of_nat (List.length revokedUsageIds)) now opts);
        ret (mkRotated updated revokedUsageIds)
  end.

Definition rotateLicenseKey (fuel : nat) (licenseId : UUIDv7) (opts : TransitionOptions)
  : prog W RotateLicenseKeyResult :=
  withTransaction (rotate_body fuel licenseId opts).
End LicenseService.
