(* ===== verification/UsageService.v ===== *)
(** * UsageService: seats

    [src/typescript/src/usage-service.ts]: registering a device against a
    license, revoking a seat, sweeping seats that went silent. *)

From S2P Require Import Prelude Errors JsNum Json Types Id Cursor Storage Pages Lifecycle LicenseKeyFormat LicenseService.

Record RegisterUsageInput : Type := mkRegisterUsage {
  ru_license_id : UUIDv7;
  ru_fingerprint : Fingerprint;
  ru_client_meta : option jsval
}.

Record RegisterUsageResult : Type := mkRegistered {
  reg_usage : LicenseUsage;
  reg_license : License;
  reg_created : bool
}.

Definition assertUsable (license : License) : res unit :=
  match l_status license with
  | active | pending | grace => Ok tt
  | suspended => Throw errors.licenseSuspended
  | revoked => Throw errors.licenseRevoked
  | expired => Throw errors.licenseExpired
  end.

(** The options [registerUsage] and the sweep take carry an actor only. *)
Definition actor_only (actor : option jsstr) : TransitionOptions :=
  mkTransitionOptions actor None None.

Definition seat_filter (license_id : UUIDv7) (fingerprint : Fingerprint) : LicenseUsageFilter :=
  mkUsageFilter (Some license_id) (Some fingerprint) (Some [u_active]).

Definition registered_audit (license : License) (usage : LicenseUsage) (active_count : Z)
    (now : Instant) (actor : option jsstr) : AuditLogInput :=
  audit_input (Some (l_id license)) (l_scope_id license) (actor_only actor) (js "usage.registered")
    None
    (Some (plain [(js "usage_id", JStr (u_id usage)); (js "fingerprint", JStr (u_fingerprint usage));
                  (js "active_count", js_int active_count)])) now.

Definition seat_state (status : jsstr) (usage : LicenseUsage) : jsval :=
  plain [(js "status", JStr status); (js "fingerprint", JStr (u_fingerprint usage))].

Section UsageService.
Context {W : Type} {HC : HasClock W} {ST : Storage W}.

Definition findActiveUsage (fuel : nat) (license_id : UUIDv7) (fingerprint : Fingerprint)
  : prog W (option LicenseUsage) :=
  walkPages (fun c => listUsages (seat_filter license_id fingerprint) (mkPageRequest 100 c))
    (fun acc items => ret (fold_step (fun (_ : unit) row =>
       if str_eqb (u_fingerprint row) fingerprint then Return (Some row) else Continue tt) acc items))
    (fun _ => None) fuel tt None.

Definition countActiveUsages (fuel : nat) (license_id : UUIDv7) : prog W Z :=
  walkPages (fun c => listUsages (active_of license_id) (mkPageRequest 500 c))
    (fun count items => ret (Continue (count + Z.of_nat (List.length items))))
    (fun count => count) fuel 0 None.

Definition register_body (fuel : nat) (input : RegisterUsageInput) (actor : option jsstr)
  : prog W RegisterUsageResult :=
  let* found := getLicense (ru_license_id input) in
  match found with
  | None => throw (errors.licenseNotFound (ru_license_id input))
  | Some license =>
      do* lift (assertUsable license);
      let* existing := findActiveUsage fuel (ru_license_id input) (ru_fingerprint input) in
      match existing with
      | Some usage => ret (mkRegistered usage license false)
      | None =>
          let* activeCount := countActiveUsages fuel (ru_license_id input) in
          if l_max_usages license <=? activeCount
          then throw (errors.seatLimitExceeded (l_max_usages license) activeCount)
          else
            let* now := nowIso in
            let* usage := createUsage (mkUsageInput (ru_license_id input) (ru_fingerprint input)
              u_active now None
              (match ru_client_meta input with Some m => m | None => plain [] end)) in
            do* appendAudit (registered_audit license usage (activeCount + 1) now actor);
            let* finalLicense := (if bool_decide (l_status license = pending)
                                  then activate license (actor_only actor) else ret license) in
            ret (mkRegistered usage finalLicense true)
      end
  end.

Definition registerUsage (fuel : nat) (input : RegisterUsageInput) (actor : option jsstr)
  : prog W RegisterUsageResult :=
  withTransaction (register_body fuel input actor).

(** ** Revocation *)

Definition revoke_body (usageId : UUIDv7) (opts : TransitionOptions) : prog W LicenseUsage :=
  let* found := getUsage usageId in
  match found with
  | None => throw errors.fingerprintRejected
  | Some usage =>
      if bool_decide (u_status usage = u_revoked) then ret usage
      else
        let* now := nowIso in
        let* updated := updateUsage usageId (revoked_patch now) in
        let* license := getLicense (u_license_id usage) in
        do* appendAudit (audit_input (Some (u_license_id usage))
              (match license with Some l => l_scope_id l | None => None end) opts (js "usage.revoked")
              (Some (seat_state (js "active") usage)) (Some (seat_state (js "revoked") usage)) now);
        ret updated
  end.

Definition revokeUsage (usageId : UUIDv7) (opts : TransitionOptions) : prog W LicenseUsage :=
  withTransaction (revoke_body usageId opts).

(** ** Inactivity sweep *)

Record SweepOptions : Type := mkSweep {
  sw_inactiveForSec : Z;
  sw_licenseId : option UUIDv7;
  sw_dryRun : bool;
  sw_actor : option jsstr
}.

Record SweepResult : Type := mkSwept {
  swept_scanned : Z;
  swept_stale : list UUIDv7;
  swept_revoked : list UUIDv7
}.

Context {DP : DateParse}.

(** One row of the collecting loop: counted, and kept when its last
    heartbeat parses and lies before the cutoff. *)
Definition sweep_row (cutoffMs : Z) (acc : Z * list UUIDv7) (row : LicenseUsage)
  : step (Z * list UUIDv7) (Z * list UUIDv7) :=
  let '(scanned, stale) := acc in
  match date_parse (u_last_seen_at row) with
  | None => Continue (scanned + 1, stale)
  | Some seenMs =>
      if seenMs <? cutoffMs then Continue (scanned + 1, stale ++ [u_id row])
      else Continue (scanned + 1, stale)
  end.

Definition collect_stale (fuel : nat) (licenseId : option UUIDv7) (cutoffMs : Z)
  : prog W (Z * list UUIDv7) :=
  walkPages (fun c => listUsages (mkUsageFilter licenseId None (Some [u_active])) (mkPageRequest 500 c))
    (fun acc items => ret (fold_step (sweep_row cutoffMs) acc items)) (fun acc => acc) fuel (0, []) None.

Fixpoint revoke_stale (actor : option jsstr) (stale done_ : list UUIDv7) : prog W (list UUIDv7) :=
  match stale with
  | [] => ret done_
  | id :: stale' =>
      do* revokeUsage id (actor_only actor);
      revoke_stale actor stale' (done_ ++ [id])
  end.

Definition sweepInactiveUsages (fuel : nat) (opts : SweepOptions) : prog W SweepResult :=
  if negb (0 <? sw_inactiveForSec opts) then throw PlainError
  else
    let* nowText := nowIso in
    match date_parse nowText with
    | None => do* nowIso; throw PlainError
    | Some nowMs =>
        let cutoffMs := nowMs - sw_inactiveForSec opts * 1000 in
        let* collected := withTransaction (collect_stale fuel (sw_licenseId opts) cutoffMs) in
        let '(scanned, stale) := collected in
        if sw_dryRun opts then ret (mkSwept scanned stale [])
        else
          let* revokedIds := revoke_stale (sw_actor opts) stale [] in
          ret (mkSwept scanned stale revokedIds)
    end.
End UsageService.
