(* ===== verification/UsageProps.v ===== *)
(** * UsageProps: seats are counted, limited, freed and swept correctly

    Theorems about [UsageService] on any store that keeps the contract, with
    the seat limit as an invariant of the tables. *)

From S2P Require Import Prelude Errors JsNum Json Types Id Cursor Storage Pages Memory MemoryLaws Lifecycle LifecycleProps LicenseKeyFormat LicenseService UsageService.

(** ** Counting seats *)

Definition is_active_seat (license_id : UUIDv7) (u : LicenseUsage) : bool :=
  str_eqb (u_license_id u) license_id && bool_decide (u_status u = u_active).

(** Active seats of a license. *)
Definition active_count (s : State) (license_id : UUIDv7) : Z :=
  Z.of_nat (List.length (List.filter (is_active_seat license_id) (rows (s_usages s)))).

(** The active seat of a device, if it has one. *)
Definition existing_seat (s : State) (license_id : UUIDv7) (fingerprint : Fingerprint)
  : option LicenseUsage :=
  List.find (fun u => bool_decide (active_seat u = Some (license_id, fingerprint))) (rows (s_usages s)).

Lemma usage_matches_active id u : usage_matches (active_of id) u = is_active_seat id u.
Proof.
  unfold usage_matches, is_active_seat, active_of, str_eqb. cbn. rewrite andb_true_r. f_equal.
  apply bool_decide_ext. rewrite list_elem_of_singleton. done.
Qed.

Lemma filter_ext_all {A} (f g : A -> bool) l : (forall x, f x = g x) -> List.filter f l = List.filter g l.
Proof. intros H. apply List.filter_ext. done. Qed.

Lemma listing_active_length id s :
  Z.of_nat (List.length (usage_listing (active_of id) s)) = active_count s id.
Proof.
  unfold usage_listing, active_count. rewrite merge_sort_Permutation. do 2 f_equal.
  apply filter_ext_all, usage_matches_active.
Qed.

(** What a filter selects from a table after one row was written. *)
Lemma filter_length_set (p : LicenseUsage -> bool) (m : list (UUIDv7 * LicenseUsage)) k row :
  let n m := List.length (List.filter p (rows m)) in
  NoDup m.*1 ->
  (n (map_set m k row) + (match map_get m k with Some old => if p old then 1 else 0 | None => 0 end)
   = n m + (if p row then 1 else 0))%nat.
Proof.
  cbv zeta. intros Hnd. destruct (map_get m k) as [old|] eqn:E.
  - destruct (map_set_split m k row old Hnd E) as (m1 & m2 & -> & -> & _ & _). unfold rows.
    rewrite !fmap_app, !fmap_cons, !List.filter_app, !length_app. simpl.
    destruct (p old), (p row); simpl; lia.
  - rewrite map_set_new by done. unfold rows. rewrite fmap_app, List.filter_app, length_app. simpl.
    destruct (p row); simpl; lia.
Qed.

(** ** The pages the service reads *)

Section Reading.
Context {W : Type} {HC : HasClock W} {ST : Storage W} {SL : StorageLaws W}.

Lemma countActiveUsages_run fuel id w :
  state_ok (tables w) -> (List.length (s_usages (tables w)) < fuel)%nat ->
  countActiveUsages fuel id w = (Ok (active_count (tables w) id), w).
Proof.
  intros Hok Hf. rewrite <- listing_active_length. unfold countActiveUsages.
  erewrite walkPages_ext.
  2:{ intros n items w'. assert (Hbody : Continue (R := Z) (n + Z.of_nat (List.length items))
        = fold_step (fun n _ => Continue (n + 1)) n items) by (by rewrite fold_step_count).
      rewrite Hbody. reflexivity. }
  pose proof (walk_usages (active_of id) 500 (fun n (_ : LicenseUsage) => Continue (R := Z) (n + 1))
                (fun n => n) fuel 0 w Hok ltac:(lia) Hf) as Hw.
  rewrite fold_step_count in Hw. exact Hw.
Qed.

Lemma findActiveUsage_run fuel id fp w :
  state_ok (tables w) -> (List.length (s_usages (tables w)) < fuel)%nat ->
  findActiveUsage fuel id fp w = (Ok (existing_seat (tables w) id fp), w).
Proof.
  intros Hok Hf. unfold findActiveUsage.
  pose proof (walk_usages (seat_filter id fp) 100 (fun (_ : unit) row =>
       if str_eqb (u_fingerprint row) fp then Return (Some row) else Continue tt)
       (fun _ => None) fuel tt w Hok ltac:(lia) Hf) as Hw.
  etransitivity; [exact Hw|]. f_equal. f_equal. rewrite (fold_step_find (fun row => str_eqb (u_fingerprint row) fp)).
  assert (Hin : forall u, u ∈ usage_listing (seat_filter id fp) (tables w)
            <-> u ∈ rows (s_usages (tables w)) /\ active_seat u = Some (id, fp)).
  { intros u. rewrite elem_usage_listing. unfold usage_matches, seat_filter, active_seat. cbn.
    split; intros [Hu Hx]; (split; [done|]).
    - bool_prop. rewrite list_elem_of_singleton in *. rewrite bool_decide_true by done. congruence.
    - destruct (bool_decide (u_status u = u_active)) eqn:E; [|done]. injection Hx as -> ->. bool_prop.
      rewrite !bool_decide_true; [done|by apply list_elem_of_singleton|done..]. }
  unfold existing_seat.
  destruct (List.find _ (rows _)) as [u|] eqn:E2.
  - apply find_some in E2 as [Hu2 Hs2]. bool_prop. apply list_elem_of_In in Hu2.
    destruct (List.find _ (usage_listing _ _)) as [u'|] eqn:E1.
    + apply find_some in E1 as [Hu1 _]. apply list_elem_of_In, Hin in Hu1 as [Hu1 Hs1].
      pose proof (ok_usages _ Hok) as Hk.
      assert (Hids : u_id u' = u_id u).
      { eapply (ok_active_seat _ Hok); [by apply (rows_map_get u_id)..|exact Hs1|exact Hs2]. }
      apply (rows_map_get u_id _ _ Hk) in Hu1, Hu2. congruence.
    + eapply find_none in E1; [|apply list_elem_of_In, Hin; by split]. exfalso.
      unfold active_seat in Hs2. destruct (bool_decide _); [|done]. injection Hs2 as _ Hfp.
      unfold str_eqb in E1. by rewrite bool_decide_true in E1.
  - destruct (List.find _ (usage_listing _ _)) as [u'|] eqn:E1; [|done].
    apply find_some in E1 as [Hu1 _]. apply list_elem_of_In, Hin in Hu1 as [Hu1 Hs1].
    eapply find_none in E2; [|by apply list_elem_of_In]. by rewrite bool_decide_true in E2.
Qed.
End Reading.

(** ** Registration *)

Inductive register_verdict : Type :=
| RefuseSeat (e : exn)
| KeepSeat (usage : LicenseUsage) (license : License)
| NewSeat (license : License).

(** What registering decides, read off the tables. *)
Definition register_verdict_of (s : State) (input : RegisterUsageInput) : register_verdict :=
  let id := ru_license_id input in
  match map_get (s_licenses s) id with
  | None => RefuseSeat (errors.licenseNotFound id)
  | Some license =>
      match assertUsable license with
      | Throw e => RefuseSeat e
      | Ok _ =>
          match existing_seat s id (ru_fingerprint input) with
          | Some usage => KeepSeat usage license
          | None =>
              if l_max_usages license <=? active_count s id
              then RefuseSeat (errors.seatLimitExceeded (l_max_usages license) (active_count s id))
              else NewSeat license
          end
      end
  end.

(** The tables after a new seat: the seat, its audit row, and, when the
    license was pending, the activated license and a second audit row. *)
Definition seat_added (input : RegisterUsageInput) (actor : option jsstr) (license : License)
    (s : State) (res : RegisterUsageResult) (s' : State) : Prop :=
  let u := reg_usage res in
  reg_created res = true /\
  exists now stamp aid,
    u = mkUsage (u_id u) (ru_license_id input) (ru_fingerprint input) u_active now None now
          (match ru_client_meta input with Some m => m | None => plain [] end) stamp stamp /\
    let s1 := set_audit (map_set (s_audit s) aid (audit_row aid
                (registered_audit license u (active_count s (ru_license_id input) + 1) now actor)))
              (set_usages (map_set (s_usages s) (u_id u) u) s) in
    if bool_decide (l_status license = pending) then
      exists now2 stamp2 aid2,
        reg_license res = patch_license license (op_patch Activate active now2) stamp2
        /\ s' = set_audit (map_set (s_audit s1) aid2 (audit_row aid2
                  (transition_audit license (reg_license res) (js "license.activated") now2 (actor_only actor))))
                (set_licenses (map_set (s_licenses s1) (l_id license) (reg_license res)) s1)
    else reg_license res = license /\ s' = s1.

Section Registration.
Context {W : Type} {HC : HasClock W} {ST : Storage W} {SL : StorageLaws W}.

Lemma activate_run license actor w r w' :
  stored w license -> l_status license = pending -> activate license (actor_only actor) w = (r, w') ->
  tx_depth w' = tx_depth w /\
  match r with
  | Throw _ => True
  | Ok next => exists now stamp aid, next = patch_license license (op_patch Activate active now) stamp
      /\ tables w' = set_audit (map_set (s_audit (tables w)) aid (audit_row aid
           (transition_audit license next (js "license.activated") now (actor_only actor))))
         (set_licenses (map_set (s_licenses (tables w)) (l_id license) next) (tables w))
  end.
Proof.
  intros Hst Hp H. split; [by apply (run_op_depth Activate license (actor_only actor) w r w')|].
  destruct r as [next|e]; [|done]. destruct (nowIso w).1 as [now|e] eqn:Hn.
  - destruct (run_op_verdict Activate license (actor_only actor) now w _ w' Hst Hn H) as [_ Hv].
    unfold verdict_of in Hv. rewrite Hp in Hv. destruct Hv as (stamp & aid & -> & Ht). eauto.
  - exfalso.
    assert (Ha : forall patch event o, apply_transition license patch event o w <> (Ok next, w')).
    { intros patch event o. unfold apply_transition, bind. destruct (nowIso w) as [rn w1].
      simpl in Hn. by subst rn. }
    unfold activate, assertNotRevoked in H. destruct (l_status license); try discriminate Hp.
    eapply Ha. exact H.
Qed.

Lemma register_body_run fuel input actor w r w' :
  state_ok (tables w) -> (List.length (s_usages (tables w)) < fuel)%nat ->
  register_body fuel input actor w = (r, w') ->
  tx_depth w' = tx_depth w /\
  match register_verdict_of (tables w) input with
  | RefuseSeat e => r = Throw e
  | KeepSeat u l => r = Ok (mkRegistered u l false) /\ tables w' = tables w
  | NewSeat license => match r with
      | Throw _ => True
      | Ok res => seat_added input actor license (tables w) res (tables w')
      end
  end.
Proof.
  intros Hok Hf. unfold register_body, register_verdict_of, bind at 1. rewrite getLicense_law.
  destruct (map_get _ _) as [license|] eqn:El; [|by intros [= <- <-]].
  unfold bind at 1, lift. destruct (assertUsable license) as [[]|e] eqn:Eu; [|by intros [= <- <-]].
  unfold bind at 1. rewrite findActiveUsage_run by done.
  destruct (existing_seat _ _ _); [by intros [= <- <-]|].
  unfold bind at 1. rewrite countActiveUsages_run by done. case_goal; [by intros [= <- <-]|].
  pose proof (nowIso_frame w) as [Ht1 Hd1]. unfold bind at 1.
  destruct (nowIso w) as [[now|e] w1]; simpl in Ht1, Hd1; [|by intros [= <- <-]].
  unfold bind at 1. destruct (createUsage _ w1) as [[u|e] w2] eqn:Ec;
    destruct (createUsage_law _ _ _ _ Ec) as [Hd2 Hr2]; [|intros [= <- <-]; split; [congruence|done]].
  destruct Hr2 as [(stamp & Hu) Ht2]. cbn in Hu.
  unfold bind at 1. destruct (appendAudit _ w2) as [[row|e] w3] eqn:Ea;
    destruct (appendAudit_law _ _ _ _ Ea) as [Hd3 Hr3]; [|intros [= <- <-]; split; [congruence|done]].
  destruct Hr3 as [Hrow Ht3]. rewrite Hrow in Ht3. rewrite Ht2, Ht1 in Ht3. cbn in Ht3.
  case_bool_decide as Hp.
  - unfold bind at 1. destruct (activate _ _ w3) as [r4 w4] eqn:E4.
    apply activate_run in E4 as [Hd4 Hr4]; [| |done].
    2:{ unfold stored. rewrite Ht3. cbn.
        by rewrite (keyed_get _ _ _ _ (ok_licenses _ Hok) El). }
    destruct r4 as [next|e]; [|intros [= <- <-]; split; [congruence|done]].
    destruct Hr4 as (now2 & stamp2 & aid2 & Hnext & Ht4).
    intros [= <- <-]. split; [congruence|]. split; [done|]. exists now, stamp, (a_id row).
    cbn [reg_usage reg_license reg_created]. split; [done|]. cbv zeta. rewrite bool_decide_true by done.
    exists now2, stamp2, aid2. split; [done|]. rewrite Ht4, Ht3. done.
  - unfold bind, ret. intros [= <- <-]. split; [congruence|]. split; [done|].
    exists now, stamp, (a_id row). cbn [reg_usage reg_license reg_created]. split; [done|]. cbv zeta.
    rewrite bool_decide_false by done. split; [done|]. by rewrite Ht3.
Qed.
End Registration.

(** ** The seat limit as an invariant *)

(** No license has more active seats than it allows. *)
Definition seats_ok (s : State) : Prop := forall id l,
  map_get (s_licenses s) id = Some l -> active_count s id <= Z.max 0 (l_max_usages l).

Inductive SeatOp : Type :=
| RegisterSeat (input : RegisterUsageInput) (actor : option jsstr)
| RevokeSeat (usageId : UUIDv7) (opts : TransitionOptions).

Section Seats.
Context {W : Type} {HC : HasClock W} {ST : Storage W} {SL : StorageLaws W}.

Lemma keeps_register fuel input actor : keeps (register_body fuel input actor).
Proof.
  unfold register_body, findActiveUsage, countActiveUsages, activate, apply_transition, writeAudit.
  keeps_steps; try (apply keeps_walkPages; intros; keeps_steps).
Qed.

(** A registration keeps the tables sound, whatever it returns. *)
Lemma register_keeps_ok fuel input actor w :
  tx_depth w = 0 -> state_ok (tables w) ->
  state_ok (tables (registerUsage fuel input actor w).2).
Proof.
  intros Hd Hok. destruct (registerUsage fuel input actor w) as [r w'] eqn:E.
  exact (proj1 (keeps_tx _ _ _ _ (keeps_register fuel input actor) Hd E Hok)).
Qed.

Lemma keeps_revoke usageId opts : keeps (revoke_body usageId opts).
Proof. unfold revoke_body. keeps_steps. Qed.

Lemma active_count_set s id u k :
  keyed u_id (s_usages s) ->
  active_count (set_usages (map_set (s_usages s) k u) s) id
  <= active_count s id + (if is_active_seat id u then 1 else 0).
Proof.
  intros [Hn _]. unfold active_count. cbn [s_usages set_usages].
  pose proof (filter_length_set (is_active_seat id) (s_usages s) k u Hn) as H. cbv zeta in H.
  destruct (map_get _ _) as [old|]; [destruct (is_active_seat id old)|]; destruct (is_active_seat id u); lia.
Qed.

(** [active_count] only reads the seats. *)
Lemma active_count_usages s s' id : s_usages s' = s_usages s -> active_count s' id = active_count s id.
Proof. unfold active_count. by intros ->. Qed.

Lemma seat_added_count input actor license s res s' id :
  keyed u_id (s_usages s) -> seat_added input actor license s res s' ->
  active_count s' id <= active_count s id + (if bool_decide (id = ru_license_id input) then 1 else 0).
Proof.
  intros Hk [_ (now & stamp & aid & Hu & Hs)]. cbv zeta in Hs.
  assert (Huse : s_usages s' = map_set (s_usages s) (u_id (reg_usage res)) (reg_usage res)).
  { destruct (bool_decide (l_status license = pending)); [destruct Hs as (? & ? & ? & _ & ->)|destruct Hs as [_ ->]];
      reflexivity. }
  pose proof (active_count_set s id (reg_usage res) (u_id (reg_usage res)) Hk) as H.
  rewrite <- (active_count_usages (set_usages (map_set (s_usages s) (u_id (reg_usage res)) (reg_usage res)) s) s')
    in H by (by rewrite Huse).
  unfold is_active_seat in H. rewrite Hu in H. cbn in H. unfold str_eqb in H. rewrite andb_true_r in H.
  rewrite (bool_decide_ext (id = ru_license_id input) (ru_license_id input = id)) by done. exact H.
Qed.

(** The licenses after a registration have the limits they had. *)
Lemma seat_added_licenses input actor license s res s' id l' :
  map_get (s_licenses s) (ru_license_id input) = Some license -> keyed l_id (s_licenses s) ->
  seat_added input actor license s res s' -> map_get (s_licenses s') id = Some l' ->
  exists l, map_get (s_licenses s) id = Some l /\ l_max_usages l' = l_max_usages l.
Proof.
  intros Hl Hk [_ (now & stamp & aid & _ & Hs)]. cbv zeta in Hs.
  destruct (bool_decide (l_status license = pending)).
  - destruct Hs as (now2 & stamp2 & aid2 & Hr & ->). cbn [s_licenses set_audit set_licenses set_usages].
    rewrite map_get_set. case_decide as Hid; [|eauto]. intros [= <-].
    exists license. rewrite Hr. split; [|done]. by rewrite <- Hid, (keyed_get _ _ _ _ Hk Hl).
  - destruct Hs as [_ ->]. cbn. eauto.
Qed.

Lemma register_seats_ok fuel input actor w r w' :
  state_ok (tables w) -> (List.length (s_usages (tables w)) < fuel)%nat -> seats_ok (tables w) ->
  register_body fuel input actor w = (Ok r, w') -> seats_ok (tables w').
Proof.
  intros Hok Hf Hs H. destruct (register_body_run _ _ _ _ _ _ Hok Hf H) as [_ Hv].
  unfold register_verdict_of in Hv. destruct (map_get _ _) as [license|] eqn:El; [|done].
  destruct (assertUsable license); [|done]. destruct (existing_seat _ _ _).
  { destruct Hv as [_ ->]. done. }
  destruct (_ <=? _) eqn:Ele; [done|]. bool_prop. intros id l' Hl'.
  pose proof (ok_licenses _ Hok) as Hkl. pose proof (ok_usages _ Hok) as Hku.
  destruct (seat_added_licenses _ _ _ _ _ _ _ _ El Hkl Hv Hl') as (l & Hl & ->).
  pose proof (seat_added_count _ _ _ _ _ _ id Hku Hv) as Hc. specialize (Hs id l Hl).
  case_bool_decide; subst; simplify_eq; lia.
Qed.

Lemma revoke_body_seats usageId opts w r w' :
  state_ok (tables w) -> revoke_body usageId opts w = (Ok r, w') ->
  s_licenses (tables w') = s_licenses (tables w)
  /\ forall id, active_count (tables w') id <= active_count (tables w) id.
Proof.
  intros Hok H. unfold revoke_body, bind at 1 in H. rewrite getUsage_law in H.
  destruct (map_get _ _) as [u|] eqn:Eu; [|done]. case_bool_decide as Hr; [unfold ret in H; by injection H as _ <-|].
  apply bind_ok_inv in H as (now & w1 & Hn & H). pose proof (nowIso_frame w) as [Ht1 _].
  rewrite Hn in Ht1. simpl in Ht1.
  apply bind_ok_inv in H as (u' & w2 & Hu & H).
  destruct (updateUsage_law _ _ u _ _ _ ltac:(by rewrite Ht1) Hu) as [_ [(stamp & Hu') Ht2]].
  apply bind_ok_inv in H as (l & w3 & Hl & H). rewrite getLicense_law in Hl. injection Hl as <- <-.
  apply bind_ok_inv in H as (row & w4 & Ha & H). unfold ret in H. injection H as <- <-.
  destruct (appendAudit_law _ _ _ _ Ha) as [_ [_ Ht4]]. rewrite Ht4, Ht2, Ht1. split; [done|]. intros id.
  etransitivity; [apply (active_count_set (tables w) id u' usageId); apply Hok|].
  unfold is_active_seat. rewrite Hu'. cbn. rewrite andb_false_r. lia.
Qed.
End Seats.

Section SeatHistories.
Context {W : Type} {HC : HasClock W} {ST : Storage W} {SL : StorageLaws W}.

Definition run_seat (fuel : nat) (w : W) (op : SeatOp) : W :=
  match op with
  | RegisterSeat input actor => (registerUsage fuel input actor w).2
  | RevokeSeat id opts => (revokeUsage id opts w).2
  end.

Lemma map_set_length {A} (m : list (UUIDv7 * A)) k v :
  (List.length (map_set m k v) <= S (List.length m))%nat.
Proof. induction m as [|[k0 v0] m IH]; simpl; [lia|]. case_decide; simpl; lia. Qed.

Lemma revoke_body_length usageId opts w r w' :
  revoke_body usageId opts w = (Ok r, w') ->
  (List.length (s_usages (tables w')) <= S (List.length (s_usages (tables w))))%nat.
Proof.
  intros H. unfold revoke_body, bind at 1 in H. rewrite getUsage_law in H.
  destruct (map_get _ _) as [u|] eqn:Eu; [|done].
  case_bool_decide as Hr; [unfold ret in H; injection H as _ <-; lia|].
  apply bind_ok_inv in H as (now & w1 & Hn & H). pose proof (nowIso_frame w) as [Ht1 _].
  rewrite Hn in Ht1. simpl in Ht1.
  apply bind_ok_inv in H as (u' & w2 & Hu & H).
  destruct (updateUsage_law _ _ u _ _ _ ltac:(by rewrite Ht1) Hu) as [_ [_ Ht2]].
  apply bind_ok_inv in H as (l & w3 & Hl & H). rewrite getLicense_law in Hl. injection Hl as <- <-.
  apply bind_ok_inv in H as (row & w4 & Ha & H). unfold ret in H. injection H as <- <-.
  destruct (appendAudit_law _ _ _ _ Ha) as [_ [_ Ht4]]. rewrite Ht4, Ht2, Ht1. apply map_set_length.
Qed.

Lemma register_body_length fuel input actor w r w' :
  state_ok (tables w) -> (List.length (s_usages (tables w)) < fuel)%nat ->
  register_body fuel input actor w = (Ok r, w') ->
  (List.length (s_usages (tables w')) <= S (List.length (s_usages (tables w))))%nat.
Proof.
  intros Hok Hf H. destruct (register_body_run _ _ _ _ _ _ Hok Hf H) as [_ Hv].
  destruct (register_verdict_of _ _) as [e|u l|license]; [done|destruct Hv as [_ ->]; lia|].
  destruct Hv as [_ (now & stamp & aid & _ & Hs)]. cbv zeta in Hs.
  destruct (bool_decide _); [destruct Hs as (? & ? & ? & _ & ->)|destruct Hs as [_ ->]]; apply map_set_length.
Qed.

Definition seat_inv (fuel : nat) (w : W) : Prop :=
  state_ok (tables w) /\ seats_ok (tables w) /\ tx_depth w = 0
  /\ (List.length (s_usages (tables w)) < fuel)%nat.

Lemma run_seat_inv fuel w op :
  seat_inv fuel w -> seat_inv (S fuel) (run_seat fuel w op).
Proof.
  intros (Hok & Hs & Hd & Hf). unfold seat_inv, run_seat. destruct op as [input actor|id opts].
  - destruct (registerUsage fuel input actor w) as [r w'] eqn:E. cbn [snd].
    destruct (keeps_tx _ _ _ _ (keeps_register fuel input actor) Hd E Hok) as [Hok' Hd'].
    destruct (tx_run _ _ _ _ Hd E) as (w0 & w1 & Ht0 & _ & _ & Hr & _ & Ht').
    destruct r as [res|e]; [|rewrite Ht'; split_and!; [done..|lia]].
    rewrite <- Ht0 in Hok, Hs, Hf. pose proof (register_seats_ok _ _ _ _ _ _ Hok Hf Hs Hr).
    pose proof (register_body_length _ _ _ _ _ _ Hok Hf Hr). rewrite Ht' in *. split_and!; [done..|lia].
  - destruct (revokeUsage id opts w) as [r w'] eqn:E. cbn [snd].
    destruct (keeps_tx _ _ _ _ (keeps_revoke id opts) Hd E Hok) as [Hok' Hd'].
    destruct (tx_run _ _ _ _ Hd E) as (w0 & w1 & Ht0 & _ & _ & Hr & _ & Ht').
    destruct r as [res|e]; [|rewrite Ht'; split_and!; [done..|lia]].
    rewrite <- Ht0 in Hok, Hs, Hf. destruct (revoke_body_seats _ _ _ _ _ Hok Hr) as [Hl Hc].
    pose proof (revoke_body_length _ _ _ _ _ Hr). rewrite Ht' in *. split_and!; [done| |done|lia].
    intros i l Hi. rewrite Hl in Hi. specialize (Hs i l Hi). specialize (Hc i). lia.
Qed.

(** Each operation may add a row, so a history needs a row of fuel each. *)
Fixpoint run_seats (fuel : nat) (ops : list SeatOp) (w : W) : W :=
  match ops with
  | [] => w
  | op :: ops' => run_seats (S fuel) ops' (run_seat fuel w op)
  end.

Lemma run_seats_inv ops : forall fuel w,
  seat_inv fuel w -> seat_inv (fuel + List.length ops) (run_seats fuel ops w).
Proof.
  induction ops as [|op ops IH]; intros fuel w Hi; cbn [run_seats List.length]; [by rewrite Nat.add_0_r|].
  apply (run_seat_inv _ _ op) in Hi. apply IH in Hi. by rewrite Nat.add_succ_r.
Qed.

(** A seat just added is the one a second registration finds. *)
Lemma existing_seat_spec s id fp u :
  state_ok s -> u ∈ rows (s_usages s) -> active_seat u = Some (id, fp) -> existing_seat s id fp = Some u.
Proof.
  intros Hok Hu Hs. unfold existing_seat. pose proof (ok_usages _ Hok) as Hk.
  destruct (List.find _ _) as [u'|] eqn:E.
  - apply find_some in E as [Hu' Hs']. bool_prop. apply list_elem_of_In in Hu'.
    apply (rows_map_get u_id _ _ Hk) in Hu, Hu'.
    assert (u_id u' = u_id u) as He by (by eapply (ok_active_seat _ Hok)). congruence.
  - eapply find_none in E; [|by apply list_elem_of_In]. by rewrite bool_decide_true in E.
Qed.

Lemma seat_added_usable input actor license s res s' :
  keyed l_id (s_licenses s) -> map_get (s_licenses s) (ru_license_id input) = Some license ->
  assertUsable license = Ok tt -> seat_added input actor license s res s' ->
  map_get (s_licenses s') (ru_license_id input) = Some (reg_license res)
  /\ assertUsable (reg_license res) = Ok tt
  /\ map_get (s_usages s') (u_id (reg_usage res)) = Some (reg_usage res)
  /\ active_seat (reg_usage res) = Some (ru_license_id input, ru_fingerprint input).
Proof.
  intros Hk Hl Hu [_ (now & stamp & aid & Hus & Hs)]. cbv zeta in Hs.
  assert (Hseat : active_seat (reg_usage res) = Some (ru_license_id input, ru_fingerprint input)).
  { rewrite Hus. unfold active_seat. cbn. by rewrite bool_decide_true. }
  destruct (bool_decide (l_status license = pending)).
  - destruct Hs as (now2 & stamp2 & aid2 & Hr & ->). cbn [s_licenses s_usages set_audit set_licenses set_usages].
    rewrite map_get_set_eq, map_get_set, decide_True by (by eapply keyed_get).
    split_and!; [done|by rewrite Hr|done|done].
  - destruct Hs as [-> ->]. cbn [s_licenses s_usages set_audit set_licenses set_usages].
    by rewrite map_get_set_eq.
Qed.

(** What a revocation does. *)
Lemma revoke_run id opts w r w' :
  state_ok (tables w) -> tx_depth w = 0 -> revokeUsage id opts w = (r, w') ->
  match map_get (s_usages (tables w)) id, r with
  | None, _ => r = Throw errors.fingerprintRejected /\ tables w' = tables w
  | Some u, Throw _ => u_status u = u_active /\ tables w' = tables w
  | Some u, Ok u' =>
      if bool_decide (u_status u = u_revoked) then u' = u /\ tables w' = tables w
      else
        u_status u' = u_revoked /\ u_revoked_at u' <> None
        /\ active_count (tables w') (u_license_id u) = active_count (tables w) (u_license_id u) - 1
        /\ exists aid row, a_event row = js "usage.revoked" /\ a_license_id row = Some (u_license_id u)
           /\ tables w' = set_audit (map_set (s_audit (tables w)) aid row)
                (set_usages (map_set (s_usages (tables w)) id u') (tables w))
  end.
Proof.
  intros Hok Hd H. destruct (tx_run _ _ _ _ Hd H) as (w0 & w1 & Ht0 & _ & _ & Hr & _ & Ht').
  unfold revoke_body, bind at 1 in Hr. rewrite getUsage_law, Ht0 in Hr.
  destruct (map_get (s_usages (tables w)) id) as [u|] eqn:Eu; [|by injection Hr as <- <-].
  destruct (bool_decide (u_status u = u_revoked)) eqn:Es.
  { injection Hr as <- <-. by rewrite Ht', Ht0. }
  bool_prop. destruct r as [u'|e]; [|split; [by destruct (u_status u)|done]].
  apply bind_ok_inv in Hr as (now & v1 & Hn & Hr). pose proof (nowIso_frame w0) as [Hv1 _].
  rewrite Hn in Hv1. simpl in Hv1. rewrite Ht0 in Hv1.
  apply bind_ok_inv in Hr as (u1 & v2 & Hu & Hr).
  destruct (updateUsage_law _ _ u _ _ _ ltac:(by rewrite Hv1) Hu) as [_ [(stamp & Hu1) Hv2]].
  apply bind_ok_inv in Hr as (l & v3 & Hl & Hr). rewrite getLicense_law in Hl. injection Hl as <- <-.
  apply bind_ok_inv in Hr as (row & v4 & Ha & Hr). unfold ret in Hr. injection Hr as -> ->.
  destruct (appendAudit_law _ _ _ _ Ha) as [_ [Hrow Hv4]].
  rewrite Ht', Hv4, Hv2, Hv1. split_and!; [by rewrite Hu1|by rewrite Hu1| |].
  - pose proof (ok_usages _ Hok) as [Hnd _].
    pose proof (filter_length_set (is_active_seat (u_license_id u)) (s_usages (tables w)) id u' Hnd) as Hc.
    cbv zeta in Hc. rewrite Eu in Hc. unfold active_count. cbn [s_usages set_audit set_usages].
    assert (is_active_seat (u_license_id u) u' = false) as Hf'.
    { unfold is_active_seat. rewrite Hu1. cbn. apply andb_false_r. }
    assert (is_active_seat (u_license_id u) u = true) as Ht.
    { unfold is_active_seat, str_eqb. rewrite !bool_decide_true; [done|by destruct (u_status u)|done]. }
    rewrite Hf', Ht in Hc. lia.
  - exists (a_id row), row. rewrite Hrow. done.
Qed.

(** ** Sweeping *)

Section SweepFacts.
Context {DP : DateParse}.

(** The last heartbeat parses and lies before the cutoff. *)
Definition is_stale (cutoffMs : Z) (u : LicenseUsage) : bool :=
  match date_parse (u_last_seen_at u) with Some seenMs => seenMs <? cutoffMs | None => false end.

Definition swept_listing (licenseId : option UUIDv7) (s : State) : list LicenseUsage :=
  usage_listing (mkUsageFilter licenseId None (Some [u_active])) s.

Lemma sweep_fold cutoff l : forall n st,
  fold_step (sweep_row cutoff) (n, st) l
  = Continue (n + Z.of_nat (List.length l), st ++ (u_id <$> List.filter (is_stale cutoff) l)).
Proof.
  induction l as [|u l IH]; intros n st; cbn [fold_step]; [cbn; by rewrite Z.add_0_r, app_nil_r|].
  unfold sweep_row at 1, is_stale. cbn [List.filter].
  destruct (date_parse (u_last_seen_at u)) as [ms|]; [destruct (ms <? cutoff)|]; rewrite IH; f_equal;
    cbn [List.length fmap list_fmap]; rewrite <- ?app_assoc; (f_equal; lia || done) || idtac.
Qed.

Lemma collect_stale_run fuel licenseId cutoff w :
  state_ok (tables w) -> (List.length (s_usages (tables w)) < fuel)%nat ->
  collect_stale fuel licenseId cutoff w
  = (Ok (Z.of_nat (List.length (swept_listing licenseId (tables w))),
         u_id <$> List.filter (is_stale cutoff) (swept_listing licenseId (tables w))), w).
Proof.
  intros Hok Hf. unfold collect_stale.
  pose proof (walk_usages (mkUsageFilter licenseId None (Some [u_active])) 500 (sweep_row cutoff)
                (fun acc => acc) fuel (0, []) w Hok ltac:(lia) Hf) as Hw.
  etransitivity; [exact Hw|]. by rewrite sweep_fold.
Qed.

(** The loop that revokes: every listed seat ends revoked, every other row,
    and every license, is as it was. *)
Lemma revoke_stale_run actor stale : forall acc w ids w',
  state_ok (tables w) -> tx_depth w = 0 ->
  revoke_stale actor stale acc w = (Ok ids, w') ->
  ids = acc ++ stale /\ state_ok (tables w') /\ tx_depth w' = 0
  /\ s_licenses (tables w') = s_licenses (tables w)
  /\ forall id u, map_get (s_usages (tables w)) id = Some u ->
       exists u', map_get (s_usages (tables w')) id = Some u'
         /\ (id ∈ stale -> u_status u' = u_revoked) /\ (id ∉ stale -> u' = u)
         /\ (u_status u = u_revoked -> u' = u).
Proof.
  induction stale as [|sid stale IH]; intros acc w ids w' Hok Hd H; cbn [revoke_stale] in H.
  - unfold ret in H. injection H as <- <-. rewrite app_nil_r. split_and!; [done..|].
    intros id u Hu. exists u. split_and!; try done. by intros ?%not_elem_of_nil.
  - apply bind_ok_inv in H as (u1 & w1 & Hrev & H).
    destruct (keeps_tx _ _ _ _ (keeps_revoke sid _) Hd Hrev Hok) as [Hok1 Hd1].
    pose proof (revoke_run sid _ w _ w1 Hok Hd Hrev) as Hr.
    destruct (IH _ _ _ _ Hok1 Hd1 H) as (-> & Hok' & Hd' & Hl' & Hrows).
    destruct (map_get (s_usages (tables w)) sid) as [su|] eqn:Es; [|by destruct Hr].
    assert (Hstep : s_licenses (tables w1) = s_licenses (tables w) /\ u_status u1 = u_revoked
      /\ (u_status su = u_revoked -> u1 = su)
      /\ forall id u, map_get (s_usages (tables w)) id = Some u ->
           map_get (s_usages (tables w1)) id = Some (if decide (sid = id) then u1 else u)).
    { case_bool_decide as Hst.
      - destruct Hr as [-> ->]. split_and!; [done..|]. intros id u Hu. case_decide; [congruence|done].
      - destruct Hr as (Hs1 & _ & _ & aid & row & _ & _ & ->). split_and!; [done..|].
        intros id u Hu. cbn [s_usages set_audit set_usages]. rewrite map_get_set. by case_decide. }
    destruct Hstep as (Hl1 & Hs1 & Hk1 & Hget1).
    split_and!; [by rewrite <- app_assoc|done|done|congruence|]. intros id u Hu.
    destruct (Hrows id _ (Hget1 id u Hu)) as (u' & Hu' & Hin & Hout & Hkeep). exists u'. split; [done|].
    destruct (decide (sid = id)) as [<-|Hne].
    + rewrite (Hkeep Hs1). rewrite Es in Hu. injection Hu as <-. split_and!; [done| |done].
      intros Hn. destruct Hn. left.
    + split_and!; [|intros Hn; apply Hout; intros Hi; apply Hn; by right|done].
      intros [?|Hi]%elem_of_cons; [congruence|auto].
Qed.
End SweepFacts.

(** ** Properties *)


(** C1: the seat limit is an invariant: however registrations and
    revocations follow each other, with whatever fails among them, no
    license ever has more active seats than its limit, no device holds two
    active seats of a license, and the loops never run out of fuel early:
    the store stays well-formed. *)
Theorem seat_limit_invariant ops fuel w :
  state_ok (tables w) -> seats_ok (tables w) -> tx_depth w = 0 ->
  (List.length (s_usages (tables w)) < fuel)%nat ->
  let w' := run_seats fuel ops w in
  state_ok (tables w') /\ tx_depth w' = 0 /\
  forall id l, map_get (s_licenses (tables w')) id = Some l ->
    active_count (tables w') id <= Z.max 0 (l_max_usages l).
Proof.
  intros Hok Hs Hd Hf. cbv zeta.
  destruct (run_seats_inv ops fuel w) as (Hok' & Hs' & Hd' & _); [unfold seat_inv; auto|].
  by split_and!.
Qed.

(** Registering is idempotent: after a registration succeeded, the same
    device registering again gets the same seat and license back, created
    nothing, and the tables do not change. *)
Theorem register_idempotent fuel input actor actor' w res w' :
  state_ok (tables w) -> tx_depth w = 0 -> (S (List.length (s_usages (tables w))) < fuel)%nat ->
  registerUsage fuel input actor w = (Ok res, w') ->
  exists w'', registerUsage fuel input actor' w' = (Ok (mkRegistered (reg_usage res) (reg_license res) false), w'')
    /\ tables w'' = tables w'.
Proof.
  intros Hok Hd Hf H.
  destruct (keeps_tx _ _ _ _ (keeps_register fuel input actor) Hd H Hok) as [Hok' Hd'].
  destruct (tx_run _ _ _ _ Hd H) as (w0 & w1 & Ht0 & _ & _ & Hr & _ & Ht').
  rewrite <- Ht0 in Hok, Hf. pose proof (register_body_length fuel _ _ _ _ _ Hok ltac:(lia) Hr) as Hlen.
  destruct (register_body_run fuel _ _ _ _ _ Hok ltac:(lia) Hr) as [_ Hv]. rewrite <- Ht' in Hv, Hlen.
  assert (Hagain : register_verdict_of (tables w') input = KeepSeat (reg_usage res) (reg_license res)).
  { unfold register_verdict_of in *. destruct (map_get _ _) as [license|] eqn:El; [|done].
    destruct (assertUsable license) as [[]|] eqn:Eu; [|done]. destruct (existing_seat _ _ _) as [u|] eqn:Ee.
    - destruct Hv as [[= ->] ->]. cbn. by rewrite El, Eu, Ee.
    - destruct (_ <=? _); [done|].
      destruct (seat_added_usable _ _ _ _ _ _ (ok_licenses _ Hok) El Eu Hv) as (-> & -> & Hu & Hs).
      by rewrite (existing_seat_spec _ _ _ _ Hok' (map_get_rows _ _ _ Hu) Hs). }
  destruct (registerUsage fuel input actor' w') as [r'' w''] eqn:E''. exists w''.
  destruct (tx_run _ _ _ _ Hd' E'') as (v0 & v1 & Hv0 & _ & _ & Hrv & _ & Htv).
  rewrite <- Hv0 in Hok', Hagain. destruct (register_body_run fuel _ _ _ _ _ Hok' ltac:(rewrite Hv0; lia) Hrv) as [_ Hw].
  rewrite Hagain in Hw. destruct Hw as [-> Hw]. split; [done|]. by rewrite Htv, Hw.
Qed.

(** Revoking a seat frees it: the row becomes revoked and stamped, the
    license has one active seat less, nothing else but one audit row
    changes; revoking it again returns it and changes nothing; an unknown
    seat is refused. *)
Theorem revoke_frees_seat id opts w r w' :
  state_ok (tables w) -> tx_depth w = 0 -> revokeUsage id opts w = (r, w') ->
  match map_get (s_usages (tables w)) id, r with
  | None, _ => r = Throw errors.fingerprintRejected /\ tables w' = tables w
  | Some u, Throw _ => u_status u = u_active /\ tables w' = tables w
  | Some u, Ok u' =>
      if bool_decide (u_status u = u_revoked) then u' = u /\ tables w' = tables w
      else
        u_status u' = u_revoked /\ u_revoked_at u' <> None
        /\ active_count (tables w') (u_license_id u) = active_count (tables w) (u_license_id u) - 1
        /\ exists aid row, a_event row = js "usage.revoked" /\ a_license_id row = Some (u_license_id u)
           /\ tables w' = set_audit (map_set (s_audit (tables w)) aid row)
                (set_usages (map_set (s_usages (tables w)) id u') (tables w))
  end.
Proof. apply revoke_run. Qed.

(** A sweep that succeeds examined every active seat and found exactly
    those whose last heartbeat parses and lies before the cutoff, each once;
    a dry run changes no table, a live run revokes exactly the seats found
    and leaves every other row and every license as it was. *)
Theorem sweep_exact `{DateParse} fuel opts w res w' :
  state_ok (tables w) -> tx_depth w = 0 -> (List.length (s_usages (tables w)) < fuel)%nat ->
  sweepInactiveUsages fuel opts w = (Ok res, w') ->
  exists nowText nowMs, (nowIso w).1 = Ok nowText /\ date_parse nowText = Some nowMs
  /\ let cutoff := nowMs - sw_inactiveForSec opts * 1000 in
     let seats := swept_listing (sw_licenseId opts) (tables w) in
     swept_scanned res = Z.of_nat (List.length seats)
     /\ swept_stale res = (u_id <$> List.filter (is_stale cutoff) seats)
     /\ if sw_dryRun opts then swept_revoked res = [] /\ tables w' = tables w
        else swept_revoked res = swept_stale res
          /\ s_licenses (tables w') = s_licenses (tables w)
          /\ forall id u, map_get (s_usages (tables w)) id = Some u ->
               exists u', map_get (s_usages (tables w')) id = Some u'
                 /\ (id ∈ swept_stale res -> u_status u' = u_revoked)
                 /\ (id ∉ swept_stale res -> u' = u).
Proof.
  intros Hok Hd Hf Hrun. unfold sweepInactiveUsages in Hrun. destruct (negb _); [done|].
  unfold bind at 1 in Hrun. pose proof (nowIso_frame w) as [Ht Hdw].
  destruct (nowIso w) as [[nowText|e] w1] eqn:En; [|done]. cbn [fst snd] in *.
  destruct (date_parse nowText) as [nowMs|] eqn:Ep; [|by unfold bind in Hrun; destruct (nowIso w1) as [[]]].
  exists nowText, nowMs. split; [done|]. split; [done|]. cbv zeta in Hrun |- *.
  apply bind_ok_inv in Hrun as ([scanned stale] & w2 & Hc & Hrun).
  assert (Hd1 : tx_depth w1 = 0) by congruence.
  destruct (tx_run _ _ _ _ Hd1 Hc) as (v0 & v1 & Hv0 & Hd0 & _ & Hv & Hd2 & Ht2).
  rewrite collect_stale_run in Hv by (rewrite Hv0, Ht; done). rewrite Hv0, Ht in Hv.
  injection Hv as <- <- <-. rewrite Hv0, Ht in Ht2. rewrite Hd0 in Hd2.
  destruct (sw_dryRun opts).
  - unfold ret in Hrun. injection Hrun as <- <-. done.
  - apply bind_ok_inv in Hrun as (ids & w3 & Hr & Hrun). unfold ret in Hrun. injection Hrun as <- <-.
    apply revoke_stale_run in Hr as (-> & _ & _ & Hl & Hrows); [|by rewrite Ht2|lia].
    cbn [swept_scanned swept_stale swept_revoked]. rewrite Ht2 in *. split_and!; [done..|].
    intros id u Hu. destruct (Hrows id u Hu) as (u' & ? & ? & ? & _). eauto.
Qed.
End SeatHistories.

(** ** On the memory adapter *)

Lemma sample_ok s : state_ok (tables (sample_world s)).
Proof.
  destruct emptyState_ok. split; try assumption.
  - by apply keyed_singleton.
  - apply unique_singleton.
Qed.

(** [pending] with two seats, one device registered. *)
Definition sample_input (fp : jsstr) : RegisterUsageInput := mkRegisterUsage (js "l1") fp None.
Definition registered_world : World := (registerUsage 5 (sample_input (js "A")) None (sample_world pending)).2.
Definition seat_A : UUIDv7 := match rows (s_usages (tables registered_world)) with u :: _ => u_id u | [] => [] end.

Lemma sample_seats s : seats_ok (tables (sample_world s)).
Proof. intros id l. unfold sample_world. simpl. case_decide; [|done]. intros [= <-]. simpl. unfold active_count. simpl. lia. Qed.


Lemma seat_limit_invariant_witness :
  let ops := [RegisterSeat (sample_input (js "A")) None; RegisterSeat (sample_input (js "B")) None;
              RegisterSeat (sample_input (js "C")) None; RevokeSeat seat_A no_options;
              RegisterSeat (sample_input (js "C")) None] in
  let w' := run_seats 5 ops (sample_world pending) in
  active_count (tables w') (js "l1") = 2 /\
  state_ok (tables w') /\ tx_depth w' = 0 /\
  forall id l, map_get (s_licenses (tables w')) id = Some l ->
    active_count (tables w') id <= Z.max 0 (l_max_usages l).
Proof.
  cbv zeta. split; [vm_compute; reflexivity|].
  apply (seat_limit_invariant _ 5 (sample_world pending) (sample_ok pending) (sample_seats pending) eq_refl).
  simpl. lia.
Defined.

Lemma register_idempotent_witness :
  exists res w'', registerUsage 9 (sample_input (js "A")) (Some (js "admin")) registered_world
    = (Ok (mkRegistered (reg_usage res) (reg_license res) false), w'')
    /\ tables w'' = tables registered_world.
Proof.
  destruct (registerUsage 9 (sample_input (js "A")) None (sample_world pending)) as [r w'] eqn:E.
  assert (Hw : w' = registered_world) by (unfold registered_world; vm_compute in E |- *; injection E as _ <-; reflexivity).
  destruct r as [res|e]; [|exfalso; vm_compute in E; discriminate E].
  destruct (register_idempotent 9 (sample_input (js "A")) None (Some (js "admin")) (sample_world pending) res w'
    (sample_ok pending) eq_refl ltac:(simpl; lia) E) as (w'' & H1 & H2).
  exists res, w''. rewrite <- Hw. split; [exact H1|exact H2].
Defined.

Lemma registered_ok : state_ok (tables registered_world).
Proof. exact (register_keeps_ok _ _ _ (sample_world pending) eq_refl (sample_ok pending)). Qed.

Lemma revoke_frees_seat_witness :
  let '(r, w') := revokeUsage seat_A no_options registered_world in
  match map_get (s_usages (tables registered_world)) seat_A, r with
  | Some u, Ok u' => u_status u = u_active /\ u_status u' = u_revoked
      /\ active_count (tables w') (u_license_id u) = active_count (tables registered_world) (u_license_id u) - 1
  | _, _ => False
  end.
Proof.
  destruct (revokeUsage seat_A no_options registered_world) as [r w'] eqn:E.
  assert (Hd : tx_depth registered_world = 0) by (vm_compute; reflexivity).
  pose proof (revoke_frees_seat seat_A no_options registered_world r w' registered_ok Hd E) as H.
  destruct (map_get _ _) as [u|] eqn:Eu; [|vm_compute in Eu; discriminate Eu].
  assert (Hu : u_status u = u_active) by (vm_compute in Eu; injection Eu as <-; reflexivity).
  assert (Hr : match r with Ok _ => True | Throw _ => False end)
    by (vm_compute in E; injection E as <- _; exact I).
  destruct r as [u'|e]; [|destruct Hr].
  rewrite bool_decide_false in H by (rewrite Hu; discriminate).
  destruct H as (H1 & _ & H3 & _). split; [exact Hu|]. split; [exact H1|exact H3].
Defined.

(** An hour later. *)
Definition later_world : World := with_clock (fixedClock 1767229200000 (js "2026-01-01T01:00:00.000000Z")) registered_world.

Lemma tables_with_clock c (w : World) : tables (with_clock c w) = tables w.
Proof. reflexivity. Qed.

Lemma sweep_exact_witness :
  let opts := mkSweep 600 None false None in
  exists res w', @sweepInactiveUsages World world_clock MemoryStorage no_other_dates 5 opts later_world = (Ok res, w')
  /\ swept_revoked res = swept_stale res /\ swept_stale res = [seat_A].
Proof.
  cbv zeta. destruct (@sweepInactiveUsages World world_clock MemoryStorage no_other_dates 5
    (mkSweep 600 None false None) later_world) as [r w'] eqn:E.
  assert (Hr : match r with Ok res => swept_stale res = [seat_A] | Throw _ => False end)
    by (vm_compute in E; injection E as <- _; vm_compute; reflexivity).
  destruct r as [res|e]; [|destruct Hr]. exists res, w'. split; [reflexivity|].
  assert (Hok : state_ok (tables later_world))
    by (unfold later_world; rewrite tables_with_clock; exact registered_ok).
  assert (Hd : tx_depth later_world = 0) by (vm_compute; reflexivity).
  assert (Hf : (List.length (s_usages (tables later_world)) < 5)%nat) by (vm_compute; lia).
  destruct (@sweep_exact World world_clock MemoryStorage memory_laws no_other_dates 5
    (mkSweep 600 None false None) later_world res w' Hok Hd Hf E) as (nt & nm & _ & _ & H).
  cbv zeta in H. destruct H as (_ & _ & H & _). split; [exact H|exact Hr].
Defined.
