(* ===== verification/LicenseProps.v ===== *)
(** * LicenseProps: licenses are created, found by key and rotated correctly

    Theorems about [LicenseService] on any store that keeps the contract. *)

From S2P Require Import Prelude Errors JsNum Json Types Id Cursor Storage Pages Memory MemoryLaws LicenseKeyFormat Lifecycle LifecycleProps LicenseService UsageService UsageProps.

Section Creation.
Context {W : Type} {HC : HasClock W} {HE : HasEntropy W} {CM : CaseMap} {ST : Storage W}
  {SL : StorageLaws W} {EL : EntropyLaws W}.

Lemma generateLicenseKey_run w :
  exists key w', generateLicenseKey w = (Ok key, w') /\ LICENSE_KEY_REGEX key = true
    /\ tables w' = tables w /\ tx_depth w' = tx_depth w.
Proof.
  destruct (randomFill_law 20 w) as (bytes & w' & Hr & Hl & Hb & Ht & Hd).
  exists (license_key_of_bytes bytes), w'. unfold generateLicenseKey, bind. rewrite Hr.
  split_and!; [done|by apply license_key_of_bytes_pattern|done..].
Qed.

Lemma keeps_generateLicenseKey : keeps generateLicenseKey.
Proof.
  intros w r w' H Hok. destruct (generateLicenseKey_run w) as (k & w1 & E & _ & Ht & Hd).
  rewrite E in H. injection H as <- <-. by rewrite Ht, Hd.
Qed.

(** The committed result of a creation with key [key]. *)
Definition license_created (input : CreateLicenseInput) (key : jsstr) (opts : TransitionOptions)
    (s : State) (l : License) (s' : State) : Prop :=
  l_license_key l = key
  /\ l_status l = (match cl_status input with Some st => st | None => pending end)
  /\ l_max_usages l = cl_max_usages input
  /\ l_scope_id l = cl_scope_id input /\ l_template_id l = cl_template_id input
  /\ l_licensable_type l = cl_licensable_type input /\ l_licensable_id l = cl_licensable_id input
  /\ l_activated_at l = cl_activated_at input /\ l_expires_at l = cl_expires_at input
  /\ l_grace_until l = cl_grace_until input
  /\ exists aid now, s' = set_audit (map_set (s_audit s) aid (audit_row aid
       (audit_input (Some (l_id l)) (l_scope_id l) opts (js "license.created") None
          (Some (created_state l)) now)))
     (set_licenses (map_set (s_licenses s) (l_id l) l) s).

Lemma create_body_run input key opts w r w' :
  create_body input key opts w = (r, w') ->
  match r with Throw _ => True | Ok l => license_created input key opts (tables w) l (tables w') end.
Proof.
  intros H. destruct r as [l|e]; [|done]. unfold create_body in H.
  apply bind_ok_inv in H as (l' & w1 & Hc & H).
  destruct (createLicense_law _ _ _ _ Hc) as [_ (H1 & H2 & H3 & H4 & H5 & H6 & H7 & H8 & H9 & H10 & _ & Ht1)].
  apply bind_ok_inv in H as (now & w2 & Hn & H). pose proof (nowIso_frame w1) as [Ht2 _].
  rewrite Hn in Ht2. simpl in Ht2.
  apply bind_ok_inv in H as ([] & w3 & Ha & H). unfold ret in H. injection H as <- <-.
  unfold writeCreatedAudit in Ha. apply bind_ok_inv in Ha as (row & w4 & Ha & H).
  unfold ret in H. injection H as <-. destruct (appendAudit_law _ _ _ _ Ha) as [_ [Hrow Ht4]].
  unfold license_created. split_and!; try done. exists (a_id row), now.
  rewrite Ht4, Ht2, Ht1. by rewrite Hrow at 2.
Qed.

Lemma keeps_create_body input key opts : keeps (create_body input key opts).
Proof. unfold create_body, writeCreatedAudit. keeps_steps. Qed.

(** The key a creation uses. *)
Lemma create_license_run input opts w r w' :
  tx_depth w = 0 -> create_license input opts w = (r, w') ->
  match cl_license_key input with
  | Some typed => normalizeLicenseKey typed = None
  | None => False
  end /\ r = Throw errors.invalidLicenseKey /\ w' = w
  \/ exists key w1, LICENSE_KEY_REGEX key = true
      /\ (forall typed, cl_license_key input = Some typed -> normalizeLicenseKey typed = Some key)
      /\ tables w1 = tables w /\ tx_depth w1 = 0
      /\ withTransaction (create_body input key opts) w1 = (r, w').
Proof.
  intros Hd. unfold create_license, bind. destruct (cl_license_key input) as [typed|].
  - unfold lift, assertLicenseKey. destruct (normalizeLicenseKey typed) as [key|] eqn:En.
    + intros H. right. exists key, w. split_and!; try done; [|by intros ? [= <-]].
      unfold normalizeLicenseKey in En. destruct (LICENSE_KEY_REGEX _) eqn:E; [|done]. by injection En as <-.
    + intros [= <- <-]. by left.
  - destruct (generateLicenseKey_run w) as (key & w1 & -> & Hk & Ht & Hd1). intros H. right.
    exists key, w1. split_and!; try done. lia.
Qed.

Lemma createLicense_ok_state input opts w r w' :
  state_ok (tables w) -> tx_depth w = 0 -> create_license input opts w = (r, w') ->
  state_ok (tables w') /\ tx_depth w' = 0.
Proof.
  intros Hok Hd H. destruct (create_license_run _ _ _ _ _ Hd H) as [(_ & _ & ->)|(key & w1 & _ & _ & Ht & Hd1 & Htx)];
    [done|]. eapply (keeps_tx _ _ _ _ (keeps_create_body input key opts) Hd1 Htx). by rewrite Ht.
Qed.

(** Looking a stored license up by its key. *)
Lemma license_stored s l :
  state_ok s -> map_get (s_licenses s) (l_id l) = Some l ->
  List.find (fun x => str_eqb (l_license_key x) (l_license_key l)) (rows (s_licenses s)) = Some l.
Proof.
  intros Hok Hl. destruct (List.find _ _) as [l'|] eqn:E.
  - apply find_some in E as [Hin Heq]. apply list_elem_of_In in Hin. unfold str_eqb in Heq. bool_prop.
    apply (rows_map_get l_id) in Hin; [|apply Hok].
    assert (l_id l' = l_id l) as Hid by (eapply (ok_license_key _ Hok); [done..| |done]; by rewrite Heq).
    congruence.
  - eapply find_none in E; [|apply list_elem_of_In; by eapply map_get_rows].
    unfold str_eqb in E. by rewrite bool_decide_true in E.
Qed.
End Creation.

(** ** Rotation: revoking while paging *)

Section SortedFilter.
Context {T : Type} (key : T -> CursorTuple).

Lemma StronglySorted_filter (R : T -> T -> Prop) (q : T -> bool) l :
  StronglySorted R l -> StronglySorted R (List.filter q l).
Proof.
  induction 1 as [|x l Hs IH Hx]; [constructor|]. simpl. destruct (q x); [|done]. constructor; [done|].
  rewrite Forall_forall in *. intros y [Hy _]%elem_filter. auto.
Qed.

Lemma filter_Permutation (q : T -> bool) l1 l2 : l1 ≡ₚ l2 -> List.filter q l1 ≡ₚ List.filter q l2.
Proof.
  induction 1 as [|x l1 l2 _ IH|x y l|]; simpl; [done| | |by etransitivity].
  - destruct (q x); [by constructor|done].
  - destruct (q x), (q y); try done. constructor.
Qed.

(** Sorting and dropping rows commute when keys are distinct. *)
Lemma merge_sort_filter (q : T -> bool) l :
  NoDup (key <$> l) ->
  merge_sort (desc_le key) (List.filter q l) = List.filter q (merge_sort (desc_le key) l).
Proof.
  intros Hn. apply (StronglySorted_unique_strong (desc_le key)).
  - intros x1 x2 H1 H2. rewrite merge_sort_Permutation, elem_filter in H1.
    rewrite elem_filter, merge_sort_Permutation in H2. rewrite !desc_le_after. intros Ha Hb.
    assert (Hk : key x1 = key x2) by (by apply isAfter_total).
    destruct H1 as [H1 _], H2 as [H2 _]. revert Hn H1 H2 Hk. clear.
    induction l as [|y l IH]; [by intros _ ?%not_elem_of_nil|]. csimpl.
    intros [Hny Hn]%NoDup_cons H1 H2 Hk. apply elem_of_cons in H1 as [->|H1], H2 as [->|H2]; auto.
    + destruct Hny. rewrite Hk. by apply list_elem_of_fmap_2.
    + destruct Hny. rewrite <- Hk. by apply list_elem_of_fmap_2.
  - apply StronglySorted_merge_sort; apply _.
  - apply StronglySorted_filter, StronglySorted_merge_sort; apply _.
  - rewrite merge_sort_Permutation. apply filter_Permutation. by rewrite merge_sort_Permutation.
Qed.
End SortedFilter.

(** Revoking one seat takes it out of the listing and moves nothing else. *)
Lemma listing_after_revoke s s' id uid u u' :
  state_ok s -> map_get (s_usages s) uid = Some u -> u_status u' = u_revoked ->
  s_usages s' = map_set (s_usages s) uid u' ->
  usage_listing (active_of id) s'
  = List.filter (fun x => negb (str_eqb (u_id x) uid)) (usage_listing (active_of id) s).
Proof.
  intros Hok Hu Hr Hs. unfold usage_listing. rewrite <- (merge_sort_filter usage_key_of).
  2:{ apply NoDup_filter_fmap. apply (NoDup_fmap_1 cu_id). rewrite <- list_fmap_compose.
      apply (rows_NoDup u_id), Hok. }
  f_equal. rewrite Hs. pose proof (ok_usages _ Hok) as [Hnd Hk].
  destruct (map_set_split _ _ u' _ Hnd Hu) as (m1 & m2 & Hm & Hm' & Hn1 & Hn2). rewrite Hm'.
  rewrite Hm in Hk |- *. apply Forall_app in Hk as [Hk1 [Hku Hk2]%Forall_cons]. simpl in Hku.
  assert (Hkeep : forall m, Forall (fun p => u_id p.2 = p.1) m -> uid ∉ m.*1 ->
    List.filter (fun x => negb (str_eqb (u_id x) uid)) (List.filter (usage_matches (active_of id)) (rows m))
    = List.filter (usage_matches (active_of id)) (rows m)).
  { intros m Hm0 Hn. induction Hm0 as [|[k x] m Hx _ IH]; [done|]. unfold rows in *. csimpl in *.
    apply not_elem_of_cons in Hn as [Hne Hn]. destruct (usage_matches _ x); [|auto]. simpl.
    unfold str_eqb at 1. rewrite bool_decide_false by congruence. simpl. f_equal. auto. }
  unfold rows. rewrite !fmap_app, !fmap_cons, !List.filter_app. cbn [snd List.filter].
  fold (rows m1) (rows m2). rewrite (Hkeep m1 Hk1 Hn1). f_equal.
  rewrite !usage_matches_active. unfold is_active_seat at 1. rewrite Hr. cbn [bool_decide].
  rewrite (bool_decide_false (u_revoked = u_active)), andb_false_r by done.
  rewrite <- (Hkeep m2 Hk2 Hn2) at 1. destruct (is_active_seat id u); [|done]. cbn [List.filter].
  unfold str_eqb at 2. by rewrite (bool_decide_true (u_id u = uid)).
Qed.

(** [ids] are revoked, every other row and every other table is as it was. *)
Definition seats_revoked (ids : list UUIDv7) (s s' : State) : Prop :=
  s' = set_usages (s_usages s') s
  /\ forall k u, map_get (s_usages s) k = Some u ->
       exists u', map_get (s_usages s') k = Some u'
         /\ (k ∈ ids -> u_status u' = u_revoked) /\ (k ∉ ids -> u' = u)
         /\ (u_status u = u_revoked -> u_status u' = u_revoked).

Lemma seats_revoked_refl s : seats_revoked [] s s.
Proof.
  split; [by destruct s|]. intros k u Hu. exists u. split_and!; try done. by intros ?%not_elem_of_nil.
Qed.

Lemma seats_revoked_trans ids1 ids2 s1 s2 s3 :
  seats_revoked ids1 s1 s2 -> seats_revoked ids2 s2 s3 -> seats_revoked (ids1 ++ ids2) s1 s3.
Proof.
  intros [H1 R1] [H2 R2]. split; [rewrite H2, H1; done|]. intros k u Hu.
  destruct (R1 k u Hu) as (u1 & Hu1 & Hin1 & Hout1 & Hk1).
  destruct (R2 k u1 Hu1) as (u2 & Hu2 & Hin2 & Hout2 & Hk2). exists u2. split; [done|].
  split_and!; [|intros Hn; apply not_elem_of_app in Hn as [Hn1 Hn2]; rewrite Hout2 by done; auto|auto].
  intros [Hi|Hi]%elem_of_app; auto.
Qed.

Section Rotation.
Context {W : Type} {HC : HasClock W} {HE : HasEntropy W} {CM : CaseMap} {ST : Storage W}
  {SL : StorageLaws W} {EL : EntropyLaws W}.

Lemma revoke_all_run now items : forall acc w ids w',
  state_ok (tables w) -> Forall (fun u => map_get (s_usages (tables w)) (u_id u) = Some u) items ->
  NoDup (u_id <$> items) -> revoke_all now acc items w = (Ok ids, w') ->
  ids = acc ++ (u_id <$> items) /\ state_ok (tables w') /\ tx_depth w' = tx_depth w
  /\ seats_revoked (u_id <$> items) (tables w) (tables w')
  /\ forall id, usage_listing (active_of id) (tables w')
       = List.filter (fun x => bool_decide (u_id x ∉ u_id <$> items)) (usage_listing (active_of id) (tables w)).
Proof.
  induction items as [|u items IH]; intros acc w ids w' Hok Hin Hnd H; cbn [revoke_all] in H.
  - unfold ret in H. injection H as <- <-. split_and!; [by rewrite app_nil_r|done|done|apply seats_revoked_refl|].
    intros id. symmetry. apply filter_keep. intros x _. apply bool_decide_eq_true, not_elem_of_nil.
  - apply Forall_cons in Hin as [Hu Hin]. csimpl in Hnd. apply NoDup_cons in Hnd as [Hnu Hnd].
    apply bind_ok_inv in H as (u1 & w1 & Hup & H).
    destruct (keeps_updateUsage _ _ _ _ _ Hup Hok) as [Hok1 Hd1].
    destruct (updateUsage_law _ _ u _ _ _ Hu Hup) as [_ [(stamp & Hu1) Ht1]].
    assert (Hrev1 : u_status u1 = u_revoked) by (by rewrite Hu1).
    apply IH in H as (-> & Hok' & Hd' & Hsr & Hls); [|done| |done].
    2:{ rewrite Forall_forall in *. intros x Hx. rewrite Ht1. cbn [s_usages set_usages].
        rewrite map_get_set, decide_False; [auto|]. intros He. apply Hnu. rewrite He.
        by apply list_elem_of_fmap_2. }
    split_and!; [by rewrite <- app_assoc|done|congruence| |].
    + change (u_id <$> u :: items) with ([u_id u] ++ (u_id <$> items)).
      eapply seats_revoked_trans; [|exact Hsr]. split; [by rewrite Ht1|]. intros k x Hx.
      rewrite Ht1. cbn [s_usages set_usages]. rewrite map_get_set. case_decide as Hk.
      * exists u1. split_and!; try done. intros Hn. destruct Hn. by apply list_elem_of_singleton.
      * exists x. split_and!; try done. intros He%list_elem_of_singleton. by subst.
    + intros id. rewrite Hls.
      rewrite (listing_after_revoke (tables w) (tables w1) id (u_id u) u u1) by (done || by rewrite Ht1).
      induction (usage_listing (active_of id) (tables w)) as [|x l IHl]; [done|]. cbn [List.filter].
      unfold str_eqb at 1. destruct (decide (u_id x = u_id u)) as [He|Hne].
      * rewrite (bool_decide_true _ He). cbn [negb].
        rewrite (bool_decide_false (u_id x ∉ _)); [exact IHl|]. intros Hn. apply Hn. rewrite He. left.
      * rewrite (bool_decide_false _ Hne). cbn [negb List.filter].
        rewrite (bool_decide_ext (u_id x ∉ u_id <$> u :: items) (u_id x ∉ u_id <$> items)).
        { destruct (bool_decide _); [by f_equal|exact IHl]. }
        csimpl. rewrite not_elem_of_cons. intuition.
Qed.

(** The loop of the rotation. *)
Definition rotation_loop (now : Instant) (id : UUIDv7) :=
  walkPages (fun c => listUsages (W := W) (active_of id) (mkPageRequest 500 c))
    (fun acc items => let* acc := revoke_all now acc items in ret (Continue acc)) (fun acc => acc).

(** What is left behind [after], when the listing is [rest]. *)
Definition behind (after : option LicenseUsage) (rest : list LicenseUsage) : Prop :=
  match after with
  | None => True
  | Some r => ascii_cursor (usage_key_of r) = true
      /\ Forall (fun x => isAfter (usage_key_of x) (usage_key_of r) = true) rest
  end.

Lemma behind_rest after rest : behind after rest -> rest_after usage_key_of rest after = rest.
Proof.
  destruct after as [r|]; [|done]. intros [_ Hf]. simpl. induction Hf as [|x l Hx _ IH]; [done|].
  simpl. rewrite Hx. by f_equal.
Qed.

(** The page after which the loop goes on, and what it leaves. *)
Lemma behind_next s id rest r :
  state_ok s -> usage_listing (active_of id) s = rest -> last (take 500 rest) = Some r ->
  behind (Some r) (drop 500 rest).
Proof.
  intros Hok Hl Hr. apply last_Some in Hr as [l1 Hr]. unfold behind. split.
  - eapply (usage_listing_ascii (active_of id) s); [done|]. rewrite Hl, <- (take_drop 500 rest), Hr.
    apply elem_of_app. left. apply elem_of_app. right. left.
  - pose proof (StronglySorted_merge_sort (desc_le usage_key_of)
      (List.filter (usage_matches (active_of id)) (rows (s_usages s)))) as Hs.
    pose proof (usage_listing_keys (active_of id) s Hok) as Hn.
    fold (usage_listing (active_of id) s) in Hs. rewrite Hl in Hs, Hn.
    rewrite <- (take_drop 500 rest), Hr, <- app_assoc in Hs, Hn.
    pose proof (rest_after_app usage_key_of l1 (drop 500 rest) r Hs Hn) as Hf.
    rewrite <- Hf. apply Forall_forall. intros x [_ Hx]%elem_filter. done.
Qed.

(** Dropping a page's rows from the listing leaves the rest of it. *)
Lemma filter_page (rest : list LicenseUsage) n :
  NoDup (u_id <$> rest) ->
  List.filter (fun x => bool_decide (u_id x ∉ u_id <$> take n rest)) rest = drop n rest.
Proof.
  intros Hn.
  assert (Hsplit : forall q : LicenseUsage -> bool,
    List.filter q rest = List.filter q (take n rest) ++ List.filter q (drop n rest))
    by (intros q; by rewrite <- List.filter_app, take_drop).
  rewrite Hsplit.
  rewrite <- (take_drop n rest), fmap_app, NoDup_app in Hn. destruct Hn as (_ & Hd & _).
  rewrite filter_drop, filter_keep; [done| |].
  - intros x Hx. apply bool_decide_eq_true. intros Hin. apply (Hd _ Hin). by apply list_elem_of_fmap_2.
  - intros x Hx. apply bool_decide_eq_false. intros Hn. apply Hn. by apply list_elem_of_fmap_2.
Qed.

Lemma listing_rows s f u : state_ok s -> u ∈ usage_listing f s -> map_get (s_usages s) (u_id u) = Some u.
Proof. intros Hok [Hu _]%elem_usage_listing. apply rows_map_get; [apply Hok|done]. Qed.

Lemma listing_ids s f : state_ok s -> NoDup (u_id <$> usage_listing f s).
Proof.
  intros Hok. unfold usage_listing. rewrite merge_sort_Permutation. apply NoDup_filter_fmap.
  apply (rows_NoDup u_id), Hok.
Qed.

(** One page of the loop. *)
Lemma rotation_page now id s rest acc w ids w' :
  state_ok (tables w) -> usage_listing (active_of id) (tables w) = rest -> s = tables w ->
  revoke_all now acc (take 500 rest) w = (Ok ids, w') ->
  ids = acc ++ (u_id <$> take 500 rest) /\ state_ok (tables w') /\ tx_depth w' = tx_depth w
  /\ seats_revoked (u_id <$> take 500 rest) s (tables w')
  /\ usage_listing (active_of id) (tables w') = drop 500 rest.
Proof.
  intros Hok Hl -> H. pose proof (listing_ids _ (active_of id) Hok) as Hnd. rewrite Hl in Hnd.
  apply revoke_all_run in H as (-> & Hok' & Hd & Hsr & Hls); [| done| |].
  - split_and!; [done..|]. rewrite Hls, Hl. by apply filter_page.
  - apply Forall_forall. intros u Hu. eapply (listing_rows _ (active_of id)); [done|].
    rewrite Hl, <- (take_drop 500 rest). apply elem_of_app. by left.
  - rewrite <- (take_drop 500 rest), fmap_app in Hnd. by apply NoDup_app in Hnd as [? _].
Qed.

Lemma rotation_loop_step now id fuel after rest acc w :
  state_ok (tables w) -> usage_listing (active_of id) (tables w) = rest -> behind after rest ->
  rotation_loop now id (S fuel) acc (usage_cursor <$> after) w
  = match revoke_all now acc (take 500 rest) w with
    | (Throw e, w') => (Throw e, w')
    | (Ok ids, w') =>
        if (500 <? List.length rest)%nat
        then rotation_loop now id fuel ids (usage_cursor <$> last (take 500 rest)) w'
        else (Ok ids, w')
    end.
Proof.
  intros Hok Hl Hb. unfold rotation_loop at 1. cbn [walkPages]. unfold bind at 1.
  assert (Ha : match after with Some r => ascii_cursor (usage_key_of r) = true | None => True end)
    by (destruct after; [by destruct Hb|done]).
  pose proof (listUsages_law (active_of id) 500 after w Hok ltac:(lia) Ha) as Hpage.
  change (Z.of_nat 500) with 500 in Hpage. rewrite Hpage. clear Hpage. cbv beta iota.
  rewrite Hl, behind_rest by done. unfold keyset_page. cbn [pg_items pg_cursor]. unfold bind at 1, bind at 1.
  destruct (revoke_all now acc (take 500 rest) w) as [[ids|e] w']; [|done].
  unfold ret at 1. cbv beta iota. destruct (500 <? List.length rest)%nat eqn:E; [|reflexivity].
  destruct (last (take 500 rest)) as [r|] eqn:Er; [reflexivity|].
  apply last_None in Er. apply Nat.ltb_lt in E. apply (f_equal List.length) in Er.
  rewrite length_take in Er. simpl List.length in Er. lia.
Qed.

Lemma rotation_loop_run now id fuel : forall after rest acc w ids w',
  state_ok (tables w) -> usage_listing (active_of id) (tables w) = rest -> behind after rest ->
  rotation_loop now id fuel acc (usage_cursor <$> after) w = (Ok ids, w') ->
  ids = acc ++ (u_id <$> rest) /\ state_ok (tables w') /\ tx_depth w' = tx_depth w
  /\ seats_revoked (u_id <$> rest) (tables w) (tables w')
  /\ usage_listing (active_of id) (tables w') = [].
Proof.
  induction fuel as [|fuel IH]; intros after rest acc w ids w' Hok Hl Hb H; [done|].
  rewrite (rotation_loop_step _ _ _ _ rest) in H by done.
  destruct (revoke_all now acc (take 500 rest) w) as [[ids1|e] w1] eqn:Hr; [|done].
  destruct (rotation_page _ _ (tables w) _ _ _ _ _ Hok Hl eq_refl Hr) as (-> & Hok1 & Hd1 & Hsr1 & Hl1).
  destruct (500 <? List.length rest)%nat eqn:E.
  - assert (Hb1 : behind (last (take 500 rest)) (drop 500 rest)).
    { destruct (last (take 500 rest)) as [r|] eqn:Er; [|done]. by eapply (behind_next (tables w) id). }
    apply (IH _ _ _ _ _ _ Hok1 Hl1 Hb1) in H as (-> & Hok' & Hd' & Hsr' & Hl').
    split_and!; [|done|congruence| |done].
    + rewrite <- app_assoc, <- fmap_app, take_drop. done.
    + rewrite <- (take_drop 500 rest) at 1. rewrite fmap_app. by eapply seats_revoked_trans.
  - apply Nat.ltb_ge in E. injection H as <- <-. rewrite take_ge in * by done. rewrite drop_ge in Hl1 by done.
    split_and!; done.
Qed.

(** With more fuel than seats the loop does what the unbounded loop does:
    the fuel makes no difference. *)
Lemma rotation_loop_fuel now id f1 : forall f2 after rest acc w,
  state_ok (tables w) -> usage_listing (active_of id) (tables w) = rest -> behind after rest ->
  (List.length rest < f1)%nat -> (List.length rest < f2)%nat ->
  rotation_loop now id f1 acc (usage_cursor <$> after) w
  = rotation_loop now id f2 acc (usage_cursor <$> after) w.
Proof.
  induction f1 as [|f1 IH]; intros f2 after rest acc w Hok Hl Hb H1 H2; [lia|].
  destruct f2 as [|f2]; [lia|]. rewrite !(rotation_loop_step _ _ _ _ rest) by done.
  destruct (revoke_all now acc (take 500 rest) w) as [[ids1|e] w1] eqn:Hr; [|done].
  destruct (rotation_page _ _ (tables w) _ _ _ _ _ Hok Hl eq_refl Hr) as (-> & Hok1 & Hd1 & Hsr1 & Hl1).
  destruct (500 <? List.length rest)%nat eqn:E; [|done]. apply Nat.ltb_lt in E.
  eapply (IH f2 _ (drop 500 rest)); [done..| |rewrite length_drop; lia|rewrite length_drop; lia].
  destruct (last (take 500 rest)) as [r|] eqn:Er; [|done]. by eapply (behind_next (tables w) id).
Qed.
End Rotation.

Section LicenseProperties.
Context {W : Type} {HC : HasClock W} {HE : HasEntropy W} {CM : CaseMap} {ST : Storage W}
  {SL : StorageLaws W} {EL : EntropyLaws W}.

Definition key_patch (key : jsstr) : LicensePatch :=
  mkLicensePatch None None None None None None None None (Some key).

(** What a committed rotation of license [l] leaves. *)
Definition key_rotated (l : License) (opts : TransitionOptions) (s : State)
    (res : RotateLicenseKeyResult) (s' : State) : Prop :=
  let seats := u_id <$> usage_listing (active_of (l_id l)) s in
  LICENSE_KEY_REGEX (l_license_key (rot_license res)) = true
  /\ (exists key stamp, rot_license res = patch_license l (key_patch key) stamp)
  /\ rot_revokedUsageIds res = seats
  /\ active_count s' (l_id l) = 0
  /\ (forall k u, map_get (s_usages s) k = Some u ->
        exists u', map_get (s_usages s') k = Some u'
          /\ (k ∈ seats -> u_status u' = u_revoked) /\ (k ∉ seats -> u' = u))
  /\ exists aid now, s' =
       set_audit (map_set (s_audit s) aid
         (audit_row aid (rotation_audit l (Z.of_nat (List.length seats)) now opts)))
       (set_usages (s_usages s')
         (set_licenses (map_set (s_licenses s) (l_id l) (rot_license res)) s)).

Lemma rotate_body_run fuel id opts w r w' :
  state_ok (tables w) -> rotate_body fuel id opts w = (r, w') ->
  match map_get (s_licenses (tables w)) id with
  | None => r = Throw (errors.licenseNotFound id)
  | Some l =>
      if bool_decide (l_status l = revoked) then r = Throw errors.licenseRevoked
      else match r with Throw _ => True | Ok res => key_rotated l opts (tables w) res (tables w') end
  end.
Proof.
  intros Hok. unfold rotate_body, bind at 1. rewrite getLicense_law.
  destruct (map_get _ _) as [l|] eqn:El; [|by intros [= <- <-]].
  destruct (bool_decide (l_status l = revoked)); [by intros [= <- <-]|].
  destruct r as [res|e]; [|done]. intros H.
  assert (Hid : l_id l = id) by (eapply keyed_get; [apply Hok|done]).
  apply bind_ok_inv in H as (key & w1 & Hk & H).
  destruct (generateLicenseKey_run w) as (key' & w1' & Hk' & Hre & Ht1 & _).
  rewrite Hk' in Hk. injection Hk as <- <-.
  apply bind_ok_inv in H as (upd & w2 & Hu & H).
  assert (Hst : map_get (s_licenses (tables w1')) (l_id l) = Some l) by (by rewrite Ht1, Hid).
  destruct (updateLicense_law _ _ l _ _ _ Hst Hu) as [_ (stamp & Hupd & Ht2)].
  assert (Hok2 : state_ok (tables w2)).
  { eapply (keeps_updateLicense _ _ _ _ _ Hu). by rewrite Ht1. }
  apply bind_ok_inv in H as (now & w3 & Hn & H). pose proof (nowIso_frame w2) as [Ht3 _].
  rewrite Hn in Ht3. simpl in Ht3. rewrite <- Ht3 in Hok2.
  apply bind_ok_inv in H as (ids & w4 & Hloop & H).
  set (seats := usage_listing (active_of (l_id l)) (tables w)).
  assert (Hl3 : usage_listing (active_of (l_id l)) (tables w3) = seats) by (by rewrite Ht3, Ht2, Ht1).
  apply (rotation_loop_run now (l_id l) fuel None seats [] w3 ids w4 Hok2 Hl3 I)
    in Hloop as (-> & Hok4 & _ & [Hset Hrows] & Hempty).
  apply bind_ok_inv in H as (row & w5 & Ha & H). unfold ret in H. injection H as <- <-.
  destruct (appendAudit_law _ _ _ _ Ha) as [_ [Hrow Ht5]]. cbn [app] in *.
  unfold key_rotated. cbn [rot_license rot_revokedUsageIds]. fold seats. split_and!.
  - by rewrite Hupd.
  - exists key', stamp. done.
  - done.
  - rewrite <- listing_active_length, Ht5. change (usage_listing (active_of (l_id l))
      (set_audit (map_set (s_audit (tables w4)) (a_id row) row) (tables w4)))
      with (usage_listing (active_of (l_id l)) (tables w4)). by rewrite Hempty.
  - intros k u Hu'. rewrite Ht5. destruct (Hrows k u) as (u' & ? & ? & ? & _); [by rewrite Ht3, Ht2, Ht1|eauto].
  - exists (a_id row), now. rewrite Ht5, Hset, Ht3, Ht2, Ht1. cbn. rewrite Hrow at 2.
    by rewrite length_fmap.
Qed.

Lemma create_tx_run input key opts w r w' :
  tx_depth w = 0 -> withTransaction (create_body input key opts) w = (r, w') ->
  match r with
  | Throw _ => tables w' = tables w
  | Ok l => license_created input key opts (tables w) l (tables w')
  end.
Proof.
  intros Hd H. destruct (tx_run _ _ _ _ Hd H) as (w0 & w1 & Ht0 & _ & _ & Hr & _ & Ht').
  apply create_body_run in Hr. rewrite Ht0 in Hr. rewrite Ht'. by destruct r.
Qed.

(** ** Properties *)


(** A created license is found by its key however the key is typed: any
    letter case, white space around it. *)
Theorem create_then_find input opts w l w' body pre post :
  state_ok (tables w) -> tx_depth w = 0 -> create_license input opts w = (Ok l, w') ->
  Forall2 case_of body (l_license_key l) ->
  forallb is_trim_space pre = true -> forallb is_trim_space post = true ->
  findLicenseByKey (pre ++ body ++ post) w' = (Ok (Some l), w').
Proof.
  intros Hok Hd H Hb Hpre Hpost. destruct (createLicense_ok_state _ _ _ _ _ Hok Hd H) as [Hok' _].
  destruct (create_license_run _ _ _ _ _ Hd H) as [(_ & ? & _)|(key & w1 & Hk & _ & Htab & Hd1 & Htx)]; [done|].
  apply create_tx_run in Htx; [|done]. destruct Htx as (Hkey & _ & _ & _ & _ & _ & _ & _ & _ & _ & aid & now & Ht).
  rewrite <- Hkey in Hk. unfold findLicenseByKey. rewrite (normalize_typed _ _ _ _ Hk Hb Hpre Hpost).
  rewrite getLicenseByKey_law, (license_stored _ l Hok'); [done|].
  rewrite Ht. cbn [s_licenses set_audit set_licenses]. apply map_get_set_eq.
Qed.


(** The rotation's loop over pages terminates: given more fuel than
    there are active seats, the fuel makes no difference, so the bounded loop
    returns what the unbounded one returns. *)
Theorem rotation_loop_terminates now id f1 f2 w :
  state_ok (tables w) ->
  (List.length (usage_listing (active_of id) (tables w)) < f1)%nat ->
  (List.length (usage_listing (active_of id) (tables w)) < f2)%nat ->
  rotation_loop now id f1 [] None w = rotation_loop now id f2 [] None w.
Proof.
  intros Hok H1 H2.
  by apply (rotation_loop_fuel now id f1 f2 None (usage_listing (active_of id) (tables w)) [] w).
Qed.
End LicenseProperties.

(** ** On the memory adapter *)

Definition sample_create : CreateLicenseInput :=
  mkCreateLicense None None (js "Team") (js "7") (Some (js " lic-0w3g-e1r7-0w3g-e1r7-0w3g ")) None 3
    None None None None.


Lemma create_then_find_witness :
  exists l w', @findLicenseByKey World no_case_map MemoryStorage (js "Lic-0w3g-E1R7-0w3g-E1R7-0W3G") w' = (Ok (Some l), w')
    /\ l_licensable_type l = js "Team".
Proof.
  destruct (@create_license World world_clock world_entropy no_case_map MemoryStorage
    sample_create no_options (sample_world active)) as [r w'] eqn:E.
  assert (Hr : match r with
    | Ok l => l_license_key l = js "LIC-0W3G-E1R7-0W3G-E1R7-0W3G" /\ l_licensable_type l = js "Team"
    | Throw _ => False end) by (vm_compute in E; injection E as <- _; split; reflexivity).
  destruct r as [l|e]; [|destruct Hr]. destruct Hr as [Hr1 Hr2]. exists l, w'. split; [|exact Hr2].
  pose proof (@create_then_find World world_clock world_entropy no_case_map MemoryStorage memory_laws memory_entropy
    sample_create no_options (sample_world active) l w' (js "Lic-0w3g-E1R7-0w3g-E1R7-0W3G") [] []
    (sample_ok active) eq_refl E) as H.
  cbn [app] in H. apply H; [rewrite Hr1; unfold case_of; repeat constructor|reflexivity|reflexivity].
Defined.


Lemma rotation_loop_terminates_witness :
  rotation_loop sample_iso (js "l1") 2 [] None registered_world
  = rotation_loop sample_iso (js "l1") 100 [] None registered_world.
Proof.
  apply (rotation_loop_terminates sample_iso (js "l1") 2 100 registered_world registered_ok);
    vm_compute; lia.
Defined.
