(* ===== verification/Der.v ===== *)
(** * Der: the minimal DER encoder and parser

    The first half of [src/typescript/src/encrypted-pkcs8.ts]: tag, length,
    value triples as [wrapEncryptedPkcs8] writes them, and the parser that
    [unwrapEncryptedPkcs8] walks them with. Lengths use the 32-bit operators
    of the source. *)

From S2P Require Import Prelude Errors JsNum TokenCodec.

Module der.
Definition SEQUENCE : Z := 0x30.
Definition OCTET_STRING : Z := 0x04.
Definition OBJECT_IDENTIFIER : Z := 0x06.
Definition INTEGER : Z := 0x02.
Definition NULL : Z := 0x05.

(** ** Encoder *)

Definition encodeLen (n : Z) : list Z :=
  if n <? 0x80 then [n]
  else if n <? 0x100 then [0x81; n]
  else if n <? 0x10000 then [0x82; js_shr n 8; js_and n 0xff]
  else if n <? 0x1000000 then [0x83; js_shr n 16; js_and (js_shr n 8) 0xff; js_and n 0xff]
  else [0x84; js_and (js_ushr n 24) 0xff; js_and (js_shr n 16) 0xff; js_and (js_shr n 8) 0xff;
        js_and n 0xff].

Definition tlv (tag : Z) (content : list Z) : list Z :=
  tag :: encodeLen (Z.of_nat (List.length content)) ++ content.

(** [do { unshift(v & 0x7f); v >>>= 7 } while (v > 0)]: after one shift [v]
    is below [2 ^ 25], so five rounds are enough. *)
Fixpoint base128_loop (fuel : nat) (v : Z) (acc : list Z) : list Z :=
  match fuel with
  | O => acc
  | S f =>
      let acc := js_and v 0x7f :: acc in
      let v := js_ushr v 7 in
      if 0 <? v then base128_loop f v acc else acc
  end.

(** The continuation bit on every group but the last. *)
Fixpoint continue_bits (l : list Z) : list Z :=
  match l with
  | [] => []
  | [b] => [b]
  | b :: l' => js_or b 0x80 :: continue_bits l'
  end.

Definition base128 (n : Z) : list Z := continue_bits (base128_loop 6 n []).

(** [Number.parseInt(s, 10)] on the digits a string starts with; the module
    only calls it on the components of its own constants. *)
Fixpoint leading_digits (s : jsstr) : jsstr :=
  match s with
  | c :: s' => if isDigit c then c :: leading_digits s' else []
  | [] => []
  end.

Definition parseInt10 (s : jsstr) : option Z :=
  match leading_digits s with [] => None | ds => Some (dec_val ds) end.

Definition oidBody (dotted : jsstr) : res (list Z) :=
  match mapM parseInt10 (split_on 46 dotted) with
  | Some (first :: second :: rest) => Ok (first * 40 + second :: concat (map base128 rest))
  | _ => Throw PlainError
  end.

Definition oid (dotted : jsstr) : res (list Z) :=
  let? body := oidBody dotted in Ok (tlv OBJECT_IDENTIFIER body).

(** [while (v > 0) { unshift(v & 0xff); v >>>= 8 }], four rounds for 31 bits. *)
Fixpoint base256_loop (fuel : nat) (v : Z) (acc : list Z) : list Z :=
  match fuel with
  | O => acc
  | S f => if 0 <? v then base256_loop f (js_ushr v 8) (js_and v 0xff :: acc) else acc
  end.

Definition integer_bytes (n : Z) : list Z :=
  if n =? 0 then [0]
  else
    let bytes := base256_loop 4 n [] in
    if js_and (nth 0 bytes 0) 0x80 =? 0 then bytes else 0 :: bytes.

Definition der_integer (n : Z) : res (list Z) :=
  if (n <? 0) || (2 ^ 31 <=? n) then Throw PlainError else Ok (tlv INTEGER (integer_bytes n)).

Definition der_octets (b : list Z) : list Z := tlv OCTET_STRING b.
Definition der_sequence (children : list (list Z)) : list Z := tlv SEQUENCE (concat children).
Definition der_null : list Z := tlv NULL [].

(** ** Parser *)

(** [buf[i]], [undefined] out of range. *)
Definition byte_at (buf : list Z) (i : Z) : option Z :=
  if i <? 0 then None else nth_error buf (Z.to_nat i).

(** [buf.slice(s, e)]: negative ends count from the back. *)
Definition u8_slice (buf : list Z) (s e : Z) : list Z :=
  let n := Z.of_nat (List.length buf) in
  let at_ := fun i => if i <? 0 then Z.max 0 (n + i) else Z.min i n in
  take (Z.to_nat (at_ e - at_ s)) (drop (Z.to_nat (at_ s)) buf).

Record ParsedTlv : Type := mkTlv {
  p_tag : option Z;
  p_content : list Z;
  p_total : Z
}.

(** The bytes of a long length, folded with [(len << 8) | byte]. *)
Fixpoint long_length (n : nat) (buf : list Z) (lp len : Z) : res (Z * Z) :=
  match n with
  | O => Ok (lp, len)
  | S n' =>
      match byte_at buf lp with
      | None => Throw errors.tokenMalformed
      | Some b => long_length n' buf (lp + 1) (js_or (js_shl len 8) b)
      end
  end.

(** [parseTlv]. At a negative offset, which only a negative length before it
    can give, the tag reads as [undefined]: every caller then refuses it, so
    the other fields do not matter. *)
Definition parseTlv (buf : list Z) (offset : Z) : res ParsedTlv :=
  if offset <? 0 then Ok (mkTlv None [] 0)
  else
    match byte_at buf offset with
    | None => Throw errors.tokenMalformed
    | Some tag =>
        match byte_at buf (offset + 1) with
        | None => Throw errors.tokenMalformed
        | Some first =>
            let lp := offset + 2 in
            let? (lp, len) :=
              if js_and first 0x80 =? 0 then Ok (lp, first)
              else
                let n := js_and first 0x7f in
                if (n =? 0) || (4 <? n) then Throw errors.tokenMalformed
                else long_length (Z.to_nat n) buf lp 0 in
            if Z.of_nat (List.length buf) <? lp + len then Throw errors.tokenMalformed
            else Ok (mkTlv (Some tag) (u8_slice buf lp (lp + len)) (lp + len - offset))
        end
    end.

Definition expectTag (t : ParsedTlv) (tag : Z) : res unit :=
  if bool_decide (p_tag t = Some tag) then Ok tt else Throw errors.tokenMalformed.

(** [parseTlv] and [expectTag], which always go together. *)
Definition parse_tag (buf : list Z) (offset tag : Z) : res ParsedTlv :=
  let? t := parseTlv buf offset in
  let? _ := expectTag t tag in
  Ok t.

(** Digits are accumulated in doubles, but a prefix that leaves the safe
    range never comes back to it, so the test at the end decides exactly. *)
Definition bufToUint (b : list Z) : res Z :=
  let v := fold_left (fun v byte => v * 256 + byte) b 0 in
  if v <=? MAX_SAFE then Ok v else Throw errors.tokenMalformed.
End der.

(** ** Facts *)

Lemma js_shr_small a n : 0 <= a < 2 ^ 31 -> 0 <= n < 32 -> js_shr a n = a / 2 ^ n.
Proof.
  intros Ha Hn. unfold js_shr, toInt32. rewrite (Z.mod_small n), (Z.mod_small a), (proj2 (Z.ltb_lt a _)) by lia.
  apply Z.shiftr_div_pow2. lia.
Qed.

Lemma js_ushr_small a n : 0 <= a < 2 ^ 32 -> 0 <= n < 32 -> js_ushr a n = a / 2 ^ n.
Proof.
  intros Ha Hn. unfold js_ushr, toUint32. rewrite (Z.mod_small n), (Z.mod_small a) by lia.
  apply Z.shiftr_div_pow2. lia.
Qed.

Lemma js_and_byte a : js_and a 0xff = a mod 256.
Proof. exact (js_and_ones a 8 ltac:(lia)). Qed.

Lemma js_and_low7 a : js_and a 0x7f = a mod 128.
Proof. exact (js_and_ones a 7 ltac:(lia)). Qed.

(** [(len << 8) | byte] is [len * 256 + byte] as long as it stays below
    [2 ^ 31]. *)
Lemma js_push_byte len b : 0 <= len < 2 ^ 23 -> 0 <= b < 256 -> js_or (js_shl len 8) b = len * 256 + b.
Proof.
  intros Hl Hb. unfold js_shl, js_or, toInt32. change (8 mod 32) with 8.
  rewrite (Z.mod_small len), (Z.mod_small b) by lia.
  rewrite (proj2 (Z.ltb_lt len _)), (proj2 (Z.ltb_lt b _)) by lia.
  rewrite Z.shiftl_mul_pow2 by lia. change (2 ^ 8) with 256.
  rewrite (Z.mod_small (len * 256)), (proj2 (Z.ltb_lt (len * 256) _)) by lia.
  rewrite (Z.mod_small (len * 256)), (proj2 (Z.ltb_lt (len * 256) _)) by lia.
  rewrite Z.add_comm, Z.lor_comm. symmetry. apply Z.add_nocarry_lor.
  apply Z.bits_inj'. intros i Hi. rewrite Z.land_spec, Z.bits_0.
  destruct (Z.lt_ge_cases i 8).
  - change 256 with (2 ^ 8). rewrite Z.mul_pow2_bits_low by lia. apply andb_false_r.
  - rewrite Z.bits_above_log2; [done|lia|].
    destruct (decide (b = 0)) as [->|]; [simpl; lia|]. apply Z.log2_lt_pow2; [lia|].
    apply Z.lt_le_trans with (2 ^ 8); [lia|]. apply Z.pow_le_mono_r; lia.
Qed.

(** The high bit of a byte. *)
Lemma js_high_bit b : 0 <= b < 256 -> (js_and b 0x80 =? 0) = (b <? 128).
Proof.
  intros Hb.
  assert (Hall : forallb (fun b => Bool.eqb (js_and (Z.of_nat b) 0x80 =? 0) (Z.of_nat b <? 128)) (seq 0 256) = true)
    by (vm_compute; reflexivity).
  rewrite forallb_forall in Hall. specialize (Hall (Z.to_nat b)).
  rewrite Z2Nat.id in Hall by lia. apply Bool.eqb_prop, Hall, in_seq. lia.
Qed.

Module der_facts.
Import der.

Lemma byte_at_app pre b post : byte_at (pre ++ b :: post) (Z.of_nat (List.length pre)) = Some b.
Proof.
  unfold byte_at. rewrite (proj2 (Z.ltb_ge _ 0)), Nat2Z.id by lia.
  rewrite nth_error_app2, Nat.sub_diag by lia. done.
Qed.

Lemma u8_slice_mid pre mid post :
  u8_slice (pre ++ mid ++ post) (Z.of_nat (List.length pre))
    (Z.of_nat (List.length pre) + Z.of_nat (List.length mid)) = mid.
Proof.
  unfold u8_slice. rewrite !length_app. cbv zeta beta.
  rewrite !(proj2 (Z.ltb_ge _ 0)) by lia. rewrite !Z.min_l by lia. rewrite Nat2Z.id.
  rewrite drop_app_length. replace (Z.to_nat _) with (List.length mid) by lia. apply take_app_length.
Qed.

(** Reading back the bytes of a long length. *)
Lemma long_length_app bs pre post len :
  Forall is_byte bs -> 0 <= len ->
  fold_left (fun v b => v * 256 + b) bs len < 2 ^ 31 ->
  long_length (List.length bs) (pre ++ bs ++ post) (Z.of_nat (List.length pre)) len
  = Ok (Z.of_nat (List.length pre) + Z.of_nat (List.length bs), fold_left (fun v b => v * 256 + b) bs len).
Proof.
  revert pre len. induction bs as [|b bs IH]; intros pre len Hb Hl Hlt.
  { cbn. by rewrite Z.add_0_r. }
  apply Forall_cons in Hb as [Hb Hbs]. unfold is_byte in Hb. cbn [List.length long_length app].
  rewrite byte_at_app. cbn [fold_left] in Hlt |- *.
  assert (Hmono : forall bs v, Forall is_byte bs -> 0 <= v -> v <= fold_left (fun v b => v * 256 + b) bs v).
  { clear. induction bs as [|b bs IH]; intros v Hb Hv; cbn; [lia|].
    apply Forall_cons in Hb as [Hb Hbs]. unfold is_byte in Hb. specialize (IH (v * 256 + b) Hbs). lia. }
  specialize (Hmono bs (len * 256 + b) Hbs ltac:(lia)).
  rewrite js_push_byte by lia.
  replace (pre ++ b :: bs ++ post) with ((pre ++ [b]) ++ bs ++ post) by by rewrite <- app_assoc.
  replace (Z.of_nat (List.length pre) + 1) with (Z.of_nat (List.length (pre ++ [b])))
    by (rewrite length_app; cbn; lia).
  rewrite IH by (done || lia). rewrite length_app. cbn [List.length]. f_equal. f_equal. lia.
Qed.

Definition len_digits (n : Z) : list Z :=
  if n <? 0x100 then [n]
  else if n <? 0x10000 then [n / 2 ^ 8; n mod 256]
  else if n <? 0x1000000 then [n / 2 ^ 16; n / 2 ^ 8 mod 256; n mod 256]
  else [n / 2 ^ 24; n / 2 ^ 16 mod 256; n / 2 ^ 8 mod 256; n mod 256].

(** A length is one byte, or a count and that many base-256 digits. *)
Lemma encodeLen_spec n :
  0 <= n < 2 ^ 31 ->
  encodeLen n = if n <? 0x80 then [n]
                else (128 + Z.of_nat (List.length (len_digits n))) :: len_digits n.
Proof.
  intros Hn. unfold encodeLen, len_digits.
  destruct (n <? 0x80); [done|]. destruct (n <? 0x100) eqn:E1; [done|].
  rewrite ?js_and_byte, ?js_ushr_small, ?js_shr_small by lia.
  destruct (n <? 0x10000); [done|]. destruct (n <? 0x1000000); [done|]. bool_prop.
  cbn. repeat f_equal. rewrite Z.mod_small; [done|]. zdiv.
Qed.

Lemma len_digits_ok n :
  0x80 <= n < 2 ^ 31 ->
  Forall is_byte (len_digits n) /\ fold_left (fun v b => v * 256 + b) (len_digits n) 0 = n
  /\ 1 <= Z.of_nat (List.length (len_digits n)) <= 4.
Proof.
  intros Hn. unfold len_digits, is_byte. change (2 ^ 8) with 256. change (2 ^ 16) with 65536.
  change (2 ^ 24) with 16777216.
  repeat case_goal; bool_prop; cbn [fold_left List.length]; (split; [|split; [zdiv|lia]]);
    repeat (apply Forall_cons; split; [zdiv|]); by apply Forall_nil.
Qed.

Definition tlv_length (content : list Z) : Z :=
  1 + Z.of_nat (List.length (encodeLen (Z.of_nat (List.length content)))) + Z.of_nat (List.length content).

(** Parsing where a triple was written reads it back, whatever surrounds
    it. *)
Lemma parse_tlv pre tag content post :
  Z.of_nat (List.length content) < 2 ^ 31 ->
  parseTlv (pre ++ tlv tag content ++ post) (Z.of_nat (List.length pre))
  = Ok (mkTlv (Some tag) content (tlv_length content)).
Proof.
  intros Hc. unfold parseTlv. rewrite (proj2 (Z.ltb_ge _ 0)) by lia. unfold tlv. cbn [app].
  rewrite byte_at_app. set (n := Z.of_nat (List.length content)) in *.
  replace (pre ++ tag :: (encodeLen n ++ content) ++ post)
    with ((pre ++ [tag]) ++ encodeLen n ++ content ++ post) by (by rewrite <- !app_assoc).
  replace (Z.of_nat (List.length pre) + 1) with (Z.of_nat (List.length (pre ++ [tag])))
    by (rewrite length_app; cbn; lia).
  unfold tlv_length. fold n. rewrite (encodeLen_spec n) by lia.
  destruct (n <? 0x80) eqn:E; bool_prop; cbn [app List.length].
  - rewrite byte_at_app, js_high_bit, (proj2 (Z.ltb_lt n 128)) by lia. cbn [rbind].
    set (p := pre ++ [tag]) in *.
    replace (p ++ n :: content ++ post) with ((p ++ [n]) ++ content ++ post) by (by rewrite <- app_assoc).
    replace (Z.of_nat (List.length pre) + 2) with (Z.of_nat (List.length (p ++ [n])))
      by (unfold p; rewrite !length_app; cbn; lia).
    rewrite (proj2 (Z.ltb_ge _ _)) by (rewrite !length_app; lia).
    unfold n. rewrite u8_slice_mid. f_equal. f_equal. unfold p. rewrite !length_app. cbn. lia.
  - destruct (len_digits_ok n ltac:(lia)) as (Hb & Hv & Hl). set (k := Z.of_nat (List.length (len_digits n))) in *.
    rewrite byte_at_app, js_high_bit, (proj2 (Z.ltb_ge _ 128)), js_and_low7 by lia.
    assert ((128 + k) mod 128 = k) as -> by zdiv.
    rewrite (proj2 (Z.eqb_neq k 0)), (proj2 (Z.ltb_ge 4 k)) by lia. cbn [orb].
    set (p := pre ++ [tag]) in *.
    replace (p ++ (128 + k) :: len_digits n ++ content ++ post)
      with ((p ++ [128 + k]) ++ len_digits n ++ content ++ post) by (by rewrite <- app_assoc).
    replace (Z.of_nat (List.length pre) + 2) with (Z.of_nat (List.length (p ++ [128 + k])))
      by (unfold p; rewrite !length_app; cbn; lia).
    replace (Z.to_nat k) with (List.length (len_digits n)) by (unfold k; lia).
    rewrite long_length_app by (done || lia). rewrite Hv. cbn [rbind].
    rewrite (proj2 (Z.ltb_ge _ _)) by (rewrite !length_app; lia).
    rewrite (app_assoc (p ++ [128 + k]) (len_digits n)).
    replace (Z.of_nat (List.length (p ++ [128 + k])) + Z.of_nat (List.length (len_digits n)))
      with (Z.of_nat (List.length ((p ++ [128 + k]) ++ len_digits n))) by (rewrite !length_app; lia).
    replace n with (Z.of_nat (List.length content)) at 2 by done. rewrite u8_slice_mid. f_equal. f_equal. unfold p, k. rewrite !length_app. cbn. lia.
Qed.
End der_facts.
