(* ===== verification/EncryptedPkcs8.v ===== *)
(** * EncryptedPkcs8: private keys encrypted at rest

    [src/typescript/src/encrypted-pkcs8.ts]: PKCS#8 keys wrapped with PBES2
    (PBKDF2-HMAC-SHA-256, AES-256-GCM) in a hand-built DER envelope. The two
    primitives of the runtime are the parameters [Pbes2]; what is assumed of
    them is [Pbes2Laws]. *)

From S2P Require Import Prelude Errors JsNum Text Json TokenCodec LicenseKeyFormat Storage Der.
Import der.

(** ** PEM armor *)

(** [s.indexOf(pat)], counted from [i]. *)
Fixpoint indexOf_from (s pat : jsstr) (i : Z) : Z :=
  if startsWith s pat then i
  else match s with
       | [] => -1
       | _ :: s' => indexOf_from s' pat (i + 1)
       end.

Definition indexOf (s pat : jsstr) : Z := indexOf_from s pat 0.

(** [s.slice(a, b)] for [0 <= a]. *)
Definition str_slice (s : jsstr) (a b : Z) : jsstr := take (Z.to_nat (b - a)) (drop (Z.to_nat a) s).

Definition pem_begin (armor : jsstr) : jsstr := js "-----BEGIN " ++ armor ++ js "-----".
Definition pem_end (armor : jsstr) : jsstr := js "-----END " ++ armor ++ js "-----".
Definition newline : jsstr := [10].

Definition toPem (der : list Z) (armor : jsstr) : jsstr :=
  let b64 := buffer_to_base64 der in
  let lines := slices (List.length b64) b64 64 in
  pem_begin armor ++ newline ++ join newline lines ++ newline ++ pem_end armor ++ newline.

(** [.replace(/\s+/g, '')] *)
Definition strip_space (s : jsstr) : jsstr := List.filter (fun c => negb (is_trim_space c)) s.

Definition fromPem (pem armor : jsstr) : res (list Z) :=
  let bi := indexOf pem (pem_begin armor) in
  let ei := indexOf pem (pem_end armor) in
  if (bi <? 0) || (ei <? 0) || (ei <=? bi) then Throw errors.tokenMalformed
  else
    let b64 := strip_space (str_slice pem (bi + Z.of_nat (List.length (pem_begin armor))) ei) in
    Ok (buffer_from_base64 b64).

(** ** The envelope *)

Definition PBKDF2_ITERATIONS : Z := 600000.
Definition PBKDF2_SALT_LEN : nat := 16.
Definition KEY_LEN : Z := 32.
Definition GCM_NONCE_LEN : nat := 12.
Definition GCM_TAG_LEN : nat := 16.
Definition ENCRYPTED : jsstr := js "ENCRYPTED PRIVATE KEY".

Definition oid_pbes2 : jsstr := js "1.2.840.113549.1.5.13".
Definition oid_pbkdf2 : jsstr := js "1.2.840.113549.1.5.12".
Definition oid_hmac_sha256 : jsstr := js "1.2.840.113549.2.9".
Definition oid_aes256_gcm : jsstr := js "2.16.840.1.101.3.4.1.46".

(** [pbkdf2Sync], and AES-256-GCM: sealing returns the ciphertext and its
    tag, opening fails on any mismatch. *)
Class Pbes2 : Type := {
  pbkdf2 : list Z -> list Z -> Z -> Z -> res (list Z);
  gcm_seal : list Z -> list Z -> list Z -> list Z * list Z;
  gcm_open : list Z -> list Z -> list Z -> list Z -> option (list Z)
}.

(** What the wrapper relies on: sealing is undone by opening under the same
    key and nonce, the ciphertext is as long as the text, tags have 16 bytes,
    and both are byte strings. *)
Class Pbes2Laws (P : Pbes2) : Prop := {
  gcm_open_seal : forall key nonce pt, Forall is_byte pt ->
    gcm_open key nonce (gcm_seal key nonce pt).1 (gcm_seal key nonce pt).2 = Some pt;
  gcm_tag_length : forall key nonce pt, List.length (gcm_seal key nonce pt).2 = GCM_TAG_LEN;
  gcm_bytes : forall key nonce pt, Forall is_byte pt ->
    Forall is_byte (gcm_seal key nonce pt).1 /\ Forall is_byte (gcm_seal key nonce pt).2;
  gcm_length : forall key nonce pt, List.length (gcm_seal key nonce pt).1 = List.length pt
}.

(** [randomBytes(n)] returns [n] bytes. *)
Class FillLaws (W : Type) {HE : HasEntropy W} : Prop :=
  fill_bytes : forall n w bytes w', randomFill n w = (Ok bytes, w') ->
    List.length bytes = n /\ Forall is_byte bytes.

Section EncryptedPkcs8.
Context {P : Pbes2}.

(** The DER of an envelope around [encrypted]. *)
Definition envelope (salt nonce encrypted : list Z) : res (list Z) :=
  let? o_kdf := oid oid_pbkdf2 in
  let? iterations := der_integer PBKDF2_ITERATIONS in
  let? key_len := der_integer KEY_LEN in
  let? o_prf := oid oid_hmac_sha256 in
  let pbkdf2AlgId := der_sequence [o_kdf;
    der_sequence [der_octets salt; iterations; key_len; der_sequence [o_prf; der_null]]] in
  let? o_enc := oid oid_aes256_gcm in
  let? tag_len := der_integer (Z.of_nat GCM_TAG_LEN) in
  let gcmAlgId := der_sequence [o_enc; der_sequence [der_octets nonce; tag_len]] in
  let pbes2Params := der_sequence [pbkdf2AlgId; gcmAlgId] in
  let? o_pbes2 := oid oid_pbes2 in
  let algId := der_sequence [o_pbes2; pbes2Params] in
  Ok (der_sequence [algId; der_octets encrypted]).

Definition wrapEncryptedPkcs8 {W} {HE : HasEntropy W} (plaintextDer : list Z) (passphrase : jsstr)
  : prog W jsstr :=
  match passphrase with
  | [] => throw errors.missingKeyPassphrase
  | _ =>
      let* salt := randomFill PBKDF2_SALT_LEN in
      let* nonce := randomFill GCM_NONCE_LEN in
      let* kek := lift (pbkdf2 (utf8_encode passphrase) salt PBKDF2_ITERATIONS KEY_LEN) in
      let '(ct, tag) := gcm_seal kek nonce plaintextDer in
      let* outer := lift (envelope salt nonce (ct ++ tag)) in
      ret (toPem outer ENCRYPTED)
  end.

Definition OID_PBES2 : res (list Z) := oidBody oid_pbes2.
Definition OID_PBKDF2 : res (list Z) := oidBody oid_pbkdf2.
Definition OID_HMAC_SHA256 : res (list Z) := oidBody oid_hmac_sha256.
Definition OID_AES256_GCM : res (list Z) := oidBody oid_aes256_gcm.

(** [oidEquals(content, OID)], at a constant that the module computed when
    it was loaded. *)
Definition oidEquals (a : list Z) (b : res (list Z)) : bool :=
  match b with Ok b => bool_decide (a = b) | Throw _ => false end.

(** What [unwrapEncryptedPkcs8] reads from the DER before it judges it. *)
Record EnvelopeParams : Type := mkEnvelopeParams {
  ep_pbes2Oid : list Z;
  ep_pbkdf2Oid : list Z;
  ep_prfOid : list Z;
  ep_encOid : list Z;
  ep_salt : list Z;
  ep_iter : Z;
  ep_keyLen : Z;
  ep_nonce : list Z;
  ep_tagLen : Z;
  ep_encData : list Z
}.

Definition parse_envelope (outerDer : list Z) : res EnvelopeParams :=
  let? outer := parse_tag outerDer 0 SEQUENCE in
  let? algIdTlv := parse_tag (p_content outer) 0 SEQUENCE in
  let? encDataTlv := parse_tag (p_content outer) (p_total algIdTlv) OCTET_STRING in
  let? pbes2Oid := parse_tag (p_content algIdTlv) 0 OBJECT_IDENTIFIER in
  let? pbes2Params := parse_tag (p_content algIdTlv) (p_total pbes2Oid) SEQUENCE in
  let? kdfAlg := parse_tag (p_content pbes2Params) 0 SEQUENCE in
  let? encAlg := parse_tag (p_content pbes2Params) (p_total kdfAlg) SEQUENCE in
  let? pbkdf2Oid := parse_tag (p_content kdfAlg) 0 OBJECT_IDENTIFIER in
  let? pbkdf2Params := parse_tag (p_content kdfAlg) (p_total pbkdf2Oid) SEQUENCE in
  let? saltTlv := parse_tag (p_content pbkdf2Params) 0 OCTET_STRING in
  let? iterTlv := parse_tag (p_content pbkdf2Params) (p_total saltTlv) INTEGER in
  let? keyLenTlv := parse_tag (p_content pbkdf2Params) (p_total saltTlv + p_total iterTlv) INTEGER in
  let? prfAlg := parse_tag (p_content pbkdf2Params)
                   (p_total saltTlv + p_total iterTlv + p_total keyLenTlv) SEQUENCE in
  let? prfOid := parse_tag (p_content prfAlg) 0 OBJECT_IDENTIFIER in
  let? iter := bufToUint (p_content iterTlv) in
  let? keyLen := bufToUint (p_content keyLenTlv) in
  let? encOid := parse_tag (p_content encAlg) 0 OBJECT_IDENTIFIER in
  let? encParams := parse_tag (p_content encAlg) (p_total encOid) SEQUENCE in
  let? nonceTlv := parse_tag (p_content encParams) 0 OCTET_STRING in
  let? tagLenTlv := parse_tag (p_content encParams) (p_total nonceTlv) INTEGER in
  let? tagLen := bufToUint (p_content tagLenTlv) in
  Ok (mkEnvelopeParams (p_content pbes2Oid) (p_content pbkdf2Oid) (p_content prfOid)
        (p_content encOid) (p_content saltTlv) iter keyLen (p_content nonceTlv) tagLen
        (p_content encDataTlv)).

Definition profileOK (e : EnvelopeParams) : bool :=
  oidEquals (ep_pbes2Oid e) OID_PBES2
  && oidEquals (ep_pbkdf2Oid e) OID_PBKDF2
  && oidEquals (ep_prfOid e) OID_HMAC_SHA256
  && oidEquals (ep_encOid e) OID_AES256_GCM
  && (ep_keyLen e =? KEY_LEN)
  && (100000 <=? ep_iter e)
  && (ep_tagLen e =? Z.of_nat GCM_TAG_LEN)
  && (List.length (ep_nonce e) =? GCM_NONCE_LEN)%nat.

Definition unwrapEncryptedPkcs8 (encryptedPem passphrase : jsstr) : res (list Z) :=
  match passphrase with
  | [] => Throw errors.missingKeyPassphrase
  | _ =>
      let? outerDer := fromPem encryptedPem ENCRYPTED in
      let? e := parse_envelope outerDer in
      if negb (profileOK e) then Throw errors.keyDecryptionFailed
      else
        let? kek := pbkdf2 (utf8_encode passphrase) (ep_salt e) (ep_iter e) (ep_keyLen e) in
        let ctAndTag := ep_encData e in
        if (List.length ctAndTag <? GCM_TAG_LEN)%nat then Throw errors.tokenMalformed
        else
          let ct := take (List.length ctAndTag - GCM_TAG_LEN) ctAndTag in
          let tag := drop (List.length ctAndTag - GCM_TAG_LEN) ctAndTag in
          match gcm_open kek (ep_nonce e) ct tag with
          | Some pt => Ok pt
          | None => Throw errors.keyDecryptionFailed
          end
  end.
End EncryptedPkcs8.
