(* ===== verification/EncryptedPkcs8Props.v ===== *)
(** * EncryptedPkcs8Props: wrapped keys come back, and only in the profile

    PEM and DER round trips, the round trip of the whole envelope, and what
    an envelope that opens must look like. *)

From S2P Require Import Prelude Errors JsNum Text Json TokenCodec LicenseKeyFormat Id Storage Der EncryptedPkcs8 Memory MemoryLaws.
Import der der_facts base64url_facts.

(** ** PEM *)

Lemma std_char_sextet n :
  0 <= n < 64 ->
  std_sextet (std_char n) = Some n /\ (std_char n =? 61) = false
  /\ (std_char n =? 45) = false /\ is_trim_space (std_char n) = false.
Proof.
  intros Hn.
  assert (Hall : forallb (fun n => let n := Z.of_nat n in
    bool_decide (std_sextet (std_char n) = Some n) && negb (std_char n =? 61)
    && negb (std_char n =? 45) && negb (is_trim_space (std_char n))) (seq 0 64) = true) by reflexivity.
  rewrite forallb_forall in Hall. specialize (Hall (Z.to_nat n)). cbv zeta in Hall.
  rewrite Z2Nat.id in Hall by lia. specialize (Hall (proj2 (in_seq 64 0 (Z.to_nat n)) ltac:(lia))).
  repeat (apply andb_prop in Hall as [Hall ?]). bool_prop. split_and!; [done|by apply Z.eqb_neq..|done].
Qed.

Lemma std_base64 l k :
  Forall (fun n => 0 <= n < 64) l -> base64_sextets (map std_char l ++ repeat 61 k) = l.
Proof.
  induction 1 as [|n l Hn _ IH]; cbn [map app base64_sextets]; [by destruct k|].
  destruct (std_char_sextet n Hn) as (Hs & H61 & _). by rewrite H61, Hs, IH.
Qed.

Lemma buffer_base64_roundtrip bs :
  Forall is_byte bs -> buffer_from_base64 (buffer_to_base64 bs) = bs.
Proof.
  intros H. destruct (buffer_to_base64_sextets bs) as [k ->]. unfold buffer_from_base64.
  rewrite std_base64 by by apply byte_sextets_range. by apply sextet_bytes_of.
Qed.

(** A character of a PEM body: no dash, no white space. *)
Definition body_char (c : Z) : Prop := c <> 45 /\ is_trim_space c = false.

Lemma base64_body bs : Forall is_byte bs -> Forall body_char (buffer_to_base64 bs).
Proof.
  intros H. destruct (buffer_to_base64_sextets bs) as [k ->]. apply Forall_app. split.
  - apply Forall_map. eapply Forall_impl; [by apply byte_sextets_range|]. intros n Hn.
    destruct (std_char_sextet n Hn) as (_ & _ & H45 & Hsp). bool_prop. by split.
  - apply Forall_forall. intros c Hc%list_elem_of_In%repeat_spec. by subst.
Qed.

Lemma strip_space_app a b : strip_space (a ++ b) = strip_space a ++ strip_space b.
Proof. apply List.filter_app. Qed.

Lemma strip_space_body s : Forall body_char s -> strip_space s = s.
Proof.
  intros H. apply filter_keep. intros c Hc. rewrite Forall_forall in H.
  destruct (H c Hc) as [_ ->]. done.
Qed.

Lemma strip_space_join parts : strip_space (join newline parts) = concat (map strip_space parts).
Proof.
  induction parts as [|p parts IH]; [done|]. destruct parts as [|q parts].
  - cbn. by rewrite app_nil_r.
  - cbn [join map concat]. rewrite !strip_space_app.
    change (strip_space newline) with (@nil Z). cbn [app]. f_equal. exact IH.
Qed.

Lemma slices_body fuel s size :
  Forall body_char s -> map strip_space (slices fuel s size) = slices fuel s size.
Proof.
  revert s. induction fuel as [|f IH]; intros s H; [done|]. cbn [slices]. destruct s as [|c s]; [done|].
  cbn [map]. rewrite IH by by apply Forall_drop. f_equal. by apply strip_space_body, Forall_take.
Qed.

(** The scan for an armor line steps over text in which it cannot start. *)
Fixpoint mismatch (s pat : jsstr) : bool :=
  match s, pat with
  | x :: s', y :: pat' => negb (x =? y) || mismatch s' pat'
  | _, _ => false
  end.

Fixpoint clear_of (s pat : jsstr) : bool :=
  match s with
  | [] => true
  | _ :: s' => mismatch s pat && clear_of s' pat
  end.

Lemma mismatch_startsWith s pat t : mismatch s pat = true -> startsWith (s ++ t) pat = false.
Proof.
  revert pat. induction s as [|x s IH]; intros [|y pat]; cbn; try done.
  rewrite (Z.eqb_sym y x). destruct (x =? y); cbn; [apply IH|done].
Qed.

Lemma indexOf_clear s pat t i :
  clear_of s pat = true -> indexOf_from (s ++ t) pat i = indexOf_from t pat (i + Z.of_nat (List.length s)).
Proof.
  revert i. induction s as [|x s IH]; intros i; [cbn; by rewrite Z.add_0_r|].
  cbn [clear_of]. intros [Hm Hc]%andb_prop. cbn [app indexOf_from].
  change (x :: s ++ t) with ((x :: s) ++ t). rewrite mismatch_startsWith, IH by done. f_equal. cbn. lia.
Qed.

Lemma clear_app s t pat : clear_of s pat = true -> clear_of t pat = true -> clear_of (s ++ t) pat = true.
Proof.
  intros Hs Ht. induction s as [|x s IH]; [done|]. cbn [app clear_of] in *.
  apply andb_prop in Hs as [Hm Hc]. rewrite IH, andb_true_r by done.
  clear -Hm. revert Hm. change (x :: s ++ t) with ((x :: s) ++ t). generalize (x :: s). clear.
  intros s. revert pat. induction s as [|x s IH]; intros [|y pat]; cbn; try done.
  destruct (x =? y); cbn; [apply IH|done].
Qed.

Lemma clear_no_dash s pat : Forall (fun c => c <> 45) s -> clear_of s (45 :: pat) = true.
Proof.
  induction 1 as [|c s Hc _ IH]; [done|]. cbn [clear_of mismatch]. rewrite IH.
  by rewrite (proj2 (Z.eqb_neq c 45)).
Qed.

Lemma indexOf_here pat t i : indexOf_from (pat ++ t) pat i = i.
Proof. unfold indexOf_from. destruct (pat ++ t) eqn:E; rewrite <- E, startsWith_app; done. Qed.

(** An armor whose end line cannot start inside its begin line. *)
Definition armor_ok (armor : jsstr) : bool := clear_of (pem_begin armor ++ newline) (pem_end armor).

Lemma join_no_dash parts : Forall (Forall (fun c => c <> 45)) parts -> Forall (fun c => c <> 45) (join newline parts).
Proof.
  induction 1 as [|p parts Hp Hps IH]; [by apply Forall_nil|]. destruct parts as [|q parts]; [done|].
  cbn [join]. apply Forall_app. split; [done|]. by apply Forall_cons.
Qed.

Lemma slices_Forall {P : Z -> Prop} fuel s size : Forall P s -> Forall (Forall P) (slices fuel s size).
Proof.
  revert s. induction fuel as [|f IH]; intros s H; [by apply Forall_nil|]. cbn [slices].
  destruct s as [|c s]; [by apply Forall_nil|].
  apply Forall_cons. split; [by apply Forall_take|by apply IH, Forall_drop].
Qed.

(** DER written in PEM reads back. *)
Lemma pem_roundtrip der armor :
  armor_ok armor = true -> Forall is_byte der -> fromPem (toPem der armor) armor = Ok der.
Proof.
  intros Ha Hb. unfold fromPem, toPem. set (b64 := buffer_to_base64 der).
  set (body := join newline (slices (List.length b64) b64 64)).
  pose proof (base64_body der Hb) as Hbody. fold b64 in Hbody.
  assert (Hnd : Forall (fun c => c <> 45) (body ++ newline)).
  { apply Forall_app. split; [|by apply Forall_singleton]. apply join_no_dash, slices_Forall.
    eapply Forall_impl; [exact Hbody|]. by intros c [? _]. }
  assert (Hstrip : strip_space (newline ++ body ++ newline) = b64).
  { rewrite !strip_space_app. change (strip_space newline) with (@nil Z). cbn [app].
    rewrite app_nil_r. unfold body. rewrite strip_space_join, slices_body by done.
    apply concat_slices; lia. }
  set (pem := pem_begin armor ++ newline ++ body ++ newline ++ pem_end armor ++ newline).
  assert (Hbi : indexOf pem (pem_begin armor) = 0) by apply indexOf_here.
  assert (Hei : indexOf pem (pem_end armor)
    = Z.of_nat (List.length (pem_begin armor)) + Z.of_nat (List.length (newline ++ body ++ newline))).
  { unfold indexOf, pem.
    replace (pem_begin armor ++ newline ++ body ++ newline ++ pem_end armor ++ newline)
      with (((pem_begin armor ++ newline) ++ body ++ newline) ++ pem_end armor ++ newline)
      by by rewrite <- !app_assoc.
    rewrite indexOf_clear, indexOf_here by (apply clear_app; [done|by apply clear_no_dash]).
    rewrite !length_app. lia. }
  rewrite Hbi, Hei. set (n := List.length (newline ++ body ++ newline)).
  assert (Hn : (0 < n)%nat) by (unfold n; rewrite length_app; cbn; lia).
  cbv zeta. rewrite !(proj2 (Z.ltb_ge _ 0)), (proj2 (Z.leb_gt _ 0)) by lia. cbn [orb].
  unfold str_slice. rewrite Z.add_0_l, Nat2Z.id.
  replace (Z.to_nat _) with n by lia. unfold pem. rewrite drop_app_length.
  replace (newline ++ body ++ newline ++ pem_end armor ++ newline)
    with ((newline ++ body ++ newline) ++ pem_end armor ++ newline) by by rewrite <- !app_assoc.
  unfold n. rewrite take_app_length, Hstrip. unfold b64. by rewrite buffer_base64_roundtrip.
Qed.

(** ** The envelope *)

Lemma encodeLen_length n : (List.length (encodeLen n) <= 5)%nat.
Proof. unfold encodeLen. repeat case_goal; cbn; lia. Qed.

Lemma tlv_length_eq tag content : Z.of_nat (List.length (tlv tag content)) = tlv_length content.
Proof. unfold tlv, tlv_length. cbn [List.length]. rewrite length_app. lia. Qed.

Lemma tlv_length_bound content :
  Z.of_nat (List.length content) < tlv_length content <= Z.of_nat (List.length content) + 6.
Proof. unfold tlv_length. pose proof (encodeLen_length (Z.of_nat (List.length content))). lia. Qed.

(** Reading the triple that follows [pre]. *)
Lemma parse_at pre tag content post off :
  Z.of_nat (List.length content) < 2 ^ 31 -> off = Z.of_nat (List.length pre) ->
  parse_tag (pre ++ tlv tag content ++ post) off tag = Ok (mkTlv (Some tag) content (tlv_length content)).
Proof.
  intros Hc ->. unfold parse_tag. rewrite parse_tlv by done. unfold expectTag. cbn [rbind p_tag].
  by rewrite bool_decide_true.
Qed.

Lemma parse_first tag content post :
  Z.of_nat (List.length content) < 2 ^ 31 ->
  parse_tag (tlv tag content ++ post) 0 tag = Ok (mkTlv (Some tag) content (tlv_length content)).
Proof. intros. by apply (parse_at []). Qed.

Lemma parse_second t1 c1 tag content post :
  Z.of_nat (List.length content) < 2 ^ 31 ->
  parse_tag (tlv t1 c1 ++ tlv tag content ++ post) (tlv_length c1) tag
  = Ok (mkTlv (Some tag) content (tlv_length content)).
Proof. intros. apply parse_at; [done|]. by rewrite tlv_length_eq. Qed.

Definition body_of (r : res (list Z)) : list Z := match r with Ok b => b | Throw _ => [] end.

(** The constants of the envelope. *)
Lemma envelope_constants :
  oid oid_pbes2 = Ok (tlv OBJECT_IDENTIFIER (body_of OID_PBES2))
  /\ oid oid_pbkdf2 = Ok (tlv OBJECT_IDENTIFIER (body_of OID_PBKDF2))
  /\ oid oid_hmac_sha256 = Ok (tlv OBJECT_IDENTIFIER (body_of OID_HMAC_SHA256))
  /\ oid oid_aes256_gcm = Ok (tlv OBJECT_IDENTIFIER (body_of OID_AES256_GCM))
  /\ der_integer PBKDF2_ITERATIONS = Ok (tlv INTEGER (integer_bytes PBKDF2_ITERATIONS))
  /\ der_integer KEY_LEN = Ok (tlv INTEGER (integer_bytes KEY_LEN))
  /\ der_integer (Z.of_nat GCM_TAG_LEN) = Ok (tlv INTEGER (integer_bytes (Z.of_nat GCM_TAG_LEN))).
Proof. split_and!; vm_compute; reflexivity. Qed.

Definition kdf_params (salt : list Z) : list Z :=
  concat [der_octets salt; tlv INTEGER (integer_bytes PBKDF2_ITERATIONS);
          tlv INTEGER (integer_bytes KEY_LEN);
          der_sequence [tlv OBJECT_IDENTIFIER (body_of OID_HMAC_SHA256); der_null]].

Definition enc_params (nonce : list Z) : list Z :=
  concat [der_octets nonce; tlv INTEGER (integer_bytes (Z.of_nat GCM_TAG_LEN))].

Definition alg_id (salt nonce : list Z) : list Z :=
  concat [tlv OBJECT_IDENTIFIER (body_of OID_PBES2);
          der_sequence [
            der_sequence [tlv OBJECT_IDENTIFIER (body_of OID_PBKDF2); tlv SEQUENCE (kdf_params salt)];
            der_sequence [tlv OBJECT_IDENTIFIER (body_of OID_AES256_GCM); tlv SEQUENCE (enc_params nonce)]]].

Lemma envelope_eq salt nonce encrypted :
  envelope salt nonce encrypted = Ok (der_sequence [tlv SEQUENCE (alg_id salt nonce); der_octets encrypted]).
Proof.
  unfold envelope. destruct envelope_constants as (-> & -> & -> & -> & -> & -> & ->). reflexivity.
Qed.

Lemma sequence_bound children :
  Z.of_nat (List.length (concat children)) < Z.of_nat (List.length (der_sequence children))
  <= Z.of_nat (List.length (concat children)) + 6.
Proof. unfold der_sequence. rewrite tlv_length_eq. apply tlv_length_bound. Qed.

Lemma kdf_params_bound salt : Z.of_nat (List.length (kdf_params salt)) <= Z.of_nat (List.length salt) + 60.
Proof.
  unfold kdf_params, der_octets. cbn [concat]. rewrite !length_app, !Nat2Z.inj_add, tlv_length_eq.
  pose proof (tlv_length_bound salt).
  match goal with |- context [List.length (tlv INTEGER (integer_bytes PBKDF2_ITERATIONS))] =>
    change (List.length (tlv INTEGER (integer_bytes PBKDF2_ITERATIONS))) with 5%nat end.
  change (List.length (tlv INTEGER (integer_bytes KEY_LEN))) with 3%nat.
  assert (List.length (der_sequence [tlv OBJECT_IDENTIFIER (body_of OID_HMAC_SHA256); der_null]) = 14%nat) as ->
    by (vm_compute; reflexivity). cbn. lia.
Qed.

Lemma enc_params_bound nonce : Z.of_nat (List.length (enc_params nonce)) <= Z.of_nat (List.length nonce) + 20.
Proof.
  unfold enc_params, der_octets. cbn [concat]. rewrite !length_app, !Nat2Z.inj_add, tlv_length_eq.
  pose proof (tlv_length_bound nonce).
  change (List.length (tlv INTEGER (integer_bytes (Z.of_nat GCM_TAG_LEN)))) with 3%nat. cbn. lia.
Qed.

Lemma kdf_alg_bound salt :
  Z.of_nat (List.length (concat [tlv OBJECT_IDENTIFIER (body_of OID_PBKDF2); tlv SEQUENCE (kdf_params salt)]))
  <= Z.of_nat (List.length salt) + 100.
Proof.
  cbn [concat]. rewrite !length_app, !Nat2Z.inj_add, (tlv_length_eq SEQUENCE).
  pose proof (tlv_length_bound (kdf_params salt)). pose proof (kdf_params_bound salt).
  change (List.length (tlv OBJECT_IDENTIFIER (body_of OID_PBKDF2))) with 11%nat. cbn [List.length]. lia.
Qed.

Lemma enc_alg_bound nonce :
  Z.of_nat (List.length (concat [tlv OBJECT_IDENTIFIER (body_of OID_AES256_GCM); tlv SEQUENCE (enc_params nonce)]))
  <= Z.of_nat (List.length nonce) + 60.
Proof.
  cbn [concat]. rewrite !length_app, !Nat2Z.inj_add, (tlv_length_eq SEQUENCE).
  pose proof (tlv_length_bound (enc_params nonce)). pose proof (enc_params_bound nonce).
  change (List.length (tlv OBJECT_IDENTIFIER (body_of OID_AES256_GCM))) with 11%nat. cbn [List.length]. lia.
Qed.

Lemma alg_id_bound salt nonce :
  Z.of_nat (List.length (alg_id salt nonce)) <= Z.of_nat (List.length salt) + Z.of_nat (List.length nonce) + 300.
Proof.
  unfold alg_id. pose proof (kdf_alg_bound salt) as Hk. pose proof (enc_alg_bound nonce) as He.
  set (kdf := [tlv OBJECT_IDENTIFIER (body_of OID_PBKDF2); tlv SEQUENCE (kdf_params salt)]) in *.
  set (enc := [tlv OBJECT_IDENTIFIER (body_of OID_AES256_GCM); tlv SEQUENCE (enc_params nonce)]) in *.
  pose proof (sequence_bound kdf). pose proof (sequence_bound enc).
  pose proof (sequence_bound [der_sequence kdf; der_sequence enc]) as Hs.
  cbn [concat] in Hs |- *. rewrite !length_app, !Nat2Z.inj_add in *.
  change (List.length (tlv OBJECT_IDENTIFIER (body_of OID_PBES2))) with 11%nat. cbn [List.length] in *. lia.
Qed.

Lemma bufToUint_constants :
  bufToUint (integer_bytes PBKDF2_ITERATIONS) = Ok PBKDF2_ITERATIONS
  /\ bufToUint (integer_bytes KEY_LEN) = Ok KEY_LEN
  /\ bufToUint (integer_bytes (Z.of_nat GCM_TAG_LEN)) = Ok (Z.of_nat GCM_TAG_LEN).
Proof. split_and!; vm_compute; reflexivity. Qed.

(** What an envelope of this module parses to. *)
Definition own_params (salt nonce encrypted : list Z) : EnvelopeParams :=
  mkEnvelopeParams (body_of OID_PBES2) (body_of OID_PBKDF2) (body_of OID_HMAC_SHA256)
    (body_of OID_AES256_GCM) salt PBKDF2_ITERATIONS KEY_LEN nonce (Z.of_nat GCM_TAG_LEN) encrypted.

Lemma parse_kdf_params salt :
  Z.of_nat (List.length salt) < 2 ^ 30 ->
  let iter := tlv_length (integer_bytes PBKDF2_ITERATIONS) in
  let key := tlv_length (integer_bytes KEY_LEN) in
  parse_tag (kdf_params salt) 0 OCTET_STRING = Ok (mkTlv (Some OCTET_STRING) salt (tlv_length salt))
  /\ parse_tag (kdf_params salt) (tlv_length salt) INTEGER
     = Ok (mkTlv (Some INTEGER) (integer_bytes PBKDF2_ITERATIONS) iter)
  /\ parse_tag (kdf_params salt) (tlv_length salt + iter) INTEGER
     = Ok (mkTlv (Some INTEGER) (integer_bytes KEY_LEN) key)
  /\ exists n, parse_tag (kdf_params salt) (tlv_length salt + iter + key) SEQUENCE
     = Ok (mkTlv (Some SEQUENCE) (concat [tlv OBJECT_IDENTIFIER (body_of OID_HMAC_SHA256); der_null]) n).
Proof.
  intros Hs. cbv zeta. unfold kdf_params, der_octets, der_sequence. cbn [concat].
  rewrite <- (tlv_length_eq OCTET_STRING salt), <- !(tlv_length_eq INTEGER).
  set (t1 := tlv OCTET_STRING salt). set (t2 := tlv INTEGER (integer_bytes PBKDF2_ITERATIONS)).
  set (t3 := tlv INTEGER (integer_bytes KEY_LEN)). split_and!.
  - unfold t1. rewrite parse_first by lia. by rewrite tlv_length_eq.
  - unfold t2 at 1. rewrite (parse_at t1) by done. unfold t2. by rewrite tlv_length_eq.
  - rewrite app_assoc. unfold t3 at 1. rewrite (parse_at (t1 ++ t2)) by (done || rewrite length_app; lia).
    unfold t3. by rewrite tlv_length_eq.
  - eexists. rewrite !app_assoc. rewrite <- (app_assoc _ (tlv SEQUENCE _)).
    apply (parse_at ((t1 ++ t2) ++ t3)); [done|]. rewrite !length_app. lia.
Qed.

Lemma parse_envelope_own salt nonce encrypted der :
  Z.of_nat (List.length salt) < 2 ^ 20 -> Z.of_nat (List.length nonce) < 2 ^ 20 ->
  Z.of_nat (List.length encrypted) < 2 ^ 30 ->
  envelope salt nonce encrypted = Ok der -> parse_envelope der = Ok (own_params salt nonce encrypted).
Proof.
  intros Hs Hn He. rewrite envelope_eq. intros [= <-].
  pose proof (alg_id_bound salt nonce). pose proof (tlv_length_bound encrypted).
  pose proof (tlv_length_bound (alg_id salt nonce)).
  unfold parse_envelope, der_sequence at 1.
  rewrite <- (app_nil_r (tlv SEQUENCE (concat [_; _]))), parse_first
    by (cbn [concat]; unfold der_octets; rewrite !length_app, !Nat2Z.inj_add, !tlv_length_eq; cbn [List.length]; lia).
  cbn [rbind p_content concat]. rewrite parse_first by lia. cbn [rbind p_content p_total].
  unfold der_octets at 1. rewrite parse_second by lia. cbn [rbind p_content p_total].
  unfold alg_id. cbn [concat]. rewrite parse_first by done. cbn [rbind p_content p_total].
  pose proof (kdf_alg_bound salt). pose proof (enc_alg_bound nonce).
  set (kdf := [tlv OBJECT_IDENTIFIER (body_of OID_PBKDF2); tlv SEQUENCE (kdf_params salt)]) in *.
  set (enc := [tlv OBJECT_IDENTIFIER (body_of OID_AES256_GCM); tlv SEQUENCE (enc_params nonce)]) in *.
  pose proof (sequence_bound kdf). pose proof (sequence_bound enc).
  unfold der_sequence at 1. rewrite parse_second
    by (cbn [concat]; rewrite !length_app, !Nat2Z.inj_add; cbn [List.length]; lia).
  cbn [rbind p_content p_total concat]. unfold der_sequence.
  rewrite parse_first by lia. cbn [rbind p_content p_total]. rewrite parse_second by lia.
  cbn [rbind p_content p_total]. subst kdf enc. cbn [concat].
  pose proof (kdf_params_bound salt). pose proof (enc_params_bound nonce).
  rewrite parse_first by done. cbn [rbind p_content p_total].
  rewrite parse_second by lia. cbn [rbind p_content p_total].
  destruct (parse_kdf_params salt) as (-> & Hp2 & Hp3 & n & Hp4); [lia|].
  cbn [rbind p_content p_total]. rewrite Hp2. cbn [rbind p_content p_total]. rewrite Hp3.
  cbn [rbind p_content p_total]. rewrite Hp4. cbn [rbind p_content p_total concat].
  rewrite parse_first by done. cbn [rbind p_content p_total].
  destruct bufToUint_constants as (Hi & Hk & Ht). rewrite Hi, Hk. cbn [rbind].
  rewrite parse_first by done. cbn [rbind p_content p_total].
  rewrite parse_second by lia. cbn [rbind p_content p_total].
  unfold enc_params at 1, der_octets. cbn [concat]. rewrite parse_first by lia. cbn [rbind p_content p_total].
  unfold enc_params, der_octets. cbn [concat]. rewrite parse_second by done. cbn [rbind p_content p_total].
  rewrite Ht. reflexivity.
Qed.

(** ** Envelopes are byte strings *)

Lemma encodeLen_bytes n : 0 <= n < 2 ^ 31 -> Forall is_byte (encodeLen n).
Proof.
  intros Hn. rewrite encodeLen_spec by done. destruct (n <? 0x80) eqn:E; bool_prop.
  - apply Forall_singleton. unfold is_byte. lia.
  - destruct (len_digits_ok n) as (Hb & _ & Hl); [lia|]. apply Forall_cons. split; [unfold is_byte; lia|done].
Qed.

Lemma tlv_bytes tag content :
  is_byte tag -> Z.of_nat (List.length content) < 2 ^ 31 -> Forall is_byte content ->
  Forall is_byte (tlv tag content).
Proof.
  intros. unfold tlv. apply Forall_cons. split; [done|]. apply Forall_app. split; [|done].
  apply encodeLen_bytes. lia.
Qed.

Lemma concat_bytes parts : Forall (Forall is_byte) parts -> Forall is_byte (concat parts).
Proof. induction 1 as [|p ps Hp _ IH]; [by apply Forall_nil|]. apply Forall_app. by split. Qed.

(** One goal per part. *)
Ltac byte_parts :=
  repeat match goal with
  | |- Forall (Forall _) (_ :: _) => apply Forall_cons_2
  | |- Forall (Forall _) [] => apply Forall_nil_2
  end.

Lemma envelope_bytes salt nonce encrypted der :
  Z.of_nat (List.length salt) < 2 ^ 20 -> Z.of_nat (List.length nonce) < 2 ^ 20 ->
  Z.of_nat (List.length encrypted) < 2 ^ 30 ->
  Forall is_byte salt -> Forall is_byte nonce -> Forall is_byte encrypted ->
  envelope salt nonce encrypted = Ok der -> Forall is_byte der.
Proof.
  intros Hs Hn He Bs Bn Be. rewrite envelope_eq. intros [= <-].
  pose proof (alg_id_bound salt nonce). pose proof (tlv_length_bound encrypted).
  pose proof (tlv_length_bound (alg_id salt nonce)). pose proof (kdf_alg_bound salt) as Hk.
  pose proof (enc_alg_bound nonce) as Hc. pose proof (kdf_params_bound salt). pose proof (enc_params_bound nonce).
  assert (Hconst : Forall (Forall is_byte) [tlv OBJECT_IDENTIFIER (body_of OID_PBES2);
    tlv OBJECT_IDENTIFIER (body_of OID_PBKDF2); tlv OBJECT_IDENTIFIER (body_of OID_AES256_GCM);
    tlv INTEGER (integer_bytes PBKDF2_ITERATIONS); tlv INTEGER (integer_bytes KEY_LEN);
    tlv INTEGER (integer_bytes (Z.of_nat GCM_TAG_LEN));
    der_sequence [tlv OBJECT_IDENTIFIER (body_of OID_HMAC_SHA256); der_null]]) by decided.
  rewrite !Forall_cons in Hconst. destruct Hconst as (C1 & C2 & C3 & C4 & C5 & C6 & C7 & _).
  assert (Hkdf : Forall is_byte (tlv SEQUENCE (kdf_params salt))).
  { apply tlv_bytes; [done|lia|]. apply concat_bytes. byte_parts; try done.
    apply tlv_bytes; [done|lia|done]. }
  assert (Henc : Forall is_byte (tlv SEQUENCE (enc_params nonce))).
  { apply tlv_bytes; [done|lia|]. apply concat_bytes. byte_parts; try done.
    apply tlv_bytes; [done|lia|done]. }
  set (kdf := [tlv OBJECT_IDENTIFIER (body_of OID_PBKDF2); tlv SEQUENCE (kdf_params salt)]) in *.
  set (enc := [tlv OBJECT_IDENTIFIER (body_of OID_AES256_GCM); tlv SEQUENCE (enc_params nonce)]) in *.
  assert (Bk : Forall is_byte (der_sequence kdf))
    by (apply tlv_bytes; [done|lia|apply concat_bytes; unfold kdf; by byte_parts]).
  assert (Be2 : Forall is_byte (der_sequence enc))
    by (apply tlv_bytes; [done|lia|apply concat_bytes; unfold enc; by byte_parts]).
  pose proof (sequence_bound kdf). pose proof (sequence_bound enc).
  assert (Ba : Forall is_byte (alg_id salt nonce)).
  { apply concat_bytes. byte_parts; try done.
    apply tlv_bytes; [done| |apply concat_bytes; by byte_parts].
    fold kdf enc. cbn [concat]. rewrite !length_app, !Nat2Z.inj_add. cbn [List.length]. lia. }
  unfold der_octets. apply tlv_bytes; [done| |].
  - cbn [concat]. rewrite !length_app, !Nat2Z.inj_add, !tlv_length_eq. cbn [List.length]. lia.
  - apply concat_bytes. byte_parts; try done; apply tlv_bytes; done || lia.
Qed.

(** ** Properties *)

Section Properties.
Context {P : Pbes2}.

Lemma profile_own salt nonce encrypted :
  List.length nonce = GCM_NONCE_LEN -> profileOK (own_params salt nonce encrypted) = true.
Proof.
  intros Hn. unfold profileOK, own_params. cbn [ep_pbes2Oid ep_pbkdf2Oid ep_prfOid ep_encOid ep_keyLen ep_iter ep_tagLen ep_nonce].
  rewrite Hn. vm_compute. reflexivity.
Qed.

(** C32: a wrapped key comes back: whatever key is wrapped under a passphrase,
    unwrapping the PEM text under the same passphrase returns exactly that
    key, through PBES2 parameters, DER and PEM armor. *)
Theorem wrap_unwrap {W} {HE : HasEntropy W} {FL : FillLaws W} {PL : Pbes2Laws P} der passphrase (w w' : W) pem :
  Forall is_byte der -> Z.of_nat (List.length der) < 2 ^ 29 ->
  wrapEncryptedPkcs8 der passphrase w = (Ok pem, w') ->
  unwrapEncryptedPkcs8 pem passphrase = Ok der.
Proof.
  intros Hbytes Hd. unfold wrapEncryptedPkcs8, unwrapEncryptedPkcs8.
  destruct passphrase as [|c pass]; [done|]. set (pw := c :: pass). intros H.
  apply bind_ok_inv in H as (salt & w1 & Hsalt & H). apply bind_ok_inv in H as (nonce & w2 & Hnonce & H).
  apply bind_ok_inv in H as (kek & w3 & Hkek & H). apply lift_ok_inv in Hkek as [Hkek _].
  destruct (fill_bytes _ _ _ _ Hsalt) as [L1 B1]. destruct (fill_bytes _ _ _ _ Hnonce) as [L2 B2].
  pose proof (gcm_open_seal kek nonce der Hbytes) as Hopen. pose proof (gcm_tag_length kek nonce der) as Htag.
  pose proof (gcm_bytes kek nonce der Hbytes) as [Bc Bt]. pose proof (gcm_length kek nonce der) as Hlen.
  destruct (gcm_seal kek nonce der) as [ct tag]. cbn [fst snd] in *.
  apply bind_ok_inv in H as (outer & w4 & Houter & H). apply lift_ok_inv in Houter as [Houter _].
  apply Ok_pair_inj in H as [<- _].
  assert (Hb : Z.of_nat (List.length (ct ++ tag)) < 2 ^ 30) by (rewrite length_app; unfold GCM_TAG_LEN in *; lia).
  assert (Z.of_nat (List.length salt) < 2 ^ 20) by (rewrite L1; done).
  assert (Z.of_nat (List.length nonce) < 2 ^ 20) by (rewrite L2; done).
  rewrite pem_roundtrip; [|reflexivity|].
  2: { apply (envelope_bytes salt nonce (ct ++ tag)); try done. by apply Forall_app. }
  cbn [rbind]. rewrite (parse_envelope_own salt nonce (ct ++ tag)) by done. cbn [rbind].
  rewrite profile_own by done. cbn [negb]. cbn [own_params ep_salt ep_iter ep_keyLen ep_encData ep_nonce].
  fold pw in Hkek. rewrite Hkek. cbn [rbind]. rewrite length_app, Htag.
  rewrite (proj2 (Nat.ltb_ge _ _)) by lia. replace (_ + _ - _)%nat with (List.length ct) by lia.
  by rewrite take_app_length, drop_app_length, Hopen.
Qed.

(** Structural errors are all [TokenMalformed]. *)
Definition malformed_only (e : exn) : Prop := e = errors.tokenMalformed.

Lemma long_length_throws n buf lp len : throws_only malformed_only (long_length n buf lp len).
Proof.
  revert lp len. induction n as [|n IH]; intros lp len; cbn [long_length]; [done|].
  throws_steps ltac:(done).
Qed.
#[local] Hint Resolve long_length_throws : throws.

Lemma parse_tag_throws buf off tag : throws_only malformed_only (parse_tag buf off tag).
Proof. unfold parse_tag, parseTlv, expectTag. throws_steps ltac:(done). Qed.

Lemma bufToUint_throws b : throws_only malformed_only (bufToUint b).
Proof. unfold bufToUint. throws_steps ltac:(done). Qed.

Lemma fromPem_throws pem armor : throws_only malformed_only (fromPem pem armor).
Proof. unfold fromPem. throws_steps ltac:(done). Qed.
#[local] Hint Resolve parse_tag_throws bufToUint_throws : throws.

Lemma parse_envelope_throws der : throws_only malformed_only (parse_envelope der).
Proof. unfold parse_envelope. throws_steps ltac:(done). Qed.

(** No downgrade: a key that unwraps came out of an envelope of the fixed
    profile, derived with at least 100000 iterations of PBKDF2 into a 32-byte
    key, and authenticated by AES-GCM under a 12-byte nonce and a 16-byte
    tag; every other envelope is refused, with an error that does not tell a
    wrong passphrase from a weakened profile. *)
Theorem unwrap_profile pem passphrase :
  match unwrapEncryptedPkcs8 pem passphrase with
  | Ok der =>
      passphrase <> [] /\ exists salt iter nonce ct tag kek,
        100000 <= iter /\ pbkdf2 (utf8_encode passphrase) salt iter 32 = Ok kek
        /\ List.length nonce = 12%nat /\ List.length tag = 16%nat
        /\ gcm_open kek nonce ct tag = Some der
  | Throw e =>
      (passphrase = [] /\ e = errors.missingKeyPassphrase)
      \/ e = errors.tokenMalformed \/ e = errors.keyDecryptionFailed
      \/ exists salt iter, pbkdf2 (utf8_encode passphrase) salt iter 32 = Throw e
  end.
Proof.
  unfold unwrapEncryptedPkcs8. destruct passphrase as [|c pass]; [by left|]. set (pw := c :: pass).
  pose proof (fromPem_throws pem ENCRYPTED) as Hf.
  destruct (fromPem pem ENCRYPTED) as [outer|e]; cbn [rbind]; [|by right; left].
  pose proof (parse_envelope_throws outer) as Hp.
  destruct (parse_envelope outer) as [ep|e]; cbn [rbind]; [|by right; left].
  destruct (profileOK ep) eqn:Epr; cbn [negb]; [|by right; right; left].
  unfold profileOK in Epr. repeat (apply andb_prop in Epr as [Epr ?]). bool_prop.
  match goal with H : ep_keyLen ep = _ |- _ => rewrite H end.
  destruct (pbkdf2 (utf8_encode pw) (ep_salt ep) (ep_iter ep) KEY_LEN) as [kek|e] eqn:Ek; cbn [rbind].
  2: { right. right. right. eauto. }
  destruct (List.length (ep_encData ep) <? GCM_TAG_LEN)%nat eqn:El; [by right; left|].
  apply Nat.ltb_ge in El. destruct (gcm_open _ _ _ _) as [der|] eqn:Eo; [|by right; right; left].
  split; [done|]. eexists _, _, _, _, _, kek. split_and!; try done.
  - by apply Nat.eqb_eq.
  - rewrite length_drop. unfold GCM_TAG_LEN in *. lia.
Qed.
End Properties.

(** ** A concrete cipher

    A checksum in the place of the tag shows that the laws can hold. *)
Definition toy_tag (key pt : list Z) : list Z := repeat ((fold_left Z.add (key ++ pt) 0) mod 256) GCM_TAG_LEN.

#[global] Instance toy_pbes2 : Pbes2 := {
  pbkdf2 := fun pass salt iter len => Ok (take (Z.to_nat len) (pass ++ salt ++ repeat (iter mod 256) 32));
  gcm_seal := fun key _ pt => (pt, toy_tag key pt);
  gcm_open := fun key _ ct tag => if bool_decide (tag = toy_tag key ct) then Some ct else None
}.

#[global] Instance toy_pbes2_laws : Pbes2Laws toy_pbes2.
Proof.
  split; cbn; intros.
  - by rewrite bool_decide_true.
  - reflexivity.
  - split; [done|]. unfold is_byte. repeat (apply Forall_cons_2; [zdiv|]). by apply Forall_nil.
  - done.
Qed.

#[global] Instance world_fill : FillLaws World.
Proof.
  intros n w bytes w' [= <- _]. split; [by rewrite length_map, length_seq|].
  apply Forall_fmap, Forall_true. intros i. unfold is_byte. simpl. zdiv.
Qed.

Definition empty_world : World :=
  mkWorld emptyState 0 (fixedClock 0 (js "1970-01-01T00:00:00.000000Z")) (fun i => Z.of_nat i).

Definition toy_pem : jsstr :=
  match (wrapEncryptedPkcs8 [1; 2; 3] (js "pw") empty_world).1 with Ok p => p | Throw _ => [] end.

Lemma toy_wrap :
  exists w', wrapEncryptedPkcs8 [1; 2; 3] (js "pw") empty_world = (Ok toy_pem, w').
Proof.
  unfold toy_pem. destruct (wrapEncryptedPkcs8 _ _ _) as [[p|e] w'] eqn:E; [by exists w'|].
  exfalso. vm_compute in E. discriminate E.
Qed.

Lemma wrap_unwrap_witness : unwrapEncryptedPkcs8 toy_pem (js "pw") = Ok [1; 2; 3].
Proof.
  destruct toy_wrap as [w' H]. apply (wrap_unwrap [1; 2; 3] (js "pw") empty_world w' toy_pem);
    [decided|reflexivity|exact H].
Defined.

(** A length of four bytes with the top bit set is read as a negative number,
    which the bound check lets through: the content comes out empty instead
    of being refused. *)
Example negative_length_accepted :
  parseTlv [0x30; 0x84; 0xff; 0xff; 0xff; 0xff] 0 = Ok (mkTlv (Some 0x30) [] 5).
Proof. vm_compute. reflexivity. Qed.
