(* ===== verification/KeyHierarchy.v ===== *)
(** * KeyHierarchy: root and signing keys, attestation, rotation

    [src/typescript/src/key-hierarchy.ts]. The key store is an interface,
    [KeyStore], with the in-memory store of the source as an instance. Key
    generation, signing and the cipher are those of the runtime, behind
    [SignatureBackend] and [Pbes2]; [NodeCrypto] is what the source asks of
    [node:crypto] to read a public key back from PEM text. *)

From S2P Require Import Prelude Errors JsNum Text Json Canonical Types Crypto TokenCodec Storage EncryptedPkcs8.

(** ** Key stores *)

(** [KeyStoreFilter]: an absent field does not filter; [scope_id] may be
    given as [null]. *)
Record KeyStoreFilter : Type := mkKeyStoreFilter {
  ksf_scope_id : option (option UUIDv7);
  ksf_role : option KeyRole;
  ksf_state : option KeyState;
  ksf_alg : option KeyAlg
}.

Class KeyStore (W : Type) : Type := {
  ks_put : LicenseKey -> prog W unit;
  ks_get : UUIDv7 -> prog W (option LicenseKey);
  ks_findByKid : jsstr -> prog W (option LicenseKey);
  ks_list : KeyStoreFilter -> prog W (list LicenseKey);
  ks_update : UUIDv7 -> LicenseKey -> prog W unit
}.

(** The in-memory store: records by id, and the id of each kid. *)
Record InMemoryKeyStore : Type := mkKeyStore {
  byId : list (UUIDv7 * LicenseKey);
  byKid : list (jsstr * UUIDv7)
}.

Definition store_record (id : UUIDv7) (record : LicenseKey) (s : InMemoryKeyStore) : InMemoryKeyStore :=
  mkKeyStore (map_set (byId s) id record) (map_set (byKid s) (k_kid record) id).

Definition store_put (record : LicenseKey) : prog InMemoryKeyStore unit := fun s =>
  match map_get (byKid s) (k_kid record) with
  | Some existingId =>
      if bool_decide (existingId <> k_id record)
      then (Throw (errors.uniqueConstraintViolation (js "kid") (k_kid record)), s)
      else (Ok tt, store_record (k_id record) record s)
  | None => (Ok tt, store_record (k_id record) record s)
  end.

Definition store_get (id : UUIDv7) : prog InMemoryKeyStore (option LicenseKey) :=
  fun s => (Ok (map_get (byId s) id), s).

Definition store_findByKid (kid : jsstr) : prog InMemoryKeyStore (option LicenseKey) := fun s =>
  (Ok match map_get (byKid s) kid with
      | Some [] | None => None
      | Some id => map_get (byId s) id
      end, s).

Definition filter_passes {A} `{EqDecision A} (f : option A) (x : A) : bool :=
  match f with Some v => bool_decide (x = v) | None => true end.

Definition key_passes (f : KeyStoreFilter) (rec : LicenseKey) : bool :=
  filter_passes (ksf_scope_id f) (k_scope_id rec) && filter_passes (ksf_role f) (k_role rec)
  && filter_passes (ksf_state f) (k_state rec) && filter_passes (ksf_alg f) (k_alg rec).

(** By [created_at], then by id. *)
Definition key_order (a b : LicenseKey) : Prop :=
  if bool_decide (k_created_at a = k_created_at b) then str_le (k_id a) (k_id b)
  else str_le (k_created_at a) (k_created_at b).
#[global] Instance key_order_dec a b : Decision (key_order a b).
Proof. unfold key_order. destruct (bool_decide _); apply _. Defined.

Definition store_list (f : KeyStoreFilter) : prog InMemoryKeyStore (list LicenseKey) :=
  fun s => (Ok (merge_sort key_order (List.filter (key_passes f) (byId s).*2)), s).

Definition store_update (id : UUIDv7) (next : LicenseKey) : prog InMemoryKeyStore unit := fun s =>
  if negb (map_has (byId s) id) then (Throw errors.tokenMalformed, s)
  else if bool_decide (id <> k_id next) then (Throw errors.tokenMalformed, s)
  else (Ok tt, store_record id next s).

(** ** Options *)

Record GenerateRootOptions : Type := mkGenerateRoot {
  gr_scope_id : option UUIDv7;
  gr_alg : KeyAlg;
  gr_passphrase : jsstr;
  gr_not_after : option Instant;
  gr_kid : option jsstr;
  gr_meta : option jsval
}.

Record IssueSigningOptions : Type := mkIssueSigning {
  is_scope_id : option UUIDv7;
  is_alg : KeyAlg;
  is_rootKid : jsstr;
  is_rootPassphrase : jsstr;
  is_signingPassphrase : jsstr;
  is_not_after : option Instant;
  is_kid : option jsstr
}.

(** [retireOutgoingAt] may be absent, [null] or an instant. *)
Record RotateSigningOptions : Type := mkRotateSigning {
  rs_scope_id : option UUIDv7;
  rs_alg : KeyAlg;
  rs_rootKid : jsstr;
  rs_rootPassphrase : jsstr;
  rs_signingPassphrase : jsstr;
  rs_retireOutgoingAt : option (option Instant);
  rs_kid : option jsstr
}.

(** ** Helpers *)

Definition nullable (o : option jsstr) : jsval := match o with Some s => JStr s | None => JNull end.

(** [{ ...m }]: a new plain object with the own properties. *)
Definition freezeMeta (m : option jsval) : jsval :=
  match m with Some (JObj _ props) => plain props | _ => plain [] end.

(** What a root attests about a signing key. *)
Record Attested : Type := mkAttested {
  at_kid : jsstr;
  at_alg : KeyAlg;
  at_publicRaw : list Z;
  at_not_before : Instant;
  at_not_after : option Instant
}.

Definition attestationCanonical (signing : Attested) : res (list Z) :=
  canonicalize (plain [(js "kid", JStr (at_kid signing)); (js "alg", JStr (alg_str (at_alg signing)));
    (js "pub", JStr (base64url.encode (at_publicRaw signing)));
    (js "not_before", JStr (at_not_before signing)); (js "not_after", nullable (at_not_after signing))]).

Definition PRIVATE : jsstr := js "PRIVATE KEY".
Definition pkcs8PemToDer (pem : jsstr) : res (list Z) := fromPem pem PRIVATE.
Definition derToPkcs8Pem (der : list Z) : jsstr := toPem der PRIVATE.

(** An empty PEM text is falsy. *)
Definition pemToDerIfPresent (privatePem : option jsstr) (privateRaw : option (list Z)) : res (option (list Z)) :=
  match privatePem with
  | Some ((_ :: _) as pem) => let? der := pkcs8PemToDer pem in Ok (Some der)
  | _ => Ok privateRaw
  end.

(** [createPublicKey] and the two exports the source uses. *)
Class NodeCrypto : Type := {
  KeyObject : Type;
  createPublicKey : jsstr -> res KeyObject;
  export_jwk_x : KeyObject -> option jsstr;
  export_spki : KeyObject -> list Z
}.

Definition extractPublicRawFromRecord {NC : NodeCrypto} (record : LicenseKey) : res (list Z) :=
  let? k := createPublicKey (k_public_pem record) in
  match k_alg record with
  | ed25519 =>
      match export_jwk_x k with
      | Some x => Ok (buffer_from_base64 x)
      | None => Throw errors.tokenMalformed
      end
  | rs256_pss => Ok (export_spki k)
  | hs256 => Throw (errors.unsupportedAlgorithm (alg_str hs256))
  end.

(** The default kid: role, the timestamp groups and the last random group. *)
Definition default_kid (role : KeyRole) (id : UUIDv7) : jsstr :=
  let part i := nth i (split_on 45 id) (js "undefined") in
  role_str role ++ js "-" ++ part 0%nat ++ part 1%nat ++ js "-" ++ part 3%nat.

Definition truthy (v : jsval) : bool :=
  match v with
  | JUndefined | JNull | JBool false | JStr [] | JNum NaN | JNum NegZero | JNum (Fin 0 _) | JBig 0 => false
  | _ => true
  end.

(** ** The hierarchy *)

Section KeyHierarchy.
Context {KH : KeyHandles} {P : Pbes2} {W : Type} {HC : HasClock W} {HE : HasEntropy W} {KS : KeyStore W}.
Context (backends : list (KeyAlg * SignatureBackend)) (makeKid : KeyRole -> UUIDv7 -> jsstr).

Definition hierarchy_backend (alg : KeyAlg) : res SignatureBackend :=
  match map_get backends alg with
  | Some b => Ok b
  | None => Throw (errors.unsupportedAlgorithm (alg_str alg))
  end.

Definition ensureAsymmetricAlg (alg : KeyAlg) : res unit :=
  match alg with
  | hs256 => Throw (errors.unsupportedAlgorithm
      (js "symmetric algorithms (hs256) are not supported by the key hierarchy; manage HMAC secrets outside this layer"))
  | _ => Ok tt
  end.

(** [backend.generate(passphrase)], with the entropy the runtime draws. *)
Definition generate (backend : SignatureBackend) (passphrase : jsstr)
  : prog W (PemKeyMaterial * RawKeyMaterial) :=
  let* entropy := randomFill 32 in lift (b_generate backend passphrase entropy).

(** The private half, encrypted for storage. *)
Definition wrap_private (pem : PemKeyMaterial) (raw : RawKeyMaterial) (passphrase : jsstr)
  : prog W (option jsstr) :=
  let* privateDer := lift (pemToDerIfPresent (privatePem pem) (privateRaw raw)) in
  match privateDer with
  | Some der => let* enc := wrapEncryptedPkcs8 der passphrase in ret (Some enc)
  | None => ret None
  end.

Definition generateRoot (opts : GenerateRootOptions) : prog W LicenseKey :=
  match gr_passphrase opts with
  | [] => throw errors.missingKeyPassphrase
  | _ =>
      do* lift (ensureAsymmetricAlg (gr_alg opts));
      let* backend := lift (hierarchy_backend (gr_alg opts)) in
      let* (pem, raw) := generate backend (gr_passphrase opts) in
      let* id := freshUuid in
      let kid := given_or (gr_kid opts) (makeKid root id) in
      let* now := nowIso in
      let* privateEnc := wrap_private pem raw (gr_passphrase opts) in
      let record := mkKey id (gr_scope_id opts) kid (gr_alg opts) root k_active (publicPem pem)
                      privateEnc None None now (gr_not_after opts) (freezeMeta (gr_meta opts)) now now in
      do* ks_put record;
      ret record
  end.

Definition requireRoot (rootKid : jsstr) (alg : KeyAlg) (scope_id : option UUIDv7) : prog W LicenseKey :=
  let* found := ks_findByKid rootKid in
  match found with
  | None => throw (errors.unknownKid rootKid)
  | Some r =>
      if bool_decide (k_role r <> root) then throw errors.tokenMalformed
      else if bool_decide (k_alg r <> alg)
      then throw (errors.algorithmMismatch (alg_str (k_alg r)) (alg_str alg))
      else if bool_decide (k_scope_id r <> scope_id) then throw errors.tokenMalformed
      else ret r
  end.

(** Open the private half of a stored key. *)
Definition import_stored (record : LicenseKey) (enc passphrase : jsstr) : res (SignatureBackend * PrivateKeyHandle) :=
  let? backend := hierarchy_backend (k_alg record) in
  let? plaintextDer := unwrapEncryptedPkcs8 enc passphrase in
  let pemText := derToPkcs8Pem plaintextDer in
  let? handle := b_importPrivate backend (PemMaterial (mkPem (Some pemText) (k_public_pem record))) None in
  Ok (backend, handle).

Record RootAttestation : Type := mkAttestation {
  ra_canonical : list Z;
  ra_signature : list Z;
  ra_root_kid : jsstr
}.

Definition attestSigning (r : LicenseKey) (passphrase : jsstr) (signing : Attested) : res RootAttestation :=
  match k_private_pem_enc r with
  | None | Some [] => Throw errors.tokenMalformed
  | Some enc =>
      let? (backend, priv) := import_stored r enc passphrase in
      let? canonical := attestationCanonical signing in
      let? signature := b_sign backend priv canonical in
      Ok (mkAttestation canonical signature (k_kid r))
  end.

Definition attestation_meta (att : RootAttestation) : jsval :=
  freezeMeta (Some (plain [(js "root_attestation",
    plain [(js "root_kid", JStr (ra_root_kid att));
           (js "signature", JStr (base64url.encode (ra_signature att)))])])).

Definition signer_query (scope_id : option UUIDv7) (alg : KeyAlg) : KeyStoreFilter :=
  mkKeyStoreFilter (Some scope_id) (Some signing) (Some k_active) (Some alg).

Definition duplicate_signer (scope_id : option UUIDv7) (alg : KeyAlg) (suffix : jsstr) : exn :=
  errors.uniqueConstraintViolation (js "active_signing_per_scope")
    (given_or scope_id (js "global") ++ js "/" ++ alg_str alg ++ suffix).

Definition issueSigning (opts : IssueSigningOptions) : prog W LicenseKey :=
  match is_signingPassphrase opts, is_rootPassphrase opts with
  | [], _ | _, [] => throw errors.missingKeyPassphrase
  | _, _ =>
      do* lift (ensureAsymmetricAlg (is_alg opts));
      let* existing := ks_list (signer_query (is_scope_id opts) (is_alg opts)) in
      match existing with
      | _ :: _ => throw (duplicate_signer (is_scope_id opts) (is_alg opts) [])
      | [] =>
          let* r := requireRoot (is_rootKid opts) (is_alg opts) (is_scope_id opts) in
          let* backend := lift (hierarchy_backend (is_alg opts)) in
          let* (pem, raw) := generate backend (is_signingPassphrase opts) in
          let* id := freshUuid in
          let kid := given_or (is_kid opts) (makeKid signing id) in
          let* now := nowIso in
          let* privateEnc := wrap_private pem raw (is_signingPassphrase opts) in
          let* attestation := lift (attestSigning r (is_rootPassphrase opts)
            (mkAttested kid (is_alg opts) (publicRaw raw) now (is_not_after opts))) in
          let record := mkKey id (is_scope_id opts) kid (is_alg opts) signing k_active (publicPem pem)
                          privateEnc None None now (is_not_after opts) (attestation_meta attestation)
                          now now in
          do* ks_put record;
          ret record
      end
  end.

(** [{ ...outgoing, state: 'retiring', not_after, rotated_at: now, updated_at: now }] *)
Definition retire (outgoing : LicenseKey) (retireOutgoingAt : option (option Instant)) (now : Instant) : LicenseKey :=
  mkKey (k_id outgoing) (k_scope_id outgoing) (k_kid outgoing) (k_alg outgoing) (k_role outgoing)
    k_retiring (k_public_pem outgoing) (k_private_pem_enc outgoing) (k_rotated_from outgoing)
    (Some now) (k_not_before outgoing) (given_or retireOutgoingAt (k_not_after outgoing))
    (k_meta outgoing) (k_created_at outgoing) now.

(** [{ ...issued, rotated_from, updated_at: now }] *)
Definition link_rotated (issued : LicenseKey) (from : UUIDv7) (now : Instant) : LicenseKey :=
  mkKey (k_id issued) (k_scope_id issued) (k_kid issued) (k_alg issued) (k_role issued)
    (k_state issued) (k_public_pem issued) (k_private_pem_enc issued) (Some from)
    (k_rotated_at issued) (k_not_before issued) (k_not_after issued) (k_meta issued)
    (k_created_at issued) now.

(** The demotion of the outgoing key is stored before the new key is
    issued. *)
Definition rotateSigning (opts : RotateSigningOptions) : prog W (LicenseKey * LicenseKey) :=
  let* actives := ks_list (signer_query (rs_scope_id opts) (rs_alg opts)) in
  match actives with
  | [] => throw errors.tokenMalformed
  | _ :: _ :: _ =>
      throw (duplicate_signer (rs_scope_id opts) (rs_alg opts)
        (js " (found " ++ dec (Z.of_nat (List.length actives)) ++ js ")"))
  | [outgoingActive] =>
      let* now := nowIso in
      let retiringRec := retire outgoingActive (rs_retireOutgoingAt opts) now in
      do* ks_update (k_id outgoingActive) retiringRec;
      let* issued := issueSigning (mkIssueSigning (rs_scope_id opts) (rs_alg opts) (rs_rootKid opts)
        (rs_rootPassphrase opts) (rs_signingPassphrase opts) None (rs_kid opts)) in
      let linked := link_rotated issued (k_id outgoingActive) now in
      do* ks_update (k_id issued) linked;
      ret (retiringRec, linked)
  end.

(** [meta.root_attestation], when both fields are truthy. *)
Definition stored_attestation (meta : jsval) : option (jsval * jsval) :=
  let att := get_prop meta (js "root_attestation") in
  let root_kid := get_prop att (js "root_kid") in
  let signature := get_prop att (js "signature") in
  if truthy root_kid && truthy signature then Some (root_kid, signature) else None.

(** A [root_kid] or a signature that is not a string (only a damaged record
    has one) is not found, respectively fails inside [b64urlDecode]. *)
Definition verifyAttestation {NC : NodeCrypto} (signingKid : jsstr) : prog W bool :=
  let* found := ks_findByKid signingKid in
  match found with
  | None => ret false
  | Some s =>
      if bool_decide (k_role s <> signing) then ret false
      else match stored_attestation (k_meta s) with
      | Some (JStr root_kid, signature) =>
          let* found_root := ks_findByKid root_kid in
          match found_root with
          | None => ret false
          | Some r =>
              if bool_decide (k_role r <> root) || bool_decide (k_alg r <> k_alg s) then ret false
              else
                let* backend := lift (hierarchy_backend (k_alg s)) in
                let* pub := lift (b_importPublic backend (PemMaterial (mkPem None (k_public_pem r)))) in
                let* publicRaw := lift (extractPublicRawFromRecord s) in
                let* canonical := lift (attestationCanonical (mkAttested (k_kid s) (k_alg s) publicRaw
                  (k_not_before s) (k_not_after s))) in
                let* sig := lift (match signature with
                                  | JStr t => base64url.decode t
                                  | _ => Throw PlainError
                                  end) in
                lift (b_verify backend pub canonical sig)
          end
      | _ => ret false
      end
  end.

Definition importSigningPrivate (kid passphrase : jsstr) : prog W (LicenseKey * PrivateKeyHandle) :=
  match passphrase with
  | [] => throw errors.missingKeyPassphrase
  | _ =>
      let* found := ks_findByKid kid in
      match found with
      | None => throw (errors.unknownKid kid)
      | Some record =>
          if bool_decide (k_role record <> signing) then throw errors.tokenMalformed
          else match k_private_pem_enc record with
          | None | Some [] => throw errors.tokenMalformed
          | Some enc =>
              let* (_, handle) := lift (import_stored record enc passphrase) in
              ret (record, handle)
          end
      end
  end.

Definition hierarchy_list (filter : KeyStoreFilter) : prog W (list LicenseKey) := ks_list filter.
Definition hierarchy_findByKid (kid : jsstr) : prog W (option LicenseKey) := ks_findByKid kid.
End KeyHierarchy.
