(* ===== verification/KeyHierarchyProps.v ===== *)
(** * KeyHierarchyProps: one active signer, working keys, honest attestations

    The theorems about [KeyHierarchy] over the in-memory key store. *)

From S2P Require Import Prelude Errors JsNum Text Json Canonical Types Crypto TokenCodec Id Storage Memory EncryptedPkcs8 EncryptedPkcs8Props KeyHierarchy.

(** ** The world of a hierarchy: its store, a clock, entropy *)

Record KeyWorld : Type := mkKeyWorld {
  kw_store : InMemoryKeyStore;
  kw_clock : Clock;
  kw_entropy : nat -> Z
}.

#[global] Instance kw_has_clock : HasClock KeyWorld := {|
  nowMs := fun w => let '(ms, c) := clock_nowMs (kw_clock w) in
                    (Ok ms, mkKeyWorld (kw_store w) c (kw_entropy w));
  nowIso := fun w => let '(r, c) := clock_nowIso (kw_clock w) in
                     (r, mkKeyWorld (kw_store w) c (kw_entropy w))
|}.

#[global] Instance kw_has_entropy : HasEntropy KeyWorld := {|
  randomFill := fun n w =>
    (Ok (map (fun i => kw_entropy w i mod 256) (seq 0 n)),
     mkKeyWorld (kw_store w) (kw_clock w) (fun i => kw_entropy w (n + i)%nat))
|}.

Definition on_store {A} (c : prog InMemoryKeyStore A) : prog KeyWorld A := fun w =>
  let '(r, s) := c (kw_store w) in (r, mkKeyWorld s (kw_clock w) (kw_entropy w)).

#[global] Instance kw_key_store : KeyStore KeyWorld := {|
  ks_put := fun record => on_store (store_put record);
  ks_get := fun id => on_store (store_get id);
  ks_findByKid := fun kid => on_store (store_findByKid kid);
  ks_list := fun f => on_store (store_list f);
  ks_update := fun id next => on_store (store_update id next)
|}.

#[global] Instance kw_fill : FillLaws KeyWorld.
Proof.
  intros n w bytes w' [= <- _]. split; [by rewrite length_map, length_seq|].
  apply Forall_fmap, Forall_true. intros i. unfold is_byte. simpl. zdiv.
Qed.

(** ** The store stays sound *)

(** Ids are keys, every kid leads to its record, and a scope has at most one
    active signing key per algorithm. *)
Record store_ok (s : InMemoryKeyStore) : Prop := {
  so_nodup : NoDup (byId s).*1;
  so_ids : forall id r, map_get (byId s) id = Some r -> k_id r = id;
  so_kids : forall id r, map_get (byId s) id = Some r -> map_get (byKid s) (k_kid r) = Some id;
  so_one_active : forall id1 id2 r1 r2,
    map_get (byId s) id1 = Some r1 -> map_get (byId s) id2 = Some r2 ->
    k_role r1 = signing -> k_role r2 = signing -> k_state r1 = k_active -> k_state r2 = k_active ->
    k_scope_id r1 = k_scope_id r2 -> k_alg r1 = k_alg r2 -> id1 = id2
}.

(** No record passes the filter. *)
Definition none_pass (f : KeyStoreFilter) (s : InMemoryKeyStore) : Prop :=
  forall id r, map_get (byId s) id = Some r -> key_passes f r = false.

Lemma filter_passes_iff {A} `{EqDecision A} (f : A) (x : A) : filter_passes (Some f) x = true <-> x = f.
Proof. apply bool_decide_eq_true. Qed.

Lemma active_passes scope alg r :
  key_passes (signer_query scope alg) r = true <->
  k_scope_id r = scope /\ k_role r = signing /\ k_state r = k_active /\ k_alg r = alg.
Proof. unfold key_passes, signer_query. cbn. rewrite !andb_true_iff, !bool_decide_eq_true. tauto. Qed.

Lemma store_list_elem f s l s' :
  store_list f s = (Ok l, s') ->
  s' = s /\ forall r, r ∈ l <-> r ∈ (byId s).*2 /\ key_passes f r = true.
Proof.
  intros [= <- <-]. split; [done|]. intros r. rewrite merge_sort_Permutation. apply elem_filter.
Qed.

Lemma store_list_nil f s s' : store_list f s = (Ok [], s') -> none_pass f s.
Proof.
  intros [_ H]%store_list_elem id r Hg. destruct (key_passes f r) eqn:E; [|done].
  destruct (not_elem_of_nil r). apply H. split; [|done].
  apply (list_elem_of_fmap_2 snd _ (id, r)), map_get_elem, Hg.
Qed.

(** Storing a record under its id: sound when the kid was free or its own,
    and no other active signing key shares its scope and algorithm. *)
Lemma store_record_ok s r :
  store_ok s ->
  (forall id, map_get (byKid s) (k_kid r) = Some id -> id = k_id r) ->
  (forall id r', map_get (byId s) id = Some r' -> id <> k_id r ->
     k_role r = signing -> k_state r = k_active -> key_passes (signer_query (k_scope_id r) (k_alg r)) r' = false) ->
  store_ok (store_record (k_id r) r s).
Proof.
  intros [Hn Hi Hk Ho] Hkid Hact.
  assert (Hget : forall id r', map_get (byId (store_record (k_id r) r s)) id = Some r' ->
    id = k_id r /\ r' = r \/ id <> k_id r /\ map_get (byId s) id = Some r').
  { intros id r'. cbn. destruct (decide (id = k_id r)) as [->|Hne].
    - rewrite map_get_set_eq. intros [= <-]. by left.
    - rewrite map_get_set_ne by done. by right. }
  split.
  - cbn. by apply map_set_NoDup.
  - intros id r' [[-> ->]|[_ H]]%Hget; eauto.
  - intros id r' [[-> ->]|[Hne H]]%Hget; cbn; [apply map_get_set_eq|].
    destruct (decide (k_kid r' = k_kid r)) as [E|E].
    + destruct Hne. apply Hkid. rewrite <- E. by apply Hk.
    + rewrite map_get_set_ne by done. by apply Hk.
  - intros id1 id2 r1 r2 [[-> ->]|[Hne1 H1]]%Hget [[-> ->]|[Hne2 H2]]%Hget R1 R2 S1 S2 Hs Ha;
      [done| | |by eapply Ho].
    + pose proof (Hact _ _ H2 Hne2 R1 S1) as Hf. exfalso. enough (false = true) by done. rewrite <- Hf.
      apply active_passes. by rewrite Hs, Ha.
    + pose proof (Hact _ _ H1 Hne1 R2 S2) as Hf. exfalso. enough (false = true) by done. rewrite <- Hf.
      apply active_passes. by rewrite <- Hs, <- Ha.
Qed.

Lemma store_put_inv r s res s' :
  store_put r s = (res, s') ->
  (res = Ok tt /\ s' = store_record (k_id r) r s
   /\ forall id, map_get (byKid s) (k_kid r) = Some id -> id = k_id r)
  \/ (exists e, res = Throw e) /\ s' = s.
Proof.
  unfold store_put. destruct (map_get (byKid s) (k_kid r)) as [id|]; [case_bool_decide|]; intros [= <- <-].
  - right. eauto.
  - left. split_and!; [done..|]. intros ? [= <-]. by destruct (decide (id = k_id r)).
  - by left.
Qed.

Lemma store_update_inv id r s res s' :
  store_update id r s = (res, s') ->
  (res = Ok tt /\ s' = store_record id r s /\ id = k_id r /\ exists r0, map_get (byId s) id = Some r0)
  \/ (exists e, res = Throw e) /\ s' = s.
Proof.
  unfold store_update, map_has. destruct (map_get (byId s) id) as [r0|]; cbn; [|intros [= <- <-]; right; eauto].
  case_bool_decide; intros [= <- <-]; [right; eauto|]. left. split_and!; eauto.
Qed.

(** ** Steps that leave the store alone *)

Definition still {A} (c : prog KeyWorld A) : Prop :=
  forall w r w', c w = (r, w') -> kw_store w' = kw_store w.

(** What throws has not touched the store. *)
Definition safe_fail {A} (c : prog KeyWorld A) : Prop :=
  forall w e w', c w = (Throw e, w') -> kw_store w' = kw_store w.

Section Still.
Context {A B : Type}.

Lemma still_ret (a : A) : still (ret a).
Proof. by intros w r w' [= _ <-]. Qed.
Lemma still_throw e : still (throw e : prog KeyWorld A).
Proof. by intros w r w' [= _ <-]. Qed.
Lemma still_lift (x : res A) : still (lift x).
Proof. by intros w r w' [= _ <-]. Qed.
Lemma still_bind (c : prog KeyWorld A) (k : A -> prog KeyWorld B) :
  still c -> (forall a, still (k a)) -> still (bind c k).
Proof.
  intros Hc Hk w r w' H. unfold bind in H. destruct (c w) as [[a|e] w1] eqn:E.
  - by rewrite (Hk _ _ _ _ H), (Hc _ _ _ E).
  - injection H as _ <-. exact (Hc _ _ _ E).
Qed.
Lemma safe_fail_still (c : prog KeyWorld A) : still c -> safe_fail c.
Proof. intros H w e w' E. exact (H _ _ _ E). Qed.
Lemma safe_fail_bind (c : prog KeyWorld A) (k : A -> prog KeyWorld B) :
  still c -> (forall a, safe_fail (k a)) -> safe_fail (bind c k).
Proof.
  intros Hc Hk w r w' H. unfold bind in H. destruct (c w) as [[a|e] w1] eqn:E.
  - by rewrite (Hk _ _ _ _ H), (Hc _ _ _ E).
  - injection H as _ <-. exact (Hc _ _ _ E).
Qed.
End Still.

Lemma still_nowIso : still nowIso.
Proof. intros w r w' H. cbn in H. destruct (clock_nowIso _). by injection H as _ <-. Qed.
Lemma still_nowMs : still nowMs.
Proof. intros w r w' H. cbn in H. destruct (clock_nowMs _). by injection H as _ <-. Qed.
Lemma still_randomFill n : still (randomFill n).
Proof. intros w r w' H. by injection H as _ <-. Qed.
Lemma still_find kid : still (ks_findByKid kid).
Proof. by intros w r w' [= _ <-]. Qed.
Lemma still_list f : still (ks_list f).
Proof. by intros w r w' [= _ <-]. Qed.

Create HintDb still.
#[export] Hint Resolve still_ret still_throw still_lift still_nowIso still_nowMs still_randomFill still_find still_list : still.

(** Follow a body step by step. *)
Ltac still_steps :=
  repeat match goal with
  | |- still (bind _ _) => apply still_bind; [|intros]
  | |- still (if ?b then _ else _) => destruct b
  | |- still (match ?x with _ => _ end) => destruct x
  | |- still _ => solve [auto with still]
  end.

Lemma still_freshUuid : still freshUuid.
Proof. unfold freshUuid. still_steps. Qed.
#[export] Hint Resolve still_freshUuid : still.

Section Hierarchy.
Context {KH : KeyHandles} {P : Pbes2}.
Context (backends : list (KeyAlg * SignatureBackend)) (makeKid : KeyRole -> UUIDv7 -> jsstr).

Lemma still_wrap der pass : still (wrapEncryptedPkcs8 der pass).
Proof. unfold wrapEncryptedPkcs8. still_steps. Qed.
#[local] Hint Resolve still_wrap : still.

Lemma still_wrap_private pem raw pass : still (wrap_private pem raw pass).
Proof. unfold wrap_private. still_steps. Qed.
Lemma still_generate b pass : still (generate b pass).
Proof. unfold generate. still_steps. Qed.
Lemma still_requireRoot kid alg scope : still (requireRoot kid alg scope).
Proof. unfold requireRoot. still_steps. Qed.
#[local] Hint Resolve still_wrap_private still_generate still_requireRoot : still.

Lemma put_ret_safe_fail r : safe_fail (do* ks_put r; ret r).
Proof.
  intros w e w' H. unfold bind in H. cbn in H. unfold on_store in H.
  destruct (store_put r (kw_store w)) as [res s] eqn:E.
  destruct (store_put_inv _ _ _ _ E) as [(-> & _)|[[e' ->] ->]]; [done|]. by injection H as _ <-.
Qed.

Lemma generateRoot_safe_fail opts : safe_fail (generateRoot backends makeKid opts).
Proof.
  unfold generateRoot. destruct (gr_passphrase opts); [apply safe_fail_still; auto with still|].
  repeat (apply safe_fail_bind; [solve [auto with still]|intros; cbv beta zeta; repeat match goal with x : (_ * _)%type |- _ => destruct x end]).
  apply put_ret_safe_fail.
Qed.

Lemma issueSigning_safe_fail opts : safe_fail (issueSigning backends makeKid opts).
Proof.
  unfold issueSigning. destruct (is_signingPassphrase opts); [apply safe_fail_still; auto with still|].
  destruct (is_rootPassphrase opts); [apply safe_fail_still; auto with still|].
  apply safe_fail_bind; [solve [auto with still]|intros []].
  apply safe_fail_bind; [solve [auto with still]|intros [|]]; [|apply safe_fail_still; auto with still].
  repeat (apply safe_fail_bind; [solve [auto with still]|intros; cbv beta zeta; repeat match goal with x : (_ * _)%type |- _ => destruct x end]).
  apply put_ret_safe_fail.
Qed.

(** ** What a successful call did *)

Definition find_kid (s : InMemoryKeyStore) (kid : jsstr) : option LicenseKey :=
  match map_get (byKid s) kid with
  | Some [] | None => None
  | Some id => map_get (byId s) id
  end.

(** A key freshly generated by [b] and wrapped under [pass]. *)
Definition fresh_key (b : SignatureBackend) (pass : jsstr) (raw : RawKeyMaterial) (k : LicenseKey) : Prop :=
  pass <> [] /\ exists entropy pem (w1 w2 : KeyWorld),
    b_generate b pass entropy = Ok (pem, raw) /\ k_public_pem k = publicPem pem
    /\ wrap_private pem raw pass w1 = (Ok (k_private_pem_enc k), w2).

Record root_made (opts : GenerateRootOptions) (st : InMemoryKeyStore) (r : LicenseKey) : Prop := {
  rm_shape : k_role r = root /\ k_state r = k_active /\ k_scope_id r = gr_scope_id opts
             /\ k_alg r = gr_alg opts;
  rm_kid : forall id, map_get (byKid st) (k_kid r) = Some id -> id = k_id r;
  rm_key : exists b raw, map_get backends (k_alg r) = Some b /\ fresh_key b (gr_passphrase opts) raw r
}.

Record signing_made (opts : IssueSigningOptions) (st : InMemoryKeyStore) (s : LicenseKey) : Prop := {
  sm_shape : k_role s = signing /\ k_state s = k_active /\ k_scope_id s = is_scope_id opts
             /\ k_alg s = is_alg opts /\ k_rotated_from s = None;
  sm_id : k_id s <> [];
  sm_free : none_pass (signer_query (is_scope_id opts) (is_alg opts)) st;
  sm_kid : forall id, map_get (byKid st) (k_kid s) = Some id -> id = k_id s;
  sm_key : exists b raw r att,
    map_get backends (k_alg s) = Some b /\ fresh_key b (is_signingPassphrase opts) raw s
    /\ find_kid st (is_rootKid opts) = Some r /\ k_role r = root /\ k_alg r = k_alg s
    /\ k_scope_id r = k_scope_id s
    /\ attestSigning backends r (is_rootPassphrase opts)
         (mkAttested (k_kid s) (k_alg s) (publicRaw raw) (k_not_before s) (k_not_after s)) = Ok att
    /\ k_meta s = attestation_meta att
}.

Lemma hierarchy_backend_ok alg b : hierarchy_backend backends alg = Ok b -> map_get backends alg = Some b.
Proof. unfold hierarchy_backend. destruct (map_get backends alg); [|done]. by intros ->%Ok_inj. Qed.

Lemma generate_inv b pass (w w' : KeyWorld) pem raw :
  generate b pass w = (Ok (pem, raw), w') -> exists entropy, b_generate b pass entropy = Ok (pem, raw).
Proof. unfold generate. intros (e & w1 & _ & H)%bind_ok_inv. apply lift_ok_inv in H as [H _]. eauto. Qed.

Lemma put_ret_inv r (w : KeyWorld) r' w' :
  bind (ks_put r) (fun _ => ret r) w = (Ok r', w') ->
  r' = r /\ kw_store w' = store_record (k_id r) r (kw_store w)
  /\ forall id, map_get (byKid (kw_store w)) (k_kid r) = Some id -> id = k_id r.
Proof.
  intros (u & w1 & E & H)%bind_ok_inv. unfold ret in H. apply Ok_pair_inj in H as [<- <-].
  cbn in E. unfold on_store in E. destruct (store_put r (kw_store w)) as [res s] eqn:Es.
  destruct (store_put_inv _ _ _ _ Es) as [(-> & -> & Hk)|[[e ->] _]]; [|done].
  injection E as _ <-. by split_and!.
Qed.

Lemma generateRoot_inv opts w r w' :
  generateRoot backends makeKid opts w = (Ok r, w') ->
  root_made opts (kw_store w) r /\ kw_store w' = store_record (k_id r) r (kw_store w).
Proof.
  unfold generateRoot. destruct (gr_passphrase opts) as [|c pw] eqn:Ep; [done|].
  intros (u & w1 & H1 & H)%bind_ok_inv. apply lift_ok_inv in H1 as [_ ->].
  apply bind_ok_inv in H as (b & w2 & H2 & H). apply lift_ok_inv in H2 as [Hb ->].
  apply bind_ok_inv in H as ([pem raw] & w3 & H3 & H).
  apply bind_ok_inv in H as (id & w4 & H4 & H). apply bind_ok_inv in H as (now & w5 & H5 & H).
  apply bind_ok_inv in H as (enc & w6 & H6 & H). cbv zeta in H.
  pose proof (still_generate _ _ _ _ _ H3) as S3. pose proof (still_freshUuid _ _ _ H4) as S4.
  pose proof (still_nowIso _ _ _ H5) as S5. pose proof (still_wrap_private _ _ _ _ _ _ H6) as S6.
  apply put_ret_inv in H as (-> & Hs & Hk). rewrite S6, S5, S4, S3 in Hs, Hk.
  split; [|done]. split; [done|done|]. apply hierarchy_backend_ok in Hb.
  apply generate_inv in H3 as [e He]. exists b, raw. split; [done|]. rewrite Ep.
  split; [done|]. exists e, pem, w5, w6. by rewrite He.
Qed.

(** No root is symmetric. *)
Lemma generateRoot_asymmetric opts w r w' :
  generateRoot backends makeKid opts w = (Ok r, w') -> k_alg r <> hs256.
Proof.
  intros H. pose proof (generateRoot_inv _ _ _ _ H) as [[(_ & _ & _ & ->) _ _] _]. revert H.
  unfold generateRoot. destruct (gr_passphrase opts); [done|]. intros (u & w1 & H1 & _)%bind_ok_inv.
  apply lift_ok_inv in H1 as [H1 _]. by destruct (gr_alg opts).
Qed.

Lemma freshUuid_nonempty (w : KeyWorld) id w' : freshUuid w = (Ok id, w') -> id <> [].
Proof.
  unfold freshUuid. intros (ms & w1 & _ & H)%bind_ok_inv. destruct (_ || _) in H; [done|].
  apply bind_ok_inv in H as (r & w2 & _ & H). apply lift_ok_inv in H as [H _].
  unfold newUuidV7 in H. destruct (_ || _) in H; [done|]. apply Ok_inj in H as <-.
  unfold formatUuid. by destruct (hex_bytes _).
Qed.

Lemma requireRoot_inv kid alg scope (w : KeyWorld) r w' :
  requireRoot kid alg scope w = (Ok r, w') ->
  find_kid (kw_store w) kid = Some r /\ k_role r = root /\ k_alg r = alg /\ k_scope_id r = scope.
Proof.
  unfold requireRoot. intros (found & w1 & Hf & H)%bind_ok_inv.
  assert (found = find_kid (kw_store w) kid) as -> by (by injection Hf as <- _).
  destruct (find_kid _ _) as [r0|]; [|done].
  destruct (bool_decide (k_role r0 <> root)) eqn:E1; [done|].
  destruct (bool_decide (k_alg r0 <> alg)) eqn:E2; [done|].
  destruct (bool_decide (k_scope_id r0 <> scope)) eqn:E3; [done|]. bool_prop.
  apply Ok_pair_inj in H as [<- _]. split_and!; [done|by apply dec_stable..].
Qed.

Lemma issueSigning_inv opts w s w' :
  issueSigning backends makeKid opts w = (Ok s, w') ->
  signing_made opts (kw_store w) s /\ kw_store w' = store_record (k_id s) s (kw_store w).
Proof.
  unfold issueSigning. destruct (is_signingPassphrase opts) as [|c pw] eqn:Ep; [done|].
  destruct (is_rootPassphrase opts) as [|c' pw'] eqn:Erp; [done|].
  intros (u & w1 & H1 & H)%bind_ok_inv. apply lift_ok_inv in H1 as [_ ->].
  apply bind_ok_inv in H as (existing & w2 & H2 & H).
  pose proof (still_list _ _ _ _ H2) as S2.
  destruct existing as [|]; [|done]. apply bind_ok_inv in H as (r & w3 & H3 & H).
  apply bind_ok_inv in H as (b & w4 & H4 & H). apply lift_ok_inv in H4 as [Hb ->].
  apply bind_ok_inv in H as ([pem raw] & w5 & H5 & H).
  apply bind_ok_inv in H as (id & w6 & H6 & H). apply bind_ok_inv in H as (now & w7 & H7 & H).
  apply bind_ok_inv in H as (enc & w8 & H8 & H).
  apply bind_ok_inv in H as (att & w9 & H9 & H). apply lift_ok_inv in H9 as [Hatt ->]. cbv zeta in H.
  pose proof (still_requireRoot _ _ _ _ _ _ H3) as S3. pose proof (still_generate _ _ _ _ _ H5) as S5.
  pose proof (still_freshUuid _ _ _ H6) as S6. pose proof (still_nowIso _ _ _ H7) as S7.
  pose proof (still_wrap_private _ _ _ _ _ _ H8) as S8.
  apply put_ret_inv in H as (-> & Hs & Hk). rewrite S8, S7, S6, S5, S3, S2 in Hs, Hk.
  split; [|done]. apply requireRoot_inv in H3 as (Hr & Hrole & Halg & Hscope). rewrite S2 in Hr.
  split; [done|exact (freshUuid_nonempty _ _ _ H6)| |done|].
  - apply (store_list_nil _ _ (kw_store w)).
    pose proof (f_equal fst H2) as El. cbn [fst] in El. unfold store_list. by rewrite <- El.
  - apply hierarchy_backend_ok in Hb. apply generate_inv in H5 as [e He].
    exists b, raw, r, att. split_and!; try done; [|by rewrite Erp]. rewrite Ep. split; [done|].
    exists e, pem, w7, w8. by rewrite He.
Qed.
End Hierarchy.

(** ** Histories *)

Inductive KeyCall : Type :=
| GenerateRoot (opts : GenerateRootOptions)
| IssueSigning (opts : IssueSigningOptions)
| RotateSigning (opts : RotateSigningOptions).

Section Histories.
Context {KH : KeyHandles} {P : Pbes2}.
Context (backends : list (KeyAlg * SignatureBackend)) (makeKid : KeyRole -> UUIDv7 -> jsstr).

Definition run_key_call (call : KeyCall) (w : KeyWorld) : KeyWorld :=
  match call with
  | GenerateRoot opts => (generateRoot backends makeKid opts w).2
  | IssueSigning opts => (issueSigning backends makeKid opts w).2
  | RotateSigning opts => (rotateSigning backends makeKid opts w).2
  end.

Definition run_key_calls (calls : list KeyCall) (w : KeyWorld) : KeyWorld :=
  fold_left (fun w call => run_key_call call w) calls w.

Lemma generateRoot_store_ok opts (w : KeyWorld) :
  store_ok (kw_store w) -> store_ok (kw_store (generateRoot backends makeKid opts w).2).
Proof.
  intros Hok. destruct (generateRoot _ _ opts w) as [[r|e] w'] eqn:E; cbn [snd].
  - apply generateRoot_inv in E as [[(Hr & _) Hk _] ->]. apply store_record_ok; [done..|].
    intros id r' _ _ Hs. congruence.
  - by rewrite (generateRoot_safe_fail _ _ _ _ _ _ E).
Qed.

Lemma issueSigning_store_ok opts (w : KeyWorld) :
  store_ok (kw_store w) -> store_ok (kw_store (issueSigning backends makeKid opts w).2).
Proof.
  intros Hok. destruct (issueSigning _ _ opts w) as [[s|e] w'] eqn:E; cbn [snd].
  - apply issueSigning_inv in E as [[Hshape _ Hfree Hk _] ->].
    destruct Hshape as (_ & _ & Hsc & Ha & _). apply store_record_ok; [done..|].
    intros id r' Hg _ _ _. rewrite Hsc, Ha. exact (Hfree _ _ Hg).
  - by rewrite (issueSigning_safe_fail _ _ _ _ _ _ E).
Qed.

(** The single record of a filtered listing. *)
Lemma listed_key f (w w' : KeyWorld) r :
  ks_list f w = (Ok [r], w') -> store_ok (kw_store w) ->
  map_get (byId (kw_store w)) (k_id r) = Some r /\ key_passes f r = true
  /\ (forall id r', map_get (byId (kw_store w)) id = Some r' -> key_passes f r' = true -> r' = r).
Proof.
  intros H Hok. pose proof (f_equal fst H) as El. cbn [fst] in El.
  assert (Hl : store_list f (kw_store w) = (Ok [r], kw_store w)) by (unfold store_list; by rewrite <- El).
  apply store_list_elem in Hl as [_ Hl].
  destruct (proj1 (Hl r) ltac:(left)) as [Hin Hp].
  apply list_elem_of_fmap in Hin as ([id r0] & -> & Hin). cbn [snd] in *.
  apply (elem_map_get _ _ _ (so_nodup _ Hok)) in Hin. rewrite (so_ids _ Hok _ _ Hin).
  split_and!; [done..|]. intros id' r' Hg Hp'. apply list_elem_of_singleton, Hl. split; [|done].
  apply (list_elem_of_fmap_2 snd _ (id', r')), map_get_elem, Hg.
Qed.

Lemma retire_store_ok s o at_ now :
  store_ok s -> map_get (byId s) (k_id o) = Some o ->
  store_ok (store_record (k_id o) (retire o at_ now) s).
Proof.
  intros Hok Hg. apply (store_record_ok s (retire o at_ now)); [done| |done].
  cbn. intros id Hk. rewrite (so_kids _ Hok _ _ Hg) in Hk. by injection Hk.
Qed.

Lemma link_store_ok s r from now :
  store_ok s -> map_get (byId s) (k_id r) = Some r ->
  store_ok (store_record (k_id r) (link_rotated r from now) s).
Proof.
  intros Hok Hg. apply (store_record_ok s (link_rotated r from now)); [done| |]; cbn.
  - intros id Hk. rewrite (so_kids _ Hok _ _ Hg) in Hk. by injection Hk.
  - intros id r' Hg' Hne Hr Hst. destruct (key_passes _ r') eqn:E; [|done].
    apply active_passes in E as (E1 & E2 & E3 & E4). destruct Hne.
    by apply (so_one_active _ Hok id (k_id r) r' r).
Qed.

(** A rotation: refused with the store untouched, or the outgoing key was
    retired, after which the new key was issued and linked, or was not. *)
Lemma rotateSigning_cases opts (w : KeyWorld) res w' :
  store_ok (kw_store w) -> rotateSigning backends makeKid opts w = (res, w') ->
  (exists e, res = Throw e) /\ kw_store w' = kw_store w
  \/ exists o now w1 w2, ks_list (signer_query (rs_scope_id opts) (rs_alg opts)) w = (Ok [o], w1)
     /\ map_get (byId (kw_store w)) (k_id o) = Some o
     /\ kw_store w2 = store_record (k_id o) (retire o (rs_retireOutgoingAt opts) now) (kw_store w)
     /\ match issueSigning backends makeKid (mkIssueSigning (rs_scope_id opts) (rs_alg opts) (rs_rootKid opts)
          (rs_rootPassphrase opts) (rs_signingPassphrase opts) None (rs_kid opts)) w2 with
        | (Throw e, w3) => res = Throw e /\ w' = w3
        | (Ok s, w3) =>
            res = Ok (retire o (rs_retireOutgoingAt opts) now, link_rotated s (k_id o) now)
            /\ kw_store w' = store_record (k_id s) (link_rotated s (k_id o) now) (kw_store w3)
        end.
Proof.
  intros Hok. unfold rotateSigning. intros H. unfold bind at 1 in H.
  destruct (ks_list _ w) as [[l|e] w1] eqn:El; [|injection H as <- <-; left; split; [eauto|exact (still_list _ _ _ _ El)]].
  pose proof (still_list _ _ _ _ El) as S1.
  destruct l as [|o [|? ?]]; [injection H as <- <-; left; eauto| |injection H as <- <-; left; eauto].
  unfold bind at 1 in H. destruct (nowIso w1) as [[now|e] w2] eqn:En.
  2: { injection H as <- <-. left. split; [eauto|]. by rewrite (still_nowIso _ _ _ En). }
  pose proof (still_nowIso _ _ _ En) as S2. destruct (listed_key _ _ _ _ El Hok) as (Hg & _ & _).
  unfold bind at 1 in H. cbn [ks_update kw_key_store] in H. unfold on_store at 1 in H.
  rewrite S2, S1 in H. unfold store_update, map_has in H. rewrite Hg in H. cbn [negb] in H.
  rewrite bool_decide_false in H by (cbn; tauto).
  set (w3 := mkKeyWorld _ _ _) in H. right. exists o, now, w1, w3. split_and!; [done|done|done|].
  unfold bind at 1 in H. destruct (issueSigning _ _ _ w3) as [[s|e] w4] eqn:Ei; [|by injection H as <- <-].
  pose proof Ei as Ei'. apply issueSigning_inv in Ei' as [_ Hs].
  unfold bind in H. cbn [ks_update kw_key_store] in H. unfold on_store in H.
  assert (Hg4 : map_get (byId (kw_store w4)) (k_id s) = Some s) by (rewrite Hs; apply map_get_set_eq).
  unfold store_update, map_has in H. rewrite Hg4 in H. cbn [negb] in H.
  rewrite bool_decide_false in H by (cbn; tauto). unfold ret in H. by injection H as <- <-.
Qed.

Lemma rotateSigning_store_ok opts (w : KeyWorld) :
  store_ok (kw_store w) -> store_ok (kw_store (rotateSigning backends makeKid opts w).2).
Proof.
  intros Hok. destruct (rotateSigning _ _ opts w) as [res w'] eqn:E. cbn [snd].
  destruct (rotateSigning_cases _ _ _ _ Hok E) as [[_ ->]|(o & now & w1 & w2 & _ & Hg & H2 & H)]; [done|].
  pose proof (retire_store_ok _ _ (rs_retireOutgoingAt opts) now Hok Hg) as Hok2. rewrite <- H2 in Hok2.
  match type of H with context [issueSigning _ _ ?o w2] => pose proof (issueSigning_store_ok o w2 Hok2) as Hok3 end.
  destruct (issueSigning _ _ _ w2) as [[s|e] w3] eqn:Ei; cbn [snd] in Hok3; [|by destruct H as [_ ->]].
  destruct H as [_ ->]. apply link_store_ok; [done|]. apply issueSigning_inv in Ei as [_ ->]. apply map_get_set_eq.
Qed.

Lemma run_key_calls_ok calls w : store_ok (kw_store w) -> store_ok (kw_store (run_key_calls calls w)).
Proof.
  revert w. induction calls as [|call calls IH]; intros w Hok; [done|]. apply IH.
  destruct call; [by apply generateRoot_store_ok|by apply issueSigning_store_ok|by apply rotateSigning_store_ok].
Qed.
End Histories.

(** C9: whatever is asked of a key hierarchy, in whatever order and however
    each call ends, its store stays sound: every kid names one record, and
    no scope ever has two active signing keys of one algorithm. *)
Theorem one_active_signer {KH : KeyHandles} {P : Pbes2} backends makeKid calls w :
  store_ok (kw_store w) -> store_ok (kw_store (run_key_calls backends makeKid calls w)).
Proof. apply run_key_calls_ok. Qed.

(** A rotation never destroys the outgoing key: when it succeeds, the
    key that was active is stored under its id as retiring, otherwise as it
    was (its not-after only changed when asked), the new key is active,
    certified and linked to it, and no other record has changed. *)
Theorem rotation_keeps_outgoing {KH : KeyHandles} {P : Pbes2} backends makeKid opts w out inc w' :
  store_ok (kw_store w) ->
  rotateSigning backends makeKid opts w = (Ok (out, inc), w') ->
  map_get (byId (kw_store w)) (k_id inc) = None ->
  exists o, map_get (byId (kw_store w)) (k_id o) = Some o
    /\ key_passes (signer_query (rs_scope_id opts) (rs_alg opts)) o = true
    /\ (k_state out = k_retiring /\ k_id out = k_id o /\ k_kid out = k_kid o
        /\ k_public_pem out = k_public_pem o /\ k_meta out = k_meta o
        /\ k_not_after out = given_or (rs_retireOutgoingAt opts) (k_not_after o))
    /\ key_passes (signer_query (rs_scope_id opts) (rs_alg opts)) inc = true
    /\ k_rotated_from inc = Some (k_id o)
    /\ map_get (byId (kw_store w')) (k_id o) = Some out
    /\ map_get (byKid (kw_store w')) (k_kid o) = Some (k_id o)
    /\ map_get (byId (kw_store w')) (k_id inc) = Some inc
    /\ forall id, id <> k_id o -> id <> k_id inc ->
         map_get (byId (kw_store w')) id = map_get (byId (kw_store w)) id.
Proof.
  intros Hok H Hnew. pose proof (rotateSigning_store_ok backends makeKid opts w Hok) as Hok'. rewrite H in Hok'. cbn [snd] in Hok'.
  destruct (rotateSigning_cases _ _ _ _ _ _ Hok H) as [[[e [=]] _]|(o & now & w1 & w2 & Hl & Hg & H2 & Hi)].
  destruct (issueSigning _ _ _ w2) as [[s|e] w3] eqn:Ei; [|by destruct Hi].
  destruct Hi as [[= -> ->] Hs]. apply issueSigning_inv in Ei as [[Hshape _ _ _ _] Hs3].
  destruct Hshape as (Hr & Hst & Hsc & Ha & _). cbn [is_scope_id is_alg] in Hsc, Ha.
  destruct (listed_key _ _ _ _ Hl Hok) as (_ & Hp & _). cbn [k_id link_rotated] in Hnew.
  assert (Hne : k_id s <> k_id o) by (intros E; by rewrite E, Hg in Hnew).
  assert (Hget : forall id, map_get (byId (kw_store w')) id
    = if decide (id = k_id s) then Some (link_rotated s (k_id o) now)
      else if decide (id = k_id o) then Some (retire o (rs_retireOutgoingAt opts) now)
      else map_get (byId (kw_store w)) id).
  { intros id. rewrite Hs, Hs3, H2. cbn. repeat case_decide; subst; autorewrite with jsmap; try done;
      rewrite !map_get_set_ne by done; autorewrite with jsmap; done. }
  assert (Hout : map_get (byId (kw_store w')) (k_id o) = Some (retire o (rs_retireOutgoingAt opts) now))
    by (by rewrite Hget, decide_False, decide_True).
  exists o. split_and!; try done.
  - apply active_passes. by split_and!.
  - exact (so_kids _ Hok' _ _ Hout).
  - by rewrite Hget, decide_True.
  - intros id H1 H3. by rewrite Hget, !decide_False.
Qed.

(** ** Issued keys work *)

Section Usable.
Context {KH : KeyHandles} {P : Pbes2} {PL : Pbes2Laws P} {NC : NodeCrypto}.
Context (backends : list (KeyAlg * SignatureBackend)) (makeKid : KeyRole -> UUIDv7 -> jsstr).

(** What the hierarchy relies on of an asymmetric backend: a generated key pair can be exported,
    imported again as a key pair, and its raw public half read back from the
    PEM text. *)
Record generates_pairs (b : SignatureBackend) (pem : PemKeyMaterial) (raw : RawKeyMaterial) : Prop := {
  gp_public : forall record, k_public_pem record = publicPem pem -> k_alg record = b_alg b ->
    extractPublicRawFromRecord record = Ok (publicRaw raw);
  gp_pair : exists der priv pub,
    pemToDerIfPresent (privatePem pem) (privateRaw raw) = Ok (Some der)
    /\ Forall is_byte der /\ Z.of_nat (List.length der) < 2 ^ 29
    /\ b_importPrivate b (PemMaterial (mkPem (Some (derToPkcs8Pem der)) (publicPem pem))) None = Ok priv
    /\ b_importPublic b (PemMaterial (mkPem None (publicPem pem))) = Ok pub
    /\ key_pair b priv pub
    /\ forall d s, b_sign b priv d = Ok s -> s <> []
}.

Definition backends_ok : Prop :=
  forall alg b, map_get backends alg = Some b -> alg <> hs256 ->
    b_alg b = alg /\ forall pass entropy pem raw,
      b_generate b pass entropy = Ok (pem, raw) -> generates_pairs b pem raw.

(** A key whose stored private half opens under [pass] to the partner of
    its stored public half. *)
Definition working_key (k : LicenseKey) (pass : jsstr) (raw : RawKeyMaterial) : Prop :=
  exists b enc priv pub, map_get backends (k_alg k) = Some b
    /\ k_private_pem_enc k = Some enc /\ enc <> []
    /\ import_stored backends k enc pass = Ok (b, priv)
    /\ b_importPublic b (PemMaterial (mkPem None (k_public_pem k))) = Ok pub
    /\ key_pair b priv pub
    /\ (forall d s, b_sign b priv d = Ok s -> s <> [])
    /\ extractPublicRawFromRecord k = Ok (publicRaw raw).

Lemma toPem_nonempty der armor : toPem der armor <> [].
Proof. unfold toPem, pem_begin. by destruct armor. Qed.

Lemma wrap_nonempty der pass (w w' : KeyWorld) pem :
  wrapEncryptedPkcs8 der pass w = (Ok pem, w') -> pem <> [].
Proof.
  unfold wrapEncryptedPkcs8. destruct pass; [done|].
  intros (s & w1 & _ & H)%bind_ok_inv. apply bind_ok_inv in H as (n & w2 & _ & H).
  apply bind_ok_inv in H as (kek & w3 & _ & H). destruct (gcm_seal _ _ _) as [ct tag].
  apply bind_ok_inv in H as (o & w4 & _ & H). apply Ok_pair_inj in H as [<- _]. apply toPem_nonempty.
Qed.

Lemma fresh_key_works b pass raw k :
  backends_ok -> k_alg k <> hs256 -> map_get backends (k_alg k) = Some b -> fresh_key b pass raw k -> working_key k pass raw.
Proof.
  intros Hb Hsym Hm (Hpass & e & pem & w1 & w2 & Hg & Hpub & Hw).
  destruct (Hb _ _ Hm Hsym) as [Ha Hgen]. destruct (Hgen _ _ _ _ Hg) as [Hx (der & priv & pub & Hder & Hby & Hlen & Hi & Hip & Hkp & Hne)].
  unfold wrap_private in Hw. apply bind_ok_inv in Hw as (d & w3 & Hd & Hw). apply lift_ok_inv in Hd as [Hd ->].
  rewrite Hder in Hd. apply Ok_inj in Hd as <-. apply bind_ok_inv in Hw as (enc & w4 & Henc & Hw).
  apply Ok_pair_inj in Hw as [Hk _]. exists b, enc, priv, pub. split_and!; try done.
  - by eapply wrap_nonempty.
  - unfold import_stored. unfold hierarchy_backend. rewrite Hm. cbn [rbind].
    rewrite (wrap_unwrap _ _ _ _ _ Hby Hlen Henc). cbn [rbind]. rewrite Hpub, Hi. done.
  - by rewrite Hpub.
  - by apply Hx.
Qed.

Lemma find_stored s r : store_ok s -> map_get (byId s) (k_id r) = Some r -> k_id r <> [] -> find_kid s (k_kid r) = Some r.
Proof. intros Hok Hg Hn. unfold find_kid. rewrite (so_kids _ Hok _ _ Hg). by destruct (k_id r). Qed.

(** What a root signed about a key, the key's own record repeats. *)
Lemma attestation_verifies r pass raw s att sraw (w : KeyWorld) :
  working_key r pass raw -> k_kid r <> [] -> k_role r = root -> k_role s = signing -> k_alg r = k_alg s ->
  attestSigning backends r pass
    (mkAttested (k_kid s) (k_alg s) (publicRaw sraw) (k_not_before s) (k_not_after s)) = Ok att ->
  k_meta s = attestation_meta att -> extractPublicRawFromRecord s = Ok (publicRaw sraw) ->
  find_kid (kw_store w) (k_kid s) = Some s -> find_kid (kw_store w) (k_kid r) = Some r ->
  verifyAttestation backends (k_kid s) w = (Ok true, w).
Proof.
  intros (b & enc & priv & pub & Hm & He & Hen & Hi & Hip & Hkp & Hne & _) Hkid Hrr Hsr Ha Hatt Hmeta Hx Hs Hr.
  unfold attestSigning in Hatt. rewrite He in Hatt. destruct enc as [|c enc]; [done|].
  rewrite Hi in Hatt. cbn [rbind] in Hatt. apply rbind_ok_inv in Hatt as (canonical & Hc & Hatt).
  apply rbind_ok_inv in Hatt as (sig & Hsig & Hatt). apply Ok_inj in Hatt as <-.
  destruct (Hkp _ _ Hsig) as [Hv Hby]. pose proof (Hne _ _ Hsig) as Hsne.
  assert (Hsa : stored_attestation (k_meta s) = Some (JStr (k_kid r), JStr (base64url.encode sig))).
  { rewrite Hmeta. destruct (k_kid r) as [|kc kk] eqn:Ek; [done|].
    pose proof (base64url_facts.decode_encode_bytes sig Hby) as Hd.
    destruct (base64url.encode sig) as [|ec ee] eqn:Ee; [by apply Ok_inj in Hd as <-|].
    unfold attestation_meta. cbn [ra_root_kid ra_signature]. rewrite ?Ek, Ee. reflexivity. }
  unfold verifyAttestation. assert (Hfind : forall k (w : KeyWorld), ks_findByKid k w = (Ok (find_kid (kw_store w) k), w))
    by (by intros ? []).
  unfold bind at 1. rewrite Hfind, Hs. rewrite bool_decide_false by (rewrite Hsr; tauto). rewrite Hsa.
  unfold bind at 1. rewrite Hfind, Hr. rewrite !bool_decide_false by (rewrite ?Hrr, ?Ha; tauto). cbn [orb].
  unfold bind, lift, hierarchy_backend. rewrite <- Ha, Hm, Hip, Hx, Ha, Hc.
  by rewrite base64url_facts.decode_encode_bytes, Hv.
Qed.

Lemma import_works k pass raw (w : KeyWorld) :
  working_key k pass raw -> pass <> [] -> k_role k = signing -> find_kid (kw_store w) (k_kid k) = Some k ->
  exists b h pub, importSigningPrivate backends (k_kid k) pass w = (Ok (k, h), w)
    /\ map_get backends (k_alg k) = Some b
    /\ b_importPublic b (PemMaterial (mkPem None (k_public_pem k))) = Ok pub /\ key_pair b h pub.
Proof.
  intros (b & enc & priv & pub & Hm & He & Hen & Hi & Hip & Hkp & _) Hp Hr Hf.
  exists b, priv, pub. split; [|done]. unfold importSigningPrivate. destruct pass as [|c pass]; [done|].
  assert (Hfind : forall k (w : KeyWorld), ks_findByKid k w = (Ok (find_kid (kw_store w) k), w))
    by (by intros ? []).
  unfold bind at 1. rewrite Hfind, Hf. rewrite bool_decide_false by (rewrite Hr; tauto). rewrite He.
  destruct enc as [|ec enc]; [done|]. unfold bind, lift. by rewrite Hi.
Qed.
End Usable.

(** An issued key works end to end: a signing key issued under a root of
    this hierarchy carries an attestation that verifies against the root, and
    its stored private half, opened with its passphrase, is the partner of
    its public half. *)
Theorem issued_key_works {KH : KeyHandles} {P : Pbes2} {PL : Pbes2Laws P} {NC : NodeCrypto}
    backends makeKid ro w0 r w1 so w2 s w3 :
  backends_ok backends ->
  generateRoot backends makeKid ro w0 = (Ok r, w1) -> k_kid r <> [] ->
  store_ok (kw_store w2) -> find_kid (kw_store w2) (is_rootKid so) = Some r ->
  is_rootPassphrase so = gr_passphrase ro ->
  issueSigning backends makeKid so w2 = (Ok s, w3) ->
  map_get (byId (kw_store w2)) (k_id s) = None ->
  verifyAttestation backends (k_kid s) w3 = (Ok true, w3)
  /\ exists b h pub, importSigningPrivate backends (k_kid s) (is_signingPassphrase so) w3 = (Ok (s, h), w3)
     /\ map_get backends (k_alg s) = Some b
     /\ b_importPublic b (PemMaterial (mkPem None (k_public_pem s))) = Ok pub /\ key_pair b h pub.
Proof.
  intros Hb Hroot Hkid Hok Hfind Hpass Hissue Hnew.
  pose proof (generateRoot_asymmetric _ _ _ _ _ _ Hroot) as Hsym.
  apply generateRoot_inv in Hroot as [[(Hrr & _ & _ & _) _ (rb & rraw & Hrm & Hrfresh)] _].
  pose proof (issueSigning_store_ok backends makeKid so w2 Hok) as Hok3. rewrite Hissue in Hok3. cbn [snd] in Hok3.
  apply issueSigning_inv in Hissue as [[(Hsr & _) Hsid _ Hskid (b & sraw & r' & att & Hm & Hsfresh & Hf & _ & Ha & _ & Hatt & Hmeta)] Hs3].
  rewrite Hfind in Hf. injection Hf as <-. rewrite Hpass in Hatt.
  pose proof (fresh_key_works backends rb _ rraw r Hb Hsym Hrm Hrfresh) as Hrw.
  pose proof (fresh_key_works backends b _ sraw s Hb ltac:(by rewrite <- Ha) Hm Hsfresh) as Hsw.
  assert (Hgs : map_get (byId (kw_store w3)) (k_id s) = Some s) by (rewrite Hs3; apply map_get_set_eq).
  assert (Hgr : map_get (byId (kw_store w2)) (k_id r) = Some r /\ k_id r <> []).
  { unfold find_kid in Hfind. destruct (map_get (byKid (kw_store w2)) _) as [[|c id]|]; [done| |done].
    by rewrite (so_ids _ Hok _ _ Hfind). }
  destruct Hgr as [Hgr Hrid].
  assert (Hgr3 : map_get (byId (kw_store w3)) (k_id r) = Some r).
  { rewrite Hs3. cbn. rewrite map_get_set_ne; [done|]. intros E. by rewrite E, Hgr in Hnew. }
  pose proof (find_stored _ _ Hok3 Hgs Hsid) as Hfs. pose proof (find_stored _ _ Hok3 Hgr3 Hrid) as Hfr.
  split; [|apply (import_works backends s _ sraw); try done; apply Hsfresh].
  assert (Hx : extractPublicRawFromRecord s = Ok (publicRaw sraw)) by (destruct Hsw as (? & ? & ? & ? & H); apply H).
  by apply (attestation_verifies backends r (gr_passphrase ro) rraw s att sraw).
Qed.

(** ** A concrete hierarchy *)

#[global] Instance toy_node : NodeCrypto := {
  KeyObject := unit;
  createPublicKey := fun _ => Ok tt;
  export_jwk_x := fun _ => Some (base64url.encode [7]);
  export_spki := fun _ => [7]
}.

Definition toy_backends : list (KeyAlg * SignatureBackend) := [(ed25519, toy.backend)].

Lemma toy_backends_ok : backends_ok toy_backends.
Proof.
  intros alg b. cbn. case_decide as E; [|done]. intros [= <-] _. subst. split; [done|].
  intros pass entropy pem raw [= <- <-]. split.
  - intros record _ Ha. unfold extractPublicRawFromRecord. cbn. by rewrite Ha.
  - exists [7], 7, 7. split_and!; try done; [decided|apply toy.toy_key_pair|].
    by intros d s [= <-].
Qed.

Definition key_world : KeyWorld :=
  mkKeyWorld (mkKeyStore [] []) (fixedClock 1767225600000 (js "2026-01-01T00:00:00.000000Z")) (fun i => Z.of_nat i).

Definition root_opts : GenerateRootOptions := mkGenerateRoot None ed25519 (js "root-pw") None None None.
Definition made_root := generateRoot toy_backends default_kid root_opts key_world.

Definition issue_opts (root_kid root_pw : jsstr) : IssueSigningOptions :=
  mkIssueSigning None ed25519 root_kid root_pw (js "sign-pw") None None.
Definition rotate_opts (root_kid root_pw : jsstr) : RotateSigningOptions :=
  mkRotateSigning None ed25519 root_kid root_pw (js "sign-pw") None None.

Definition no_key : LicenseKey :=
  mkKey [] None [] ed25519 root k_active [] None None None [] None JNull [] [].
Definition key_of (r : res LicenseKey) : LicenseKey := match r with Ok k => k | Throw _ => no_key end.

Definition the_root : LicenseKey := key_of made_root.1.
Definition the_root_kid : jsstr := k_kid the_root.
Definition made_signing := issueSigning toy_backends default_kid (issue_opts the_root_kid (js "root-pw")) made_root.2.
Definition the_signer : LicenseKey := key_of made_signing.1.

Lemma empty_store_ok : store_ok (kw_store key_world).
Proof. split; cbn; try done. constructor. Qed.

Lemma one_active_signer_witness :
  store_ok (kw_store (run_key_calls toy_backends default_kid
    [GenerateRoot root_opts; IssueSigning (issue_opts the_root_kid (js "root-pw"));
     RotateSigning (rotate_opts the_root_kid (js "root-pw"))] key_world)).
Proof. apply one_active_signer. apply empty_store_ok. Defined.

Lemma made_signing_ok : store_ok (kw_store made_signing.2).
Proof. apply issueSigning_store_ok, generateRoot_store_ok, empty_store_ok. Qed.

(** A call that returned, from its evaluation. *)
Lemma returned {A B} (x : res A * B) (d : A) :
  match x.1 with Ok _ => true | Throw _ => false end = true ->
  x = (Ok (match x.1 with Ok a => a | Throw _ => d end), x.2).
Proof. by destruct x as [[a|e] w]. Qed.

Lemma made_root_eq : made_root = (Ok the_root, made_root.2).
Proof. apply (returned made_root no_key). vm_compute. reflexivity. Qed.
Lemma made_signing_eq : made_signing = (Ok the_signer, made_signing.2).
Proof. apply (returned made_signing no_key). vm_compute. reflexivity. Qed.

Definition made_rotation := rotateSigning toy_backends default_kid (rotate_opts the_root_kid (js "root-pw")) made_signing.2.
Definition rotated : LicenseKey * LicenseKey :=
  match made_rotation.1 with Ok p => p | Throw _ => (no_key, no_key) end.

Lemma made_rotation_eq :
  rotateSigning toy_backends default_kid (rotate_opts the_root_kid (js "root-pw")) made_signing.2
  = (Ok (rotated.1, rotated.2), made_rotation.2).
Proof.
  rewrite <- surjective_pairing. unfold rotated, made_rotation. apply returned. vm_compute. reflexivity.
Qed.

Lemma made_rotation_new : map_get (byId (kw_store made_signing.2)) (k_id rotated.2) = None.
Proof. vm_compute. reflexivity. Qed.

Lemma rotation_keeps_outgoing_witness :
  map_get (byId (kw_store made_rotation.2)) (k_id rotated.2) = Some rotated.2
  /\ k_state rotated.1 = k_retiring.
Proof.
  destruct (rotation_keeps_outgoing _ _ _ _ _ _ _ made_signing_ok made_rotation_eq made_rotation_new)
    as (o & _ & _ & (Hst & _) & _ & _ & _ & _ & H & _).
  split; [exact H|exact Hst].
Defined.

Lemma made_root_ok : store_ok (kw_store made_root.2).
Proof. unfold made_root. apply generateRoot_store_ok, empty_store_ok. Qed.

Lemma the_root_found :
  k_kid the_root <> [] /\ find_kid (kw_store made_root.2) (is_rootKid (issue_opts the_root_kid (js "root-pw"))) = Some the_root
  /\ map_get (byId (kw_store made_root.2)) (k_id the_signer) = None.
Proof. split_and!; [decided|vm_compute; reflexivity..]. Qed.

Lemma issued_key_works_witness :
  verifyAttestation toy_backends (k_kid the_signer) made_signing.2 = (Ok true, made_signing.2).
Proof.
  destruct the_root_found as (H1 & H2 & H3).
  exact (proj1 (issued_key_works toy_backends default_kid root_opts key_world the_root made_root.2
    (issue_opts the_root_kid (js "root-pw")) made_root.2 the_signer made_signing.2
    toy_backends_ok made_root_eq H1 made_root_ok H2 eq_refl made_signing_eq H3)).
Defined.

(** A rotation that fails is not undone: with a wrong root passphrase the
    outgoing key has been demoted, no new key was issued, and the scope is
    left without an active signing key. *)
Example failed_rotation_leaves_no_signer :
  let '(r, w) := rotateSigning toy_backends default_kid (rotate_opts the_root_kid (js "wrong")) made_signing.2 in
  r = Throw errors.keyDecryptionFailed
  /\ (ks_list (signer_query None ed25519) made_signing.2).1 = Ok [the_signer]
  /\ (ks_list (signer_query None ed25519) w).1 = Ok [].
Proof. vm_compute. split_and!; reflexivity. Qed.

(** Setting the not-after of the outgoing key breaks its attestation, which
    covers the old one. *)
Example retired_attestation_breaks :
  let opts := mkRotateSigning None ed25519 the_root_kid (js "root-pw") (js "sign-pw")
                (Some (Some (js "2027-06-01T00:00:00.000000Z"))) None in
  let w := (rotateSigning toy_backends default_kid opts made_signing.2).2 in
  (verifyAttestation toy_backends (k_kid the_signer) made_signing.2).1 = Ok true
  /\ (verifyAttestation toy_backends (k_kid the_signer) w).1 = Ok false.
Proof. vm_compute. split; reflexivity. Qed.
