(* ===== verification/ScopeService.v ===== *)
(** * ScopeService: scopes and their keys

    [src/typescript/src/scope-service.ts]: creating a scope, issuing its root
    and first signing key, rotating the signing key, each in a transaction
    with its audit row; and [StorageKeyStore], which presents an open
    transaction as the [KeyStore] the key hierarchy works on. *)

From S2P Require Import Prelude Errors JsNum Text Json Types Crypto Id Cursor Storage Pages Lifecycle EncryptedPkcs8 KeyHierarchy.

(** ** Inputs *)

Record CreateScopeInput : Type := mkCreateScope {
  cs_slug : jsstr;
  cs_name : jsstr;
  cs_meta : option jsval
}.

Record GenerateRootKeyInput : Type := mkGenerateRootKey {
  gk_scope_id : option UUIDv7;
  gk_alg : KeyAlg;
  gk_passphrase : jsstr;
  gk_not_after : option (option Instant);
  gk_kid : option jsstr
}.

Record IssueInitialSigningKeyInput : Type := mkIssueInitial {
  ik_scope_id : option UUIDv7;
  ik_alg : KeyAlg;
  ik_rootKid : jsstr;
  ik_rootPassphrase : jsstr;
  ik_signingPassphrase : jsstr;
  ik_not_after : option (option Instant);
  ik_kid : option jsstr
}.

(** [RotateSigningKeyInput] has the fields of [RotateSigningOptions]. *)
Definition RotateSigningKeyInput : Type := RotateSigningOptions.

(** The options of every operation: who acts. *)
Definition acting (actor : option jsstr) : TransitionOptions := mkTransitionOptions actor None None.

(** [null] and an absent [not_after] both mean no expiry. *)
Definition no_expiry (o : option (option Instant)) : option Instant := match o with Some t => t | None => None end.

(** ** The store of a transaction *)

(** An open transaction and the ids the adapter gave in place of the
    hierarchy's. *)
Record KeyTx (W : Type) : Type := mkKeyTx { kt_world : W; kt_idMap : list (UUIDv7 * UUIDv7) }.
Arguments mkKeyTx {W} _ _.
Arguments kt_world {W} _.
Arguments kt_idMap {W} _.

Section ScopeService.
Context {KH : KeyHandles} {P : Pbes2}.
Context {W : Type} {HC : HasClock W} {HE : HasEntropy W} {ST : Storage W}.

Definition on_tx {A} (c : prog W A) : prog (KeyTx W) A := fun v =>
  let '(r, w) := c (kt_world v) in (r, mkKeyTx w (kt_idMap v)).

#[global] Instance tx_clock : HasClock (KeyTx W) := {| nowMs := on_tx nowMs; nowIso := on_tx nowIso |}.
#[global] Instance tx_entropy : HasEntropy (KeyTx W) := {| randomFill := fun n => on_tx (randomFill n) |}.

Definition resolve_id (id : UUIDv7) : prog (KeyTx W) UUIDv7 := fun v =>
  (Ok (given_or (map_get (kt_idMap v) id) id), v).

Definition remember_id (id real : UUIDv7) : prog (KeyTx W) unit := fun v =>
  (Ok tt, mkKeyTx (kt_world v) (map_set (kt_idMap v) id real)).

Definition key_input (record : LicenseKey) : LicenseKeyInput :=
  mkKeyInput (k_scope_id record) (k_kid record) (k_alg record) (k_role record) (k_state record)
    (k_public_pem record) (k_private_pem_enc record) (k_rotated_from record) (k_rotated_at record)
    (k_not_before record) (k_not_after record) (k_meta record).

Definition tx_put (record : LicenseKey) : prog (KeyTx W) unit :=
  let* existing := on_tx (getKeyByKid (k_kid record)) in
  match existing with
  | Some _ => throw (errors.uniqueConstraintViolation (js "kid") (k_kid record))
  | None =>
      let* persisted := on_tx (createKey (key_input record)) in
      remember_id (k_id record) (k_id persisted)
  end.

Definition tx_get (id : UUIDv7) : prog (KeyTx W) (option LicenseKey) :=
  let* real := resolve_id id in on_tx (getKey real).

Definition tx_findByKid (kid : jsstr) : prog (KeyTx W) (option LicenseKey) := on_tx (getKeyByKid kid).

Definition list_filter (filter : KeyStoreFilter) : LicenseKeyFilter :=
  mkKeyFilter (ksf_scope_id filter) None (ksf_alg filter) (ksf_role filter) (ksf_state filter).

(** [while (true) { out.push(...page.items); if (page.cursor === null) return out }] *)
Definition tx_list (fuel : nat) (filter : KeyStoreFilter) : prog (KeyTx W) (list LicenseKey) :=
  on_tx (walkPages (fun c => listKeys (list_filter filter) (mkPageRequest 500 c))
           (fun out items => ret (Continue (out ++ items))) (fun out => out) fuel [] None).

Definition key_update (next : LicenseKey) : LicenseKeyPatch :=
  mkKeyPatch (Some (k_state next)) (Some (k_rotated_from next)) (Some (k_rotated_at next))
    (Some (k_not_after next)) (Some (k_meta next)).

Definition tx_update (id : UUIDv7) (next : LicenseKey) : prog (KeyTx W) unit :=
  let* realId := resolve_id id in
  let* existing := on_tx (getKey realId) in
  match existing with
  | None => throw errors.tokenMalformed
  | Some row =>
      if bool_decide (k_id row <> realId) then throw errors.tokenMalformed
      else do* on_tx (updateKey realId (key_update next)); ret tt
  end.

Definition StorageKeyStore (fuel : nat) : KeyStore (KeyTx W) := {|
  ks_put := tx_put;
  ks_get := tx_get;
  ks_findByKid := tx_findByKid;
  ks_list := tx_list fuel;
  ks_update := tx_update
|}.

(** A hierarchy over a fresh store of the open transaction. *)
Definition with_hierarchy {A} (c : prog (KeyTx W) A) : prog W A := fun w =>
  let '(r, v) := c (mkKeyTx w []) in (r, kt_world v).

(** ** Operations *)

Definition scope_audit (scope_id : option UUIDv7) (actor : option jsstr) (event : String.string)
    (prior new : option jsval) : prog W unit :=
  let* now := nowIso in
  do* appendAudit (audit_input None scope_id (acting actor) (js event) prior new now);
  ret tt.

Definition create_scope_body (input : CreateScopeInput) (actor : option jsstr) : prog W LicenseScope :=
  let* existing := getScopeBySlug (cs_slug input) in
  match existing with
  | Some _ => throw (errors.uniqueConstraintViolation (js "scope.slug") (cs_slug input))
  | None =>
      let* scope := createScope (mkScopeInput (cs_slug input) (cs_name input)
                                   (match cs_meta input with Some m => m | None => plain [] end)) in
      do* scope_audit (Some (sc_id scope)) actor "scope.created" None
            (Some (plain [(js "scope_id", JStr (sc_id scope)); (js "slug", JStr (sc_slug scope));
                          (js "name", JStr (sc_name scope))]));
      ret scope
  end.

Definition create_scope (input : CreateScopeInput) (actor : option jsstr) : prog W LicenseScope :=
  withTransaction (create_scope_body input actor).

Context (fuel : nat) (backends : list (KeyAlg * SignatureBackend)).

Definition key_state (k : LicenseKey) (rootKid : option jsstr) : jsval :=
  plain ([(js "kid", JStr (k_kid k)); (js "alg", JStr (alg_str (k_alg k))); (js "role", JStr (role_str (k_role k)))]
         ++ match rootKid with Some r => [(js "root_kid", JStr r)] | None => [] end
         ++ [(js "not_after", nullable (k_not_after k))]).

(** The issued key is read back by kid, for the adapter's id. *)
Definition persisted_key (kid : jsstr) : prog W LicenseKey :=
  let* persisted := getKeyByKid kid in
  match persisted with
  | None => throw errors.tokenMalformed
  | Some k => ret k
  end.

Definition generateRootKey_body (input : GenerateRootKeyInput) (actor : option jsstr) : prog W LicenseKey :=
  let* root_key := with_hierarchy (generateRoot (KS := StorageKeyStore fuel) backends default_kid
    (mkGenerateRoot (gk_scope_id input) (gk_alg input) (gk_passphrase input) (no_expiry (gk_not_after input))
       (gk_kid input) None)) in
  let* persisted := persisted_key (k_kid root_key) in
  do* scope_audit (gk_scope_id input) actor "key.root.issued" None (Some (key_state persisted None));
  ret persisted.

Definition generateRootKey (input : GenerateRootKeyInput) (actor : option jsstr) : prog W LicenseKey :=
  withTransaction (generateRootKey_body input actor).

Definition issueInitialSigningKey_body (input : IssueInitialSigningKeyInput) (actor : option jsstr) : prog W LicenseKey :=
  let* signing_key := with_hierarchy (issueSigning (KS := StorageKeyStore fuel) backends default_kid
    (mkIssueSigning (ik_scope_id input) (ik_alg input) (ik_rootKid input) (ik_rootPassphrase input)
       (ik_signingPassphrase input) (no_expiry (ik_not_after input)) (ik_kid input))) in
  let* persisted := persisted_key (k_kid signing_key) in
  do* scope_audit (ik_scope_id input) actor "key.signing.issued" None (Some (key_state persisted (Some (ik_rootKid input))));
  ret persisted.

Definition issueInitialSigningKey (input : IssueInitialSigningKeyInput) (actor : option jsstr) : prog W LicenseKey :=
  withTransaction (issueInitialSigningKey_body input actor).

Definition rotation_states (outgoing incoming : LicenseKey) (alg : KeyAlg) : jsval * jsval :=
  (plain [(js "kid", JStr (k_kid outgoing)); (js "state", JStr (js "active"))],
   plain [(js "outgoing_kid", JStr (k_kid outgoing)); (js "outgoing_state", JStr (key_state_str (k_state outgoing)));
          (js "incoming_kid", JStr (k_kid incoming)); (js "incoming_state", JStr (key_state_str (k_state incoming)));
          (js "alg", JStr (alg_str alg))]).

Definition rotateSigningKey_body (input : RotateSigningKeyInput) (actor : option jsstr)
  : prog W (LicenseKey * LicenseKey) :=
  let* result := with_hierarchy (rotateSigning (KS := StorageKeyStore fuel) backends default_kid input) in
  let '(prior, new) := rotation_states result.1 result.2 (rs_alg input) in
  do* scope_audit (rs_scope_id input) actor "key.rotated" (Some prior) (Some new);
  ret result.

Definition rotateSigningKey (input : RotateSigningKeyInput) (actor : option jsstr)
  : prog W (LicenseKey * LicenseKey) :=
  withTransaction (rotateSigningKey_body input actor).
End ScopeService.
