(* ===== verification/TokenService.v ===== *)
(** * TokenService: issuing tokens

    [src/typescript/src/token-service.ts]: the checks on the request, the
    choice of the signing key, the claims and their optional parts, and the
    signing through the key hierarchy and the codec. The SHA-256 of the
    transparency event is a parameter. *)

From S2P Require Import Prelude Errors JsNum Text Json Types Crypto TokenCodec Id Cursor Storage Pages LicenseKeyFormat Lifecycle LicenseService EncryptedPkcs8 KeyHierarchy.

(** [createHash('sha256').update(text).digest('hex')] on UTF-8 bytes. *)
Class Sha256 : Type := { sha256_hex : list Z -> jsstr }.

Record TokenIssuedEvent : Type := mkEvent {
  ev_jti : jsstr;
  ev_licenseId : UUIDv7;
  ev_usageId : UUIDv7;
  ev_kid : jsstr;
  ev_tokenFormat : TokenFormat;
  ev_iat : jsnum;
  ev_exp : jsnum;
  ev_tokenSha256 : jsstr
}.

(** An absent field is [None]; [forceOnlineAfter] and [entitlements] may
    also be given as [null]. The hook is a callback that may throw. *)
Record IssueTokenInput (W : Type) : Type := mkIssueToken {
  it_license : License;
  it_usage : LicenseUsage;
  it_ttlSeconds : jsnum;
  it_alg : KeyAlg;
  it_signingPassphrase : jsstr;
  it_tokenFormat : option TokenFormat;
  it_forceOnlineAfter : option (option jsnum);
  it_entitlements : option (option jsval);
  it_meta : option jsval;
  it_transparencyHook : option (TokenIssuedEvent -> prog W unit)
}.
Arguments mkIssueToken {W} _ _ _ _ _ _ _ _ _ _.
Arguments it_license {W} _.
Arguments it_usage {W} _.
Arguments it_ttlSeconds {W} _.
Arguments it_alg {W} _.
Arguments it_signingPassphrase {W} _.
Arguments it_tokenFormat {W} _.
Arguments it_forceOnlineAfter {W} _.
Arguments it_entitlements {W} _.
Arguments it_meta {W} _.
Arguments it_transparencyHook {W} _.

Record IssueTokenResult : Type := mkIssued {
  ir_token : jsstr;
  ir_kid : jsstr;
  ir_iat : jsnum;
  ir_exp : jsnum;
  ir_jti : jsstr
}.

Definition FORCE_ONLINE_MAX_SEC : Z := 10 * 365 * 24 * 3600.

Definition validateForceOnlineDeadline (candidate iat : jsnum) : res jsnum :=
  if negb (isFinite candidate) || negb (isSafeInteger candidate) then Throw errors.fingerprintRejected
  else if num_ltb candidate iat then Throw errors.fingerprintRejected
  else if num_ltb (num_add iat (num_of_Z FORCE_ONLINE_MAX_SEC)) candidate then Throw errors.fingerprintRejected
  else Ok candidate.

Definition resolveForceOnlineAfter {W} (input : IssueTokenInput W) (iat : jsnum) : res (option jsnum) :=
  match it_forceOnlineAfter input with
  | Some None => Ok None
  | Some (Some candidate) => let? n := validateForceOnlineDeadline candidate iat in Ok (Some n)
  | None =>
      match get_prop (l_meta (it_license input)) (js "force_online_after_sec") with
      | JNum fromMeta =>
          if negb (isFinite fromMeta) || negb (isSafeInteger fromMeta) || num_leb fromMeta (num_of_Z 0)
          then Throw errors.fingerprintRejected
          else if num_ltb (num_of_Z FORCE_ONLINE_MAX_SEC) fromMeta then Throw errors.fingerprintRejected
          else Ok (Some (num_add iat fromMeta))
      | _ => Ok None
      end
  end.

(** [typeof v === 'object' && v !== null], arrays included. *)
Definition resolveEntitlements {W} (input : IssueTokenInput W) : option jsval :=
  match it_entitlements input with
  | Some e => e
  | None =>
      match get_prop (l_meta (it_license input)) (js "entitlements") with
      | (JArr _ | JObj _ _ | JObjProto | JOther) as v => Some v
      | _ => None
      end
  end.

(** [Math.floor(Date.parse(iso) / 1000)]: the quotient of a time value is
    below [2 ^ 43], where a double still separates thousandths from the next
    integer, so the floor is exact. *)
Definition unixSeconds {DP : DateParse} (iso : Instant) : jsnum :=
  match date_parse iso with Some ms => num_of_Z (ms / 1000) | None => NaN end.

(** The claims, the optional ones only when there is a value for them. *)
Definition token_payload {W} (input : IssueTokenInput W) (jti : jsstr) (iat exp : jsnum) (scopeSlug : jsstr)
    (status : LicenseStatus) (force : option jsnum) (entitlements : option jsval) : jsval :=
  plain ([(js "jti", JStr jti); (js "iat", JNum iat); (js "nbf", JNum iat); (js "exp", JNum exp);
          (js "scope", JStr scopeSlug); (js "license_id", JStr (l_id (it_license input)));
          (js "usage_id", JStr (u_id (it_usage input)));
          (js "usage_fingerprint", JStr (u_fingerprint (it_usage input)));
          (js "status", JStr (status_str status));
          (js "max_usages", js_int (l_max_usages (it_license input)))]
         ++ match force with Some n => [(js "force_online_after", JNum n)] | None => [] end
         ++ match entitlements with Some e => [(js "entitlements", e)] | None => [] end
         ++ match it_meta input with Some m => [(js "meta", m)] | None => [] end).

Section TokenService.
Context {KH : KeyHandles} {P : Pbes2} {SH : Sha256} {DP : DateParse}.
Context {W : Type} {HC : HasClock W} {HE : HasEntropy W} {ST : Storage W}.

(** [while (true) { page = listKeys(...); if (page.items.length > 0) return page.items[0]; ... }] *)
Definition findFirstActive (fuel : nat) (scope_id : option UUIDv7) (alg : KeyAlg) : prog W (option LicenseKey) :=
  walkPages
    (fun c => listKeys (mkKeyFilter (Some scope_id) None (Some alg) (Some signing) (Some k_active)) (mkPageRequest 50 c))
    (fun (_ : unit) items =>
       match items with k :: _ => ret (Return (Some k)) | [] => ret (Continue tt) end)
    (fun _ => None) fuel tt None.

Definition findActiveSigningKey (fuel : nat) (scope_id : option UUIDv7) (alg : KeyAlg) : prog W (option LicenseKey) :=
  match scope_id with
  | Some _ =>
      let* scoped := findFirstActive fuel scope_id alg in
      match scoped with
      | Some k => ret (Some k)
      | None => findFirstActive fuel None alg
      end
  | None => findFirstActive fuel None alg
  end.

Definition resolveScopeSlug (scope_id : UUIDv7) : prog W jsstr :=
  let* scope := getScope scope_id in
  match scope with
  | None => throw errors.tokenMalformed
  | Some s => ret (sc_slug s)
  end.

(** The inline store that only knows the chosen key. *)
Definition inline_store (k : LicenseKey) : KeyStore W := {|
  ks_put := fun _ => throw PlainError;
  ks_get := fun _ => ret None;
  ks_findByKid := fun kid => ret (if str_eqb kid (k_kid k) then Some k else None);
  ks_list := fun _ => ret [k];
  ks_update := fun _ _ => throw PlainError
|}.

(** The checks before anything is read: on the request itself. *)
Definition check_request (input : IssueTokenInput W) : res unit :=
  if num_leb (it_ttlSeconds input) (num_of_Z 0) then Throw errors.fingerprintRejected
  else if bool_decide (u_license_id (it_usage input) <> l_id (it_license input))
  then Throw errors.tokenMalformed
  else if bool_decide (u_status (it_usage input) <> u_active) then Throw errors.tokenMalformed
  else Ok tt.

Definition check_issuable (status : LicenseStatus) : res unit :=
  match status with
  | pending => Throw errors.tokenMalformed
  | suspended => Throw errors.licenseSuspended
  | revoked => Throw errors.licenseRevoked
  | expired => Throw errors.licenseExpired
  | active | grace => Ok tt
  end.

(** The texts two errors carry in their details. *)
Definition no_signer (scope_id : option UUIDv7) (alg : KeyAlg) : jsstr :=
  match scope_id with
  | None => js "no active global signing key for alg=" ++ alg_str alg
  | Some s => js "no active signing key for scope=" ++ s ++ js " alg=" ++ alg_str alg
              ++ js " (and no global fallback)"
  end.

Definition not_supported (format : TokenFormat) (alg : KeyAlg) (codec : TokenCodec) : jsstr :=
  js "token format " ++ format_str format ++ js " does not support alg=" ++ alg_str alg
  ++ [32; 0x2014] ++ js " supported: " ++ join (js ", ") (map alg_str (c_supportedAlgs codec)).

(** The drift guard on the scope of the chosen key. *)
Definition check_key_scope (k : LicenseKey) (scope_id : option UUIDv7) : res unit :=
  if bool_decide (k_scope_id k <> scope_id) && bool_decide (k_scope_id k <> None)
  then Throw (errors.unknownKid
    (js "signing key " ++ k_kid k ++ js " scope (" ++ given_or (k_scope_id k) (js "null")
     ++ js ") does not match license scope (" ++ given_or scope_id (js "global") ++ js ")"))
  else Ok tt.

Definition issueToken (fuel : nat) (codecs : Codecs) (backends : list (KeyAlg * SignatureBackend))
    (input : IssueTokenInput W) : prog W IssueTokenResult :=
  let license := it_license input in
  do* lift (check_request input);
  let* now := nowIso in
  let status := effectiveStatus license now in
  do* lift (check_issuable status);
  let* found := findActiveSigningKey fuel (l_scope_id license) (it_alg input) in
  match found with
  | None => throw (errors.unknownKid (no_signer (l_scope_id license) (it_alg input)))
  | Some key =>
      do* lift (check_key_scope key (l_scope_id license));
      let* scopeSlug := match l_scope_id license with
                        | None => ret []
                        | Some scope_id => resolveScopeSlug scope_id
                        end in
      let iat := unixSeconds now in
      let exp := num_add iat (it_ttlSeconds input) in
      let* jti := freshUuid in
      let* force := lift (resolveForceOnlineAfter input iat) in
      let entitlements := resolveEntitlements input in
      let payload := token_payload input jti iat exp scopeSlug status force entitlements in
      let* (_, handle) := @importSigningPrivate KH P W (inline_store key) backends (k_kid key) (it_signingPassphrase input) in
      match map_get backends (it_alg input) with
      | None => throw (errors.unsupportedAlgorithm (alg_str (it_alg input)))
      | Some backend =>
          let format := match it_tokenFormat input with Some f => f | None => LIC1 end in
          let* codec := lift (codecForFormat codecs format) in
          if negb (bool_decide (it_alg input ∈ c_supportedAlgs codec))
          then throw (errors.unsupportedAlgorithm (not_supported format (it_alg input) codec))
          else
            let* token := lift (c_encode codec (mkEncodeInput (it_alg input) (k_kid key) payload handle backend)) in
            do* match it_transparencyHook input with
                | None => ret tt
                | Some hook =>
                    hook (mkEvent jti (l_id license) (u_id (it_usage input)) (k_kid key) format iat exp
                            (sha256_hex (utf8_encode token)))
                end;
            ret (mkIssued token (k_kid key) iat exp jti)
      end
  end.
End TokenService.
