(* ===== verification/Quiet.v ===== *)
(** * Quiet: programs that touch no table

    A framed world has a relation that says nothing stored has changed; a
    program is quiet when every run, failed or not, stays within it. The
    steps of issuing keys and tokens that only read, draw entropy or compute
    are quiet, whatever the store underneath. *)

From S2P Require Import Prelude Errors JsNum Text Json Types Crypto TokenCodec Id Cursor Storage Pages Lifecycle Memory MemoryLaws EncryptedPkcs8 KeyHierarchy TokenService.

Class Framed (W : Type) : Type := {
  same : W -> W -> Prop;
  same_refl : forall w, same w w;
  same_trans : forall w1 w2 w3, same w1 w2 -> same w2 w3 -> same w1 w3
}.

Definition quiet {W} {F : Framed W} {A} (c : prog W A) : Prop := forall w, same w (c w).2.

(** Reading the clock and drawing entropy are quiet. *)
Class QuietClock (W : Type) {F : Framed W} {HC : HasClock W} : Prop := {
  quiet_nowMs : quiet (nowMs (W := W));
  quiet_nowIso : quiet (nowIso (W := W))
}.
Class QuietEntropy (W : Type) {F : Framed W} {HE : HasEntropy W} : Prop := {
  quiet_randomFill : forall n, quiet (randomFill (W := W) n)
}.

Create HintDb quiet.

Section Steps.
Context {W : Type} {F : Framed W}.

Lemma quiet_ret {A} (a : A) : quiet (ret a : prog W A).
Proof. intros w. apply same_refl. Qed.
Lemma quiet_throw {A} e : quiet (throw e : prog W A).
Proof. intros w. apply same_refl. Qed.
Lemma quiet_lift {A} (r : res A) : quiet (lift r : prog W A).
Proof. intros w. apply same_refl. Qed.

Lemma quiet_bind {A B} (c : prog W A) (k : A -> prog W B) :
  quiet c -> (forall a, quiet (k a)) -> quiet (bind c k).
Proof.
  intros Hc Hk w. unfold bind. specialize (Hc w). destruct (c w) as [[a|e] w1]; [|done].
  by eapply same_trans; [|apply Hk].
Qed.

Lemma quiet_try {A} (c : prog W A) (h : exn -> prog W A) :
  quiet c -> (forall e, quiet (h e)) -> quiet (try_catch c h).
Proof.
  intros Hc Hh w. unfold try_catch. specialize (Hc w). destruct (c w) as [[a|e] w1]; [done|].
  by eapply same_trans; [|apply Hh].
Qed.

(** The world after a quiet step. *)
Lemma quiet_same {A} (c : prog W A) w r w' : quiet c -> c w = (r, w') -> same w w'.
Proof. intros Hc H. specialize (Hc w). by rewrite H in Hc. Qed.
End Steps.

#[export] Hint Resolve quiet_ret quiet_throw quiet_lift quiet_nowMs quiet_nowIso quiet_randomFill : quiet.

Ltac quiet_steps := repeat match goal with
  | |- quiet (bind _ _) => apply quiet_bind; [|intros ?]
  | |- quiet (try_catch _ _) => apply quiet_try; [|intros ?]
  | |- quiet (if ?b then _ else _) => destruct b
  | |- quiet (match ?x with _ => _ end) => destruct x
  | |- quiet _ => solve [eauto with quiet]
  end.

Section Programs.
Context {KH : KeyHandles} {P : Pbes2} {SH : Sha256} {DP : DateParse}.
Context {W : Type} {F : Framed W} {HC : HasClock W} {HE : HasEntropy W} {QC : QuietClock W} {QE : QuietEntropy W}.

Lemma quiet_freshUuid : quiet (freshUuid (W := W)).
Proof. unfold freshUuid. quiet_steps. Qed.
Lemma quiet_wrap der pass : quiet (W := W) (wrapEncryptedPkcs8 der pass).
Proof. unfold wrapEncryptedPkcs8. quiet_steps. Qed.
Lemma quiet_generate b pass : quiet (W := W) (generate b pass).
Proof. unfold generate. quiet_steps. Qed.
Lemma quiet_wrap_private pem raw pass : quiet (W := W) (wrap_private pem raw pass).
Proof. unfold wrap_private. pose proof quiet_wrap. quiet_steps. Qed.

Section KeyStores.
Context {KS : KeyStore W}.
Hypothesis quiet_find : forall kid, quiet (ks_findByKid (W := W) kid).

Lemma quiet_requireRoot kid alg scope : quiet (requireRoot kid alg scope).
Proof. unfold requireRoot. quiet_steps. Qed.
Lemma quiet_importSigningPrivate backends kid pass : quiet (importSigningPrivate backends kid pass).
Proof. unfold importSigningPrivate. quiet_steps. Qed.
End KeyStores.

(** ** Issuing a token *)

Context {ST : Storage W}.
Hypothesis quiet_listKeys : forall filter page, quiet (listKeys filter page : prog W _).
Hypothesis quiet_getScope : forall id, quiet (getScope id : prog W _).

Lemma quiet_walkPages {T A R} (fetch : option jsstr -> prog W (Page T)) (body : A -> list T -> prog W (step A R)) fin :
  (forall c, quiet (fetch c)) -> (forall s items, quiet (body s items)) ->
  forall fuel s c, quiet (walkPages fetch body fin fuel s c).
Proof.
  intros Hl Hb fuel. induction fuel as [|fuel IH]; intros s c; cbn [walkPages]; quiet_steps.
Qed.

Lemma quiet_findActive fuel scope alg : quiet (findActiveSigningKey fuel scope alg).
Proof.
  assert (H : forall s, quiet (findFirstActive fuel s alg)).
  { intros s. apply quiet_walkPages; [intros c; apply quiet_listKeys|intros ? []; auto with quiet]. }
  unfold findActiveSigningKey. quiet_steps; apply H.
Qed.

(** Without a hook, issuing a token stores nothing. *)
Lemma quiet_issueToken fuel codecs backends input :
  it_transparencyHook input = None -> quiet (issueToken fuel codecs backends input).
Proof.
  intros Hh. pose proof quiet_freshUuid. pose proof quiet_findActive.
  assert (forall key, quiet (@importSigningPrivate KH P W (inline_store key) backends (k_kid key) (it_signingPassphrase input))).
  { intros key. apply quiet_importSigningPrivate. intros kid. apply quiet_ret. }
  unfold issueToken, resolveScopeSlug. rewrite Hh. quiet_steps.
Qed.
End Programs.
#[export] Hint Resolve quiet_freshUuid quiet_wrap quiet_generate quiet_wrap_private : quiet.

(** ** The memory adapter's world *)

#[global, program] Instance world_framed : Framed World := {| same := same_db |}.
Next Obligation. by split. Qed.
Next Obligation. intros w1 w2 w3 [] []. split; congruence. Qed.

#[global] Instance world_quiet_clock : QuietClock World.
Proof.
  split; intros w; cbn; [by destruct (clock_nowMs (w_clock w))|by destruct (clock_nowIso (w_clock w))].
Qed.
#[global] Instance world_quiet_entropy : QuietEntropy World.
Proof. split. by intros n w. Qed.

#[export] Hint Resolve world_quiet_clock world_quiet_entropy : quiet.

(** What the handlers and services read. *)
Section Reads.
Lemma quiet_getLicense id : quiet (getLicense id : prog World _).
Proof. by intros w. Qed.
Lemma quiet_getLicenseByKey key : quiet (getLicenseByKey key : prog World _).
Proof. by intros w. Qed.
Lemma quiet_getUsage id : quiet (getUsage id : prog World _).
Proof. by intros w. Qed.
Lemma quiet_getKeyByKid kid : quiet (getKeyByKid kid : prog World _).
Proof. by intros w. Qed.
Lemma quiet_getScope id : quiet (getScope id : prog World _).
Proof. by intros w. Qed.
Lemma quiet_listKeys filter page : quiet (listKeys filter page : prog World _).
Proof. by intros w. Qed.
End Reads.
#[export] Hint Resolve quiet_getLicense quiet_getLicenseByKey quiet_getUsage quiet_getKeyByKid quiet_getScope quiet_listKeys : quiet.
