(* ===== verification/JsArith.v ===== *)
(** * JsArith: more JavaScript numbers and text

    Subtraction, multiplication, division, [Math.min], [Math.max],
    [Math.ceil], [Number(text)] and [decodeURIComponent], with what rounding
    preserves: the order of a value and an integer. *)

From S2P Require Import Prelude Errors JsNum Text LicenseKeyFormat StrictJson.

(** The value of an option that is known to be there. *)
Definition given (o : option Z) : Z := match o with Some z => z | None => 0 end.

(** ** Arithmetic *)

Definition num_sub (a b : jsnum) : jsnum := num_add a (num_neg b).

(** The sign of a product or a quotient. *)
Definition num_negative (n : jsnum) : bool :=
  match n with NaN => false | Infinity b => b | NegZero => true | Fin m _ => m <? 0 end.
Definition zero_of_sign (negative : bool) : jsnum := if negative then NegZero else Fin 0 0.

Definition num_mul (a b : jsnum) : jsnum :=
  let negative := xorb (num_negative a) (num_negative b) in
  match a, b with
  | NaN, _ | _, NaN => NaN
  | Infinity _, (NegZero | Fin 0 _) | (NegZero | Fin 0 _), Infinity _ => NaN
  | Infinity _, _ | _, Infinity _ => Infinity negative
  | (NegZero | Fin 0 _), _ | _, (NegZero | Fin 0 _) => zero_of_sign negative
  | Fin m1 e1, Fin m2 e2 => dyadic (m1 * m2) (e1 + e2)
  end.

Definition num_div (a b : jsnum) : jsnum :=
  let negative := xorb (num_negative a) (num_negative b) in
  match a, b with
  | NaN, _ | _, NaN => NaN
  | Infinity _, Infinity _ => NaN
  | Infinity _, _ => Infinity negative
  | (NegZero | Fin 0 _), (NegZero | Fin 0 _) => NaN
  | (NegZero | Fin 0 _), _ | _, Infinity _ => zero_of_sign negative
  | _, (NegZero | Fin 0 _) => Infinity negative
  | Fin m1 e1, Fin m2 e2 =>
      let n := Z.sgn m2 * m1 in
      let d := Z.abs m2 in
      let e := e1 - e2 in
      if 0 <=? e then rat_to_num (n * 2 ^ e) d else rat_to_num n (d * 2 ^ (- e))
  end.

(** [Math.min(a, b)], [Math.max(a, b)]: the negative zero is below the
    positive one. *)
Definition num_min (a b : jsnum) : jsnum :=
  match a, b with
  | NaN, _ | _, NaN => NaN
  | NegZero, Fin 0 _ | Fin 0 _, NegZero => NegZero
  | _, _ => if num_ltb b a then b else a
  end.

Definition num_max (a b : jsnum) : jsnum :=
  match a, b with
  | NaN, _ | _, NaN => NaN
  | NegZero, Fin 0 _ => b
  | Fin 0 _, NegZero => a
  | _, _ => if num_ltb a b then b else a
  end.

Definition num_ceil (n : jsnum) : jsnum :=
  match n with
  | Fin m e =>
      if 0 <=? e then n
      else let c := - ((- m) / 2 ^ (- e)) in
           if (c =? 0) && (m <? 0) then NegZero else norm c 0
  | _ => n
  end.

(** ** [Number(text)] *)

(** Digits in a base, at least one, all of them. *)
Definition digit_of (c : Z) : Z :=
  if (0x30 <=? c) && (c <=? 0x39) then c - 0x30
  else if (0x61 <=? c) && (c <=? 0x66) then c - 0x61 + 10
  else if (0x41 <=? c) && (c <=? 0x46) then c - 0x41 + 10
  else 99.

Definition radix_value (base : Z) (s : jsstr) : jsnum :=
  match s with
  | [] => NaN
  | _ => if forallb (fun c => digit_of c <? base) s
         then num_of_Z (fold_left (fun a c => a * base + digit_of c) s 0) else NaN
  end.

(** An exponent part: [e], an optional sign, digits, and nothing after. *)
Definition decimal_exponent (s : jsstr) : option Z :=
  match s with
  | [] => Some 0
  | c :: r =>
      if (c =? 0x65) || (c =? 0x45) then
        let '(neg, ds) := match r with
                          | d :: r' => if d =? 45 then (true, r') else if d =? 43 then (false, r') else (false, r)
                          | [] => (false, r)
                          end in
        if forallb isDigit ds && negb (bool_decide (ds = []))
        then Some (if neg then - dec_val ds else dec_val ds) else None
      else None
  end.

Definition decimal_value (neg : bool) (s : jsstr) : jsnum :=
  let '(ip, r) := span_digits s in
  let '(fp, r) := match r with
                  | c :: r' => if c =? 46 then span_digits r' else ([], r)
                  | [] => ([], r)
                  end in
  match ip ++ fp, decimal_exponent r with
  | _ :: _, Some ex => literal_value neg ip fp ex
  | _, _ => NaN
  end.

Definition signed_value (s : jsstr) : jsnum :=
  let value neg s := if str_eqb s (js "Infinity") then Infinity neg else decimal_value neg s in
  match s with
  | c :: r => if c =? 45 then value true r else if c =? 43 then value false r else value false s
  | [] => Fin 0 0
  end.

Definition js_Number (text : jsstr) : jsnum :=
  let s := js_trim text in
  match s with
  | z :: x :: ds =>
      if z =? 0x30 then
        if (x =? 0x78) || (x =? 0x58) then radix_value 16 ds
        else if (x =? 0x6f) || (x =? 0x4f) then radix_value 8 ds
        else if (x =? 0x62) || (x =? 0x42) then radix_value 2 ds
        else signed_value s
      else signed_value s
  | _ => signed_value s
  end.

(** ** [decodeURIComponent] *)

Definition hex_digit (c : Z) : option Z :=
  let d := digit_of c in if d <? 16 then Some d else None.

(** [n] further [%XX] escapes, as bytes. *)
Fixpoint escapes (n : nat) (s : jsstr) : option (list Z * jsstr) :=
  match n with
  | O => Some ([], s)
  | S n' =>
      match s with
      | p :: a :: b :: s' =>
          match hex_digit a, hex_digit b with
          | Some x, Some y =>
              if p =? 37 then
                match escapes n' s' with
                | Some (bs, r) => Some (x * 16 + y :: bs, r)
                | None => None
                end
              else None
          | _, _ => None
          end
      | _ => None
      end
  end.

(** The number of bytes of the UTF-8 sequence a byte starts. *)
Definition sequence_length (b : Z) : option nat :=
  if b <? 0x80 then Some 1%nat
  else if (0xc0 <=? b) && (b <? 0xe0) then Some 2%nat
  else if (0xe0 <=? b) && (b <? 0xf0) then Some 3%nat
  else if (0xf0 <=? b) && (b <? 0xf8) then Some 4%nat
  else None.

Fixpoint decode_uri (fuel : nat) (s : jsstr) : res jsstr :=
  match fuel with
  | O => Throw Diverged
  | S fuel' =>
      match s with
      | [] => Ok []
      | c :: s' =>
          if negb (c =? 37) then let? r := decode_uri fuel' s' in Ok (c :: r)
          else
            match escapes 1 s with
            | Some ([b], _) =>
                match sequence_length b with
                | Some n =>
                    match escapes n s with
                    | Some (bs, rest) =>
                        match utf8_decode bs with
                        | Some us => let? r := decode_uri fuel' rest in Ok (us ++ r)
                        | None => Throw PlainError
                        end
                    | None => Throw PlainError
                    end
                | None => Throw PlainError
                end
            | _ => Throw PlainError
            end
      end
  end.

(** [URIError] is a bare error. *)
Definition decodeURIComponent (s : jsstr) : res jsstr := decode_uri (S (List.length s)) s.

Example decode_percent : decodeURIComponent (js "a%2Fb%C3%A9") = Ok (js "a/b" ++ [0xe9]).
Proof. reflexivity. Qed.
Example decode_bad : decodeURIComponent (js "%zz") = Throw PlainError.
Proof. reflexivity. Qed.
Example number_texts :
  map js_Number [js " 42 "; js "0x1F"; js "1e2"; js ""; js "12x"]
  = [num_of_Z 42; num_of_Z 31; num_of_Z 100; Fin 0 0; NaN].
Proof. vm_compute. reflexivity. Qed.

(** ** What rounding keeps *)

(** The value of [x] is at least the integer [N]. *)
Definition at_least (N : Z) (x : jsnum) : Prop :=
  match x with
  | NaN => False
  | Infinity negative => negative = false
  | NegZero => N <= 0
  | Fin m e => N * 2 ^ (- Z.min 0 e) <= m * 2 ^ (e - Z.min 0 e)
  end.

(** The comparison may be made at any common exponent. *)
Lemma at_least_scale N m e k :
  k <= 0 -> k <= e -> at_least N (Fin m e) <-> N * 2 ^ (- k) <= m * 2 ^ (e - k).
Proof.
  intros H0 He. cbn. set (j := Z.min 0 e).
  replace (- k) with ((- j) + (j - k)) by lia. replace (e - k) with ((e - j) + (j - k)) by lia.
  rewrite !Z.pow_add_r, !Z.mul_assoc by lia. assert (0 < 2 ^ (j - k)) by (apply Z.pow_pos_nonneg; lia). nia.
Qed.

Lemma norm_at_least N m e : at_least N (Fin m e) -> at_least N (norm m e).
Proof.
  intros H. destruct (decide (m = 0)) as [->|Hm].
  { cbn in *. rewrite Z.mul_0_l in H. assert (0 < 2 ^ (- Z.min 0 e)) by (apply Z.pow_pos_nonneg; lia). nia. }
  assert (exists q e', norm m e = Fin q e' /\ e <= e' /\ m = q * 2 ^ (e' - e)) as (q & e' & -> & He & Hq).
  { destruct m as [|p|p]; [done| |]; cbn; destruct (odd_part p e) as [q e'] eqn:E;
      apply odd_part_spec in E as (_ & Hle & Heq); eexists _, _; (split; [done|]); lia. }
  rewrite (at_least_scale N m e (Z.min 0 e)) in H by lia. rewrite (at_least_scale N q e' (Z.min 0 e)) by lia.
  rewrite Hq in H. rewrite <- Z.mul_assoc, <- Z.pow_add_r in H by lia.
  replace (e' - Z.min 0 e) with (e' - e + (e - Z.min 0 e)) by lia. done.
Qed.

(** The exponent [rat_to_num] finds for a value of at least one. *)
Lemma rat_exponent a d :
  0 < d <= a ->
  let k0 := Z.log2 a - Z.log2 d in
  let k := if (if 0 <=? k0 then a <? d * 2 ^ k0 else a * 2 ^ (- k0) <? d) then k0 - 1 else k0 in
  0 <= k /\ d * 2 ^ k <= a.
Proof.
  intros [Hd Ha]. cbv zeta.
  pose proof (Z.log2_spec a ltac:(lia)) as [Ha1 _]. pose proof (Z.log2_spec d Hd) as [_ Hd2].
  pose proof (Z.log2_le_mono d a Ha) as Hl. pose proof (Z.log2_nonneg d).
  set (k0 := Z.log2 a - Z.log2 d). rewrite (proj2 (Z.leb_le 0 k0)) by lia.
  destruct (Z.ltb_spec a (d * 2 ^ k0)) as [Hb|Hb]; [|lia].
  assert (k0 <> 0) by (intros E; rewrite E in Hb; lia). split; [lia|].
  replace (Z.log2 a) with (Z.succ (Z.log2 d) + (k0 - 1)) in Ha1 by lia. rewrite Z.pow_add_r in Ha1 by lia.
  assert (0 < 2 ^ (k0 - 1)) by (apply Z.pow_pos_nonneg; lia). nia.
Qed.

Lemma rat_at_least N n d : 0 < d -> 0 <= N <= 2 ^ 53 -> N * d <= n -> at_least N (rat_to_num n d).
Proof.
  intros Hd HN Hn. destruct (decide (n = 0)) as [->|Hn0].
  { assert (N = 0) as -> by nia. done. }
  assert (0 < n) by nia. unfold rat_to_num. rewrite Z.abs_eq, (proj2 (Z.eqb_neq n 0)), (proj2 (Z.ltb_ge n 0)) by lia.
  cbv zeta. set (k0 := Z.log2 n - Z.log2 d).
  set (k := if (if 0 <=? k0 then n <? d * 2 ^ k0 else n * 2 ^ (- k0) <? d) then k0 - 1 else k0).
  set (e := Z.max (k - 52) (-1074)). set (num := if 0 <=? e then n else n * 2 ^ (- e)).
  set (den := if 0 <=? e then d * 2 ^ e else d).
  set (q := num / den). 
  match goal with |- context [if 2 * ?r <? den then q else ?x] => set (q' := if 2 * r <? den then q else x) end.
  assert (Hq' : q <= q') by (unfold q'; repeat case_goal; lia).
  assert (0 <= q /\ 0 < den) as [Hq Hden].
  { assert (0 < den) by (unfold den; destruct (0 <=? e) eqn:E; bool_prop; [apply Z.mul_pos_pos; [done|apply Z.pow_pos_nonneg; lia]|done]).
    split; [|done]. apply Z.div_pos; [|done]. unfold num. destruct (0 <=? e); [lia|].
    apply Z.mul_nonneg_nonneg; [lia|apply Z.pow_nonneg; lia]. }
  assert (Hval : at_least N (Fin q' e)).
  { destruct (decide (N = 0)) as [->|]; [cbn; rewrite Z.mul_0_l; apply Z.mul_nonneg_nonneg; [lia|apply Z.pow_nonneg; lia]|].
    destruct (rat_exponent n d ltac:(nia)) as [Hk Hdk]. fold k0 k in Hk, Hdk.
    assert (He : e = k - 52) by lia. rewrite (at_least_scale N q' e (Z.min 0 e)) by lia.
    destruct (0 <=? e) eqn:E; bool_prop.
    - rewrite Z.min_l, Z.mul_1_r, Z.sub_0_r by lia. unfold q, num, den in *.
      destruct (decide (e = 0)) as [E0|].
      + rewrite E0, Z.mul_1_r in *. assert (N <= n / d) by (apply Z.div_le_lower_bound; lia). lia.
      + assert (2 ^ 52 <= n / (d * 2 ^ e)).
        { apply Z.div_le_lower_bound; [done|]. replace k with (e + 52) in Hdk by lia. rewrite Z.pow_add_r in Hdk by lia. lia. }
        assert (2 ^ 1 <= 2 ^ e) by (apply Z.pow_le_mono_r; lia). nia.
    - rewrite Z.min_r, Z.sub_diag, Z.mul_1_r by lia. unfold q, num, den in *.
      assert (N * 2 ^ (- e) <= n * 2 ^ (- e) / d); [|lia]. apply Z.div_le_lower_bound; [done|].
      assert (0 < 2 ^ (- e)) by (apply Z.pow_pos_nonneg; lia). nia. }
  rewrite Z.sgn_pos, Z.mul_1_l by done.
  destruct (q' =? 0) eqn:E0; bool_prop.
  - rewrite E0 in Hval. cbn in *. rewrite Z.mul_0_l in Hval. assert (0 < 2 ^ (- Z.min 0 e)) by (apply Z.pow_pos_nonneg; lia). nia.
  - destruct (_ && _); [done|by apply norm_at_least].
Qed.

(** A dyadic value rounds to a number that is at least the same integers. *)
Lemma dyadic_at_least N m e :
  0 <= N <= 2 ^ 53 -> at_least N (Fin m e) -> at_least N (dyadic m e).
Proof.
  intros HN H. rewrite (at_least_scale N m e (Z.min 0 e)) in H by lia. unfold dyadic.
  destruct (0 <=? e) eqn:E; bool_prop.
  - rewrite Z.min_l, Z.sub_0_r, Z.mul_1_r in H by lia. apply rat_at_least; lia.
  - rewrite Z.min_r, Z.sub_diag, Z.mul_1_r in H by lia. apply rat_at_least; [apply Z.pow_pos_nonneg; lia|done|done].
Qed.

Lemma at_least_mono N N' x : N' <= N -> at_least N x -> at_least N' x.
Proof.
  intros HN. destruct x as [| | |m e]; cbn; try done; [lia|].
  assert (0 <= 2 ^ (- Z.min 0 e)) by (apply Z.pow_nonneg; lia). nia.
Qed.

Lemma at_least_add N N' x y :
  0 <= N + N' <= 2 ^ 53 -> at_least N x -> at_least N' y -> at_least (N + N') (num_add x y).
Proof.
  intros Hs Hx Hy. destruct x as [|b| |m1 e1], y as [|b'| |m2 e2]; try done; cbn [num_add].
  - cbn in Hx, Hy. by subst.
  - cbn in *. lia.
  - apply (at_least_mono N'); [cbn in Hx; lia|done].
  - apply (at_least_mono N); [cbn in Hy; lia|done].
  - apply dyadic_at_least; [lia|]. set (e := Z.min e1 e2). set (k := Z.min 0 e).
    rewrite (at_least_scale N _ _ k) in Hx by lia. rewrite (at_least_scale N' _ _ k) in Hy by lia.
    rewrite (at_least_scale _ _ e k) by lia.
    rewrite !Z.mul_add_distr_r, <- !Z.mul_assoc, <- !Z.pow_add_r by lia.
    replace (e1 - e + (e - k)) with (e1 - k) by lia. replace (e2 - e + (e - k)) with (e2 - k) by lia. lia.
Qed.

Lemma at_least_pred x : at_least 1 x -> at_least 0 (num_sub x (num_of_Z 1)).
Proof. intros H. apply (at_least_add 1 (-1)); [lia|done|]. by vm_compute. Qed.

(** [x >= N] times [r] is at least what [N] times [r] is. *)
Lemma at_least_mul N K x r f :
  0 <= N -> 0 <= K <= 2 ^ 53 -> 0 < r -> at_least N x -> at_least K (Fin (N * r) f) -> at_least K (num_mul x (Fin r f)).
Proof.
  intros HN HK Hr Hx Hk. destruct x as [|b| |m e]; try done.
  - cbn in Hx. subst b. cbn. destruct r as [|p|p]; try lia. done.
  - cbn in Hx. assert (N = 0) as -> by lia. assert (K <= 0).
    { rewrite (at_least_scale K _ _ (Z.min 0 f)) in Hk by lia. assert (0 < 2 ^ (- Z.min 0 f)) by (apply Z.pow_pos_nonneg; lia). nia. }
    cbn. destruct r as [|p|p]; try lia. done.
  - assert (Hzero : m = 0 -> K <= 0 /\ N <= 0).
    { intros ->. rewrite (at_least_scale N _ _ (Z.min 0 e)) in Hx by lia.
      assert (0 < 2 ^ (- Z.min 0 e)) by (apply Z.pow_pos_nonneg; lia). assert (N = 0) as -> by nia. split; [|lia].
      rewrite (at_least_scale K _ _ (Z.min 0 f)) in Hk by lia. assert (0 < 2 ^ (- Z.min 0 f)) by (apply Z.pow_pos_nonneg; lia). nia. }
    assert (Hm : 0 <= m).
    { rewrite (at_least_scale N _ _ (Z.min 0 e)) in Hx by lia.
      assert (0 < 2 ^ (- Z.min 0 e)) by (apply Z.pow_pos_nonneg; lia).
      assert (0 < 2 ^ (e - Z.min 0 e)) by (apply Z.pow_pos_nonneg; lia). nia. }
    destruct (decide (m = 0)) as [->|Hm0].
    { destruct (Hzero eq_refl) as [HK0 _]. assert (K = 0) as -> by lia. cbn. destruct r; [lia|done|lia]. }
    assert (num_mul (Fin m e) (Fin r f) = dyadic (m * r) (e + f)) as ->
      by (destruct m as [|p|p], r as [|q|q]; try lia; done).
    apply dyadic_at_least; [done|]. set (j := Z.min 0 e). set (k := Z.min 0 f).
    rewrite (at_least_scale N _ _ j) in Hx by lia. rewrite (at_least_scale K _ _ k) in Hk by lia.
    rewrite (at_least_scale K _ (e + f) (j + k)) by lia.
    replace (- (j + k)) with (- k + - j) by lia. replace (e + f - (j + k)) with (e - j + (f - k)) by lia.
    rewrite !Z.pow_add_r by lia. assert (0 < 2 ^ (- j)) by (apply Z.pow_pos_nonneg; lia).
    assert (0 < 2 ^ (f - k)) by (apply Z.pow_pos_nonneg; lia).
    assert (K * 2 ^ (- k) * 2 ^ (- j) <= N * r * 2 ^ (f - k) * 2 ^ (- j)) by nia.
    assert (N * 2 ^ (- j) * (r * 2 ^ (f - k)) <= m * 2 ^ (e - j) * (r * 2 ^ (f - k))) by nia. lia.
Qed.

(** The canonical number of a natural number. *)
Lemma norm_nat N : 0 <= N -> exists q f, norm N 0 = Fin q f /\ 0 <= f /\ N = q * 2 ^ f.
Proof.
  intros HN. destruct N as [|p|p]; [by exists 0, 0| |lia]. cbn. destruct (odd_part p 0) as [q f] eqn:E.
  apply odd_part_spec in E as (_ & Hf & Heq). rewrite Z.sub_0_r in Heq. eexists _, _. split; [done|]. lia.
Qed.

Lemma at_least_ltb N x : 0 <= N <= 2 ^ 53 -> at_least N x -> num_ltb x (num_of_Z N) = false.
Proof.
  intros HN H. rewrite num_of_Z_exact by lia. destruct x as [|b| |m e]; [done|cbn in H; subst b; by destruct (norm N 0)| |].
  - cbn in H. assert (N = 0) as -> by lia. done.
  - destruct (norm_nat N) as (q & f & -> & Hf & ->); [lia|]. set (k := Z.min 0 e). rewrite (num_ltb_fin m e q f k) by lia.
    rewrite (at_least_scale _ m e k) in H by lia. rewrite <- Z.mul_assoc, <- Z.pow_add_r in H by lia.
    replace (f + - k) with (f - k) in H by lia. by apply Z.ltb_ge.
Qed.

Lemma at_least_not_ltb N x : 0 <= N <= 2 ^ 53 -> x <> NaN -> num_ltb x (num_of_Z N) = false -> at_least N x.
Proof.
  intros HN Hx H. rewrite num_of_Z_exact in H by lia.
  destruct (norm_nat N) as (q & f & E & Hf & Hq); [lia|]. rewrite E in H. destruct x as [|b| |m e]; [done|by destruct b| |].
  - rewrite num_ltb_fin_of in H. cbn [fin_of] in H. rewrite (num_ltb_fin 0 0 q f 0) in H by lia.
    bool_prop. rewrite Z.sub_0_r in H. cbn. lia.
  - set (k := Z.min 0 e). rewrite (num_ltb_fin m e q f k) in H by lia. bool_prop.
    rewrite (at_least_scale _ m e k) by lia. rewrite Hq, <- Z.mul_assoc, <- Z.pow_add_r by lia.
    replace (f + - k) with (f - k) by lia. lia.
Qed.

Lemma at_least_not_nan N x : at_least N x -> x <> NaN.
Proof. by destruct x. Qed.

Lemma at_least_min N x y : at_least N x -> at_least N y -> at_least N (num_min x y).
Proof.
  intros Hx Hy. unfold num_min. destruct x as [| | |m e], y as [| | |m' e']; try done; repeat case_goal; try done;
    by destruct m.
Qed.

Lemma at_least_order N x y : at_least N x -> y <> NaN -> num_ltb y x = false -> at_least N y.
Proof.
  intros Hx Hy H. rewrite num_ltb_fin_of in H.
  assert (Hfin : forall n, at_least N (fin_of n) <-> at_least N n).
  { intros []; try done. cbn. lia. }
  apply Hfin. apply Hfin in Hx. assert (Hy' : fin_of y <> NaN) by (by destruct y).
  assert (Hz : forall n, fin_of n <> NegZero) by (by intros []).
  pose proof (Hz x) as Hzx. pose proof (Hz y) as Hzy.
  destruct (fin_of x) as [|b| |m e], (fin_of y) as [|b'| |m' e']; try done.
  1-2: cbn in Hx, H |- *; subst; by repeat match goal with c : bool |- _ => destruct c end.
  set (k := Z.min 0 (Z.min e e')). rewrite (num_ltb_fin _ _ _ _ k) in H by lia. bool_prop.
  rewrite (at_least_scale N _ _ k) in Hx by lia. rewrite (at_least_scale N _ _ k) by lia. lia.
Qed.

Lemma num_ltb_asym x y : num_ltb x y = true -> num_ltb y x = false.
Proof.
  rewrite (num_ltb_fin_of x y), (num_ltb_fin_of y x).
  assert (Hz : forall n, fin_of n <> NegZero) by (by intros []).
  pose proof (Hz x) as Hzx. pose proof (Hz y) as Hzy.
  destruct (fin_of x) as [|b| |m e], (fin_of y) as [|b'| |m' e']; try done;
    try (by repeat match goal with c : bool |- _ => destruct c end).
  set (k := Z.min e e'). rewrite (num_ltb_fin m e m' e' k), (num_ltb_fin m' e' m e k) by lia. intros. bool_prop.
  apply Z.ltb_ge. lia.
Qed.

(** The larger of two numbers is at least what either is. *)
Lemma at_least_max N x y :
  x <> NaN -> y <> NaN -> at_least N x \/ at_least N y -> at_least N (num_max x y).
Proof.
  intros Hx Hy H.
  assert (Hcase : (num_max x y = y /\ num_ltb y x = false) \/ (num_max x y = x /\ num_ltb x y = false)).
  { destruct (num_ltb x y) eqn:E; [left; split; [|by apply num_ltb_asym]|].
    - destruct x as [| | |[] ?], y as [| | |[] ?]; try done; unfold num_max; by rewrite E.
    - destruct x as [| | |[] ?], y as [| | |[] ?]; try done; first [by left | by right | right; split; [unfold num_max; by rewrite E|done]]. }
  destruct Hcase as [[-> Hl]|[-> Hl]], H as [H|H]; try done; by eapply at_least_order.
Qed.

(** ** Times in milliseconds *)

Lemma num_neg_Z x z : num_to_Z x = Some z -> num_to_Z (num_neg x) = Some (- z).
Proof.
  destruct x as [| | |m e]; cbn; try done; [by intros [= <-]|]. destruct m as [|p|p]; cbn.
  - destruct (0 <=? e); [|done]. by intros [= <-].
  - destruct (0 <=? e); [|done]. intros [= <-]. f_equal; lia.
  - destruct (0 <=? e); [|done]. intros [= <-]. f_equal; lia.
Qed.

Lemma num_sub_Z x y a b :
  num_to_Z x = Some a -> num_to_Z y = Some b -> Z.abs (a - b) <= 2 ^ 53 -> num_to_Z (num_sub x y) = Some (a - b).
Proof. intros Hx Hy%num_neg_Z Hb. unfold num_sub. rewrite (num_add_Z _ _ a (- b)); [f_equal; lia|done|done|lia]. Qed.

(** Whole seconds in a number of milliseconds. *)
Lemma seconds_at_least N x z :
  0 <= N <= 2 ^ 53 -> num_to_Z x = Some z -> 1000 * N <= z -> at_least N (num_div x (num_of_Z 1000)).
Proof.
  intros HN Hx Hz. change (num_of_Z 1000) with (Fin 125 3). destruct x as [| | |m e]; try done.
  - cbn in Hx. simplify_eq. cbn. lia.
  - cbn in Hx. destruct (0 <=? e) eqn:E; [|done]. simplify_eq. bool_prop.
    destruct (decide (m = 0)) as [->|Hm]; [cbn; nia|].
    assert (num_div (Fin m e) (Fin 125 3)
            = if 0 <=? e - 3 then rat_to_num (m * 2 ^ (e - 3)) 125 else rat_to_num m (125 * 2 ^ (- (e - 3)))) as ->
      by (destruct m; done).
    assert (2 ^ 3 * 2 ^ (e - 3) = 2 ^ e \/ e < 3) as H3 by (destruct (decide (e < 3)); [by right|left; rewrite <- Z.pow_add_r by lia; f_equal; lia]).
    destruct (0 <=? e - 3) eqn:E3; bool_prop.
    + apply rat_at_least; [done|done|]. destruct H3 as [H3|]; [nia|lia].
    + assert (2 ^ (- (e - 3)) * 2 ^ e = 2 ^ 3) by (rewrite <- Z.pow_add_r by lia; f_equal; lia).
      assert (0 < 2 ^ e) by (apply Z.pow_pos_nonneg; lia).
      apply rat_at_least; [apply Z.mul_pos_pos; [done|apply Z.pow_pos_nonneg; lia]|done|]. nia.
Qed.

Lemma num_div_not_nan x z : num_to_Z x = Some z -> num_div x (num_of_Z 1000) <> NaN.
Proof.
  change (num_of_Z 1000) with (Fin 125 3). destruct x as [| | |m e]; try done. intros _.
  assert (Hr : forall n d, rat_to_num n d <> NaN).
  { intros n d. unfold rat_to_num. cbv zeta. repeat case_goal; try done; unfold norm;
      repeat case_match; done. }
  destruct m; cbn; [done| |]; case_goal; apply Hr.
Qed.
