(* ===== verification/Http.v ===== *)
(** * Http: the framework-free HTTP layer

    [src/typescript/src/http/]: requests and responses ([types.ts]), response
    envelopes ([envelope.ts]), input validation ([validation.ts]), bearer
    authentication ([auth.ts]), routing ([router.ts]) and rate limiting
    ([rate-limit.ts]). Handlers are programs over a world [W]. *)

From S2P Require Import Prelude Errors JsNum JsArith Text Json LicenseKeyFormat TokenCodec.

(** ** Requests and responses *)

Inductive HttpMethod : Type := GET | POST | PATCH | DELETE.

#[global] Instance HttpMethod_eq_dec : EqDecision HttpMethod.
Proof. solve_decision. Defined.

Definition method_str (m : HttpMethod) : jsstr :=
  js match m with GET => "GET" | POST => "POST" | PATCH => "PATCH" | DELETE => "DELETE" end.

(** A query parameter: absent, one string, or several. *)
Inductive QueryValue : Type := OneValue (s : jsstr) | ManyValues (l : list jsstr).

(** Header names are lowercase; an absent body is [JUndefined]. *)
Record HandlerRequest : Type := mkRequest {
  q_method : HttpMethod;
  q_path : jsstr;
  q_query : list (jsstr * QueryValue);
  q_headers : list (jsstr * jsstr);
  q_body : jsval;
  q_remoteAddr : jsstr;
  q_subject : option jsstr
}.

Definition header (req : HandlerRequest) (name : jsstr) : option jsstr := map_get (q_headers req) name.

(** [{ ...req, headers: { ...req.headers, [name]: value } }] *)
Definition with_header (req : HandlerRequest) (name value : jsstr) : HandlerRequest :=
  mkRequest (q_method req) (q_path req) (q_query req) (map_set (q_headers req) name value)
    (q_body req) (q_remoteAddr req) (q_subject req).

Record HandlerResponse : Type := mkResponse {
  r_status : Z;
  r_headers : option (list (jsstr * jsstr));
  r_body : option jsval
}.

Definition Handler (W : Type) : Type := HandlerRequest -> prog W HandlerResponse.
Definition Middleware (W : Type) : Type := HandlerRequest -> Handler W -> prog W HandlerResponse.

(** ** Envelopes *)

Definition respond (data : jsval) (status : Z) : HandlerResponse :=
  mkResponse status None (Some (plain [(js "success", JBool true); (js "data", data)])).
Definition created (data : jsval) : HandlerResponse := respond data 201.
Definition noContent : HandlerResponse := mkResponse 204 None None.

Definition err (status : Z) (code message : jsstr) (headers : option (list (jsstr * jsstr))) : HandlerResponse :=
  mkResponse status headers
    (Some (plain [(js "success", JBool false);
                  (js "error", plain [(js "code", JStr code); (js "message", JStr message)])])).

Definition error_code_str (c : LicensingErrorCode) : jsstr :=
  js match c with
     | CanonicalJSONInvalidType => "CanonicalJSONInvalidType"
     | CanonicalJSONInvalidNumber => "CanonicalJSONInvalidNumber"
     | CanonicalJSONInvalidUTF8 => "CanonicalJSONInvalidUTF8"
     | CanonicalJSONInvalidTopLevel => "CanonicalJSONInvalidTopLevel"
     | CanonicalJSONDuplicateKey => "CanonicalJSONDuplicateKey"
     | CanonicalJSONUnknownField => "CanonicalJSONUnknownField"
     | UnsupportedTokenFormat => "UnsupportedTokenFormat" | TokenMalformed => "TokenMalformed"
     | TokenSignatureInvalid => "TokenSignatureInvalid" | TokenExpired => "TokenExpired"
     | TokenNotYetValid => "TokenNotYetValid" | UnsupportedAlgorithm => "UnsupportedAlgorithm"
     | AlgorithmAlreadyRegistered => "AlgorithmAlreadyRegistered"
     | AlgorithmMismatch => "AlgorithmMismatch" | UnknownKid => "UnknownKid"
     | InsufficientKeyStrength => "InsufficientKeyStrength"
     | MissingKeyPassphrase => "MissingKeyPassphrase" | KeyDecryptionFailed => "KeyDecryptionFailed"
     | LicenseKeyConflict => "LicenseKeyConflict" | LicenseNotFound => "LicenseNotFound"
     | LicenseRevoked => "LicenseRevoked" | LicenseSuspended => "LicenseSuspended"
     | LicenseExpired => "LicenseExpired"
     | IllegalLifecycleTransition => "IllegalLifecycleTransition"
     | SeatLimitExceeded => "SeatLimitExceeded" | FingerprintRejected => "FingerprintRejected"
     | InvalidLicenseKey => "InvalidLicenseKey" | ImmutableAuditLog => "ImmutableAuditLog"
     | UniqueConstraintViolation => "UniqueConstraintViolation" | TemplateCycle => "TemplateCycle"
     | TrialAlreadyIssued => "TrialAlreadyIssued" | GraceExpired => "GraceExpired"
     | Unauthenticated => "Unauthenticated" | RateLimited => "RateLimited"
     end.

Definition ERROR_STATUS (c : LicensingErrorCode) : Z :=
  match c with
  | CanonicalJSONInvalidType | CanonicalJSONInvalidNumber | CanonicalJSONInvalidUTF8
  | CanonicalJSONInvalidTopLevel | CanonicalJSONDuplicateKey | CanonicalJSONUnknownField
  | TokenMalformed | UnsupportedTokenFormat => 400
  | InvalidLicenseKey => 404
  | Unauthenticated | TokenSignatureInvalid | TokenExpired | TokenNotYetValid => 401
  | FingerprintRejected | LicenseSuspended | LicenseRevoked | LicenseExpired | GraceExpired => 403
  | LicenseNotFound | UnknownKid => 404
  | LicenseKeyConflict | UniqueConstraintViolation | SeatLimitExceeded
  | IllegalLifecycleTransition | TemplateCycle | TrialAlreadyIssued => 409
  | UnsupportedAlgorithm | AlgorithmAlreadyRegistered | AlgorithmMismatch
  | InsufficientKeyStrength | MissingKeyPassphrase | KeyDecryptionFailed => 422
  | RateLimited => 429
  | ImmutableAuditLog => 500
  end.

(** [e.message] of a thrown error, which the error values leave out. *)
Class ErrorMessages : Type := { error_message : exn -> jsstr }.

Definition errFromLicensing {EM : ErrorMessages} (e : exn) : HandlerResponse :=
  match e with
  | LicensingError code _ => err (ERROR_STATUS code) (error_code_str code) (error_message e) None
  | _ => err 500 (js "InternalError") (js "an unexpected error occurred") None
  end.

(** ** Input validation *)

(** [ValidationResult]: the value, or the response that refuses it. *)
Abbreviation ValidationResult := (result HandlerResponse).

Definition bad_request (message : jsstr) : HandlerResponse := err 400 (js "BadRequest") message None.

Definition requireJsonObject (req : HandlerRequest) : ValidationResult jsval :=
  match q_body req with
  | JUndefined => Throw (bad_request (js "request body is required"))
  | (JObj _ _ | JObjProto | JOther) as v => Ok v
  | _ => Throw (bad_request (js "request body must be a JSON object"))
  end.

Definition requireString (obj : jsval) (key : jsstr) : ValidationResult jsstr :=
  match get_prop obj key with
  | JStr ((_ :: _) as v) => Ok v
  | _ => Throw (bad_request (js "missing or empty string field: " ++ key))
  end.

Definition optionalString (obj : jsval) (key : jsstr) : ValidationResult (option jsstr) :=
  match get_prop obj key with
  | JUndefined | JNull | JStr [] => Ok None
  | JStr v => Ok (Some v)
  | _ => Throw (bad_request (js "field must be a string or null: " ++ key))
  end.

(** The bounds are integer literals of the callers. *)
Definition requireInt (obj : jsval) (key : jsstr) (min max : option Z) : ValidationResult jsnum :=
  match get_prop obj key with
  | JNum v =>
      if negb (isInteger v) then Throw (bad_request (js "field must be an integer: " ++ key))
      else if match min with Some m => num_ltb v (num_of_Z m) | None => false end
      then Throw (bad_request (js "field " ++ key ++ js " must be >= " ++ dec (given min)))
      else if match max with Some m => num_ltb (num_of_Z m) v | None => false end
      then Throw (bad_request (js "field " ++ key ++ js " must be <= " ++ dec (given max)))
      else Ok v
  | _ => Throw (bad_request (js "field must be an integer: " ++ key))
  end.

Definition optionalObject (obj : jsval) (key : jsstr) : ValidationResult (option jsval) :=
  match get_prop obj key with
  | JUndefined | JNull => Ok None
  | (JObj _ _ | JObjProto | JOther) as v => Ok (Some v)
  | _ => Throw (bad_request (js "field must be an object: " ++ key))
  end.

(** [/^[0-9a-f]{64}$/] *)
Definition FINGERPRINT_RE (s : jsstr) : bool :=
  (List.length s =? 64)%nat
  && forallb (fun c => ((0x30 <=? c) && (c <=? 0x39)) || ((0x61 <=? c) && (c <=? 0x66))) s.

Definition requireFingerprint (obj : jsval) (key : jsstr) : ValidationResult jsstr :=
  let? v := requireString obj key in
  if FINGERPRINT_RE v then Ok v
  else Throw (bad_request (js "field " ++ key ++ js " must be a 64-char lowercase hex SHA-256")).

Definition first_value (v : QueryValue) : option jsstr :=
  match v with OneValue s => Some s | ManyValues l => head l end.

Definition parseLimit (req : HandlerRequest) : ValidationResult jsnum :=
  match map_get (q_query req) (js "limit") ≫= first_value with
  | None => Ok (num_of_Z 25)
  | Some str =>
      let n := js_Number str in
      if negb (isInteger n) || num_ltb n (num_of_Z 1) || num_ltb (num_of_Z 100) n
      then Throw (bad_request (js "limit must be an integer in [1, 100]"))
      else Ok n
  end.

Definition parseCursor (req : HandlerRequest) : option jsstr :=
  match map_get (q_query req) (js "cursor") ≫= first_value with
  | Some ((_ :: _) as s) => Some s
  | _ => None
  end.

(** ** Bearer authentication *)

Definition PUBLIC_HEADER : jsstr := js "x-licensing-route-public".
Definition SUBJECT_HEADER : jsstr := js "x-licensing-auth-subject".

Record AuthIdentity : Type := mkIdentity { ai_subject : jsstr }.
Definition BearerVerifier (W : Type) : Type := jsstr -> prog W (option AuthIdentity).

(** The constant-time comparison returns what a comparison returns. *)
Definition sharedSecretVerifier {W} (secret : jsstr) : res (BearerVerifier W) :=
  match secret with
  | [] => Throw PlainError
  | _ =>
      let expected := utf8_encode secret in
      Ok (fun token =>
            ret (if bool_decide (utf8_encode token = expected)
                 then Some (mkIdentity (js "shared-secret")) else None))
  end.

(** [toLowerCase] on the ASCII letters: no other character lowers to one of
    the letters of [bearer]. *)
Definition lower_ascii (c : Z) : Z := if (65 <=? c) && (c <=? 90) then c + 32 else c.

Definition parseBearer (req : HandlerRequest) : option jsstr :=
  match header req (js "authorization") with
  | None => None
  | Some value =>
      let trimmed := js_trim value in
      if (List.length trimmed <? 7)%nat then None
      else if negb (str_eqb (map lower_ascii (take 7 trimmed)) (js "bearer ")) then None
      else match js_trim (drop 7 trimmed) with [] => None | token => Some token end
  end.

Definition unauthenticated (message : String.string) : HandlerResponse :=
  err 401 (js "Unauthenticated") (js message) None.

Definition bearerAuth {W} (verify : BearerVerifier W) : Middleware W := fun req next =>
  if bool_decide (header req PUBLIC_HEADER = Some (js "1")) then next req
  else match parseBearer req with
  | None => ret (unauthenticated "missing or malformed Authorization header")
  | Some token => fun w =>
      match verify token w with
      | (Throw _, w') => (Ok (unauthenticated "credential verification failed"), w')
      | (Ok None, w') => (Ok (unauthenticated "invalid credentials"), w')
      | (Ok (Some who), w') => next (with_header req SUBJECT_HEADER (ai_subject who)) w'
      end
  end.

(** ** Routing *)

Definition Params : Type := list (jsstr * jsstr).

Record Route (W : Type) : Type := mkRoute {
  rt_method : HttpMethod;
  rt_pattern : jsstr;
  rt_handler : HandlerRequest -> Params -> prog W HandlerResponse;
  rt_public : option bool
}.
Arguments mkRoute {W} _ _ _ _.
Arguments rt_method {W} _.
Arguments rt_pattern {W} _.
Arguments rt_handler {W} _.
Arguments rt_public {W} _.

Inductive RouteSegment : Type := StaticSegment (value : jsstr) | ParamSegment (name : jsstr).

Record CompiledRoute (W : Type) : Type := mkCompiled {
  cr_method : HttpMethod;
  cr_segments : list RouteSegment;
  cr_handler : HandlerRequest -> Params -> prog W HandlerResponse;
  cr_public : bool
}.
Arguments mkCompiled {W} _ _ _ _.
Arguments cr_method {W} _.
Arguments cr_segments {W} _.
Arguments cr_handler {W} _.
Arguments cr_public {W} _.

(** [path.split('/').filter((p) => p.length > 0)] *)
Definition path_parts (path : jsstr) : list jsstr :=
  List.filter (fun p => negb (bool_decide (p = []))) (split_on 47 path).

Definition compile_segment (part : jsstr) : RouteSegment :=
  match part with
  | c :: name => if c =? 58 then ParamSegment name else StaticSegment part
  | [] => StaticSegment part
  end.

Definition compileRoute {W} (route : Route W) : CompiledRoute W :=
  mkCompiled (rt_method route) (map compile_segment (path_parts (rt_pattern route)))
    (rt_handler route) (match rt_public route with Some b => b | None => false end).

Fixpoint match_loop (segments : list RouteSegment) (parts : list jsstr) (params : Params) : res (option Params) :=
  match segments, parts with
  | [], _ => Ok (Some params)
  | _, [] => Ok None
  | StaticSegment value :: segments', part :: parts' =>
      if negb (str_eqb value part) then Ok None else match_loop segments' parts' params
  | ParamSegment name :: segments', part :: parts' =>
      let? v := decodeURIComponent part in match_loop segments' parts' (map_set params name v)
  end.

Definition matchSegments (segments : list RouteSegment) (parts : list jsstr) : res (option Params) :=
  if negb (List.length segments =? List.length parts)%nat then Ok None else match_loop segments parts [].

(** What the loop over the compiled routes leaves behind. *)
Inductive Matched (W : Type) : Type :=
| Found (route : CompiledRoute W) (params : Params)
| NoRoute (methodMismatch : bool).
Arguments Found {W} _ _.
Arguments NoRoute {W} _.

Fixpoint find_route {W} (compiled : list (CompiledRoute W)) (method : HttpMethod) (parts : list jsstr)
    (methodMismatch : bool) : res (Matched W) :=
  match compiled with
  | [] => Ok (NoRoute methodMismatch)
  | route :: compiled' =>
      let? params := matchSegments (cr_segments route) parts in
      match params with
      | None => find_route compiled' method parts methodMismatch
      | Some params =>
          if negb (bool_decide (cr_method route = method)) then find_route compiled' method parts true
          else Ok (Found route params)
      end
  end.

(** [middleware.reduceRight((next, mw) => (r) => mw(r, next), final)] *)
Definition compose {W} (middleware : list (Middleware W)) (final : Handler W) : Handler W :=
  foldr (fun mw next r => mw r next) final middleware.

Definition createRouter {W} (routes : list (Route W)) (middleware : list (Middleware W)) : Handler W := fun req =>
  let* matched := lift (find_route (map compileRoute routes) (q_method req) (path_parts (q_path req)) false) in
  match matched with
  | NoRoute true =>
      ret (err 405 (js "MethodNotAllowed")
        (js "method " ++ method_str (q_method req) ++ js " not allowed for " ++ q_path req) None)
  | NoRoute false =>
      ret (err 404 (js "NotFound") (js "no handler for " ++ method_str (q_method req) ++ js " " ++ q_path req) None)
  | Found route params =>
      let enrichedReq := if cr_public route then with_header req PUBLIC_HEADER (js "1") else req in
      compose middleware (fun r => cr_handler route r params) enrichedReq
  end.

(** ** Rate limiting *)

Record Bucket : Type := mkBucket { bk_tokens : jsnum; bk_lastRefillMs : jsnum }.

Class BucketStore (W : Type) : Type := {
  bs_get : jsstr -> prog W (option Bucket);
  bs_set : jsstr -> Bucket -> prog W unit
}.

Definition MemoryBucketStore : Type := list (jsstr * Bucket).
Definition buckets_get (key : jsstr) : prog MemoryBucketStore (option Bucket) := fun s => (Ok (map_get s key), s).
Definition buckets_set (key : jsstr) (b : Bucket) : prog MemoryBucketStore unit := fun s => (Ok tt, map_set s key b).
Definition buckets_clear : prog MemoryBucketStore unit := fun _ => (Ok tt, []).
#[global] Instance memory_buckets : BucketStore MemoryBucketStore :=
  {| bs_get := buckets_get; bs_set := buckets_set |}.

Record RateLimitOptions (W : Type) : Type := mkRateLimit {
  rl_burst : jsnum;
  rl_refillPerSec : jsnum;
  rl_keyFn : option (HandlerRequest -> jsstr);
  rl_skipPublic : option bool;
  rl_now : prog W jsnum
}.
Arguments mkRateLimit {W} _ _ _ _ _.
Arguments rl_burst {W} _.
Arguments rl_refillPerSec {W} _.
Arguments rl_keyFn {W} _.
Arguments rl_skipPublic {W} _.
Arguments rl_now {W} _.

(** The bucket refilled to [nowMs]. *)
Definition refill (burst refillPerSec : jsnum) (prev : Bucket) (nowMs : jsnum) : jsnum :=
  let elapsedSec := num_max (num_of_Z 0) (num_div (num_sub nowMs (bk_lastRefillMs prev)) (num_of_Z 1000)) in
  num_min burst (num_add (bk_tokens prev) (num_mul elapsedSec refillPerSec)).

Definition retry_after (refilled refillPerSec : jsnum) : jsnum :=
  num_max (num_of_Z 1) (num_ceil (num_div (num_sub (num_of_Z 1) refilled) refillPerSec)).

(** [String(n)]: the integers below [10 ^ 21] have plain decimal digits; the
    text of the other numbers, which this layer never parses, is left open. *)
Class NumberText : Type := { other_number_text : jsnum -> jsstr }.

Definition num_str {NT : NumberText} (n : jsnum) : jsstr :=
  match num_to_Z n with
  | Some z => if Z.abs z <? 10 ^ 21 then dec z else other_number_text n
  | None => other_number_text n
  end.

Definition limited {NT : NumberText} (n : jsnum) : HandlerResponse :=
  err 429 (js "RateLimited") (js "request rate limit exceeded") (Some [(js "Retry-After", num_str n)]).

Definition limit_request {W} {NT : NumberText} {BS : BucketStore W} (opts : RateLimitOptions W)
  : Middleware W := fun req next =>
  if (match rl_skipPublic opts with Some b => b | None => false end)
     && bool_decide (header req PUBLIC_HEADER = Some (js "1"))
  then next req
  else
    let key := match rl_keyFn opts with Some f => f req | None => q_remoteAddr req end in
    let* nowMs := rl_now opts in
    let* existing := bs_get key in
    let prev := match existing with Some b => b | None => mkBucket (rl_burst opts) nowMs end in
    let refilled := refill (rl_burst opts) (rl_refillPerSec opts) prev nowMs in
    if num_ltb refilled (num_of_Z 1) then
      do* bs_set key (mkBucket refilled nowMs);
      ret (limited (retry_after refilled (rl_refillPerSec opts)))
    else
      do* bs_set key (mkBucket (num_sub refilled (num_of_Z 1)) nowMs);
      next req.

Definition rateLimit {W} {NT : NumberText} {BS : BucketStore W} (opts : RateLimitOptions W)
  : res (Middleware W) :=
  if num_leb (rl_burst opts) (num_of_Z 0) then Throw PlainError
  else if num_leb (rl_refillPerSec opts) (num_of_Z 0) then Throw PlainError
  else Ok (limit_request opts).
