(* ===== verification/Validate.v ===== *)
(** * Validate: offline token validation on the client

    [src/typescript/src/client/validate.ts] and
    [src/typescript/src/client/jti-ledger.ts]. The optional replay ledger is
    the world [validate] runs in: [None] when the option is left out. *)

From S2P Require Import Prelude Errors JsNum Text Json Types Crypto TokenCodec.

(** ** The replay ledger *)

Class JtiLedger (L : Type) : Type := {
  recordJtiUse : jsstr -> jsnum -> prog L bool;
  pruneExpired : jsnum -> prog L Z
}.

(** [MemoryJtiLedger]: a map from the identifier to its expiry. *)
Definition MemoryJtiLedger : Type := list (jsstr * jsnum).

Definition mem_recordJtiUse (jti : jsstr) (expSec : jsnum) : prog MemoryJtiLedger bool :=
  fun entries => if map_has entries jti then (Ok false, entries)
                 else (Ok true, map_set entries jti expSec).

(** [for (const [jti, exp] of entries) if (exp <= nowSec) { delete; removed++ }] *)
Fixpoint prune_loop (nowSec : jsnum) (items : list (jsstr * jsnum)) (removed : Z)
  : prog MemoryJtiLedger Z :=
  match items with
  | [] => ret removed
  | (jti, exp) :: items' => fun entries =>
      if num_leb exp nowSec then prune_loop nowSec items' (removed + 1) (map_delete entries jti)
      else prune_loop nowSec items' removed entries
  end.

Definition mem_pruneExpired (nowSec : jsnum) : prog MemoryJtiLedger Z :=
  fun entries => prune_loop nowSec entries 0 entries.

Definition ledger_size (entries : MemoryJtiLedger) : Z := Z.of_nat (List.length entries).

#[global] Instance memory_ledger : JtiLedger MemoryJtiLedger :=
  {| recordJtiUse := mem_recordJtiUse; pruneExpired := mem_pruneExpired |}.

(** ** Claims *)

(** [aud]: a string, or an array of strings. *)
Inductive Audience : Type := OneAud (s : jsstr) | ManyAud (l : list jsstr).

Record RequiredClaims : Type := mkClaims {
  rc_jti : jsstr;
  rc_iat : jsnum;
  rc_nbf : jsnum;
  rc_exp : jsnum;
  rc_scope : jsstr;
  rc_license_id : jsstr;
  rc_usage_id : jsstr;
  rc_usage_fingerprint : jsstr;
  rc_status : jsstr;
  rc_max_usages : jsnum;
  rc_force_online_after : option jsnum;
  rc_entitlements : option jsval;
  rc_aud : option Audience;
  rc_iss : option jsstr
}.

Definition claim_req (payload : jsval) (key : jsstr) : res jsval :=
  if has_prop payload key then Ok (get_prop payload key) else Throw clientErrors.invalidTokenFormat.

Definition asString (v : jsval) : res jsstr :=
  match v with JStr s => Ok s | _ => Throw clientErrors.invalidTokenFormat end.

Definition asNumber (v : jsval) : res jsnum :=
  match v with
  | JNum n => if isFinite n then Ok n else Throw clientErrors.invalidTokenFormat
  | _ => Throw clientErrors.invalidTokenFormat
  end.

Fixpoint strings_of (l : list jsval) : res (list jsstr) :=
  match l with
  | [] => Ok []
  | JStr s :: l' => let? r := strings_of l' in Ok (s :: r)
  | _ :: _ => Throw clientErrors.invalidTokenFormat
  end.

Definition parseAud (v : jsval) : res (option Audience) :=
  match v with
  | JUndefined | JNull => Ok None
  | JStr s => Ok (Some (OneAud s))
  | JArr l => let? r := strings_of l in Ok (Some (ManyAud r))
  | _ => Throw clientErrors.invalidTokenFormat
  end.

Definition parseIss (v : jsval) : res (option jsstr) :=
  match v with
  | JUndefined | JNull => Ok None
  | JStr s => Ok (Some s)
  | _ => Throw clientErrors.invalidTokenFormat
  end.

(** ['force_online_after' in payload && payload.force_online_after !== null]
    and the same for [entitlements]. *)
Definition present (payload : jsval) (key : jsstr) : bool :=
  has_prop payload key && match get_prop payload key with JNull => false | _ => true end.

Definition claim_force_online (payload : jsval) : res (option jsnum) :=
  if present payload (js "force_online_after")
  then let? n := asNumber (get_prop payload (js "force_online_after")) in Ok (Some n)
  else Ok None.

(** [typeof v !== 'object' || Array.isArray(v)] is refused. *)
Definition claim_entitlements (payload : jsval) : res (option jsval) :=
  if present payload (js "entitlements") then
    match get_prop payload (js "entitlements") with
    | (JObj _ _ | JObjProto | JOther) as v => Ok (Some v)
    | _ => Throw clientErrors.invalidTokenFormat
    end
  else Ok None.

Definition assertClaimShape (payload : jsval) : res RequiredClaims :=
  let str := fun key => let? v := claim_req payload key in asString v in
  let num := fun key => let? v := claim_req payload key in asNumber v in
  let? jti := str (js "jti") in
  let? iat := num (js "iat") in
  let? nbf := num (js "nbf") in
  let? exp := num (js "exp") in
  let? scope := str (js "scope") in
  let? license_id := str (js "license_id") in
  let? usage_id := str (js "usage_id") in
  let? usage_fingerprint := str (js "usage_fingerprint") in
  let? status := str (js "status") in
  let? max_usages := num (js "max_usages") in
  let? force_online_after := claim_force_online payload in
  let? entitlements := claim_entitlements payload in
  let? aud := parseAud (get_prop payload (js "aud")) in
  let? iss := parseIss (get_prop payload (js "iss")) in
  Ok (mkClaims jti iat nbf exp scope license_id usage_id usage_fingerprint status max_usages
        force_online_after entitlements aud iss).

(** ** Error translation *)

(** The [code] of what [verify] throws, in the client's vocabulary: anything
    else is an unexpected failure, reported as a malformed token. *)
Definition translateVerifyError (err : exn) : exn :=
  match err with
  | LicensingError UnknownKid _ | ClientError CUnknownKid => clientErrors.unknownKid
  | LicensingError AlgorithmMismatch _ | ClientError CAlgorithmMismatch =>
      clientErrors.algorithmMismatch
  | LicensingError UnsupportedAlgorithm _ | ClientError CUnsupportedAlgorithm =>
      clientErrors.unsupportedAlgorithm
  | Diverged => Diverged
  | _ => clientErrors.invalidTokenFormat
  end.

(** ** Validation *)

Section Validate.
Context {KH : KeyHandles}.

Record ValidateOptions : Type := mkValidate {
  o_registry : AlgorithmRegistry;
  o_bindings : KeyAlgBindings;
  o_keys : list (jsstr * KeyRecord);
  o_fingerprint : jsstr;
  o_nowSec : jsnum;
  o_skewSec : option jsnum;
  o_expectedAudience : option jsstr;
  o_expectedIssuer : option jsstr
}.

Record ValidateResult : Type := mkValid {
  vr_kid : jsstr;
  vr_alg : KeyAlg;
  vr_license_id : jsstr;
  vr_usage_id : jsstr;
  vr_scope : jsstr;
  vr_status : jsstr;
  vr_max_usages : jsnum;
  vr_iat : jsnum;
  vr_nbf : jsnum;
  vr_exp : jsnum;
  vr_forceOnlineAfter : option jsnum;
  vr_entitlements : option jsval;
  vr_aud : option Audience;
  vr_iss : option jsstr
}.

Definition skew_of (opts : ValidateOptions) : jsnum :=
  match o_skewSec opts with Some s => s | None => num_of_Z 60 end.

(** [aud === pin], or [aud.includes(pin)]. *)
Definition aud_matches (aud : option Audience) (pin : jsstr) : bool :=
  match aud with
  | Some (OneAud s) => str_eqb s pin
  | Some (ManyAud l) => bool_decide (pin ∈ l)
  | None => false
  end.

Definition check_status (status : jsstr) : res unit :=
  if str_eqb status (js "active") || str_eqb status (js "grace") then Ok tt
  else if str_eqb status (js "suspended") then Throw clientErrors.licenseSuspended
  else if str_eqb status (js "revoked") then Throw clientErrors.licenseRevoked
  else if str_eqb status (js "expired") then Throw clientErrors.tokenExpired
  else Throw clientErrors.invalidTokenFormat.

(** Steps 2 to 7 of [validate]. *)
Definition check_claims (claims : RequiredClaims) (opts : ValidateOptions) : res unit :=
  let skew := skew_of opts in
  if num_ltb (num_add (o_nowSec opts) skew) (rc_nbf claims) then Throw clientErrors.tokenNotYetValid
  else if num_ltb (num_add (rc_exp claims) skew) (o_nowSec opts) then Throw clientErrors.tokenExpired
  else
    let? _ := check_status (rc_status claims) in
    if match rc_force_online_after claims with
       | Some deadline => num_leb deadline (o_nowSec opts)
       | None => false
       end
    then Throw clientErrors.requiresOnlineRefresh
    else if negb (str_eqb (rc_usage_fingerprint claims) (o_fingerprint opts))
    then Throw clientErrors.fingerprintMismatch
    else if match o_expectedAudience opts with
            | Some pin => negb (aud_matches (rc_aud claims) pin)
            | None => false
            end
    then Throw clientErrors.audienceMismatch
    else match o_expectedIssuer opts with
         | Some pin => if bool_decide (rc_iss claims <> Some pin)
                       then Throw clientErrors.issuerMismatch else Ok tt
         | None => Ok tt
         end.

Definition valid_result (header : EnvelopeHeader) (claims : RequiredClaims) : ValidateResult :=
  mkValid (h_kid header) (h_alg header) (rc_license_id claims) (rc_usage_id claims)
    (rc_scope claims) (rc_status claims) (rc_max_usages claims) (rc_iat claims) (rc_nbf claims)
    (rc_exp claims) (rc_force_online_after claims) (rc_entitlements claims) (rc_aud claims)
    (rc_iss claims).

(** [if (opts.jtiLedger !== undefined) ...]: the step of the ledger, when
    there is one. *)
Definition record_use {L} {JL : JtiLedger L} (jti : jsstr) (expSec : jsnum) : prog (option L) unit :=
  fun ledger =>
    match ledger with
    | None => (Ok tt, None)
    | Some l =>
        match recordJtiUse jti expSec l with
        | (Ok firstUse, l') =>
            (if firstUse : bool then Ok tt else Throw clientErrors.tokenReplayed, Some l')
        | (Throw e, l') => (Throw e, Some l')
        end
    end.

Definition validate {L} {JL : JtiLedger L} (codecs : Codecs) (token : jsstr)
    (opts : ValidateOptions) : prog (option L) ValidateResult :=
  let* parts := lift (match verify codecs token
                              (mkVerifyOptions (o_registry opts) (o_bindings opts) (o_keys opts)) with
                      | Ok parts => Ok parts
                      | Throw err => Throw (translateVerifyError err)
                      end) in
  let* claims := lift (assertClaimShape (e_payload parts)) in
  do* lift (check_claims claims opts);
  do* record_use (rc_jti claims) (num_add (rc_exp claims) (skew_of opts));
  ret (valid_result (e_header parts) claims).

Record PeekResult : Type := mkPeek {
  pk_kid : jsstr;
  pk_alg : KeyAlg;
  pk_iat : jsnum;
  pk_nbf : jsnum;
  pk_exp : jsnum;
  pk_forceOnlineAfter : option jsnum
}.

Definition peek (codecs : Codecs) (token : jsstr) : res PeekResult :=
  match (let? parts := decodeUnverified codecs token in
         let? claims := assertClaimShape (e_payload parts) in
         Ok (mkPeek (h_kid (e_header parts)) (h_alg (e_header parts)) (rc_iat claims)
               (rc_nbf claims) (rc_exp claims) (rc_force_online_after claims))) with
  | Ok r => Ok r
  | Throw _ => Throw clientErrors.invalidTokenFormat
  end.
End Validate.
