(* ===== verification/ValidateProps.v ===== *)
(** * ValidateProps: what the client accepts, refuses, and never accepts twice

    The theorems about [validate] and the in-process replay ledger. *)

From S2P Require Import Prelude Errors JsNum Text Json StrictJson Types Crypto TokenCodec Lic1 Lic2 Tokens Validate.

(** ** The claims a client accepts *)

(** What [validate] requires of verified claims, beyond their shape. *)
Record acceptable {KH : KeyHandles} (claims : RequiredClaims) (opts : ValidateOptions) : Prop := {
  acc_started : num_ltb (num_add (o_nowSec opts) (skew_of opts)) (rc_nbf claims) = false;
  acc_not_expired : num_ltb (num_add (rc_exp claims) (skew_of opts)) (o_nowSec opts) = false;
  acc_status : rc_status claims = js "active" \/ rc_status claims = js "grace";
  acc_online : forall deadline, rc_force_online_after claims = Some deadline ->
    num_leb deadline (o_nowSec opts) = false;
  acc_fingerprint : rc_usage_fingerprint claims = o_fingerprint opts;
  acc_aud : forall pin, o_expectedAudience opts = Some pin -> aud_matches (rc_aud claims) pin = true;
  acc_iss : forall pin, o_expectedIssuer opts = Some pin -> rc_iss claims = Some pin
}.

Lemma str_eqb_true a b : str_eqb a b = true <-> a = b.
Proof. unfold str_eqb. by rewrite bool_decide_eq_true. Qed.

Lemma check_status_ok s : check_status s = Ok tt <-> s = js "active" \/ s = js "grace".
Proof.
  unfold check_status. rewrite <- !str_eqb_true.
  destruct (str_eqb s (js "active")), (str_eqb s (js "grace")); cbn; [naive_solver..|].
  repeat case_goal; split; intros H; try done; by destruct H.
Qed.

Section Checks.
Context {KH : KeyHandles}.

(** The option tests of [check_claims], read as propositions. *)
Lemma online_test claims now :
  match rc_force_online_after claims with Some d => num_leb d now | None => false end = false <->
  (forall d, rc_force_online_after claims = Some d -> num_leb d now = false).
Proof. destruct (rc_force_online_after claims); naive_solver. Qed.

Lemma aud_test claims opts :
  match o_expectedAudience opts with Some pin => negb (aud_matches (rc_aud claims) pin) | None => false end
    = false <->
  (forall pin, o_expectedAudience opts = Some pin -> aud_matches (rc_aud claims) pin = true).
Proof.
  destruct (o_expectedAudience opts) as [p|]; [|naive_solver]. rewrite negb_false_iff. naive_solver.
Qed.

Lemma iss_test claims opts :
  match o_expectedIssuer opts with Some pin => bool_decide (rc_iss claims <> Some pin) | None => false end
    = false <->
  (forall pin, o_expectedIssuer opts = Some pin -> rc_iss claims = Some pin).
Proof.
  destruct (o_expectedIssuer opts) as [p|]; [|naive_solver]. rewrite bool_decide_eq_false. split.
  - intros H pin [= <-]. by destruct (decide (rc_iss claims = Some p)).
  - intros H. rewrite (H p) by done. tauto.
Qed.

(** The tests of [check_claims] in the order of the source, each with the
    error it raises. *)
Definition faults (claims : RequiredClaims) (opts : ValidateOptions) : list (bool * exn) :=
  let now := o_nowSec opts in
  let status := rc_status claims in
  [(num_ltb (num_add now (skew_of opts)) (rc_nbf claims), clientErrors.tokenNotYetValid);
   (num_ltb (num_add (rc_exp claims) (skew_of opts)) now, clientErrors.tokenExpired);
   (str_eqb status (js "suspended"), clientErrors.licenseSuspended);
   (str_eqb status (js "revoked"), clientErrors.licenseRevoked);
   (str_eqb status (js "expired"), clientErrors.tokenExpired);
   (negb (str_eqb status (js "active") || str_eqb status (js "grace")), clientErrors.invalidTokenFormat);
   (match rc_force_online_after claims with Some d => num_leb d now | None => false end,
    clientErrors.requiresOnlineRefresh);
   (negb (str_eqb (rc_usage_fingerprint claims) (o_fingerprint opts)), clientErrors.fingerprintMismatch);
   (match o_expectedAudience opts with Some pin => negb (aud_matches (rc_aud claims) pin) | None => false end,
    clientErrors.audienceMismatch);
   (match o_expectedIssuer opts with Some pin => bool_decide (rc_iss claims <> Some pin) | None => false end,
    clientErrors.issuerMismatch)].

Definition first_fault (l : list (bool * exn)) : option exn := snd <$> List.find fst l.

Lemma check_claims_faults claims opts :
  check_claims claims opts
  = match first_fault (faults claims opts) with Some e => Throw e | None => Ok tt end.
Proof.
  unfold check_claims, check_status, faults, first_fault. cbn [List.find fst snd].
  destruct (num_ltb _ _); [done|]. destruct (num_ltb _ _); [done|].
  destruct (str_eqb (rc_status claims) (js "active")) eqn:Ea; [apply str_eqb_true in Ea as ->|];
    [|destruct (str_eqb (rc_status claims) (js "grace")) eqn:Eg; [apply str_eqb_true in Eg as ->|]];
    cbn [orb negb rbind]; [| |by repeat (destruct (str_eqb _ _); [done|])];
    repeat (change (str_eqb ?a ?b) with false; cbv iota; cbn [List.find fst]);
    destruct (match rc_force_online_after claims with Some _ => _ | None => _ end); try done;
    destruct (negb (str_eqb (rc_usage_fingerprint claims) _)); try done;
    destruct (match o_expectedAudience opts with Some _ => _ | None => _ end); try done;
    destruct (o_expectedIssuer opts); try done; by case_bool_decide.
Qed.

Lemma first_fault_none l : first_fault l = None <-> Forall (fun p => p.1 = false) l.
Proof.
  unfold first_fault. induction l as [|[b e] l IH]; cbn; [done|]. rewrite Forall_cons.
  destruct b; cbn; naive_solver.
Qed.

Lemma check_claims_ok claims opts : check_claims claims opts = Ok tt <-> acceptable claims opts.
Proof.
  rewrite check_claims_faults.
  transitivity (first_fault (faults claims opts) = None); [by destruct (first_fault _)|].
  rewrite first_fault_none. unfold faults. rewrite !Forall_cons. cbn [fst].
  rewrite online_test, aud_test, iss_test, !negb_false_iff, orb_true_iff, !str_eqb_true. split.
  - intros (? & ? & _ & _ & _ & ? & ? & ? & ? & ? & _). by split.
  - intros [H1 H2 H3 H4 H5 H6 H7]. split_and!; try done; by destruct H3 as [-> | ->].
Qed.
End Checks.

(** ** Decision *)

(** The options [validate] hands to [verify]. *)
Definition verify_options {KH : KeyHandles} (opts : ValidateOptions) : VerifyOptions :=
  mkVerifyOptions (o_registry opts) (o_bindings opts) (o_keys opts).

Section Decision.
Context {KH : KeyHandles} {L : Type} {JL : JtiLedger L}.

Lemma validate_unfold codecs token opts (s : option L) :
  validate codecs token opts s
  = match verify codecs token (verify_options opts) with
    | Throw e => (Throw (translateVerifyError e), s)
    | Ok parts =>
        match assertClaimShape (e_payload parts) with
        | Throw e => (Throw e, s)
        | Ok claims =>
            match first_fault (faults claims opts) with
            | Some e => (Throw e, s)
            | None =>
                match record_use (rc_jti claims) (num_add (rc_exp claims) (skew_of opts)) s with
                | (Ok _, s') => (Ok (valid_result (e_header parts) claims), s')
                | (Throw e, s') => (Throw e, s')
                end
            end
        end
    end.
Proof.
  unfold validate, bind, lift. fold (verify_options opts).
  destruct (verify codecs token _) as [parts|e]; [|done].
  destruct (assertClaimShape _) as [claims|e]; [|done]. rewrite check_claims_faults.
  destruct (first_fault _); [done|]. by destruct (record_use _ _ s) as [[]].
Qed.

(** What an accepted token was: verified, well shaped, acceptable, and new
    to the ledger. *)
Lemma validate_ok_inv codecs token opts (s : option L) r s' :
  validate codecs token opts s = (Ok r, s') ->
  exists parts claims,
    verify codecs token (verify_options opts) = Ok parts
    /\ assertClaimShape (e_payload parts) = Ok claims
    /\ acceptable claims opts
    /\ record_use (rc_jti claims) (num_add (rc_exp claims) (skew_of opts)) s = (Ok tt, s')
    /\ r = valid_result (e_header parts) claims.
Proof.
  rewrite validate_unfold. intros H. destruct (verify _ _ _) as [parts|] eqn:Ev; [|done].
  destruct (assertClaimShape _) as [claims|] eqn:Ec; [|done].
  destruct (first_fault _) eqn:Ef; [done|].
  destruct (record_use _ _ s) as [[[]|] s0] eqn:Er; [|done]. apply Ok_pair_inj in H as [<- <-].
  exists parts, claims. split_and!; try done.
  apply check_claims_ok. by rewrite check_claims_faults, Ef.
Qed.


End Decision.

(** ** Errors *)

(** Only [LicensingClientError]s. *)
Definition client_error (e : exn) : Prop := exists code, e = ClientError code.

Lemma claim_throws payload key : throws_only client_error (claim_req payload key).
Proof. unfold claim_req. throws_steps ltac:(by eexists). Qed.
Lemma asString_throws v : throws_only client_error (asString v).
Proof. unfold asString. throws_steps ltac:(by eexists). Qed.
Lemma asNumber_throws v : throws_only client_error (asNumber v).
Proof. unfold asNumber. throws_steps ltac:(by eexists). Qed.
Lemma strings_of_throws l : throws_only client_error (strings_of l).
Proof. induction l as [|v l IH]; cbn [strings_of]; [done|]. throws_steps ltac:(by eexists). Qed.
#[export] Hint Resolve claim_throws asString_throws asNumber_throws strings_of_throws : throws.

Lemma assertClaimShape_throws payload : throws_only client_error (assertClaimShape payload).
Proof.
  unfold assertClaimShape, claim_force_online, claim_entitlements, parseAud, parseIss.
  throws_steps ltac:(by eexists).
Qed.

(** [Diverged] marks a loop that ran out of fuel: the decoders have enough. *)
Definition settled (e : exn) : Prop := e <> Diverged.

Lemma base64_settled s : throws_only settled (base64url.decode s).
Proof. unfold base64url.decode. throws_steps ltac:(done). Qed.

Lemma strictParse_settled s : throws_only settled (strictParse s).
Proof. pose proof (strictParse_no_diverge s) as H. destruct (strictParse s); [done|]. cbn. by intros ->. Qed.

Lemma string_of_settled v : throws_only settled (string_of v).
Proof. unfold string_of. throws_steps ltac:(done). Qed.
#[export] Hint Resolve base64_settled strictParse_settled string_of_settled : throws.

Lemma parseJSONObject_settled b : throws_only settled (parseJSONObject b).
Proof.
  unfold parseJSONObject. destruct (text_decode b) as [t|]; [|done].
  pose proof (strictParse_settled t) as H. destruct (strictParse t); [throws_steps ltac:(done)|].
  cbn in H. throws_steps ltac:(done).
Qed.
#[export] Hint Resolve parseJSONObject_settled : throws.

Lemma parseHeader_settled b : throws_only settled (parseHeader b).
Proof. unfold parseHeader. throws_steps ltac:(done). Qed.
#[export] Hint Resolve parseHeader_settled : throws.

Lemma decodeLIC1_settled token : throws_only settled (decodeLIC1 token).
Proof. unfold decodeLIC1, parsePayload. throws_steps ltac:(done). Qed.

Lemma parseFooter_settled b : throws_only settled (parseFooter b).
Proof. unfold parseFooter. throws_steps ltac:(done). Qed.
#[export] Hint Resolve parseFooter_settled : throws.

Lemma decodeLIC2_settled token : throws_only settled (decodeLIC2 token).
Proof. unfold decodeLIC2. throws_steps ltac:(done). Qed.

(** Backends that return or throw. *)
Definition backends_settle {KH : KeyHandles} (registry : AlgorithmRegistry) : Prop :=
  Forall (fun ab => (forall m, throws_only settled (b_importPublic ab.2 m))
                    /\ forall pk d s, throws_only settled (b_verify ab.2 pk d s)) registry.

Lemma registry_get_elem {KH : KeyHandles} (r : AlgorithmRegistry) alg b :
  registry_get r alg = Ok b -> exists a, (a, b) ∈ r.
Proof.
  unfold registry_get. destruct (alg_of_str alg) as [a|]; [|done]. cbn.
  destruct (map_get r a) as [b'|] eqn:E; [|done]. intros [= <-]. exists a. by apply map_get_elem.
Qed.

Lemma verify_settled {KH : KeyHandles} token opts :
  backends_settle (v_registry opts) -> throws_only settled (verify default_codecs token opts).
Proof.
  intros Hb. unfold verify. apply throws_only_bind.
  - unfold decodeUnverified. apply throws_only_bind; [unfold codecFor; throws_steps ltac:(done)|].
    intros codec [[-> _]|[-> _]]%codecFor_default; [apply decodeLIC1_settled|apply decodeLIC2_settled].
  - intros parts _. apply throws_only_bind; [unfold bindings_expect; throws_steps ltac:(done)|].
    intros _ _. apply throws_only_bind; [unfold registry_get; throws_steps ltac:(done)|].
    intros b (a & Hin)%registry_get_elem. unfold backends_settle in Hb. rewrite Forall_forall in Hb.
    destruct (Hb _ Hin) as [Hi Hv]. throws_steps ltac:(done).
Qed.

Lemma translate_client e : settled e -> client_error (translateVerifyError e).
Proof. destruct e as [[] ?|? ?|[]| |]; try (by intros []); by eexists. Qed.

(** Recording a use either notes it, or changes nothing and reports a
    replay. *)
Lemma record_use_memory jti exp (s : option MemoryJtiLedger) :
  record_use jti exp s
  = match s with
    | None => (Ok tt, None)
    | Some l => if map_has l jti then (Throw clientErrors.tokenReplayed, s)
                else (Ok tt, Some (map_set l jti exp))
    end.
Proof. destruct s as [l|]; [|done]. cbn. unfold mem_recordJtiUse. by destruct (map_has l jti). Qed.

(** Every refusal is a typed client error and burns nothing: whatever the
    token, [validate] throws a [LicensingClientError] only, leaves the replay
    ledger as it was, and, once the token verifies and has its claims, the
    error is that of the first check that fails in the documented order
    (window, status, forced-online deadline, fingerprint, audience, issuer),
    a replay being reported only when every other check passes. *)
Theorem validate_refusal {KH : KeyHandles} token opts (s s' : option MemoryJtiLedger) e :
  backends_settle (o_registry opts) ->
  validate default_codecs token opts s = (Throw e, s') ->
  s' = s /\ client_error e
  /\ forall parts claims,
       verify default_codecs token (verify_options opts) = Ok parts ->
       assertClaimShape (e_payload parts) = Ok claims ->
       match first_fault (faults claims opts) with
       | Some e' => e = e'
       | None => e = clientErrors.tokenReplayed
                 /\ exists l, s = Some l /\ map_has l (rc_jti claims) = true
       end.
Proof.
  intros Hb. rewrite validate_unfold.
  pose proof (verify_settled token (verify_options opts) Hb) as Hs.
  destruct (verify _ _ _) as [parts|e0]; [|intros [= <- <-]; split_and!; [done|by apply translate_client|done]].
  pose proof (assertClaimShape_throws (e_payload parts)) as Hc.
  destruct (assertClaimShape _) as [claims|e0] eqn:Ecl.
  2: { intros [= <- <-]. split_and!; [done..|]. intros ? ? [= <-]. congruence. }
  destruct (first_fault _) as [e0|] eqn:Ef.
  - intros [= <- <-]. split; [done|]. split.
    + unfold first_fault in Ef. destruct (List.find _ _) as [[b e1]|] eqn:Efd; [|done].
      injection Ef as <-. apply find_some in Efd as [Hin _].
      cbn in Hin. repeat destruct Hin as [Hin|Hin]; try (injection Hin as <- <-; by eexists). done.
    + intros ? ? [= <-]. rewrite Ecl. intros [= <-]. by rewrite Ef.
  - rewrite record_use_memory. destruct s as [l|]; [|done].
    destruct (map_has l _) eqn:Em; [|done]. intros [= <- <-]. split; [done|]. split; [by eexists|].
    intros ? ? [= <-]. rewrite Ecl. intros [= <-]. rewrite Ef. eauto.
Qed.

(** ** The replay ledger *)

(** What happens to a verifier: tokens come in, and the operator prunes. *)
Inductive LedgerCall {KH : KeyHandles} : Type :=
| Validate (token : jsstr) (opts : ValidateOptions)
| Prune (nowSec : jsnum).

Section Ledger.
Context {KH : KeyHandles} (codecs : Codecs).

Definition run_ledger_call (call : LedgerCall) (entries : MemoryJtiLedger) : MemoryJtiLedger :=
  match call with
  | Validate token opts =>
      match (validate codecs token opts (Some entries)).2 with Some l => l | None => entries end
  | Prune now => (mem_pruneExpired now entries).2
  end.

Definition run_ledger (calls : list LedgerCall) (entries : MemoryJtiLedger) : MemoryJtiLedger :=
  fold_left (fun l call => run_ledger_call call l) calls entries.

Lemma prune_loop_get now items n entries jti :
  (forall exp, (jti, exp) ∈ items -> num_leb exp now = false) ->
  map_get (prune_loop now items n entries).2 jti = map_get entries jti.
Proof.
  revert n entries. induction items as [|[j e] items IH]; intros n entries Hi; [done|].
  cbn [prune_loop]. destruct (num_leb e now) eqn:E.
  - rewrite IH by (intros; apply Hi; by right). apply map_get_delete_ne. intros ->.
    by rewrite (Hi e) in E by left.
  - apply IH. intros. apply Hi. by right.
Qed.

Lemma prune_loop_nodup now items n entries :
  NoDup entries.*1 -> NoDup (prune_loop now items n entries).2.*1.
Proof.
  revert n entries. induction items as [|[j e] items IH]; intros n entries Hd; [done|].
  cbn [prune_loop]. destruct (num_leb e now); apply IH; [|done].
  unfold map_delete. eapply sublist_NoDup; [done|]. apply fmap_sublist, sublist_filter.
Qed.

(** Pruning removes an entry only when its time has come. *)
Lemma prune_get now entries jti exp :
  NoDup entries.*1 -> map_get entries jti = Some exp -> num_leb exp now = false ->
  map_get (mem_pruneExpired now entries).2 jti = Some exp.
Proof.
  intros Hd Hg He. unfold mem_pruneExpired. rewrite prune_loop_get; [done|].
  intros exp' Hin. by rewrite (elem_map_get _ _ _ Hd Hin) in Hg; simplify_eq.
Qed.

(** A ledger only grows by validations. *)
Lemma validate_grows token opts (entries : MemoryJtiLedger) s' r :
  NoDup entries.*1 -> validate codecs token opts (Some entries) = (r, s') ->
  exists l, s' = Some l /\ NoDup l.*1
    /\ forall jti exp, map_get entries jti = Some exp -> map_get l jti = Some exp.
Proof.
  intros Hd. rewrite validate_unfold.
  destruct (verify _ _ _) as [parts|]; [|intros [= _ <-]; eauto].
  destruct (assertClaimShape _) as [claims|]; [|intros [= _ <-]; eauto].
  destruct (first_fault _); [intros [= _ <-]; eauto|]. rewrite record_use_memory.
  destruct (map_has entries _) eqn:Em; intros [= _ <-]; [eauto|]. eexists. split_and!; [done|auto with licensing|].
  intros jti exp Hg. rewrite map_get_set_ne; [done|]. intros <-. unfold map_has in Em. by rewrite Hg in Em.
Qed.

(** Along a history an entry stays, or some prune came after its time. *)
Lemma run_ledger_keeps calls (entries : MemoryJtiLedger) jti exp :
  NoDup entries.*1 -> map_get entries jti = Some exp ->
  map_get (run_ledger calls entries) jti = Some exp
  \/ exists now, Prune now ∈ calls /\ num_leb exp now = true.
Proof.
  revert entries. induction calls as [|call calls IH]; intros entries Hd Hg; [by left|].
  assert (Hstep : NoDup (run_ledger_call call entries).*1
    /\ (map_get (run_ledger_call call entries) jti = Some exp
        \/ exists now, call = Prune now /\ num_leb exp now = true)).
  { destruct call as [token opts|now]; unfold run_ledger_call.
    - destruct (validate codecs token opts (Some entries)) as [r s'] eqn:E.
      destruct (validate_grows _ _ _ _ _ Hd E) as (l & -> & Hl & Hk). cbn. split; [done|]. left. auto.
    - split; [by apply prune_loop_nodup|]. destruct (num_leb exp now) eqn:El; [right; eauto|].
      left. by apply prune_get. }
  destruct Hstep as [Hd' [Hg'|(now & -> & Hn)]]; [|right; exists now; split; [left|done]].
  destruct (IH _ Hd' Hg') as [?|(now & ? & ?)]; [by left|right; exists now; split; [by right|done]].
Qed.

Lemma verify_decodes token opts parts :
  verify codecs token opts = Ok parts -> decodeUnverified codecs token = Ok parts.
Proof. unfold verify. by intros (p & ? & H)%rbind_ok_inv; run_inv; repeat case_hyp H; run_inv; repeat case_hyp H; simplify_eq. Qed.

(** C17: no token is accepted twice: once a verifier has accepted a token, and
    whatever tokens it sees and however often its ledger is pruned
    afterwards, it refuses the token from then on and records nothing,
    provided the later validation uses the same skew and its clock has moved
    past every prune. *)
Theorem replay_refused token o1 o2 (entries entries' : MemoryJtiLedger) r calls :
  NoDup entries.*1 ->
  validate codecs token o1 (Some entries) = (Ok r, Some entries') ->
  skew_of o2 = skew_of o1 ->
  (forall now, Prune now ∈ calls -> num_ltb now (o_nowSec o2) = true) ->
  exists e, validate codecs token o2 (Some (run_ledger calls entries'))
            = (Throw e, Some (run_ledger calls entries')).
Proof.
  intros Hd H Hskew Hp. pose proof (validate_grows _ _ _ _ _ Hd H) as (l & [= <-] & Hd' & _).
  apply validate_ok_inv in H as (parts & claims & Hv & Hc & _ & Hr & _).
  rewrite record_use_memory in Hr. destruct (map_has entries _); [done|]. injection Hr as <-.
  rewrite validate_unfold. apply verify_decodes in Hv.
  destruct (verify codecs token (verify_options o2)) as [parts2|] eqn:Hv2; [|eauto].
  apply verify_decodes in Hv2. rewrite Hv in Hv2. apply Ok_inj in Hv2 as <-. rewrite Hc.
  destruct (first_fault (faults claims o2)) eqn:Hf; [eauto|]. rewrite record_use_memory.
  set (x := num_add (rc_exp claims) (skew_of o1)) in *.
  destruct (run_ledger_keeps calls _ (rc_jti claims) x Hd' (map_get_set_eq _ _ _)) as [Hk|(now & Hin & Hn)].
  - unfold map_has. rewrite Hk. eauto.
  - apply first_fault_none in Hf. unfold faults in Hf. rewrite !Forall_cons in Hf. cbn [fst] in Hf.
    destruct Hf as (_ & Hx & _). rewrite Hskew in Hx. fold x in Hx.
    by rewrite (num_leb_ltb_trans x now _ Hn (Hp _ Hin)) in Hx.
Qed.
End Ledger.

(** ** A concrete client *)

Definition client_claims : jsval :=
  plain [(js "jti", JStr (js "j-1")); (js "iat", JNum (num_of_Z 1000)); (js "nbf", JNum (num_of_Z 1000));
         (js "exp", JNum (num_of_Z 2000)); (js "scope", JStr []); (js "license_id", JStr (js "l-1"));
         (js "usage_id", JStr (js "u-1")); (js "usage_fingerprint", JStr (js "fp"));
         (js "status", JStr (js "active")); (js "max_usages", JNum (num_of_Z 3));
         (js "force_online_after", JNum (num_of_Z 2500))].

Definition client_token : jsstr :=
  match c_encode lic1Codec (toy_input client_claims) with Ok t => t | Throw _ => [] end.

(** At [now] seconds, on the device [fp], pinning no audience. *)
Definition client_opts (now : Z) (fp : jsstr) : ValidateOptions (KH := toy.handles) :=
  mkValidate [(ed25519, toy.backend)] [(js "k1", ed25519)] [(js "k1", toy.record)] fp
    (num_of_Z now) None None None.

Definition client_accepts (now : Z) (fp : jsstr) (entries : MemoryJtiLedger) : bool :=
  match (validate default_codecs client_token (client_opts now fp) (Some entries)).1 with
  | Ok _ => true
  | Throw _ => false
  end.

Definition first_ledger : MemoryJtiLedger := [(js "j-1", num_of_Z 2060)].

Definition client_result : ValidateResult :=
  mkValid (js "k1") ed25519 (js "l-1") (js "u-1") [] (js "active") (num_of_Z 3) (num_of_Z 1000)
    (num_of_Z 1000) (num_of_Z 2000) (Some (num_of_Z 2500)) None None None.

Lemma client_first_use :
  validate default_codecs client_token (client_opts 1500 (js "fp")) (Some ([] : MemoryJtiLedger))
  = (Ok client_result, Some first_ledger).
Proof. vm_compute. reflexivity. Qed.


Lemma client_backends_settle now fp : backends_settle (o_registry (client_opts now fp)).
Proof. apply Forall_singleton. by split. Qed.

Lemma validate_refusal_witness :
  Some ([] : MemoryJtiLedger) = Some [] /\ client_error clientErrors.fingerprintMismatch.
Proof.
  destruct (validate_refusal client_token (client_opts 1500 (js "other")) (Some []) (Some [])
    clientErrors.fingerprintMismatch (client_backends_settle _ _) ltac:(vm_compute; reflexivity))
    as (H1 & H2 & _).
  split; [exact H1|exact H2].
Defined.

Lemma replay_refused_witness :
  exists e, validate default_codecs client_token (client_opts 1600 (js "fp"))
              (Some (run_ledger default_codecs [Prune (num_of_Z 1550)] first_ledger))
            = (Throw e, Some (run_ledger default_codecs [Prune (num_of_Z 1550)] first_ledger)).
Proof.
  apply (replay_refused default_codecs client_token (client_opts 1500 (js "fp"))
    (client_opts 1600 (js "fp")) [] first_ledger client_result).
  - constructor.
  - exact client_first_use.
  - reflexivity.
  - intros now [= ->]%list_elem_of_singleton. vm_compute. reflexivity.
Defined.

(** The hypothesis on the prunes is needed: [pruneExpired] drops an entry at
    the very second [exp + skew] at which [validate] still accepts the token,
    so a token can be used again in that second. *)
Example prune_boundary_replay :
  client_accepts 2060 (js "fp") (run_ledger default_codecs [Prune (num_of_Z 2060)] first_ledger) = true
  /\ client_accepts 2060 (js "fp") first_ledger = false
  /\ client_accepts 2061 (js "fp") [] = false.
Proof. split_and!; vm_compute; reflexivity. Qed.
