(* ===== verification/TokenProps.v ===== *)
(** * TokenProps: an issued token is accepted exactly while it should be

    [issueToken] on the server composed with [validate] on the client. *)

From S2P Require Import Prelude Errors JsNum Text Json Canonical StrictJson Types Crypto TokenCodec Lic1 Lic2 Tokens Id Cursor Storage Pages Lifecycle LicenseService Memory MemoryLaws EncryptedPkcs8 EncryptedPkcs8Props KeyHierarchy KeyHierarchyProps TokenService Validate ValidateProps.

(** ** Claims of a canonical payload *)

(** No name the program looks up is one of [Object.prototype]'s. *)
Definition own_name (k : jsstr) : bool := bool_decide (k ∉ object_proto_names).

Lemma map_get_perm {A} (l1 l2 : list (jsstr * A)) k :
  NoDup l1.*1 -> l1 ≡ₚ l2 -> map_get l1 k = map_get l2 k.
Proof.
  intros Hd Hp. assert (Hd2 : NoDup l2.*1) by by rewrite <- Hp.
  destruct (map_get l1 k) as [v|] eqn:E.
  - apply map_get_elem in E. rewrite Hp in E. symmetry. by apply elem_map_get.
  - symmetry. apply map_get_None. rewrite <- Hp. by apply map_get_None.
Qed.

Lemma map_get_on_value {A B} (f : A -> B) l k : map_get (map (on_value f) l) k = f <$> map_get l k.
Proof.
  induction l as [|[k' v] l IH]; [done|]. cbn [map on_value fst snd map_get]. by case_decide.
Qed.

Lemma map_get_canon props k :
  NoDup props.*1 ->
  map_get (merge_sort key_le (map (on_value canon) props)) k = canon <$> map_get props k.
Proof.
  intros Hd. rewrite <- map_get_on_value. apply map_get_perm; [|by rewrite merge_sort_Permutation].
  apply sort_keys_nodup. by rewrite on_value_fst.
Qed.

Lemma canon_get props k :
  NoDup props.*1 -> own_name k = true ->
  get_prop (canon (plain props)) k = match map_get props k with Some v => canon v | None => JUndefined end.
Proof.
  intros Hd Hk. unfold own_name in Hk. bool_prop. unfold get_prop. cbn [canon lookup_chain proto_of].
  change (map (fun kv => (kv.1, canon kv.2)) props) with (map (on_value canon) props).
  rewrite map_get_canon by done. destruct (map_get props k); [done|]. cbn [fmap option_fmap option_map].
  assert (str_eqb k proto_key = false) as ->.
  { apply bool_decide_eq_false. intros ->. destruct Hk. apply list_elem_of_In. cbn. tauto. }
  by rewrite bool_decide_false.
Qed.

Lemma canon_has props k :
  NoDup props.*1 -> own_name k = true -> has_prop (canon (plain props)) k = map_has props k.
Proof.
  intros Hd Hk. unfold own_name in Hk. bool_prop. cbn [canon has_prop]. unfold map_has.
  change (map (fun kv => (kv.1, canon kv.2)) props) with (map (on_value canon) props).
  rewrite map_get_canon by done. rewrite bool_decide_false by done.
  destruct (map_get props k); [done|]. done.
Qed.

Section Claims.
Context {W : Type} (input : IssueTokenInput W) (jti : jsstr) (iat exp : jsnum) (slug : jsstr)
  (status : LicenseStatus) (force : option jsnum) (ent : option jsval).

Definition payload_props : list (jsstr * jsval) :=
  match token_payload input jti iat exp slug status force ent with JObj _ props => props | _ => [] end.

Lemma payload_nodup : NoDup payload_props.*1.
Proof.
  unfold payload_props, token_payload.
  destruct force, ent, (it_meta input); cbn [app fmap list_fmap fst]; decided.
Qed.

Lemma payload_plain : token_payload input jti iat exp slug status force ent = plain payload_props.
Proof. done. Qed.

Lemma payload_lookup :
  map_get payload_props (js "jti") = Some (JStr jti)
  /\ map_get payload_props (js "iat") = Some (JNum iat)
  /\ map_get payload_props (js "nbf") = Some (JNum iat)
  /\ map_get payload_props (js "exp") = Some (JNum exp)
  /\ map_get payload_props (js "scope") = Some (JStr slug)
  /\ map_get payload_props (js "license_id") = Some (JStr (l_id (it_license input)))
  /\ map_get payload_props (js "usage_id") = Some (JStr (u_id (it_usage input)))
  /\ map_get payload_props (js "usage_fingerprint") = Some (JStr (u_fingerprint (it_usage input)))
  /\ map_get payload_props (js "status") = Some (JStr (status_str status))
  /\ map_get payload_props (js "max_usages") = Some (js_int (l_max_usages (it_license input)))
  /\ map_get payload_props (js "force_online_after") = JNum <$> force
  /\ map_get payload_props (js "entitlements") = ent
  /\ map_get payload_props (js "aud") = None /\ map_get payload_props (js "iss") = None.
Proof.
  unfold payload_props, token_payload. destruct force, ent, (it_meta input); split_and!; reflexivity.
Qed.

(** The claims the client reads back. *)
Lemma payload_claims :
  isFinite iat = true -> isFinite exp = true ->
  isFinite (num_of_Z (l_max_usages (it_license input))) = true ->
  match force with Some n => isFinite n = true | None => True end ->
  match ent with Some (JObj _ _) | None => True | Some _ => False end ->
  assertClaimShape (canon (token_payload input jti iat exp slug status force ent))
  = Ok (mkClaims jti iat iat exp slug (l_id (it_license input)) (u_id (it_usage input))
          (u_fingerprint (it_usage input)) (status_str status) (num_of_Z (l_max_usages (it_license input)))
          force (canon <$> ent) None None).
Proof.
  intros Hi He Hm Hf Hent. rewrite payload_plain. unfold assertClaimShape, claim_req, claim_force_online, claim_entitlements, present.
  rewrite !canon_has, !canon_get by (apply payload_nodup || reflexivity). unfold map_has.
  destruct payload_lookup as (-> & -> & -> & -> & -> & -> & -> & -> & -> & -> & Hforce & Hent' & -> & ->).
  rewrite Hforce, Hent'. cbn [canon asString asNumber rbind js_int]. rewrite Hi, He, Hm. cbn [rbind].
  destruct force as [n|]; cbn [fmap option_fmap option_map canon andb asNumber]; [rewrite Hf; cbn [rbind]|];
    destruct ent as [[]|]; try done.
Qed.
End Claims.

(** What the request puts in the claims is text and JSON data. *)
Record request_wf {W} (input : IssueTokenInput W) : Prop := {
  rw_license : Forall is_unit (l_id (it_license input));
  rw_usage : Forall is_unit (u_id (it_usage input));
  rw_fingerprint : Forall is_unit (u_fingerprint (it_usage input));
  rw_max : Z.abs (l_max_usages (it_license input)) <= 2 ^ 53;
  rw_entitlements : match resolveEntitlements input with
                    | Some (JObj proto props) => val_wf (JObj proto props) /\ no_proto_key (JObj proto props) = true
                    | Some _ => False
                    | None => True
                    end;
  rw_force : match it_forceOnlineAfter input with
             | Some (Some n) => num_wf n = true
             | Some None => True
             | None => match get_prop (l_meta (it_license input)) (js "force_online_after_sec") with
                       | JNum n => num_wf n = true
                       | _ => True
                       end
             end;
  rw_meta : match it_meta input with Some m => val_wf m /\ no_proto_key m = true | None => True end
}.

Lemma payload_wf {W} (input : IssueTokenInput W) jti iat exp slug status force :
  request_wf input -> Forall is_unit jti -> Forall is_unit slug ->
  num_wf iat = true -> num_wf exp = true ->
  match force with Some n => num_wf n = true | None => True end ->
  let payload := token_payload input jti iat exp slug status force (resolveEntitlements input) in
  val_wf payload /\ no_proto_key payload = true.
Proof.
  intros [Hl Hu Hf Hmax He _ Hm] Hj Hs Hi Hx Hfo. cbv zeta. rewrite payload_plain. rewrite val_wf_obj.
  assert (Hstat : Forall is_unit (status_str status)) by (destruct status; decided).
  assert (Hmw : num_wf (num_of_Z (l_max_usages (it_license input))) = true)
    by (rewrite num_of_Z_exact by done; apply norm_wf).
  split; [split; [done|split; [apply payload_nodup|]]|]; unfold payload_props, token_payload, js_int.
  - repeat (apply Forall_app; split); [repeat apply Forall_cons_2; try apply Forall_nil_2; (split; [decided|done])|..].
    + destruct force; [|by apply Forall_nil]. apply Forall_singleton. split; [decided|done].
    + destruct (resolveEntitlements input) as [v|]; [|by apply Forall_nil]. apply Forall_singleton.
      split; [decided|]. by destruct v; try done; destruct He.
    + destruct (it_meta input); [|by apply Forall_nil]. apply Forall_singleton. split; [decided|]. apply Hm.
  - cbn [no_proto_key]. rewrite !forallb_app, !andb_true_iff. split_and!; [reflexivity|by destruct force| |].
    + destruct (resolveEntitlements input) as [v|]; [|done]. cbn [forallb fst snd].
      rewrite andb_true_r. apply andb_true_intro. split; [reflexivity|]. by destruct v; try done; destruct He.
    + destruct (it_meta input); [|done]. cbn [forallb fst snd].
      rewrite andb_true_r. apply andb_true_intro. split; [reflexivity|]. apply Hm.
Qed.

(** ** The forced-online deadline *)

Lemma safe_integer n : isSafeInteger n = true -> exists z, num_to_Z n = Some z /\ Z.abs z < 2 ^ 53.
Proof.
  unfold isSafeInteger, MIN_SAFE, MAX_SAFE. destruct (num_to_Z n) as [z|]; [|done]. intros H. bool_prop. exists z.
  split; [done|lia].
Qed.

Lemma num_add_wf x y a b :
  num_wf x = true -> num_wf y = true -> num_to_Z x = Some a -> num_to_Z y = Some b ->
  Z.abs (a + b) <= 2 ^ 53 -> num_wf (num_add x y) = true.
Proof.
  intros Hx Hy Ha Hb Hab. destruct x as [| | |m1 e1], y as [| | |m2 e2]; try done.
  cbn in Ha, Hb. destruct (0 <=? e1) eqn:E1, (0 <=? e2) eqn:E2; try done. simplify_eq. bool_prop.
  unfold num_add, dyadic. cbv zeta. rewrite (proj2 (Z.leb_le 0 _)) by lia.
  rewrite Z.mul_add_distr_r, <- !Z.mul_assoc, <- !Z.pow_add_r, !Z.sub_add by lia.
  change (rat_to_num ?z 1) with (num_of_Z z). rewrite num_of_Z_exact by done. apply norm_wf.
Qed.

Lemma num_of_Z_facts z : Z.abs z <= 2 ^ 53 ->
  num_wf (num_of_Z z) = true /\ num_to_Z (num_of_Z z) = Some z /\ isFinite (num_of_Z z) = true.
Proof.
  intros Hz. rewrite num_of_Z_exact by done. split_and!; [apply norm_wf|apply norm_to_Z|].
  pose proof (norm_to_Z z) as H. by destruct (norm z 0).
Qed.

Lemma num_to_Z_finite n z : num_to_Z n = Some z -> isFinite n = true.
Proof. by destruct n. Qed.

Lemma force_deadline {W} (input : IssueTokenInput W) t force :
  0 <= t <= 2 ^ 52 -> resolveForceOnlineAfter input (num_of_Z t) = Ok force ->
  match force with
  | Some d => exists z, num_to_Z d = Some z /\ t <= z <= t + FORCE_ONLINE_MAX_SEC
  | None => True
  end.
Proof.
  intros Ht. destruct (num_of_Z_facts t) as (_ & Hz & _); [lia|]. unfold resolveForceOnlineAfter.
  assert (Hmax : Z.abs (t + FORCE_ONLINE_MAX_SEC) <= 2 ^ 53) by (unfold FORCE_ONLINE_MAX_SEC; lia).
  destruct (it_forceOnlineAfter input) as [[c|]|]; [|by intros [= <-]|].
  - unfold validateForceOnlineDeadline. destruct (isFinite c), (isSafeInteger c) eqn:Es; try done. cbn [negb orb].
    destruct (safe_integer c Es) as (z & Hc & _).
    rewrite (num_ltb_Z c _ z t), (num_ltb_Z _ c (t + FORCE_ONLINE_MAX_SEC) z) by
      (done || (apply num_add_Z; [done|by apply num_of_Z_to_Z|done])).
    destruct (z <? t) eqn:E1; [done|]. destruct (_ <? z) eqn:E2; [done|]. bool_prop.
    intros [= <-]. eauto.
  - destruct (get_prop _ _) as [| | |n| | | | | | |];
      first [lazymatch goal with |- context [isFinite] => idtac end | by intros [= <-]].
    destruct (isFinite n), (isSafeInteger n) eqn:Es; try done. cbn [negb orb].
    destruct (safe_integer n Es) as (z & Hn & _).
    rewrite (num_leb_Z n _ z 0), (num_ltb_Z _ n FORCE_ONLINE_MAX_SEC z) by (done || by apply num_of_Z_to_Z).
    destruct (z <=? 0) eqn:E1; [done|]. destruct (_ <? z) eqn:E2; [done|]. bool_prop.
    intros [= <-]. exists (t + z). split; [|lia]. apply num_add_Z; [done..|]. unfold FORCE_ONLINE_MAX_SEC in *. lia.
Qed.

(** The forced-online deadline of a token is an integer between the time
    of issue and ten years later, whether the caller gives it or the license
    carries it; anything else is refused. *)
Theorem force_deadline_bounds {W} (input : IssueTokenInput W) t d :
  0 <= t <= 2 ^ 52 -> resolveForceOnlineAfter input (num_of_Z t) = Ok (Some d) ->
  exists z, num_to_Z d = Some z /\ t <= z <= t + FORCE_ONLINE_MAX_SEC.
Proof. intros Ht H. exact (force_deadline input t (Some d) Ht H). Qed.

Lemma force_wf {W} (input : IssueTokenInput W) t force :
  0 <= t <= 2 ^ 52 -> request_wf input -> resolveForceOnlineAfter input (num_of_Z t) = Ok force ->
  match force with Some d => num_wf d = true /\ isFinite d = true | None => True end.
Proof.
  intros Ht Hwf H. pose proof (force_deadline input t force Ht H) as Hd. destruct force as [d|]; [|done].
  destruct Hd as (z & Hz & _). split; [|by eapply num_to_Z_finite]. destruct Hwf as [_ _ _ _ _ Hf _].
  unfold resolveForceOnlineAfter in H. destruct (it_forceOnlineAfter input) as [[c|]|]; [| done|].
  - unfold validateForceOnlineDeadline in H. repeat case_hyp H; try done. by apply Ok_inj in H as [= <-].
  - destruct (get_prop _ _) as [| | |n| | | | | | |]; try done.
    destruct (isFinite n), (isSafeInteger n) eqn:Es; try done. cbn [negb orb] in H.
    destruct (safe_integer n Es) as (y & Hn & _). destruct (num_leb n _); [done|].
    rewrite (num_ltb_Z _ n FORCE_ONLINE_MAX_SEC y) in H by (done || by apply num_of_Z_to_Z).
    destruct (_ <? y) eqn:E; [done|]. bool_prop. apply Ok_inj in H as [= <-].
    destruct (num_of_Z_facts t) as (Hw & Hzt & _); [lia|]. apply (num_add_wf _ _ t y); try done.
    unfold isSafeInteger, MIN_SAFE in Es. rewrite Hn in Es. bool_prop. unfold FORCE_ONLINE_MAX_SEC in *. lia.
Qed.

(** ** What an issued token was made of *)

Lemma inline_import {KH : KeyHandles} {P : Pbes2} {W} key backends pass (w w' : W) r :
  importSigningPrivate (KS := inline_store key) backends (k_kid key) pass w = (Ok r, w') ->
  k_role key = signing /\ exists b enc, k_private_pem_enc key = Some enc
    /\ import_stored backends key enc pass = Ok (b, r.2).
Proof.
  unfold importSigningPrivate. destruct pass as [|c pass]; [done|].
  intros (found & w1 & Hf & H)%bind_ok_inv. apply Ok_pair_inj in Hf as [<- _].
  unfold str_eqb in H. rewrite bool_decide_true in H by done.
  destruct (bool_decide (k_role key <> signing)) eqn:Er; [done|]. apply bool_decide_eq_false in Er.
  destruct (k_private_pem_enc key) as [[|e enc]|]; [done| |done].
  apply bind_ok_inv in H as ([b h] & w2 & Hi & H). apply lift_ok_inv in Hi as [Hi _].
  apply Ok_pair_inj in H as [<- _]. split; [by destruct (decide (k_role key = signing))|]. eauto.
Qed.

(** The steps of a successful [issueToken]. *)
Lemma issueToken_inv {KH : KeyHandles} {P : Pbes2} {SH : Sha256} {DP : DateParse}
    {W} {HC : HasClock W} {HE : HasEntropy W} {ST : Storage W} fuel codecs backends input (w w' : W) r :
  issueToken fuel codecs backends input w = (Ok r, w') ->
  exists now w1 key w2 slug w3 w4 force,
    check_request input = Ok tt /\ nowIso w = (Ok now, w1)
    /\ check_issuable (effectiveStatus (it_license input) now) = Ok tt
    /\ findActiveSigningKey fuel (l_scope_id (it_license input)) (it_alg input) w1 = (Ok (Some key), w2)
    /\ match l_scope_id (it_license input) with
       | None => ret []
       | Some scope_id => resolveScopeSlug scope_id
       end w2 = (Ok slug, w3)
    /\ freshUuid w3 = (Ok (ir_jti r), w4)
    /\ ir_kid r = k_kid key /\ ir_iat r = unixSeconds now
    /\ ir_exp r = num_add (unixSeconds now) (it_ttlSeconds input)
    /\ resolveForceOnlineAfter input (ir_iat r) = Ok force
    /\ k_role key = signing
    /\ exists b handle enc backend codec,
         k_private_pem_enc key = Some enc
         /\ import_stored backends key enc (it_signingPassphrase input) = Ok (b, handle)
         /\ map_get backends (it_alg input) = Some backend
         /\ codecForFormat codecs (given_or (it_tokenFormat input) LIC1) = Ok codec
         /\ c_encode codec (mkEncodeInput (it_alg input) (k_kid key)
              (token_payload input (ir_jti r) (ir_iat r) (ir_exp r) slug
                 (effectiveStatus (it_license input) now) force (resolveEntitlements input))
              handle backend) = Ok (ir_token r).
Proof.
  unfold issueToken. intros (u & w0 & Hreq & H)%bind_ok_inv. apply lift_ok_inv in Hreq as [Hreq ->].
  destruct u. apply bind_ok_inv in H as (now & w1 & Hnow & H).
  apply bind_ok_inv in H as (u & w0 & Hst & H). apply lift_ok_inv in Hst as [Hst ->]. destruct u.
  apply bind_ok_inv in H as ([key|] & w2 & Hkey & H); [|done].
  apply bind_ok_inv in H as (u & w0 & Hdrift & H). apply lift_ok_inv in Hdrift as [_ ->]. clear u.
  apply bind_ok_inv in H as (slug & w3 & Hslug & H). apply bind_ok_inv in H as (jti & w4 & Hjti & H).
  apply bind_ok_inv in H as (force & w5 & Hforce & H). apply lift_ok_inv in Hforce as [Hforce ->].
  apply bind_ok_inv in H as ([k handle] & w6 & Himp & H). apply inline_import in Himp as (Hrole & b & enc & Henc & Hopen).
  destruct (map_get backends (it_alg input)) as [backend|] eqn:Hb; [|done].
  apply bind_ok_inv in H as (codec & w7 & Hc & H). apply lift_ok_inv in Hc as [Hc ->].
  destruct (negb _); [done|]. apply bind_ok_inv in H as (token & w8 & He & H). apply lift_ok_inv in He as [He ->].
  apply bind_ok_inv in H as (sent & w9 & _ & H). apply Ok_pair_inj in H as [<- _]. cbn [ir_token ir_kid ir_iat ir_exp ir_jti].
  exists now, w1, key, w2, slug, w3, w4, force. split_and!; try done. by exists b, handle, enc, backend, codec.
Qed.

(** ** The signing key, in the memory adapter *)

Lemma elem_paginate {T} (key : T -> CursorTuple) items page x :
  x ∈ pg_items (paginate key items page) -> x ∈ items.
Proof.
  unfold paginate. cbv zeta. destruct (match decodeCursor _ with Some _ => _ | None => _ end); [|by intros ?%elem_of_nil].
  cbn [pg_items]. intros (i & H & _)%elem_of_take. rewrite lookup_drop in H. apply list_elem_of_lookup_2 in H.
  by rewrite merge_sort_Permutation in H.
Qed.

Definition signer_filter (scope_id : option UUIDv7) (alg : KeyAlg) : LicenseKeyFilter :=
  mkKeyFilter (Some scope_id) None (Some alg) (Some signing) (Some k_active).

Lemma findFirstActive_inv fuel scope_id alg (w w' : World) found :
  findFirstActive fuel scope_id alg w = (Ok found, w') ->
  w' = w /\ forall k, found = Some k -> k ∈ rows (s_keys (w_state w)) /\ key_matches (signer_filter scope_id alg) k = true.
Proof.
  unfold findFirstActive. fold (signer_filter scope_id alg). generalize (None : option jsstr) as c. induction fuel as [|fuel IH]; intros c; [done|].
  cbn [walkPages]. intros (page & w1 & Hp & H)%bind_ok_inv.
  assert (w1 = w /\ forall k, k ∈ pg_items page ->
            k ∈ rows (s_keys (w_state w)) /\ key_matches (signer_filter scope_id alg) k = true) as [-> Hpage].
  { apply Ok_pair_inj in Hp as [<- <-]. split; [done|]. intros k (H1 & H2)%elem_paginate%Prelude.elem_filter. split; [exact H1|exact H2]. }
  apply bind_ok_inv in H as (next & w2 & Hb & H). destruct (pg_items page) as [|k items].
  - apply Ok_pair_inj in Hb as [<- <-]. destruct (pg_cursor page); [by eapply IH|].
    by apply Ok_pair_inj in H as [<- <-].
  - apply Ok_pair_inj in Hb as [<- <-]. apply Ok_pair_inj in H as [<- <-]. split; [done|].
    intros k' [= <-]. apply Hpage. left.
Qed.

(** The chosen key is an active signing key for the algorithm, of the scope
    asked for or global; the search changes nothing. *)
Lemma findActiveSigningKey_inv fuel scope_id alg (w w' : World) k :
  findActiveSigningKey fuel scope_id alg w = (Ok (Some k), w') ->
  w' = w /\ k ∈ rows (s_keys (w_state w)) /\ k_role k = signing /\ k_state k = k_active /\ k_alg k = alg
  /\ (k_scope_id k = scope_id \/ k_scope_id k = None).
Proof.
  assert (Hone : forall s w w', findFirstActive fuel s alg w = (Ok (Some k), w') ->
    w' = w /\ k ∈ rows (s_keys (w_state w)) /\ k_role k = signing /\ k_state k = k_active /\ k_alg k = alg
    /\ k_scope_id k = s).
  { intros s v v' [-> H]%findFirstActive_inv. destruct (H k eq_refl) as [Hin Hm]. unfold key_matches in Hm.
    cbn in Hm. bool_prop. by split_and!. }
  unfold findActiveSigningKey. destruct scope_id as [s|].
  - intros (found & w1 & Hf & H)%bind_ok_inv. destruct found as [k'|].
    + apply Ok_pair_inj in H as [[= ->] <-]. apply Hone in Hf. intuition.
    + apply findFirstActive_inv in Hf as [-> _]. apply Hone in H. intuition.
  - intros H%Hone. intuition.
Qed.

(** ** Issuer and client together *)

Section EndToEnd.
Context {KH : KeyHandles} {P : Pbes2} {SH : Sha256} {DP : DateParse}.
Context (fuel : nat) (backends : list (KeyAlg * SignatureBackend)) (input : IssueTokenInput World).

(** What the client was shipped with: the kid bound to the algorithm, and
    the public half of what the issuer stores under that kid. *)
Record knows_issuer (kid : jsstr) (w : World) (opts : ValidateOptions) : Prop := {
  ki_kid : text_ok kid /\ kid <> [];
  ki_binding : bindings_get (o_bindings opts) kid = Some (it_alg input);
  ki_key : exists b pub record,
    map_get backends (it_alg input) = Some b /\ b_alg b = it_alg input
    /\ registry_get (o_registry opts) (alg_str (it_alg input)) = Ok b
    /\ map_get (o_keys opts) kid = Some record /\ kr_alg record = it_alg input
    /\ b_importPublic b (PemMaterial (kr_pem record)) = Ok pub
    /\ forall key enc handle, key ∈ rows (s_keys (w_state w)) -> k_kid key = kid ->
         k_private_pem_enc key = Some enc ->
         import_stored backends key enc (it_signingPassphrase input) = Ok (b, handle) ->
         key_pair b handle pub /\ signs_bytes b handle
}.

(** The issuer's time [t] and the lifetime are seconds a double holds. *)
Record issue_times (w : World) (t ttl : Z) : Prop := {
  it_now : exists now ms, (nowIso w).1 = Ok now /\ date_parse now = Some ms /\ ms / 1000 = t;
  it_range : 0 <= t <= 2 ^ 52 /\ 0 <= ttl <= 2 ^ 52;
  it_ttl : it_ttlSeconds input = num_of_Z ttl
}.

Definition slugs_ok (w : World) : Prop :=
  Forall (fun s => Forall is_unit (sc_slug s)) (rows (s_scopes (w_state w))).

(** The claims of an issued token, as the client reads them back. *)
Definition issued_claims (r : IssueTokenResult) (slug : jsstr) (status : LicenseStatus)
    (force : option jsnum) : RequiredClaims :=
  mkClaims (ir_jti r) (ir_iat r) (ir_iat r) (ir_exp r) slug (l_id (it_license input))
    (u_id (it_usage input)) (u_fingerprint (it_usage input)) (status_str status)
    (num_of_Z (l_max_usages (it_license input))) force (canon <$> resolveEntitlements input) None None.

Lemma slug_units scope_id (w w' : World) slug :
  slugs_ok w ->
  match scope_id with None => ret [] | Some id => resolveScopeSlug (W := World) id end w = (Ok slug, w') ->
  w' = w /\ Forall is_unit slug.
Proof.
  intros Hs. destruct scope_id as [id|]; [|by intros [<- <-]%Ok_pair_inj].
  unfold resolveScopeSlug. intros (found & w1 & Hf & H)%bind_ok_inv.
  apply Ok_pair_inj in Hf as [<- <-]. destruct (map_get _ _) as [s|] eqn:E; [|done].
  apply Ok_pair_inj in H as [<- <-]. split; [done|]. unfold slugs_ok in Hs. rewrite Forall_forall in Hs. apply Hs.
  apply map_get_elem in E. unfold rows. by apply (list_elem_of_fmap_2 snd _ (id, s)).
Qed.

Lemma issuable_status s : check_issuable s = Ok tt -> status_str s = js "active" \/ status_str s = js "grace".
Proof. destruct s; try done; auto. Qed.

Lemma now_same (w w1 : World) now : nowIso w = (Ok now, w1) -> w_state w1 = w_state w.
Proof. unfold nowIso, world_clock. destruct (clock_nowIso _) as [[n|] c]; [|done]. by intros [_ <-]%Ok_pair_inj. Qed.

(** The client verifies an issued token and reads its claims. *)
Lemma issued_token_reads (w w' : World) r t ttl opts :
  request_wf input -> issue_times w t ttl -> slugs_ok w ->
  issueToken fuel default_codecs backends input w = (Ok r, w') ->
  knows_issuer (ir_kid r) w opts ->
  exists parts slug status force,
    verify default_codecs (ir_token r) (verify_options opts) = Ok parts
    /\ h_kid (e_header parts) = ir_kid r /\ h_alg (e_header parts) = it_alg input
    /\ assertClaimShape (e_payload parts) = Ok (issued_claims r slug status force)
    /\ (status_str status = js "active" \/ status_str status = js "grace")
    /\ resolveForceOnlineAfter input (ir_iat r) = Ok force
    /\ ir_iat r = num_of_Z t /\ num_to_Z (ir_exp r) = Some (t + ttl).
Proof.
  intros Hwf [(now & ms & Hnow & Hms & Ht) Hr Httl] Hslugs H [[Hk Hkn] Hbind (b & pub & record & Hb & Hba & Hreg & Hrec & Hra & Himp & Hpair)].
  apply issueToken_inv in H as (now' & w1 & key & w2 & slug & w3 & w4 & force & _ & Hn & Hst & Hkey & Hslug & Hjti & Hkid & Hiat & Hexp & Hforce & _ & b' & handle & enc & backend & codec & Henc & Hopen & Hb' & Hc & He).
  rewrite Hn in Hnow. apply Ok_inj in Hnow as ->. rewrite Hb in Hb'. injection Hb' as <-.
  apply now_same in Hn. apply findActiveSigningKey_inv in Hkey as (-> & Hin & _ & _ & Halg & _). rewrite Hn in Hin.
  apply slug_units in Hslug as [-> Hsu]; [|by unfold slugs_ok; rewrite Hn].
  pose proof (freshUuid_frames w1) as [_ Hju]. rewrite Hjti in Hju. cbn [fst] in Hju. apply ascii_text in Hju as [Hju _].
  assert (Hu : unixSeconds now = num_of_Z t) by (unfold unixSeconds; by rewrite Hms, Ht). rewrite Hu in Hiat, Hexp.
  rewrite Httl in Hexp. destruct (num_of_Z_facts t) as (Hiw & Hiz & Hif); [lia|].
  destruct (num_of_Z_facts ttl) as (Htw & Htz & _); [lia|].
  assert (Hez : num_to_Z (ir_exp r) = Some (t + ttl)) by (rewrite Hexp; apply num_add_Z; [done..|lia]).
  assert (Hew : num_wf (ir_exp r) = true) by (rewrite Hexp; by apply (num_add_wf _ _ t ttl); [..|lia]).
  rewrite Hiat in Hforce, He. pose proof (force_wf input t force ltac:(lia) Hwf Hforce) as Hfw.
  set (status := effectiveStatus (it_license input) now) in *.
  destruct (payload_wf input (ir_jti r) (num_of_Z t) (ir_exp r) slug status force) as [Hpw Hpp]; try done.
  { by destruct force; [apply Hfw|]. }
  assert (b' = b) as ->.
  { unfold import_stored in Hopen. apply rbind_ok_inv in Hopen as (b2 & Hb2 & Hopen).
    apply hierarchy_backend_ok in Hb2. rewrite Halg, Hb in Hb2. injection Hb2 as <-.
    apply rbind_ok_inv in Hopen as (? & _ & Hopen). apply rbind_ok_inv in Hopen as (? & _ & Hopen).
    by apply Ok_inj in Hopen as [= <- _]. }
  destruct (Hpair key enc handle Hin (eq_sym Hkid) Henc Hopen) as [Hkp Hsb].
  destruct (encode_verifies _ codec _ (ir_token r) (verify_options opts) record pub Hc He) as (parts & Hv & Hal & Hki & Hpl);
    cbn [i_kid i_alg i_payload i_backend i_privateKey verify_options v_bindings v_registry v_keys]; rewrite <- ?Hkid; try done.
  exists parts, slug, status, force. split_and!; try done.
  - by rewrite Hki, Hkid.
  - rewrite Hpl. cbn [i_payload]. rewrite payload_claims; try done.
    + unfold issued_claims. by rewrite Hiat.
    + by eapply num_to_Z_finite.
    + by apply num_of_Z_facts, Hwf.
    + by destruct force; [apply Hfw|].
    + destruct Hwf as [_ _ _ _ He' _ _]. by destruct (resolveEntitlements input) as [[]|].
  - by apply issuable_status.
  - by rewrite Hiat.
Qed.

(** When the claims of an issued token are acceptable. *)
Lemma issued_acceptable r slug status force opts t ttl n s :
  status_str status = js "active" \/ status_str status = js "grace" ->
  resolveForceOnlineAfter input (num_of_Z t) = Ok force -> ir_iat r = num_of_Z t ->
  num_to_Z (ir_exp r) = Some (t + ttl) -> 0 <= t <= 2 ^ 52 -> 0 <= ttl <= 2 ^ 52 ->
  o_nowSec opts = num_of_Z n -> skew_of opts = num_of_Z s -> 0 <= n <= 2 ^ 50 -> 0 <= s <= 2 ^ 50 ->
  t + ttl <= 2 ^ 52 ->
  acceptable (issued_claims r slug status force) opts <->
  t - s <= n <= t + ttl + s
  /\ u_fingerprint (it_usage input) = o_fingerprint opts
  /\ o_expectedAudience opts = None /\ o_expectedIssuer opts = None
  /\ (forall d z, force = Some d -> num_to_Z d = Some z -> n < z).
Proof.
  intros Hst Hf Hiat Hexp Ht Httl Hn Hs Hnb Hsb Hb.
  assert (Hz : forall z, Z.abs z <= 2 ^ 53 -> num_to_Z (num_of_Z z) = Some z) by apply num_of_Z_to_Z.
  assert (Hleft : num_ltb (num_add (o_nowSec opts) (skew_of opts)) (ir_iat r) = (n + s <? t)).
  { rewrite Hn, Hs, Hiat. apply num_ltb_Z; [apply num_add_Z|]; try apply Hz; lia. }
  assert (Hright : num_ltb (num_add (ir_exp r) (skew_of opts)) (o_nowSec opts) = (t + ttl + s <? n)).
  { rewrite Hn, Hs. apply num_ltb_Z; [apply num_add_Z|]; try apply Hz; done || lia. }
  assert (Hlate : forall d z, num_to_Z d = Some z -> num_leb d (o_nowSec opts) = (z <=? n)).
  { intros d z Hd. rewrite Hn. apply num_leb_Z; [done|apply Hz; lia]. }
  pose proof (force_deadline input t force Ht Hf) as Hd. split.
  - intros [H1 H2 _ H4 H5 H6 H7]. cbn in H1, H2, H4, H5, H6, H7.
    rewrite Hleft in H1. rewrite Hright in H2. bool_prop. split_and!; try done; try lia.
    + destruct (o_expectedAudience opts) as [pin|]; [|done]. by specialize (H6 pin eq_refl).
    + destruct (o_expectedIssuer opts) as [pin|]; [|done]. by specialize (H7 pin eq_refl).
    + intros d z -> Hdz. specialize (H4 d eq_refl). rewrite (Hlate d z) in H4 by done. bool_prop. lia.
  - intros (Hw & Hfp & Ha & Hi & Hdl). split; cbn; rewrite ?Hleft, ?Hright, ?Ha, ?Hi; try done.
    + apply Z.ltb_ge. lia.
    + apply Z.ltb_ge. lia.
    + intros d ->. destruct Hd as (z & Hdz & _). rewrite (Hlate d z) by done. apply Z.leb_gt. by apply (Hdl d z).
Qed.
End EndToEnd.

(** C2: a token the server issues is good for exactly what it says: a client
    shipped with the issuer's public key accepts it exactly while the clock,
    give or take the skew, is between the time of issue and the end of the
    lifetime, on the device of the seat, before the forced-online deadline
    and when no audience or issuer is pinned; and what it then reports is
    the license, the seat, the key and the expiry of the token. *)
Theorem issued_token_validates {KH : KeyHandles} {P : Pbes2} {SH : Sha256} {DP : DateParse}
    fuel backends input (w w' : World) r t ttl opts n s :
  request_wf input -> issue_times input w t ttl -> slugs_ok w ->
  issueToken fuel default_codecs backends input w = (Ok r, w') ->
  knows_issuer backends input (ir_kid r) w opts ->
  o_nowSec opts = num_of_Z n -> skew_of opts = num_of_Z s -> 0 <= n <= 2 ^ 50 -> 0 <= s <= 2 ^ 50 ->
  t + ttl <= 2 ^ 52 ->
  ((exists v, validate default_codecs (ir_token r) opts (None : option MemoryJtiLedger) = (Ok v, None)) <->
   t - s <= n <= t + ttl + s
   /\ u_fingerprint (it_usage input) = o_fingerprint opts
   /\ o_expectedAudience opts = None /\ o_expectedIssuer opts = None
   /\ (forall d z, resolveForceOnlineAfter input (num_of_Z t) = Ok (Some d) -> num_to_Z d = Some z -> n < z))
  /\ forall v, validate default_codecs (ir_token r) opts (None : option MemoryJtiLedger) = (Ok v, None) ->
     vr_license_id v = l_id (it_license input) /\ vr_usage_id v = u_id (it_usage input)
     /\ vr_kid v = ir_kid r /\ vr_alg v = it_alg input /\ vr_exp v = ir_exp r.
Proof.
  intros Hwf Htimes Hslugs H Hknows Hn Hs Hnb Hsb Hb.
  destruct (issued_token_reads fuel backends input w w' r t ttl opts Hwf Htimes Hslugs H Hknows)
    as (parts & slug & status & force & Hv & Hk & Ha & Hc & Hst & Hf & Hiat & Hexp).
  rewrite Hiat in Hf. destruct Htimes as [_ [Ht Httl] _].
  pose proof (issued_acceptable input r slug status force opts t ttl n s Hst Hf Hiat Hexp Ht Httl Hn Hs Hnb Hsb Hb) as Hacc.
  assert (Hforce : (forall d z, resolveForceOnlineAfter input (num_of_Z t) = Ok (Some d) -> num_to_Z d = Some z -> n < z)
    <-> (forall d z, force = Some d -> num_to_Z d = Some z -> n < z)).
  { rewrite Hf. split; intros Hd d z E; [apply Hd; by rewrite E|apply Hd]. by apply Ok_inj in E. }
  rewrite Hforce, <- Hacc. split; [split|].
  - intros (v & (parts' & claims & Hv' & Hc' & Hok & _)%validate_ok_inv). congruence.
  - intros Hok. exists (valid_result (e_header parts) (issued_claims input r slug status force)).
    apply check_claims_ok in Hok. rewrite check_claims_faults in Hok. rewrite validate_unfold, Hv, Hc.
    by destruct (first_fault _).
  - intros v (parts' & claims & Hv' & Hc' & _ & _ & ->)%validate_ok_inv.
    assert (parts' = parts) as -> by congruence. assert (claims = issued_claims input r slug status force) as -> by congruence.
    done.
Qed.

(** ** A concrete issuer and client *)

#[global] Instance toy_sha : Sha256 := {| sha256_hex := fun _ => js "00" |}.
#[global] Instance toy_dates : DateParse := no_other_dates.

Definition issue_iso : Instant := js "2026-01-01T00:00:00.000000Z".
Definition issue_license : License :=
  mkLicense (js "l1") None None (js "User") (js "42") (js "K") active 2 false None None None
    (plain [(js "force_online_after_sec", JNum (num_of_Z 1800))]) issue_iso issue_iso.
Definition issue_usage : LicenseUsage :=
  mkUsage (js "u1") (js "l1") (js "fp") u_active issue_iso None issue_iso (plain []) issue_iso issue_iso.
Definition issue_input : IssueTokenInput World :=
  mkIssueToken issue_license issue_usage (num_of_Z 3600) ed25519 (js "sign-pw") (Some LIC2) None None None None.

(** The tables hold the signing key of the sample hierarchy. *)
Definition issue_world : World :=
  mkWorld (mkState [] [] [] [] [(k_id the_signer, the_signer)] [] []) 0
    (fixedClock 1767225600000 issue_iso) Z.of_nat.
Definition issue_run := issueToken 1 default_codecs toy_backends issue_input issue_world.
Definition issue_result : IssueTokenResult :=
  match issue_run.1 with Ok r => r | Throw _ => mkIssued [] [] NaN NaN [] end.
Definition issue_client (n : Z) : ValidateOptions (KH := toy.handles) :=
  mkValidate toy_backends [(ir_kid issue_result, ed25519)] [(ir_kid issue_result, toy.record)] (js "fp")
    (num_of_Z n) None None None.

Lemma issue_run_eq :
  issueToken 1 default_codecs toy_backends issue_input issue_world = (Ok issue_result, issue_run.2).
Proof. unfold issue_result, issue_run. apply returned. vm_compute. reflexivity. Qed.

Lemma force_deadline_bounds_witness :
  0 <= 1767225600 <= 2 ^ 52
  /\ exists z, num_to_Z (num_of_Z 1767227400) = Some z /\ 1767225600 <= z <= 1767225600 + FORCE_ONLINE_MAX_SEC.
Proof.
  split; [lia|]. apply (force_deadline_bounds issue_input 1767225600); [lia|vm_compute; reflexivity].
Defined.

Lemma issue_input_wf : request_wf issue_input.
Proof. split; try decided; try done. Qed.

Lemma issue_input_times : issue_times issue_input issue_world 1767225600 3600.
Proof.
  split; [|lia|done]. exists issue_iso, 1767225600000. split_and!; [done|vm_compute; reflexivity|done].
Qed.

Lemma issue_kid_ok : text_ok (ir_kid issue_result) /\ ir_kid issue_result <> [].
Proof. split; [split|]; [decided|vm_compute; reflexivity|by vm_compute]. Qed.

Lemma issue_knows n : knows_issuer toy_backends issue_input (ir_kid issue_result) issue_world (issue_client n).
Proof.
  split; [apply issue_kid_ok|exact (map_get_set_eq [] (ir_kid issue_result) ed25519)|].
  exists toy.backend, 7, toy.record. split; [reflexivity|]. split; [reflexivity|]. split; [reflexivity|].
  split; [exact (map_get_set_eq [] (ir_kid issue_result) toy.record)|]. split_and!; [reflexivity..|].
  intros key enc handle _ _ _ H. unfold import_stored in H.
  apply rbind_ok_inv in H as (b & _ & H). apply rbind_ok_inv in H as (der & _ & H).
  apply rbind_ok_inv in H as (h & Hh & H). apply Ok_inj in H as [= -> ->].
  apply Ok_inj in Hh as <-. split; [apply toy.toy_key_pair|apply toy_signs_bytes].
Qed.

Lemma issue_world_slugs : slugs_ok issue_world.
Proof. apply Forall_nil_2. Qed.

Lemma issue_deadline :
  resolveForceOnlineAfter issue_input (num_of_Z 1767225600) = Ok (Some (num_of_Z 1767227400)).
Proof. vm_compute. reflexivity. Qed.

Lemma issue_client_now :
  1767225600 - 60 <= 1767226000 <= 1767225600 + 3600 + 60
  /\ u_fingerprint (it_usage issue_input) = o_fingerprint (issue_client 1767226000)
  /\ o_expectedAudience (issue_client 1767226000) = None /\ o_expectedIssuer (issue_client 1767226000) = None
  /\ (forall d z, resolveForceOnlineAfter issue_input (num_of_Z 1767225600) = Ok (Some d) ->
       num_to_Z d = Some z -> 1767226000 < z).
Proof.
  split; [lia|]. do 3 (split; [reflexivity|]). intros d z Hd Hz. rewrite issue_deadline in Hd.
  apply Ok_inj in Hd as [= <-]. rewrite num_of_Z_to_Z in Hz by lia. injection Hz as <-. lia.
Qed.

Lemma issued_token_validates_witness :
  exists v, validate default_codecs (ir_token issue_result) (issue_client 1767226000) (None : option MemoryJtiLedger)
            = (Ok v, None).
Proof.
  apply (issued_token_validates 1 toy_backends issue_input issue_world issue_run.2 issue_result
    1767225600 3600 (issue_client 1767226000) 1767226000 60 issue_input_wf issue_input_times issue_world_slugs
    issue_run_eq (issue_knows _) eq_refl eq_refl ltac:(lia) ltac:(lia) ltac:(lia)). exact issue_client_now.
Defined.
