(* ===== verification/HttpProps.v ===== *)
(** * HttpProps: who reaches a handler, and how often

    The theorems about authentication, routing and rate limiting. *)

From S2P Require Import Prelude Errors JsNum JsArith Text Json Http.

(** ** Authentication *)

Section Preserve.
Context {W : Type} (I : W -> Prop).

(** Running [c] keeps [I]. *)
Definition preserves {A} (c : prog W A) : Prop := forall w, I w -> I (c w).2.
Definition handler_preserves (h : Handler W) : Prop := forall req, preserves (h req).
Definition middleware_preserves (mw : Middleware W) : Prop :=
  forall next, handler_preserves next -> forall req, preserves (mw req next).

Lemma preserves_ret {A} (a : A) : preserves (ret a).
Proof. by intros w. Qed.

Lemma preserves_bind {A B} (c : prog W A) (k : A -> prog W B) :
  preserves c -> (forall a, preserves (k a)) -> preserves (bind c k).
Proof.
  intros Hc Hk w Hw. unfold bind. specialize (Hc w Hw). destruct (c w) as [[a|e] w']; [by apply Hk|done].
Qed.

Lemma compose_preserves mws final :
  Forall middleware_preserves mws -> handler_preserves final -> handler_preserves (compose mws final).
Proof. intros Hm Hf. induction Hm as [|mw mws Hmw _ IH]; [done|]. intros req. by apply Hmw. Qed.

Lemma find_route_elem (compiled : list (CompiledRoute W)) method parts b r ps :
  find_route compiled method parts b = Ok (Found r ps) -> r ∈ compiled.
Proof.
  revert b. induction compiled as [|c compiled IH]; intros b H; [done|]. cbn [find_route] in H.
  apply rbind_ok_inv in H as ([params|] & _ & H); [|right; by eapply IH].
  case_match; [right; by eapply IH|]. apply Ok_inj in H as [= <- _]. left.
Qed.

Lemma found_route (routes : list (Route W)) method parts r ps :
  find_route (map compileRoute routes) method parts false = Ok (Found r ps) ->
  exists route, route ∈ routes /\ r = compileRoute route.
Proof.
  intros H. apply find_route_elem in H. apply list_elem_of_In, in_map_iff in H as (route & <- & H).
  exists route. split; [by apply list_elem_of_In|done].
Qed.

(** What the middleware answers when there is no valid credential. *)
Lemma bearerAuth_refuses verify req next (w : W) :
  header req PUBLIC_HEADER <> Some (js "1") ->
  (forall token, parseBearer req = Some token -> forall id, (verify token w).1 <> Ok (Some id)) ->
  exists message, (bearerAuth verify req next w).1 = Ok (unauthenticated message)
    /\ ((bearerAuth verify req next w).2 = w
        \/ exists token, parseBearer req = Some token /\ (bearerAuth verify req next w).2 = (verify token w).2).
Proof.
  intros Hp Hv. unfold bearerAuth. rewrite bool_decide_false by done.
  destruct (parseBearer req) as [token|]; [|eexists; by split; [|left]].
  specialize (Hv token eq_refl). destruct (verify token w) as [[[id|]|e] w'] eqn:E.
  - by destruct (Hv id).
  - eexists. split; [done|]. right. exists token. by rewrite E.
  - eexists. split; [done|]. right. exists token. by rewrite E.
Qed.
End Preserve.

(** C11: a request without a valid credential does nothing behind the
    authentication: when the router is built with the bearer middleware
    outermost and the request does not carry the internal public-route
    header, a property of the world that the credential check, the public
    handlers and the inner middlewares keep is kept by the whole dispatch,
    whatever the protected handlers would do; and a protected route answers
    401. *)
Theorem unauthenticated_cannot_act {W} (I : W -> Prop) routes mws verify req (w : W) :
  header req PUBLIC_HEADER <> Some (js "1") ->
  (forall token w, parseBearer req = Some token -> I w ->
     I (verify token w).2 /\ forall id, (verify token w).1 <> Ok (Some id)) ->
  (forall r, r ∈ routes -> rt_public r = Some true -> forall q ps, preserves I (rt_handler r q ps)) ->
  Forall (middleware_preserves I) mws -> I w ->
  I (createRouter routes (bearerAuth verify :: mws) req w).2
  /\ forall r ps, find_route (map compileRoute routes) (q_method req) (path_parts (q_path req)) false = Ok (Found r ps) ->
     cr_public r = false ->
     exists message, (createRouter routes (bearerAuth verify :: mws) req w).1 = Ok (unauthenticated message).
Proof.
  intros Hh Hv Hpub Hm Hw. unfold createRouter, bind, lift.
  destruct (find_route _ _ _ false) as [[r ps|[]]|e] eqn:Ef; try (by split).
  destruct (found_route _ _ _ _ _ Ef) as (route & Hin & ->).
  cbn [compose foldr]. destruct (cr_public (compileRoute route)) eqn:Hp.
  - split; [|by intros r ps' [= <- <-]; rewrite Hp]. unfold bearerAuth.
    rewrite bool_decide_true by apply map_get_set_eq.
    apply (compose_preserves I mws); [done| |done]. intros q. apply Hpub; [done|].
    cbn in Hp. by destruct (rt_public route) as [[]|].
  - destruct (bearerAuth_refuses verify req (compose mws (fun r => cr_handler (compileRoute route) r ps)) w Hh)
      as (message & Ha & Hs).
    { intros token Ht. by apply (Hv token w). }
    split.
    + destruct Hs as [Hs|(token & Ht & Hs)]; unfold compose in Hs; rewrite Hs; [done|]. by apply (Hv token w).
    + intros _ _ _ _. exists message. exact Ha.
Qed.

(** ** A concrete router *)

(** The world counts the calls of the handlers. *)
Definition count_handler : HandlerRequest -> Params -> prog nat HandlerResponse :=
  fun _ _ n => (Ok (respond JNull 200), S n).

Definition admin_routes : list (Route nat) :=
  [mkRoute GET (js "/health") (fun _ _ => ret (respond JNull 200)) (Some true);
   mkRoute POST (js "/admin/licenses/:id/revoke") count_handler None].

Definition admin_verifier : BearerVerifier nat :=
  match sharedSecretVerifier (js "s3cret") with Ok v => v | Throw _ => fun _ => ret None end.

Definition admin_request (headers : list (jsstr * jsstr)) : HandlerRequest :=
  mkRequest POST (js "/admin/licenses/l1/revoke") [] headers JUndefined (js "10.0.0.1") None.

Definition admin_dispatch (headers : list (jsstr * jsstr)) : res HandlerResponse * nat :=
  createRouter admin_routes [bearerAuth admin_verifier] (admin_request headers) 0%nat.

Lemma unauthenticated_cannot_act_witness :
  (admin_dispatch [(js "authorization", js "Bearer guess")]).2 = 0%nat.
Proof.
  apply (unauthenticated_cannot_act (fun n => n = 0%nat) admin_routes [] admin_verifier
    (admin_request [(js "authorization", js "Bearer guess")]) 0%nat); [done| | |done|done].
  - intros token w Ht ->. assert (E : parseBearer (admin_request [(js "authorization", js "Bearer guess")]) = Some (js "guess"))
      by (vm_compute; reflexivity).
    rewrite E in Ht. injection Ht as <-. by split.
  - intros r [->|[->|[]%elem_of_nil]%elem_of_cons]%elem_of_cons Hp q ps; [by intros w|done].
Defined.

(** The right secret reaches the handler. *)
Example right_secret_acts :
  (admin_dispatch [(js "authorization", js "bearer s3cret")]).2 = 1%nat.
Proof. vm_compute. reflexivity. Qed.

(** But the public-route header is trusted when the client itself sends it:
    no credential at all, and the protected handler runs. *)
Example forged_header_bypasses_auth :
  admin_dispatch [(PUBLIC_HEADER, js "1")] = (Ok (respond JNull 200), 1%nat).
Proof. vm_compute. reflexivity. Qed.

(** ** Rate limiting *)

Section RateLimit.
Context {NT : NumberText}.

(** The bucket store of a process and its clock, in milliseconds. *)
Record RateWorld : Type := mkRateWorld { rw_buckets : MemoryBucketStore; rw_nowMs : Z }.

#[global] Instance rate_buckets : BucketStore RateWorld := {|
  bs_get := fun key w => (Ok (map_get (rw_buckets w) key), w);
  bs_set := fun key b w => (Ok tt, mkRateWorld (map_set (rw_buckets w) key b) (rw_nowMs w))
|}.

Definition rate_now : prog RateWorld jsnum := fun w => (Ok (num_of_Z (rw_nowMs w)), w).
Definition at_time (t : Z) (w : RateWorld) : RateWorld := mkRateWorld (rw_buckets w) t.

(** Requests served one after the other, each at its time. *)
Definition run_requests (mw : Middleware RateWorld) (next : Handler RateWorld)
    (history : list (Z * HandlerRequest)) (w : RateWorld) : RateWorld :=
  fold_left (fun w '(t, req) => (mw req next (at_time t w)).2) history w.

Context (burst rate : jsnum) (keyFn : option (HandlerRequest -> jsstr)).

Definition rate_options (skip : option bool) : RateLimitOptions RateWorld :=
  mkRateLimit burst rate keyFn skip rate_now.
Definition rate_key (req : HandlerRequest) : jsstr :=
  match keyFn with Some f => f req | None => q_remoteAddr req end.

(** A bucket never goes below empty, and remembers the time of a request
    for its key. *)
Definition bucket_ok (times : jsstr -> Z -> Prop) (key : jsstr) (b : Bucket) : Prop :=
  at_least 0 (bk_tokens b) /\ exists t, bk_lastRefillMs b = num_of_Z t /\ times key t.

Definition buckets_ok (times : jsstr -> Z -> Prop) (s : MemoryBucketStore) : Prop :=
  forall key b, map_get s key = Some b -> bucket_ok times key b.

Context (rate_m rate_e : Z) (rate_eq : rate = Fin rate_m rate_e) (rate_pos : 0 < rate_m)
  (burst_one : at_least 1 burst).

Lemma elapsed_at_least N now last :
  0 <= N <= 2 ^ 53 -> Z.abs now <= 2 ^ 52 -> Z.abs last <= 2 ^ 52 -> (N = 0 \/ 1000 * N <= now - last) ->
  at_least N (num_max (num_of_Z 0) (num_div (num_sub (num_of_Z now) (num_of_Z last)) (num_of_Z 1000))).
Proof.
  intros HN Hn Hl Hx.
  assert (Hs : num_to_Z (num_sub (num_of_Z now) (num_of_Z last)) = Some (now - last))
    by (apply num_sub_Z; [apply num_of_Z_to_Z; lia..|lia]).
  apply at_least_max; [done|by eapply num_div_not_nan|].
  destruct Hx as [->|Hx]; [by left|right; by eapply seconds_at_least].
Qed.

Lemma refill_at_least K N b t now :
  at_least 0 (bk_tokens b) -> bk_lastRefillMs b = num_of_Z t -> Z.abs now <= 2 ^ 52 -> Z.abs t <= 2 ^ 52 ->
  0 <= N <= 2 ^ 53 -> (N = 0 \/ 1000 * N <= now - t) -> 0 <= K <= 1 -> at_least K (Fin (N * rate_m) rate_e) ->
  at_least K (refill burst rate b (num_of_Z now)).
Proof using Type burst_one rate_eq rate_pos.
  intros Htok Hlast Hn Ht HN Hx HK Hr. unfold refill. rewrite Hlast, rate_eq.
  apply at_least_min; [apply (at_least_mono 1); [lia|done]|].
  apply (at_least_add 0 K); [lia|done|]. apply (at_least_mul N); [lia|lia|done| |done].
  by apply elapsed_at_least.
Qed.

Lemma zero_rate : at_least 0 (Fin (0 * rate_m) rate_e).
Proof. cbn. lia. Qed.

(** One request keeps the buckets in order. *)
Lemma limit_request_ok times skip (next : Handler RateWorld) req t w :
  (forall r w, rw_buckets (next r w).2 = rw_buckets w) ->
  (forall key t, times key t -> Z.abs t <= 2 ^ 52) -> times (rate_key req) t ->
  buckets_ok times (rw_buckets w) ->
  buckets_ok times (rw_buckets (limit_request (rate_options skip) req next (at_time t w)).2).
Proof using Type burst_one rate_eq rate_pos.
  intros Hnext Hrange Ht Hw. unfold limit_request. cbn [rl_skipPublic rl_keyFn rl_now rl_burst rl_refillPerSec rate_options].
  destruct (_ && _); [by rewrite Hnext|]. fold (rate_key req).
  unfold bind at 1. cbn [rate_now]. unfold bind at 1. cbn [bs_get rate_buckets rw_buckets at_time].
  set (prev := match map_get (rw_buckets w) (rate_key req) with Some b => b | None => _ end).
  assert (Hrefill : at_least 0 (refill burst rate prev (num_of_Z t))).
  { assert (at_least 0 (bk_tokens prev) /\ exists t0, bk_lastRefillMs prev = num_of_Z t0 /\ Z.abs t0 <= 2 ^ 52)
      as (Htok & t0 & Hlast & Ht0).
    { unfold prev. destruct (map_get _ _) as [b|] eqn:E.
      - destruct (Hw _ _ E) as (Hb & t0 & Hb0 & Htm). split; [done|]. exists t0. split; [done|by eapply Hrange].
      - split; [by apply (at_least_mono 1)|]. exists t. split; [done|by eapply Hrange]. }
    apply (refill_at_least 0 0 _ t0); [done|done|by eapply Hrange|done|lia|by left|lia|apply zero_rate]. }
  assert (Hset : forall b, at_least 0 (bk_tokens b) -> bk_lastRefillMs b = num_of_Z t ->
    buckets_ok times (map_set (rw_buckets w) (rate_key req) b)).
  { intros b Hb Hb0 key b'. destruct (decide (key = rate_key req)) as [->|Hne].
    - rewrite map_get_set_eq. intros [= <-]. split; [done|]. by exists t.
    - rewrite map_get_set_ne by done. apply Hw. }
  change (match map_get (rw_buckets w) (rate_key req) with Some b => b | None => mkBucket burst (num_of_Z t) end) with prev.
  cbv beta iota. cbn [rw_nowMs at_time]. fold prev.
  destruct (num_ltb (refill burst rate prev (num_of_Z t)) (num_of_Z 1)) eqn:E.
  - unfold bind. cbn. by apply Hset.
  - unfold bind. cbn [bs_set rate_buckets]. rewrite Hnext. cbn [rw_buckets]. apply Hset; [|done].
    apply at_least_pred, at_least_not_ltb; [lia|by eapply at_least_not_nan|done].
Qed.

(** The times of the requests of a history, by key. *)
Definition times_of (history : list (Z * HandlerRequest)) (key : jsstr) (t : Z) : Prop :=
  exists req, (t, req) ∈ history /\ rate_key req = key.

Lemma run_requests_ok times skip (next : Handler RateWorld) history w :
  (forall r w, rw_buckets (next r w).2 = rw_buckets w) ->
  (forall key t, times key t -> Z.abs t <= 2 ^ 52) ->
  (forall t req, (t, req) ∈ history -> times (rate_key req) t) ->
  buckets_ok times (rw_buckets w) ->
  buckets_ok times (rw_buckets (run_requests (limit_request (rate_options skip)) next history w)).
Proof using Type burst_one rate_eq rate_pos.
  intros Hnext Hrange. revert w. induction history as [|[t req] history IH]; intros w Hh Hw; [done|].
  apply IH; [intros t' r' Hin; apply Hh; by right|].
  apply limit_request_ok; [done|done|apply Hh; left|done].
Qed.

(** A request whose key rested for [N] seconds, enough to refill one token,
    reaches the handler. *)
Lemma rested_request_served N times skip (next : Handler RateWorld) req now w :
  buckets_ok times (rw_buckets w) ->
  (forall t, times (rate_key req) t -> Z.abs t <= 2 ^ 52 /\ 1000 * N <= now - t) ->
  Z.abs now <= 2 ^ 52 -> 0 <= N <= 2 ^ 53 -> at_least 1 (Fin (N * rate_m) rate_e) ->
  exists w', limit_request (rate_options skip) req next (at_time now w) = next req w'.
Proof using Type burst_one rate_eq rate_pos.
  intros Hw Ht Hn HN Hr. unfold limit_request. cbn [rl_skipPublic rl_keyFn rl_now rl_burst rl_refillPerSec rate_options].
  destruct (_ && _); [by eexists|]. fold (rate_key req).
  unfold bind at 1. cbn [rate_now]. unfold bind at 1. cbn [bs_get rate_buckets rw_buckets rw_nowMs at_time].
  assert (Hone : forall b, (match map_get (rw_buckets w) (rate_key req) with Some b => b | None => mkBucket burst (num_of_Z now) end) = b ->
    num_ltb (refill burst rate b (num_of_Z now)) (num_of_Z 1) = false).
  { intros b E. apply at_least_ltb; [lia|]. destruct (map_get _ _) as [b0|] eqn:Em; subst b.
    - destruct (Hw _ _ Em) as (Hb & t & Hb0 & Htm). destruct (Ht t Htm) as [Hta Htr].
      apply (refill_at_least 1 N _ t); [done|done|done|done|done|by right|lia|done].
    - unfold refill. cbn [bk_tokens bk_lastRefillMs]. apply at_least_min; [done|].
      apply (at_least_add 1 0); [lia|done|]. rewrite rate_eq.
      apply (at_least_mul 0); [lia|lia|done| |apply zero_rate]. apply elapsed_at_least; [lia|done|done|by left]. }
  rewrite (Hone _ eq_refl). unfold bind. cbn [bs_set rate_buckets]. by eexists.
Qed.
End RateLimit.

(** C40: a rate-limited client is let in again: with a burst of at least one
    request, whatever the history of requests and whoever made them, a
    request whose key was silent for [N] seconds, [N] times the refill rate
    being at least one token, reaches the handler; binary rounding in the
    refill never costs it the token. *)
Theorem rate_limit_recovers {NT : NumberText} burst rate_m rate_e keyFn skip mw next history req now N :
  rateLimit (rate_options burst (Fin rate_m rate_e) keyFn skip) = Ok mw ->
  num_leb (num_of_Z 1) burst = true ->
  0 <= N <= 2 ^ 53 -> at_least 1 (Fin (N * rate_m) rate_e) ->
  (forall r w, rw_buckets (next r w).2 = rw_buckets w) ->
  Z.abs now <= 2 ^ 52 -> (forall t r, (t, r) ∈ history -> Z.abs t <= 2 ^ 52) ->
  (forall t r, (t, r) ∈ history -> rate_key keyFn r = rate_key keyFn req -> 1000 * N <= now - t) ->
  exists w', mw req next (at_time now (run_requests mw next history (mkRateWorld [] 0))) = next req w'.
Proof.
  intros Hmw Hburst HN Hr Hnext Hnow Hrange Hrest. unfold rateLimit in Hmw.
  cbn [rl_burst rl_refillPerSec rate_options] in Hmw. destruct (num_leb burst _); [done|].
  destruct (num_leb (Fin rate_m rate_e) _) eqn:Hpos; [done|]. apply Ok_inj in Hmw as <-.
  assert (Hm : 0 < rate_m).
  { unfold num_leb in Hpos. change (num_of_Z 0) with (Fin 0 0) in Hpos. cbn iota in Hpos. apply negb_false_iff in Hpos.
    rewrite (num_ltb_fin 0 0 rate_m rate_e (Z.min 0 rate_e)) in Hpos by lia. bool_prop.
    assert (0 < 2 ^ (rate_e - Z.min 0 rate_e)) by (apply Z.pow_pos_nonneg; lia). nia. }
  assert (Hb : at_least 1 burst).
  { apply at_least_not_ltb; [lia|by destruct burst|]. unfold num_leb in Hburst. by destruct burst, (num_of_Z 1); try done; apply negb_true_iff. }
  apply (rested_request_served burst (Fin rate_m rate_e) keyFn rate_m rate_e eq_refl Hm Hb N (times_of keyFn history)); [|..|done|done|done].
  - apply (run_requests_ok burst (Fin rate_m rate_e) keyFn rate_m rate_e eq_refl Hm Hb).
    + done.
    + intros key t (r & Hin & _). by eapply Hrange.
    + intros t r Hin. by exists r.
    + done.
  - intros t (r & Hin & Hk). split; [by eapply Hrange|by eapply Hrest].
Qed.


(** ** A concrete limiter *)

#[global] Instance no_number_text : NumberText := {| other_number_text := fun _ => [] |}.

(** Two requests at once, then one every two seconds. *)
Definition half_rate : jsnum := Fin 1 (-1).
Definition limiter (burst : jsnum) : Middleware RateWorld :=
  match rateLimit (rate_options burst half_rate None None) with Ok mw => mw | Throw _ => fun req next => next req end.
Definition served : Handler RateWorld := fun _ => ret (respond JNull 200).
Definition burst_history : list (Z * HandlerRequest) :=
  [(0, admin_request []); (0, admin_request []); (0, admin_request [])].
Definition after_burst : RateWorld := run_requests (limiter (num_of_Z 2)) served burst_history (mkRateWorld [] 0).

Lemma rate_limit_recovers_witness :
  exists w', limiter (num_of_Z 2) (admin_request []) served (at_time 2000 after_burst) = served (admin_request []) w'.
Proof.
  assert (Hh : forall t (r : HandlerRequest), (t, r) ∈ burst_history -> t = 0).
  { intros t r H. unfold burst_history in H. rewrite !elem_of_cons in H.
    destruct H as [[= ? ?]|[[= ? ?]|[[= ? ?]|H]]]; try done. by apply elem_of_nil in H. }
  apply (rate_limit_recovers (num_of_Z 2) 1 (-1) None None (limiter (num_of_Z 2)) served burst_history
           (admin_request []) 2000 2); try done; try lia.
  - intros t r ->%Hh. lia.
  - intros t r ->%Hh _. lia.
Defined.

(** At 1999 ms it is still refused, and told to wait. *)
Example limited_before :
  (limiter (num_of_Z 2) (admin_request []) served (at_time 1999 after_burst)).1
  = Ok (err 429 (js "RateLimited") (js "request rate limit exceeded") (Some [(js "Retry-After", js "1")])).
Proof. vm_compute. reflexivity. Qed.

(** A burst below one is accepted by [rateLimit], and then no request ever
    passes, however long the client waits. *)
Example half_burst_never_serves :
  let run t := (limiter half_rate (admin_request []) served (at_time t (mkRateWorld [] 0))).2 in
  map (fun t => (limiter half_rate (admin_request []) served (at_time t (run 0))).1) [10000; 1000000000]
  = repeat (Ok (err 429 (js "RateLimited") (js "request rate limit exceeded") (Some [(js "Retry-After", js "1")]))) 2.
Proof. vm_compute. reflexivity. Qed.

(** Nor does waiting as long as [Retry-After] says always help: the refills
    can round to just below one token. A burst of three, a token every ten
    seconds; the fourth request is told to wait 9 seconds, and 9 seconds
    later it is refused. *)
Definition tenth : jsnum := js_Number (js "0.1").
Definition slow_limiter : Middleware RateWorld :=
  match rateLimit (rate_options (num_of_Z 3) tenth None None) with Ok mw => mw | Throw _ => fun req next => next req end.
Definition slow_run : RateWorld :=
  run_requests slow_limiter served [(1234, admin_request []); (1734, admin_request []); (2234, admin_request [])]
    (mkRateWorld [] 0).

Example retry_after_too_short :
  let first := slow_limiter (admin_request []) served (at_time 2234 slow_run) in
  let again := slow_limiter (admin_request []) served (at_time (2234 + 9000) first.2) in
  let refused n := Ok (err 429 (js "RateLimited") (js "request rate limit exceeded") (Some [(js "Retry-After", js n)])) in
  first.1 = refused "9"%string /\ again.1 = refused "1"%string.
Proof. vm_compute. split; reflexivity. Qed.

(** ** Validation on sample requests *)

Definition sample_request (query : list (jsstr * QueryValue)) (body : jsval) : HandlerRequest :=
  mkRequest POST (js "/x") query [] body (js "peer") None.

Example validated_fields :
  requireString (plain [(js "token", JStr (js "abc"))]) (js "token") = Ok (js "abc")
  /\ parseCursor (sample_request [(js "cursor", ManyValues [js "abc"; js "d"])] JNull) = Some (js "abc")
  /\ parseLimit (sample_request [(js "limit", OneValue (js " 1e1 "))] JNull) = Ok (num_of_Z 10)
  /\ parseLimit (sample_request [] JNull) = Ok (num_of_Z 25).
Proof. vm_compute. split_and!; reflexivity. Qed.

(** An inherited method is not a field of the body. *)
Example inherited_field_refused :
  requireString (plain []) (js "toString") = Throw (bad_request (js "missing or empty string field: toString"))
  /\ parseLimit (sample_request [(js "limit", OneValue (js "101"))] JNull)
     = Throw (bad_request (js "limit must be an integer in [1, 100]")).
Proof. vm_compute. split; reflexivity. Qed.
