(* ===== verification/ScopeProps.v ===== *)
(** * ScopeProps: key rotation is one transaction

    What [rotateSigningKey] leaves in the tables of the memory adapter. *)

From S2P Require Import Prelude Errors JsNum Text Json Types Crypto Id Cursor Storage Pages Lifecycle Memory MemoryLaws TokenProps EncryptedPkcs8 EncryptedPkcs8Props KeyHierarchy KeyHierarchyProps TokenService Quiet ScopeService.

(** ** The open transaction as a framed world *)

Definition same_tx (v v' : KeyTx World) : Prop :=
  kt_idMap v' = kt_idMap v /\ same_db (kt_world v) (kt_world v').

#[local, program] Instance tx_framed : Framed (KeyTx World) := {| same := same_tx |}.
Next Obligation. by repeat split. Qed.
Next Obligation. intros v1 v2 v3 (H1 & H2 & H3) (H4 & H5 & H6). split; [congruence|split; congruence]. Qed.

Lemma quiet_on_tx {A} (c : prog World A) : quiet c -> quiet (on_tx c).
Proof. intros Hc v. unfold on_tx. specialize (Hc (kt_world v)). by destruct (c (kt_world v)). Qed.

#[local] Instance tx_quiet_clock : QuietClock (KeyTx World).
Proof. split; [apply quiet_on_tx, quiet_nowMs|apply quiet_on_tx, quiet_nowIso]. Qed.
#[local] Instance tx_quiet_entropy : QuietEntropy (KeyTx World).
Proof. split. intros n. apply quiet_on_tx, quiet_randomFill. Qed.

Lemma quiet_findByKid fuel kid : quiet (ks_findByKid (KeyStore := StorageKeyStore fuel) kid).
Proof. by apply quiet_on_tx. Qed.

(** ** The store of the transaction *)

Lemma tx_list_inv fuel f v l v' :
  tx_list fuel f v = (Ok l, v') ->
  v' = v /\ forall k, k ∈ l -> k ∈ rows (s_keys (w_state (kt_world v))) /\ key_matches (list_filter f) k = true.
Proof.
  destruct v as [w ids]. unfold tx_list, on_tx. cbn [kt_world kt_idMap].
  assert (Hwalk : forall fuel c acc r w',
    walkPages (fun c => listKeys (list_filter f) (mkPageRequest 500 c))
      (fun out items => ret (Continue (out ++ items))) (fun out => out) fuel acc c w = (Ok r, w') ->
    (forall k, k ∈ acc -> k ∈ rows (s_keys (w_state w)) /\ key_matches (list_filter f) k = true) ->
    w' = w /\ forall k, k ∈ r -> k ∈ rows (s_keys (w_state w)) /\ key_matches (list_filter f) k = true).
  { clear. intros fuel. induction fuel as [|fuel IH]; intros c acc r w' H Hacc; [done|]. cbn [walkPages] in H.
    apply bind_ok_inv in H as (page & w1 & Hp & H). apply Ok_pair_inj in Hp as [<- <-].
    apply bind_ok_inv in H as (next & w2 & Hn & H). apply Ok_pair_inj in Hn as [<- <-].
    assert (Hnew : forall k, k ∈ acc ++ pg_items (paginate key_key_of (List.filter (key_matches (list_filter f)) (rows (s_keys (w_state w)))) (mkPageRequest 500 c)) ->
      k ∈ rows (s_keys (w_state w)) /\ key_matches (list_filter f) k = true).
    { intros k [Hk|Hk]%elem_of_app; [by apply Hacc|]. apply elem_paginate, Prelude.elem_filter in Hk. exact Hk. }
    destruct (pg_cursor _).
    - by eapply IH.
    - apply Ok_pair_inj in H as [<- <-]. by split. }
  destruct (walkPages _ _ _ _ _ _ w) as [[r|e] w'] eqn:E; [|done].
  intros [<- <-]%Ok_pair_inj. destruct (Hwalk _ _ _ _ _ E) as [-> H]; [by intros k ?%elem_of_nil|done].
Qed.

(** Storing a new key: one row more, under the adapter's id. *)
Lemma tx_put_inv record v v' :
  tx_put record v = (Ok tt, v') ->
  exists id now, let row := mkKey id (k_scope_id record) (k_kid record) (k_alg record) (k_role record)
      (k_state record) (k_public_pem record) (k_private_pem_enc record) (k_rotated_from record)
      (k_rotated_at record) (k_not_before record) (k_not_after record) (k_meta record) now now in
    (k_role record = signing -> k_state record = k_active ->
       forall j r, map_get (s_keys (w_state (kt_world v))) j = Some r -> active_signing r <> Some (k_scope_id record))
    /\ w_state (kt_world v') = set_keys (map_set (s_keys (w_state (kt_world v))) id row) (w_state (kt_world v))
    /\ kt_idMap v' = map_set (kt_idMap v) (k_id record) id.
Proof.
  intros (found & v1 & Hf & H)%bind_ok_inv. destruct v as [w ids].
  unfold on_tx in Hf. apply Ok_pair_inj in Hf as [_ <-]. cbn [kt_world kt_idMap] in *.
  destruct found; [done|]. apply bind_ok_inv in H as (row & v2 & Hc & H). unfold on_tx in Hc. cbn [kt_world kt_idMap] in Hc.
  destruct (createKey (key_input record) w) as [r w2] eqn:Ec.
  apply (wrote_result _ _ _ _ _ (mem_createKey_wrote (key_input record) w)) in Ec as [_ Hw].
  destruct r as [row'|e]; [|done]. apply Ok_pair_inj in Hc as [-> <-].
  destruct Hw as (id & now & _ & Hu & -> & Hs). apply Ok_pair_inj in H as [_ <-].
  exists id, now. cbv zeta. split_and!; [exact Hu|exact Hs|done].
Qed.

(** Replacing a key: the row under the resolved id gets the new state,
    links, expiry and meta. *)
Lemma tx_update_inv id next v v' :
  tx_update id next v = (Ok tt, v') ->
  exists cur now, let real := given_or (map_get (kt_idMap v) id) id in
    map_get (s_keys (w_state (kt_world v))) real = Some cur
    /\ w_state (kt_world v')
       = set_keys (map_set (s_keys (w_state (kt_world v))) real (patch_key cur (key_update next) now)) (w_state (kt_world v))
    /\ kt_idMap v' = kt_idMap v.
Proof.
  destruct v as [w ids]. unfold tx_update. intros (real & v1 & Hr & H)%bind_ok_inv.
  apply Ok_pair_inj in Hr as [<- <-]. cbn [kt_idMap kt_world]. set (real := given_or (map_get ids id) id) in *.
  apply bind_ok_inv in H as (found & v1 & Hf & H). unfold on_tx in Hf. apply Ok_pair_inj in Hf as [<- <-].
  cbn [kt_world kt_idMap] in H. fold real in H. destruct (map_get (s_keys (w_state w)) real) as [row|] eqn:Er; [|done].
  destruct (bool_decide _); [done|]. apply bind_ok_inv in H as (u & v2 & Hu & H). unfold on_tx in Hu. cbn [kt_world kt_idMap] in Hu.
  destruct (updateKey real (key_update next) w) as [r w2] eqn:Eu.
  apply (wrote_result _ _ _ _ _ (mem_updateKey_wrote real (key_update next) w)) in Eu as [_ Hw].
  destruct r as [row'|e]; [|done]. apply Ok_pair_inj in Hu as [_ <-]. apply Ok_pair_inj in H as [_ <-].
  destruct Hw as (cur & now & Hcur & -> & _ & Hs). rewrite Er in Hcur. injection Hcur as <-.
  exists row, now. cbv zeta. by split_and!.
Qed.

(** ** Issuing and rotating in a transaction *)

Section Rotation.
Context {KH : KeyHandles} {P : Pbes2} (fuel : nat) (backends : list (KeyAlg * SignatureBackend)).

(** Issuing a signing key writes nothing before it stores the new key. *)
Lemma issueSigning_put opts v s v' :
  issueSigning (KS := StorageKeyStore fuel) backends default_kid opts v = (Ok s, v') ->
  (k_role s = signing /\ k_state s = k_active /\ k_scope_id s = is_scope_id opts /\ k_alg s = is_alg opts)
  /\ exists v1, same_tx v v1 /\ tx_put s v1 = (Ok tt, v').
Proof.
  unfold issueSigning. destruct (is_signingPassphrase opts) as [|c1 p1]; [done|].
  destruct (is_rootPassphrase opts) as [|c2 p2]; [done|].
  intros (u & v1 & H1 & H)%bind_ok_inv. apply lift_ok_inv in H1 as [_ ->].
  apply bind_ok_inv in H as (existing & v2 & H2 & H). apply tx_list_inv in H2 as [-> _].
  destruct existing; [|done].
  apply bind_ok_inv in H as (r & v3 & H3 & H). apply quiet_same in H3; [|apply quiet_requireRoot; apply quiet_findByKid].
  apply bind_ok_inv in H as (b & v4 & H4 & H). apply lift_ok_inv in H4 as [_ ->].
  apply bind_ok_inv in H as ([pem raw] & v5 & H5 & H). apply quiet_same in H5; [|apply quiet_generate].
  apply bind_ok_inv in H as (id & v6 & H6 & H). apply quiet_same in H6; [|apply quiet_freshUuid].
  apply bind_ok_inv in H as (now & v7 & H7 & H). apply quiet_same in H7; [|apply quiet_nowIso].
  apply bind_ok_inv in H as (enc & v8 & H8 & H). apply quiet_same in H8; [|apply quiet_wrap_private].
  apply bind_ok_inv in H as (att & v9 & H9 & H). apply lift_ok_inv in H9 as [_ ->].
  apply bind_ok_inv in H as ([] & v10 & H10 & H). apply Ok_pair_inj in H as [<- <-].
  split; [by split_and!|]. exists v8. split; [|exact H10].
  change (same v v8). repeat (eapply (same_trans (W := KeyTx World)); [eassumption|]). apply (same_refl (W := KeyTx World)).
Qed.

Lemma rotateSigning_inv opts v out inc v' :
  rotateSigning (KS := StorageKeyStore fuel) backends default_kid opts v = (Ok (out, inc), v') ->
  exists o now v1 v2 s v3,
    o ∈ rows (s_keys (w_state (kt_world v)))
    /\ key_matches (list_filter (signer_query (rs_scope_id opts) (rs_alg opts))) o = true
    /\ same_tx v v1 /\ out = retire o (rs_retireOutgoingAt opts) now
    /\ tx_update (k_id o) out v1 = (Ok tt, v2)
    /\ issueSigning (KS := StorageKeyStore fuel) backends default_kid
         (mkIssueSigning (rs_scope_id opts) (rs_alg opts) (rs_rootKid opts) (rs_rootPassphrase opts)
            (rs_signingPassphrase opts) None (rs_kid opts)) v2 = (Ok s, v3)
    /\ inc = link_rotated s (k_id o) now /\ tx_update (k_id s) inc v3 = (Ok tt, v').
Proof.
  unfold rotateSigning. intros (actives & v1 & H1 & H)%bind_ok_inv. apply tx_list_inv in H1 as [-> Hl].
  destruct actives as [|o [|]]; [done| |done].
  apply bind_ok_inv in H as (now & v2 & H2 & H). apply quiet_same in H2; [|apply quiet_nowIso].
  apply bind_ok_inv in H as ([] & v3 & H3 & H). apply bind_ok_inv in H as (s & v4 & H4 & H).
  apply bind_ok_inv in H as ([] & v5 & H5 & H). apply Ok_pair_inj in H as [[= <- <-] <-].
  destruct (Hl o) as [Hin Hm]; [left|]. exists o, now, v2, v3, s, v4. by split_and!.
Qed.

(** What a rotation did to the keys: the outgoing row retiring, one new
    active row linked to it, no other row touched. *)
Definition rotated_keys (input : RotateSigningKeyInput) (out inc : LicenseKey)
    (keys keys' : list (UUIDv7 * LicenseKey)) : Prop :=
  exists o o' id row, map_get keys (k_id o) = Some o
    /\ k_role o = signing /\ k_state o = k_active /\ k_scope_id o = rs_scope_id input /\ k_alg o = rs_alg input
    /\ (k_kid out = k_kid o /\ k_state out = k_retiring /\ k_kid o' = k_kid o /\ k_state o' = k_retiring
        /\ k_public_pem o' = k_public_pem o /\ k_not_after o' = given_or (rs_retireOutgoingAt input) (k_not_after o))
    /\ (k_kid row = k_kid inc /\ k_role row = signing /\ k_state row = k_active /\ k_scope_id row = rs_scope_id input
        /\ k_alg row = rs_alg input /\ k_rotated_from row = Some (k_id o) /\ k_public_pem row = k_public_pem inc
        /\ k_private_pem_enc row = k_private_pem_enc inc)
    /\ map_get keys' id = Some row /\ (id <> k_id o -> map_get keys' (k_id o) = Some o')
    /\ forall j, j <> k_id o -> j <> id -> map_get keys' j = map_get keys j.

Lemma set_keys_twice k1 k2 s : set_keys k1 (set_keys k2 s) = set_keys k1 s.
Proof. done. Qed.

Lemma rotate_writes (input : RotateSigningKeyInput) w out inc v' :
  keyed k_id (s_keys (w_state w)) ->
  rotateSigning (KS := StorageKeyStore fuel) backends default_kid input (mkKeyTx w []) = (Ok (out, inc), v') ->
  exists keys', w_state (kt_world v') = set_keys keys' (w_state w)
    /\ rotated_keys input out inc (s_keys (w_state w)) keys'.
Proof.
  intros Hkeyed H. apply rotateSigning_inv in H as (o & now & v1 & v2 & s & v3 & Hin & Hm & Hs1 & -> & Hu1 & Hi & -> & Hu2).
  destruct Hs1 as (Hm1 & Hst1 & _). cbn [kt_world kt_idMap] in *.
  apply issueSigning_put in Hi as ((Hr & Hst & Hsc & Ha) & v2' & (Hm2 & Hst2 & _) & Hput).
  apply tx_update_inv in Hu1 as (cur & t1 & Hcur & Hw1 & Hids1). apply tx_put_inv in Hput as (id & t2 & _ & Hw2 & Hids2).
  apply tx_update_inv in Hu2 as (row & t3 & Hrow & Hw3 & _).
  rewrite Hids2, map_get_set_eq in Hrow, Hw3. cbn [given_or] in Hrow, Hw3. rewrite Hm1 in Hcur, Hw1.
  cbn [map_get given_or] in Hcur, Hw1. rewrite Hst1 in Hcur, Hw1.
  pose proof (rows_map_get _ _ _ Hkeyed Hin) as Ho. rewrite Ho in Hcur. injection Hcur as <-.
  rewrite Hst2, Hw1 in Hw2. cbn [s_keys set_keys] in Hw2. rewrite set_keys_twice in Hw2.
  rewrite Hw2 in Hrow, Hw3. cbn [s_keys set_keys] in Hrow, Hw3. rewrite set_keys_twice in Hw3.
  rewrite map_get_set_eq in Hrow. injection Hrow as <-.
  unfold key_matches in Hm. cbn in Hm. bool_prop.
  eexists. split; [exact Hw3|]. exists o, (patch_key o (key_update (retire o (rs_retireOutgoingAt input) now)) t1), id.
  eexists. split; [exact Ho|]. do 4 (split; [done|]). split; [by split_and!|].
  split; [|split; [by rewrite map_get_set_eq|split]]; [by split_and!| |].
  - intros Hne. rewrite !map_get_set_ne by done. by rewrite map_get_set_eq.
  - intros j Hj1 Hj2. by rewrite !map_get_set_ne by done.
Qed.

(** The audit row of a rotation. *)
Definition rotation_row (input : RotateSigningKeyInput) (actor : option jsstr) (out inc : LicenseKey)
    (row : AuditLogEntry) : Prop :=
  a_license_id row = None /\ a_scope_id row = rs_scope_id input
  /\ a_actor row = given_or actor (js "system") /\ a_event row = js "key.rotated"
  /\ a_prior_state row = Some (rotation_states out inc (rs_alg input)).1
  /\ a_new_state row = Some (rotation_states out inc (rs_alg input)).2.

Lemma rotate_body_writes (input : RotateSigningKeyInput) actor w out inc w' :
  keyed k_id (s_keys (w_state w)) ->
  rotateSigningKey_body fuel backends input actor w = (Ok (out, inc), w') ->
  exists keys' row, w_state w' = set_audit (map_set (s_audit (w_state w)) (a_id row) row) (set_keys keys' (w_state w))
    /\ rotated_keys input out inc (s_keys (w_state w)) keys' /\ rotation_row input actor out inc row.
Proof.
  intros Hkeyed (res & w1 & Hr & H)%bind_ok_inv. unfold with_hierarchy in Hr.
  destruct (rotateSigning _ _ _ _) as [r v] eqn:Er. injection Hr as -> <-. destruct res as [out1 inc1].
  cbn [fst snd] in H. destruct (rotation_states out1 inc1 (rs_alg input)) as [prior new] eqn:Es.
  apply bind_ok_inv in H as ([] & w2 & Ha & H). apply Ok_pair_inj in H as [[= -> ->] <-].
  destruct (rotate_writes _ _ _ _ _ Hkeyed Er) as (keys' & Hst & Hrot).
  unfold scope_audit in Ha. apply bind_ok_inv in Ha as (now & w3 & Hn & Ha).
  assert (H3 : w_state w3 = w_state (kt_world v)).
  { revert Hn. cbn. destruct (clock_nowIso _). intros [= _ <-]. done. }
  apply bind_ok_inv in Ha as (row & w4 & Hap & Ha). apply Ok_pair_inj in Ha as [_ <-].
  apply (wrote_result _ _ _ _ _ (mem_appendAudit_wrote _ w3)) in Hap as [_ [Hrow Hs]].
  exists keys', row. rewrite Hs, H3, Hst. split; [done|]. split; [done|].
  rewrite Hrow. unfold rotation_row. rewrite Es. by split_and!.
Qed.

End Rotation.

(** ** Sample run *)

Definition scope_world : World :=
  mkWorld (mkState [] [] [] [] [(k_id the_root, the_root); (k_id the_signer, the_signer)] [] []) 0
    (advancingClock 1767225700000 1000) Z.of_nat.
Definition scope_rotation (root_pw : jsstr) :=
  rotateSigningKey 1 toy_backends (rotate_opts the_root_kid root_pw) None scope_world.
Definition scope_rotated : LicenseKey * LicenseKey :=
  match (scope_rotation (js "root-pw")).1 with Ok p => p | Throw _ => (no_key, no_key) end.

Lemma scope_rotation_eq :
  rotateSigningKey 1 toy_backends (rotate_opts the_root_kid (js "root-pw")) None scope_world
  = (Ok scope_rotated, (scope_rotation (js "root-pw")).2).
Proof. unfold scope_rotated, scope_rotation. apply returned. vm_compute. reflexivity. Qed.

Lemma scope_world_keyed : keyed k_id (s_keys (w_state scope_world)).
Proof. split; [decided|]. repeat constructor. Qed.


(** A rotation that fails after it retired the outgoing key is undone. *)
Example failed_rotation_rolls_back :
  let '(r, w) := scope_rotation (js "wrong") in
  r = Throw errors.keyDecryptionFailed /\ w_state w = w_state scope_world.
Proof. vm_compute. split; reflexivity. Qed.

Lemma same_kid_other_id (l : list LicenseKey) k :
  existsb (fun row => str_eqb (k_kid row) (k_kid k) && negb (str_eqb (k_id row) (k_id k))) l = true ->
  exists row, row ∈ l /\ k_kid row = k_kid k /\ k_id row <> k_id k.
Proof.
  intros (row & Hin & [H1 H2]%andb_prop)%existsb_exists. exists row. unfold str_eqb in *. bool_prop.
  split; [by apply list_elem_of_In|done].
Qed.

(** The incoming key that [rotateSigningKey] returns carries the id the
    hierarchy made, which no row of storage has: the adapter gave the row
    another. *)
Example rotation_returns_unknown_id :
  let keys := s_keys (w_state (scope_rotation (js "root-pw")).2) in
  map_get keys (k_id scope_rotated.2) = None
  /\ exists row, row ∈ rows keys /\ k_kid row = k_kid scope_rotated.2 /\ k_id row <> k_id scope_rotated.2.
Proof. split; [vm_compute; reflexivity|]. apply same_kid_other_id. vm_compute. reflexivity. Qed.
