(* ===== verification/Templates.v ===== *)
(** * Templates: inheritance and template-backed licenses

    [src/typescript/src/templates/resolve.ts] and
    [src/typescript/src/template-service.ts]. The properties of an object are
    listed in the order the runtime enumerates them on input; where
    [deepMergeJson] builds an object, the place of integer-like keys among
    the others is not modelled. The resolver's warnings are part of its
    result. *)

From stdpp Require Import pretty.
From S2P Require Import Prelude Errors JsNum Text Json Canonical Types Id Cursor Storage Pages LicenseKeyFormat Lifecycle LicenseService.

(** ** Merging *)

(** An object's prototype and own properties. *)
Abbreviation object := (jsval * list (jsstr * jsval))%type (only parsing).

Section MergeEntries.
Variable merge : jsval -> jsval -> jsval.

(** [for (const [k, v] of Object.entries(override)) { ... out[k] = ... }];
    [merge existing v] is what the branches store. *)
Fixpoint merge_entries (out : object) (entries : list (jsstr * jsval)) : object :=
  match entries with
  | [] => out
  | (k, v) :: rest =>
      let existing := get_prop (JObj out.1 out.2) k in
      merge_entries (assign out.1 out.2 k (merge existing v)) rest
  end.
End MergeEntries.

(** [isPlainObject(existing) && isPlainObject(v) ? deepMergeJson(existing, v) : v] *)
Fixpoint merge_value (existing v : jsval) {struct v} : jsval :=
  match existing, v with
  | JObj JObjProto base, JObj JObjProto over =>
      let out := merge_entries merge_value (JObjProto, base) over in JObj out.1 out.2
  | _, _ => v
  end.

(** [Object.entries(v)] and the properties [{ ...v }] copies; an array is
    listed by index. *)
Definition own_entries (v : jsval) : list (jsstr * jsval) :=
  match v with
  | JObj _ props => props
  | JArr l => imap (fun i x => (js (pretty (N.of_nat i)), x)) l
  | _ => []
  end.

(** [Object.entries] throws on [null] and [undefined]. *)
Definition object_entries (v : jsval) : res (list (jsstr * jsval)) :=
  match v with JNull | JUndefined => Throw PlainError | _ => Ok (own_entries v) end.

Definition deepMergeJson (base override : jsval) : res jsval :=
  let? entries := object_entries override in
  let out := merge_entries merge_value (JObjProto, own_entries base) entries in
  Ok (JObj out.1 out.2).

(** ** Resolving a template *)

Definition MAX_TEMPLATE_DEPTH : nat := 5.

Record ResolvedTemplate : Type := mkResolved {
  rt_id : UUIDv7;
  rt_scope_id : option UUIDv7;
  rt_parent_id : option UUIDv7;
  rt_name : jsstr;
  rt_max_usages : Z;
  rt_trial_duration_sec : Z;
  rt_trial_cooldown_sec : option Z;
  rt_grace_duration_sec : Z;
  rt_force_online_after_sec : option Z;
  rt_entitlements : jsval;
  rt_meta : jsval;
  rt_inheritedDepth : nat;
  rt_truncated : bool
}.

(** The two warnings of the resolver. *)
Inductive ResolveWarning : Type :=
| DepthCap (leafId : UUIDv7) (leafName : jsstr)
| Revisits (id leafId : UUIDv7) (leafName : jsstr).

Record Walk : Type := mkWalk {
  wk_chain : list LicenseTemplate;
  wk_truncated : bool;
  wk_warnings : list ResolveWarning
}.

Section Resolve.
Context {W : Type}.
Variable loader : UUIDv7 -> prog W (option LicenseTemplate).

(** The [while] loop; [room] is [MAX_TEMPLATE_DEPTH - chain.length]. *)
Fixpoint walk_ancestors (leaf : LicenseTemplate) (room : nat) (chain : list LicenseTemplate)
    (visited : list UUIDv7) (cursor : option UUIDv7) : prog W Walk :=
  match cursor with
  | None => ret (mkWalk chain false [])
  | Some id =>
      match room with
      | O => ret (mkWalk chain true [DepthCap (t_id leaf) (t_name leaf)])
      | S room' =>
          if bool_decide (id ∈ visited) then ret (mkWalk chain false [Revisits id (t_id leaf) (t_name leaf)])
          else
            let* node := loader id in
            match node with
            | None => ret (mkWalk chain false [])
            | Some node => walk_ancestors leaf room' (chain ++ [node]) (id :: visited) (t_parent_id node)
            end
      end
  end.

(** [for (let i = chain.length - 1; i >= 0; i--)], then the leaf. *)
Fixpoint merge_chain (field : LicenseTemplate -> jsval) (acc : jsval) (templates : list LicenseTemplate)
  : res jsval :=
  match templates with
  | [] => Ok acc
  | t :: rest => let? acc := deepMergeJson acc (field t) in merge_chain field acc rest
  end.

Definition merged (field : LicenseTemplate -> jsval) (chain : list LicenseTemplate) (leaf : LicenseTemplate)
  : res jsval :=
  merge_chain field (plain []) (rev chain ++ [leaf]).

Definition resolveTemplate (leaf : LicenseTemplate) : prog W (ResolvedTemplate * list ResolveWarning) :=
  let* walk := walk_ancestors leaf MAX_TEMPLATE_DEPTH [] [t_id leaf] (t_parent_id leaf) in
  let* entitlements := lift (merged t_entitlements (wk_chain walk) leaf) in
  let* meta := lift (merged t_meta (wk_chain walk) leaf) in
  ret (mkResolved (t_id leaf) (t_scope_id leaf) (t_parent_id leaf) (t_name leaf) (t_max_usages leaf)
         (t_trial_duration_sec leaf) (t_trial_cooldown_sec leaf) (t_grace_duration_sec leaf)
         (t_force_online_after_sec leaf) entitlements meta (List.length (wk_chain walk)) (wk_truncated walk),
       wk_warnings walk).
End Resolve.

(** ** The service *)

Record CreateTemplateInput : Type := mkCreateTemplate {
  ct_scope_id : option UUIDv7;
  ct_parent_id : option UUIDv7;
  ct_name : jsstr;
  ct_max_usages : Z;
  ct_trial_duration_sec : Z;
  ct_trial_cooldown_sec : option Z;
  ct_grace_duration_sec : Z;
  ct_force_online_after_sec : option Z;
  ct_entitlements : option jsval;
  ct_meta : option jsval
}.

(** An override is absent ([undefined] or [UNSET]), [null], or a value. *)
Record CreateLicenseFromTemplateInput : Type := mkFromTemplate {
  ft_template_id : UUIDv7;
  ft_licensable_type : jsstr;
  ft_licensable_id : jsstr;
  ft_scope_id : option (option UUIDv7);
  ft_license_key : option jsstr;
  ft_status : option LicenseStatus;
  ft_max_usages : option Z;
  ft_expires_at : option (option Instant);
  ft_grace_until : option (option Instant);
  ft_meta : option jsval
}.

(** [isUnset(value) ? otherwise : value] *)
Definition unless_unset {A} (value : option (option A)) (otherwise : res (option A)) : res (option A) :=
  match value with Some v => Ok v | None => otherwise end.

(** [`${new Date(ms).toISOString().slice(0, -1)}000Z`] with
    [ms = Date.parse(from) + sec * 1000]; an invalid date throws. *)
Definition plus_seconds `{DateParse} (from : Instant) (sec : Z) : res Instant :=
  match date_parse from with
  | Some ms => isoFromMs (ms + sec * 1000)
  | None => Throw PlainError
  end.

Definition computeExpiresAt `{DateParse} (now : Instant) (trial_duration_sec : Z) : res (option Instant) :=
  if trial_duration_sec <=? 0 then Ok None
  else let? t := plus_seconds now trial_duration_sec in Ok (Some t).

Definition computeGraceUntil `{DateParse} (expires_at : option Instant) (grace_duration_sec : Z)
  : res (option Instant) :=
  match expires_at with
  | None => Ok None
  | Some e =>
      if grace_duration_sec <=? 0 then Ok None
      else let? t := plus_seconds e grace_duration_sec in Ok (Some t)
  end.

(** [{ ...a, ...b }] *)
Definition spread_over (a b : list (jsstr * jsval)) : list (jsstr * jsval) :=
  fold_left (fun m kv => map_set m kv.1 kv.2) b a.

(** The snapshot of the template a license carries, under the caller's meta. *)
Definition merged_meta (template : LicenseTemplate) (meta : option jsval) : res jsval :=
  let? keys := object_entries (t_entitlements template) in
  let entitlements := match keys with [] => [] | _ => [(js "entitlements", t_entitlements template)] end in
  let deadline := match t_force_online_after_sec template with
                  | Some n => [(js "force_online_after_sec", js_int n)]
                  | None => []
                  end in
  Ok (plain (spread_over (entitlements ++ deadline) (match meta with Some m => own_entries m | None => [] end))).

Definition template_input (input : CreateTemplateInput) : LicenseTemplateInput :=
  mkTemplateInput (ct_scope_id input) (ct_parent_id input) (ct_name input) (ct_max_usages input)
    (ct_trial_duration_sec input) (ct_trial_cooldown_sec input) (ct_grace_duration_sec input)
    (ct_force_online_after_sec input) (given_or (ct_entitlements input) (plain []))
    (given_or (ct_meta input) (plain [])).

Definition template_state (t : LicenseTemplate) : jsval :=
  plain [(js "template_id", JStr (t_id t)); (js "name", JStr (t_name t)); (js "max_usages", js_int (t_max_usages t));
         (js "trial_duration_sec", js_int (t_trial_duration_sec t));
         (js "grace_duration_sec", js_int (t_grace_duration_sec t))].

Section TemplateService.
Context {W : Type} {DP : DateParse} {HC : HasClock W} {HE : HasEntropy W} {CM : CaseMap} {ST : Storage W}.

Definition create_template_body (input : CreateTemplateInput) (actor : option jsstr) : prog W LicenseTemplate :=
  let* template := createTemplate (template_input input) in
  let* now := nowIso in
  do* appendAudit (audit_input None (t_scope_id template) (mkTransitionOptions actor None None)
        (js "template.created") None (Some (template_state template)) now);
  ret template.

Definition create_template (input : CreateTemplateInput) (actor : option jsstr) : prog W LicenseTemplate :=
  if ct_max_usages input <? 1 then throw errors.fingerprintRejected
  else if ct_trial_duration_sec input <? 0 then throw errors.fingerprintRejected
  else if ct_grace_duration_sec input <? 0 then throw errors.fingerprintRejected
  else withTransaction (create_template_body input actor).

Definition list_templates (filter : LicenseTemplateFilter) (limit : option Z) (cursor : option jsstr)
  : prog W (Page LicenseTemplate) :=
  listTemplates filter (mkPageRequest (given_or limit 50) cursor).

(** What [createLicense] is asked for. *)
Definition license_from_template (template : LicenseTemplate) (input : CreateLicenseFromTemplateInput) (now : Instant)
  : res CreateLicenseInput :=
  let? expires_at := unless_unset (ft_expires_at input) (computeExpiresAt now (t_trial_duration_sec template)) in
  let? grace_until := unless_unset (ft_grace_until input) (computeGraceUntil expires_at (t_grace_duration_sec template)) in
  let? meta := merged_meta template (ft_meta input) in
  Ok (mkCreateLicense (given_or (ft_scope_id input) (t_scope_id template)) (Some (t_id template))
        (ft_licensable_type input) (ft_licensable_id input) (ft_license_key input) (ft_status input)
        (given_or (ft_max_usages input) (t_max_usages template)) None expires_at grace_until (Some meta)).

Definition createLicenseFromTemplate (input : CreateLicenseFromTemplateInput) (opts : TransitionOptions)
  : prog W License :=
  let* found := getTemplate (ft_template_id input) in
  match found with
  | None => throw errors.fingerprintRejected
  | Some template =>
      let* now := nowIso in
      let* createInput := lift (license_from_template template input now) in
      create_license createInput opts
  end.
End TemplateService.
