(* ===== verification/TemplateProps.v ===== *)
(** * TemplateProps: what inheritance resolves to

    The nearest template that says something about a path of keys has the
    say, resolution always returns, and what it returns is well-typed. *)

From S2P Require Import Prelude Errors JsNum Text Json Types Id Cursor Storage Pages Memory Templates.

(** ** What a template says about a path *)

(** [Some (Some v)]: the value [v] there, which is not a plain object;
    [Some None]: an object there, or a value above it that is none; [None]:
    nothing. *)
Fixpoint opinion (v : jsval) (path : list jsstr) : option (option jsval) :=
  match v, path with
  | JObj JObjProto props, [] => Some None
  | JObj JObjProto props, k :: path' =>
      match map_get props k with Some v' => opinion v' path' | None => None end
  | _, [] => Some (Some v)
  | _, _ :: _ => Some None
  end.

Definition scalar_at (v : jsval) (path : list jsstr) : option jsval :=
  match opinion v path with Some x => x | None => None end.

(** The first opinion, from the leaf up. *)
Fixpoint first_opinion (values : list jsval) (path : list jsstr) : option (option jsval) :=
  match values with
  | [] => None
  | v :: values' => match opinion v path with Some x => Some x | None => first_opinion values' path end
  end.

Definition nearest (values : list jsval) (path : list jsstr) : option jsval :=
  match first_opinion values path with Some x => x | None => None end.

(** No own [__proto__] and no repeated key, at any depth. *)
Fixpoint clean (v : jsval) : Prop :=
  match v with
  | JObj _ props =>
      map_get props proto_key = None /\ NoDup props.*1 /\ Forall id (map (fun kv => clean kv.2) props)
  | _ => True
  end.

Definition is_plain (v : jsval) : bool := match v with JObj JObjProto _ => true | _ => false end.

Lemma not_plain_opinion v path : is_plain v = false ->
  opinion v path = match path with [] => Some (Some v) | _ => Some None end.
Proof. by destruct path, v as [| | | | | | |[] ?| | |]. Qed.

Lemma merge_not_plain e v : is_plain e && is_plain v = false -> merge_value e v = v.
Proof. by destruct e as [| | | | | | |[] ?| | |], v as [| | | | | | |[] ?| | |]. Qed.

Lemma get_plain base k : k <> proto_key ->
  match map_get base k with
  | Some v => get_prop (plain base) k = v
  | None => is_plain (get_prop (plain base) k) = false
  end.
Proof.
  intros Hk. unfold get_prop. cbn [proto_of lookup_chain]. destruct (map_get base k); [done|].
  unfold str_eqb. rewrite bool_decide_false by done. by case_bool_decide.
Qed.

Lemma assign_plain base k v : k <> proto_key -> assign JObjProto base k v = (JObjProto, map_set base k v).
Proof. intros Hk. unfold assign, str_eqb. by rewrite bool_decide_false by done. Qed.

Lemma get_prop_set base k v k' : k' <> k -> get_prop (plain (map_set base k v)) k' = get_prop (plain base) k'.
Proof. intros Hk. unfold get_prop. cbn [proto_of lookup_chain]. by rewrite map_get_set_ne by done. Qed.

(** Without [__proto__], merging is pointwise on the keys. *)
Lemma merge_entries_plain m base over :
  map_get over proto_key = None -> NoDup over.*1 -> map_get base proto_key = None -> NoDup base.*1 ->
  exists props, merge_entries m (JObjProto, base) over = (JObjProto, props)
    /\ map_get props proto_key = None /\ NoDup props.*1
    /\ forall k, map_get props k = match map_get over k with
                                   | Some v => Some (m (get_prop (plain base) k) v)
                                   | None => map_get base k
                                   end.
Proof.
  revert base. induction over as [|[k v] over IH]; intros base Hp Hd Hbp Hbd; [by exists base|].
  cbn [map_get] in Hp. case_decide as Hk; [done|]. cbn [fmap list_fmap fst] in Hd.
  apply NoDup_cons in Hd as [Hn Hd]. cbn [merge_entries fst snd]. rewrite assign_plain by done.
  destruct (IH (map_set base k (m (get_prop (plain base) k) v)) Hp Hd) as (props & -> & Hpp & Hpd & Hget).
  { by rewrite map_get_set_ne by done. }
  { by apply map_set_NoDup. }
  exists props. do 3 (split; [done|]). intros j. rewrite Hget. cbn [map_get]. case_decide as Hj.
  - subst j. apply map_get_None in Hn. by rewrite Hn, map_get_set_eq.
  - rewrite map_get_set_ne, get_prop_set by done. done.
Qed.

Lemma clean_obj proto props :
  clean (JObj proto props) <->
  map_get props proto_key = None /\ NoDup props.*1 /\ Forall (fun kv => clean kv.2) props.
Proof. cbn [clean]. by rewrite Forall_map. Qed.

Lemma clean_get proto props k v : clean (JObj proto props) -> map_get props k = Some v -> clean v.
Proof.
  intros (_ & _ & H)%clean_obj Hg%map_get_elem. rewrite Forall_forall in H. exact (H _ Hg).
Qed.

Lemma plain_cases v : (exists props, v = plain props) \/ is_plain v = false.
Proof. destruct v as [| | | | | | |[] props| | |]; eauto. Qed.

(** The override has the say on every path it has an opinion on. *)
Lemma merge_scalar e v path :
  clean e -> clean v ->
  scalar_at (merge_value e v) path = match opinion v path with Some x => x | None => scalar_at e path end.
Proof.
  revert e v. induction path as [|k path IH]; intros e v He Hv;
    (destruct (plain_cases v) as [[over ->]|Hn]; [|rewrite merge_not_plain by (by rewrite Hn, andb_false_r);
       unfold scalar_at; by rewrite (not_plain_opinion v) by done]);
    (destruct (plain_cases e) as [[base ->]|Hn];
       [|rewrite merge_not_plain by (by rewrite Hn); unfold scalar_at; rewrite (not_plain_opinion e) by done;
         first [done|by destruct (opinion (plain over) _)]]).
  - cbn [merge_value]. pose proof Hv as (Hp & Hd & _)%clean_obj. pose proof He as (Hbp & Hbd & _)%clean_obj.
    by destruct (merge_entries_plain merge_value base over) as (props & -> & _).
  - cbn [merge_value]. pose proof Hv as (Hp & Hd & _)%clean_obj. pose proof He as (Hbp & Hbd & _)%clean_obj.
    destruct (merge_entries_plain merge_value base over) as (props & -> & _ & _ & Hget); [done..|].
    cbn [fst snd]. unfold scalar_at. cbn [opinion]. rewrite Hget.
    destruct (map_get over k) as [v|] eqn:Ev; [|done].
    assert (Hk : k <> proto_key) by congruence. pose proof (get_plain base k Hk) as Hb.
    assert (Hcv : clean v) by (exact (clean_get _ _ _ _ Hv Ev)).
    destruct (map_get base k) as [b|] eqn:Eb.
    + rewrite Hb. apply IH; [exact (clean_get _ _ _ _ He Eb)|done].
    + rewrite merge_not_plain by (by rewrite Hb). by destruct (opinion v path).
Qed.

Lemma merge_entries_clean m base over :
  (forall e v, (e, v) ∈ (fun kv => (get_prop (plain base) kv.1, kv.2)) <$> over -> clean (m e v)) ->
  clean (plain base) -> clean (plain over) ->
  clean (JObj (merge_entries m (JObjProto, base) over).1 (merge_entries m (JObjProto, base) over).2).
Proof.
  intros Hm He Hv. pose proof Hv as (Hp & Hd & _)%clean_obj. pose proof He as (Hbp & Hbd & _)%clean_obj.
  destruct (merge_entries_plain m base over) as (props & -> & Hpp & Hpd & Hget); [done..|].
  apply clean_obj. split; [done|]. split; [done|]. apply Forall_forall. intros [k x] Hin. cbn.
  apply elem_map_get in Hin; [|done]. rewrite Hget in Hin. destruct (map_get over k) as [v|] eqn:Ev.
  - injection Hin as <-. apply Hm. apply list_elem_of_fmap. exists (k, v). split; [done|by apply map_get_elem].
  - exact (clean_get _ _ _ _ He Hin).
Qed.

Lemma merge_value_clean e v : clean e -> clean v -> clean (merge_value e v).
Proof.
  revert e. induction v as [| | | | | | |proto over _ IH| | |] using jsval_ind'; intros e He Hv;
    try (rewrite merge_not_plain by (by rewrite andb_false_r); done).
  destruct (plain_cases (JObj proto over)) as [[? [= -> ->]]|Hn];
    [|by rewrite merge_not_plain by (by rewrite Hn, andb_false_r)].
  destruct (plain_cases e) as [[base ->]|Hn]; [|by rewrite merge_not_plain by (by rewrite Hn)].
  cbn [merge_value]. apply merge_entries_clean; [|done..].
  intros e v ([k v'] & [= -> ->] & Hin)%list_elem_of_fmap. rewrite Forall_forall in IH.
  apply (IH _ Hin); cbn [fst snd].
  - destruct (map_get base k) as [b|] eqn:Eb.
    + unfold get_prop. cbn [proto_of lookup_chain]. rewrite Eb. exact (clean_get _ _ _ _ He Eb).
    + unfold get_prop. cbn [proto_of lookup_chain]. rewrite Eb. by repeat case_match.
  - pose proof Hv as (_ & _ & Hf)%clean_obj. rewrite Forall_forall in Hf. by apply (Hf (k, v')).
Qed.

(** ** Well-typed values *)

Lemma rat_to_num_wf n d : num_wf (rat_to_num n d) = true.
Proof.
  unfold rat_to_num. cbv zeta. destruct (Z.abs n =? 0); [done|]. destruct (_ =? 0); [by destruct (n <? 0)|].
  destruct (_ && _); [done|apply norm_wf].
Qed.

Lemma lookup_chain_wf recv o k : val_wf recv -> val_wf o -> val_wf (lookup_chain recv o k).
Proof.
  intros Hr. induction o as [| | | | | |l _|proto props IHp _| | |] using jsval_ind'; intros Ho; cbn [lookup_chain];
    repeat case_match; try done.
  - cbn. apply rat_to_num_wf.
  - apply val_wf_obj in Ho as (_ & _ & Hf). rewrite Forall_forall in Hf. by apply (Hf (k, _)), map_get_elem.
  - apply IHp. by apply val_wf_obj in Ho as (? & _).
Qed.

Lemma assign_wf proto props k v :
  val_wf (JObj proto props) -> Forall is_unit k -> val_wf v ->
  val_wf (JObj (assign proto props k v).1 (assign proto props k v).2).
Proof.
  intros (Hp & Hd & Hf)%val_wf_obj Hk Hv. unfold assign. destruct (_ && _).
  - destruct v; cbn [fst snd is_object]; apply val_wf_obj; by split_and!.
  - apply val_wf_obj. split; [done|]. split; [by apply map_set_NoDup|]. cbn [snd].
    apply Forall_forall. intros [j x] Hin. apply elem_map_get in Hin; [|by apply map_set_NoDup].
    rewrite Forall_forall in Hf. destruct (decide (k = j)) as [<-|Hne].
    + rewrite map_get_set_eq in Hin. by injection Hin as <-.
    + rewrite map_get_set_ne in Hin by done. by apply (Hf (j, x)), map_get_elem.
Qed.

Lemma merge_entries_wf m over out :
  Forall (fun kv => forall e, val_wf e -> val_wf (m e kv.2)) over ->
  Forall (fun kv => Forall is_unit kv.1) over ->
  val_wf (JObj out.1 out.2) ->
  val_wf (JObj (merge_entries m out over).1 (merge_entries m out over).2).
Proof.
  revert out. induction over as [|[k v] over IH]; intros out Hm Hk Ho; [done|].
  apply Forall_cons in Hm as [Hm1 Hm]. apply Forall_cons in Hk as [Hk1 Hk]. cbn [merge_entries].
  apply IH; [done..|]. apply assign_wf; [done..|]. apply Hm1. apply lookup_chain_wf; [|done].
  by apply val_wf_obj in Ho as (? & _).
Qed.

Lemma merge_value_wf e v : val_wf e -> val_wf v -> val_wf (merge_value e v).
Proof.
  revert e. induction v as [| | | | | | |proto over _ IH| | |] using jsval_ind'; intros e He Hv;
    try (rewrite merge_not_plain by (by rewrite andb_false_r); done).
  destruct (plain_cases (JObj proto over)) as [[? [= -> ->]]|Hn];
    [|by rewrite merge_not_plain by (by rewrite Hn, andb_false_r)].
  destruct (plain_cases e) as [[base ->]|Hn]; [|by rewrite merge_not_plain by (by rewrite Hn)].
  cbn [merge_value]. apply val_wf_obj in Hv as (_ & _ & Hf). apply merge_entries_wf; [| |done].
  - rewrite !Forall_forall in *. intros kv Hin e' He'. apply (IH _ Hin); [done|]. by apply Hf.
  - eapply Forall_impl; [exact Hf|]. by intros kv [? _].
Qed.

Definition is_obj (v : jsval) : bool := match v with JObj _ _ => true | _ => false end.

(** A merge of typed objects is a typed object. *)
Lemma deepMergeJson_wf base override :
  is_obj base = true -> val_wf base -> is_obj override = true -> val_wf override ->
  exists v, deepMergeJson base override = Ok v /\ is_obj v = true /\ val_wf v.
Proof.
  destruct base as [| | | | | | |bp base| | |], override as [| | | | | | |op over| | |]; try done. intros _ Hb _ Ho.
  unfold deepMergeJson. cbn [object_entries own_entries rbind]. eexists. split; [done|]. split; [done|].
  apply val_wf_obj in Ho as (_ & _ & Hf). apply val_wf_obj in Hb as (_ & Hbd & Hbf).
  apply merge_entries_wf; cbn [fst snd].
  - eapply Forall_impl; [exact Hf|]. intros kv [_ Hv] e He. by apply merge_value_wf.
  - eapply Forall_impl; [exact Hf|]. by intros kv [? _].
  - by apply val_wf_obj.
Qed.

Lemma merge_chain_wf field acc ts :
  is_obj acc = true -> val_wf acc -> Forall (fun t => is_obj (field t) = true /\ val_wf (field t)) ts ->
  exists v, merge_chain field acc ts = Ok v /\ is_obj v = true /\ val_wf v.
Proof.
  intros Ha Hw Hts. revert acc Ha Hw. induction Hts as [|t ts [Ht1 Ht2] _ IH]; intros acc Ha Hw; [by exists acc|].
  cbn [merge_chain]. destruct (deepMergeJson_wf acc (field t)) as (v & -> & Hv1 & Hv2); [done..|]. cbn [rbind].
  by apply IH.
Qed.

(** ** The merge of a chain *)

Lemma deepMergeJson_plain base over :
  deepMergeJson (plain base) (plain over) = Ok (merge_value (plain base) (plain over)).
Proof. done. Qed.

Definition json_object (v : jsval) : Prop := is_plain v = true /\ clean v.

Lemma merge_plain e v : json_object e -> json_object v -> json_object (merge_value e v).
Proof.
  intros [He1 He2] [Hv1 Hv2]. split; [|by apply merge_value_clean].
  destruct (plain_cases e) as [[base ->]|]; [|congruence]. destruct (plain_cases v) as [[over ->]|]; [|congruence].
  apply clean_obj in He2 as (? & ? & _). apply clean_obj in Hv2 as (? & ? & _).
  cbn [merge_value]. by destruct (merge_entries_plain merge_value base over) as (props & -> & _).
Qed.

Lemma first_opinion_app l1 l2 path :
  first_opinion (l1 ++ l2) path
  = match first_opinion l1 path with Some x => Some x | None => first_opinion l2 path end.
Proof. induction l1 as [|v l1 IH]; [done|]. cbn. by destruct (opinion v path). Qed.

Lemma merge_chain_nearest field acc ts :
  json_object acc -> Forall (fun t => json_object (field t)) ts ->
  exists v, merge_chain field acc ts = Ok v
    /\ forall path, scalar_at v path
         = match first_opinion (rev (map field ts)) path with Some x => x | None => scalar_at acc path end.
Proof.
  intros Ha Hts. revert acc Ha. induction Hts as [|t ts Ht _ IH]; intros acc Ha; [by exists acc|].
  cbn [merge_chain]. assert (Hm : deepMergeJson acc (field t) = Ok (merge_value acc (field t))).
  { destruct Ha as [Ha _], Ht as [Ht _]. destruct (plain_cases acc) as [[? ->]|]; [|congruence].
    by destruct (plain_cases (field t)) as [[? ->]|]; [|congruence]. }
  rewrite Hm. cbn [rbind]. destruct (IH (merge_value acc (field t))) as (v & -> & Hv); [by apply merge_plain|].
  exists v. split; [done|]. intros path. rewrite Hv. cbn [map rev]. rewrite first_opinion_app. cbn [first_opinion].
  destruct (first_opinion (rev _) path); [done|]. rewrite merge_scalar by (apply Ha || apply Ht).
  by destruct (opinion (field t) path).
Qed.

Lemma merged_nearest field chain leaf :
  Forall (fun t => json_object (field t)) (leaf :: chain) ->
  exists v, merged field chain leaf = Ok v
    /\ forall path, scalar_at v path = nearest (map field (leaf :: chain)) path.
Proof.
  intros [Hl Hc]%Forall_cons. unfold merged. destruct (merge_chain_nearest field (plain []) (rev chain ++ [leaf])) as (v & -> & Hv).
  - split; [done|]. apply clean_obj. split_and!; [done|constructor..].
  - apply Forall_app. split; [|by constructor]. by apply Forall_rev.
  - exists v. split; [done|]. intros path. rewrite Hv, map_app, rev_app_distr, map_rev, rev_involutive.
    cbn [map rev app]. unfold nearest. destruct (first_opinion _ path); [done|]. by destruct path.
Qed.

Lemma merged_wf field chain leaf :
  Forall (fun t => is_obj (field t) = true /\ val_wf (field t)) (leaf :: chain) ->
  exists v, merged field chain leaf = Ok v /\ is_obj v = true /\ val_wf v.
Proof.
  intros [Hl Hc]%Forall_cons. apply merge_chain_wf; [done| |].
  - apply val_wf_obj. split_and!; [done|constructor..].
  - apply Forall_app. split; [|by constructor]. by apply Forall_rev.
Qed.

(** ** The walk up the parents *)

(** The first [n] ancestors from [cursor] up. *)
Fixpoint ancestors (find : UUIDv7 -> option LicenseTemplate) (n : nat) (cursor : option UUIDv7) : list LicenseTemplate :=
  match n, cursor with
  | S n', Some id =>
      match find id with Some t => t :: ancestors find n' (t_parent_id t) | None => [] end
  | _, _ => []
  end.

Section Walk.
Context {W : Type} (loader : UUIDv7 -> prog W (option LicenseTemplate)) (find : UUIDv7 -> option LicenseTemplate).
Context (w : W).
Hypothesis Hloader : forall id, loader id w = (Ok (find id), w).

(** The walk returns, within its five steps, ancestors in order; without a
    warning, all of them. *)
Lemma walk_spec leaf room chain visited cursor :
  exists walk rest, walk_ancestors loader leaf room chain visited cursor w = (Ok walk, w)
    /\ wk_chain walk = chain ++ rest
    /\ rest = ancestors find (List.length rest) cursor
    /\ (List.length rest <= room)%nat
    /\ (wk_truncated walk = true -> List.length rest = room)
    /\ (wk_warnings walk = [] -> forall n, (room <= n)%nat -> rest = ancestors find n cursor)
    /\ Forall (fun t => exists id, find id = Some t) rest.
Proof.
  revert chain visited cursor. induction room as [|room IH]; intros chain visited cursor.
  - destruct cursor as [id|]; cbn [walk_ancestors]; eexists _, []; (split; [done|]); cbn; rewrite app_nil_r;
      split_and!; try done. intros _ n _. by destruct n.
  - destruct cursor as [id|]; cbn [walk_ancestors];
      [|eexists _, []; (split; [done|]); cbn; rewrite app_nil_r; split_and!; try done; [lia|by intros _ []]].
    case_bool_decide as Hv; [eexists _, []; (split; [done|]); cbn; rewrite app_nil_r; split_and!; try done; lia|].
    unfold bind. rewrite Hloader. destruct (find id) as [t|] eqn:Ef.
    + destruct (IH (chain ++ [t]) (id :: visited) (t_parent_id t)) as (walk & rest & -> & Hc & Ha & Hl & Ht & Hn & Hf).
      exists walk, (t :: rest). split; [done|]. rewrite Hc, <- app_assoc. cbn [List.length ancestors]. rewrite Ef.
      split_and!; [done|by rewrite <- Ha|lia|intros H; rewrite Ht by done; lia| |].
      * intros H [|n] Hle; [lia|]. cbn [ancestors]. rewrite Ef. f_equal. apply Hn; [done|lia].
      * constructor; [by exists id|done].
    + eexists _, []. split; [done|]. cbn. rewrite app_nil_r. split_and!; try done; [lia|].
      intros _ [|n]; cbn; by rewrite ?Ef.
Qed.

(** The chain [resolveTemplate] merges. *)
Lemma resolve_run leaf :
  exists walk, walk_ancestors loader leaf MAX_TEMPLATE_DEPTH [] [t_id leaf] (t_parent_id leaf) w = (Ok walk, w)
    /\ wk_chain walk = ancestors find (List.length (wk_chain walk)) (t_parent_id leaf)
    /\ (List.length (wk_chain walk) <= 5)%nat
    /\ (wk_truncated walk = true -> List.length (wk_chain walk) = 5%nat)
    /\ (wk_warnings walk = [] -> forall n, (5 <= n)%nat -> wk_chain walk = ancestors find n (t_parent_id leaf))
    /\ Forall (fun t => exists id, find id = Some t) (wk_chain walk).
Proof.
  destruct (walk_spec leaf MAX_TEMPLATE_DEPTH [] [t_id leaf] (t_parent_id leaf))
    as (walk & rest & H & Hc & Ha & Hl & Ht & Hn & Hf).
  exists walk. rewrite Hc. by split_and!.
Qed.

Lemma resolve_outcome leaf walk ent meta :
  walk_ancestors loader leaf MAX_TEMPLATE_DEPTH [] [t_id leaf] (t_parent_id leaf) w = (Ok walk, w) ->
  merged t_entitlements (wk_chain walk) leaf = Ok ent -> merged t_meta (wk_chain walk) leaf = Ok meta ->
  resolveTemplate loader leaf w =
    (Ok (mkResolved (t_id leaf) (t_scope_id leaf) (t_parent_id leaf) (t_name leaf) (t_max_usages leaf)
           (t_trial_duration_sec leaf) (t_trial_cooldown_sec leaf) (t_grace_duration_sec leaf)
           (t_force_online_after_sec leaf) ent meta (List.length (wk_chain walk)) (wk_truncated walk),
         wk_warnings walk), w).
Proof. intros Hw He Hm. unfold resolveTemplate, bind, lift. by rewrite Hw, He, Hm. Qed.

(** A template as the tables hold it: entitlements and meta are objects of
    well-formed values. *)
Definition template_typed (t : LicenseTemplate) : Prop :=
  (is_obj (t_entitlements t) = true /\ val_wf (t_entitlements t)) /\ is_obj (t_meta t) = true /\ val_wf (t_meta t).

(** C36: resolving a template is well-typed whatever the parent links are
    (missing parents, cycles, chains of any length, own [__proto__] keys):
    when the leaf and every stored template hold objects of well-formed
    values, [resolveTemplate] returns, touches nothing, gives entitlements and
    meta that are again objects of well-formed values with distinct keys,
    counts between zero and five ancestors, and says it truncated only at
    five. *)
Theorem resolve_typed leaf
    (Hleaf : template_typed leaf) (Hstored : forall id t, find id = Some t -> template_typed t) :
  exists rt warnings, resolveTemplate loader leaf w = (Ok (rt, warnings), w)
    /\ (is_obj (rt_entitlements rt) = true /\ val_wf (rt_entitlements rt))
    /\ (is_obj (rt_meta rt) = true /\ val_wf (rt_meta rt))
    /\ (rt_inheritedDepth rt <= 5)%nat /\ (rt_truncated rt = true -> rt_inheritedDepth rt = 5%nat).
Proof.
  destruct (resolve_run leaf) as (walk & Hw & _ & Hl & Ht & _ & Hf).
  assert (Hall : Forall template_typed (leaf :: wk_chain walk)).
  { constructor; [done|]. eapply Forall_impl; [exact Hf|]. intros t [id Hid]. by apply (Hstored id). }
  destruct (merged_wf t_entitlements (wk_chain walk) leaf) as (ent & He & He1 & He2);
    [eapply Forall_impl; [exact Hall|]; by intros t [? _]|].
  destruct (merged_wf t_meta (wk_chain walk) leaf) as (meta & Hm & Hm1 & Hm2);
    [eapply Forall_impl; [exact Hall|]; by intros t [_ ?]|].
  rewrite (resolve_outcome _ _ _ _ Hw He Hm). eexists _, _. split; [done|]. by split_and!.
Qed.

(** C35: the nearest template decides. The resolved entitlements (and
    meta) have at every path of keys the value of the first template, from the
    leaf up its ancestors, that has one there, or none if that template has an
    object there or a plain value above; the other fields are the leaf's, and
    without a warning every ancestor took part. *)
Theorem resolve_nearest leaf
    (Hleaf : json_object (t_entitlements leaf) /\ json_object (t_meta leaf))
    (Hstored : forall id t, find id = Some t -> json_object (t_entitlements t) /\ json_object (t_meta t)) :
  exists rt warnings chain, resolveTemplate loader leaf w = (Ok (rt, warnings), w)
    /\ chain = ancestors find (rt_inheritedDepth rt) (t_parent_id leaf)
    /\ (warnings = [] -> forall n, (5 <= n)%nat -> chain = ancestors find n (t_parent_id leaf))
    /\ (forall path, scalar_at (rt_entitlements rt) path = nearest (map t_entitlements (leaf :: chain)) path)
    /\ (forall path, scalar_at (rt_meta rt) path = nearest (map t_meta (leaf :: chain)) path)
    /\ rt_id rt = t_id leaf /\ rt_max_usages rt = t_max_usages leaf
    /\ rt_trial_duration_sec rt = t_trial_duration_sec leaf
    /\ rt_grace_duration_sec rt = t_grace_duration_sec leaf
    /\ rt_force_online_after_sec rt = t_force_online_after_sec leaf.
Proof.
  destruct (resolve_run leaf) as (walk & Hw & Hc & _ & _ & Hn & Hf).
  assert (Hall : Forall (fun t => json_object (t_entitlements t) /\ json_object (t_meta t)) (leaf :: wk_chain walk)).
  { constructor; [done|]. eapply Forall_impl; [exact Hf|]. intros t [id Hid]. by apply (Hstored id). }
  destruct (merged_nearest t_entitlements (wk_chain walk) leaf) as (ent & He & Hne);
    [eapply Forall_impl; [exact Hall|]; by intros t [? _]|].
  destruct (merged_nearest t_meta (wk_chain walk) leaf) as (meta & Hm & Hnm);
    [eapply Forall_impl; [exact Hall|]; by intros t [_ ?]|].
  rewrite (resolve_outcome _ _ _ _ Hw He Hm). eexists _, _, (wk_chain walk). split; [done|]. by split_and!.
Qed.
End Walk.

(** ** Sample chain *)

Definition sample_template (id : String.string) (parent : option UUIDv7) (ent : list (jsstr * jsval)) : LicenseTemplate :=
  mkTemplate (js id) None parent (js id) 1 0 None 0 None (plain ent) (plain []) (js "now") (js "now").

Definition limits (n : Z) (rest : list (jsstr * jsval)) : list (jsstr * jsval) :=
  [(js "limits", plain ((js "seats", JNum (num_of_Z n)) :: rest))].

Definition base_template : LicenseTemplate :=
  sample_template "base" None (limits 5 [(js "projects", JNum (num_of_Z 3))]).
Definition pro_template : LicenseTemplate := sample_template "pro" (Some (js "base")) (limits 50 []).

Definition sample_world : World :=
  mkWorld (mkState [] [] [(js "base", base_template); (js "pro", pro_template)] [] [] [] []) 0
    (fixedClock 0 (js "now")) Z.of_nat.
Definition find_template (id : UUIDv7) : option LicenseTemplate := map_get (s_templates (w_state sample_world)) id.


Lemma sample_stored (Q : LicenseTemplate -> Prop) :
  Q base_template -> Q pro_template -> forall id t, find_template id = Some t -> Q t.
Proof.
  intros Hb Hp id t. unfold find_template. cbn.
  case_decide; [by intros [= <-]|case_decide; [by intros [= <-]|done]].
Qed.

Lemma sample_loads id : getTemplate id sample_world = (Ok (find_template id), sample_world).
Proof. reflexivity. Qed.

Lemma pro_typed : template_typed pro_template /\ template_typed base_template.
Proof.
  split; (split; (split; [done|])); cbn [t_entitlements t_meta pro_template base_template sample_template limits]; repeat match goal with
  | |- val_wf (JObj _ _) => apply val_wf_obj; split_and!
  | |- val_wf (JNum _) => reflexivity
  | |- val_wf _ => exact I
  | |- NoDup _ => decided
  | |- Forall _ (limits _ _) => unfold limits
  | |- Forall _ [] => constructor
  | |- Forall _ (_ :: _) => constructor; [split; cbn [fst snd]; [decided|]|]
  end.
Qed.

Lemma resolve_typed_witness :
  exists rt warnings, resolveTemplate getTemplate pro_template sample_world = (Ok (rt, warnings), sample_world)
    /\ (is_obj (rt_entitlements rt) = true /\ val_wf (rt_entitlements rt))
    /\ (is_obj (rt_meta rt) = true /\ val_wf (rt_meta rt))
    /\ (rt_inheritedDepth rt <= 5)%nat /\ (rt_truncated rt = true -> rt_inheritedDepth rt = 5%nat).
Proof.
  destruct pro_typed as [Hp Hb].
  exact (resolve_typed getTemplate find_template sample_world sample_loads pro_template Hp
    (sample_stored template_typed Hb Hp)).
Defined.

Lemma pro_plain : let ok t := json_object (t_entitlements t) /\ json_object (t_meta t) in ok pro_template /\ ok base_template.
Proof. split; (split; (split; [done|])); cbn; split_and!; repeat constructor; decided. Qed.

Lemma resolve_nearest_witness :
  exists rt warnings, resolveTemplate getTemplate pro_template sample_world = (Ok (rt, warnings), sample_world)
    /\ scalar_at (rt_entitlements rt) [js "limits"; js "seats"] = Some (JNum (num_of_Z 50))
    /\ scalar_at (rt_entitlements rt) [js "limits"; js "projects"] = Some (JNum (num_of_Z 3)).
Proof.
  destruct pro_plain as [Hp Hb].
  destruct (resolve_nearest getTemplate find_template sample_world sample_loads pro_template Hp
    (sample_stored _ Hb Hp)) as (rt & ws & chain & Hr & _ & Hall & He & _).
  exists rt, ws. split; [exact Hr|]. assert (Hws : ws = []) by (apply (f_equal fst) in Hr; by injection Hr as _ <-).
  rewrite !He, (Hall Hws 5%nat) by lia. split; vm_compute; reflexivity.
Defined.

(** An own [__proto__] key of a template reaches the setter: the result has
    another prototype and no such key. *)
Example proto_key_sets_prototype :
  deepMergeJson (plain []) (plain [(proto_key, plain [(js "admin", JBool true)])])
  = Ok (JObj (plain [(js "admin", JBool true)]) []).
Proof. reflexivity. Qed.
