(* ===== verification/Stats.v ===== *)
(** * Stats: the license dashboard roll-up

    [src/typescript/src/storage/stats.ts], its input and output types of
    [storage/types.ts], and the query of the memory adapter that feeds it.
    A [Map] of counters is an insertion-ordered map; the roll-up sorts with
    [Array.prototype.sort], which is stable. *)

From S2P Require Import Prelude Errors JsNum JsArith Json Types Id Cursor Storage LicenseService Memory.

(** ** Shapes *)

(** Absent: every scope; [null]: the global one; an id: that scope. *)
Definition LicenseStatsFilter : Type := option (option UUIDv7).

Definition LicenseStatusCounts : Type := list (LicenseStatus * Z).

Record LicenseDelta30d : Type := mkDelta { ld_added : Z; ld_removed : Z }.

Record LicenseSeatTopEntry : Type := mkSeatTop {
  te_license_id : UUIDv7;
  te_license_key : jsstr;
  te_max_usages : Z;
  te_active_usages : Z
}.

Record LicenseSeatUtilization : Type := mkUtilization {
  su_active_usages_total : Z;
  su_max_usages_total : Z;
  su_top_n : list LicenseSeatTopEntry
}.

Record LicenseStats : Type := mkStats {
  ls_counts : LicenseStatusCounts;
  ls_expiring_within_30d : Z;
  ls_active_delta_30d : LicenseDelta30d;
  ls_seat_utilization : LicenseSeatUtilization;
  ls_top_templates : list (UUIDv7 * Z)
}.

Record ComputeLicenseStatsInput : Type := mkStatsInput {
  cs_licenses : list License;
  cs_activeUsageLicenseIds : list UUIDv7;
  cs_auditEvents : list jsstr;
  cs_nowMs : Z
}.

(** ** The roll-up *)

(** [m.set(k, (m.get(k) ?? 0) + 1)] *)
Definition bump {K} `{EqDecision K} (m : list (K * Z)) (k : K) : list (K * Z) :=
  map_set m k (given_or (map_get m k) 0 + 1).

Definition emptyCounts : LicenseStatusCounts :=
  [(pending, 0); (active, 0); (grace, 0); (expired, 0); (suspended, 0); (revoked, 0)].

Definition DAYS_30 : Z := 30 * 24 * 60 * 60 * 1000.

Definition is_expiring (nowIso horizonIso : Instant) (l : License) : bool :=
  bool_decide (l_status l = active)
  && match l_expires_at l with
     | None => false
     | Some e => negb (str_ltb e nowIso) && negb (str_ltb horizonIso e)
     end.

(** One event, one bucket. *)
Definition count_event (d : LicenseDelta30d) (ev : jsstr) : LicenseDelta30d :=
  if bool_decide (ev = js "license.created") || bool_decide (ev = js "license.activated")
  then mkDelta (ld_added d + 1) (ld_removed d)
  else if bool_decide (ev = js "license.revoked") || bool_decide (ev = js "license.expired")
          || bool_decide (ev = js "license.suspended")
  then mkDelta (ld_added d) (ld_removed d + 1)
  else d.

Definition used_seats (activeUsagesByLicense : list (UUIDv7 * Z)) (lic : License) : Z :=
  given_or (map_get activeUsagesByLicense (l_id lic)) 0.

(** [max_usages > 0 ? used / max_usages : 0] *)
Definition seat_ratio (used max_usages : Z) : jsnum :=
  if 0 <? max_usages then num_div (num_of_Z used) (num_of_Z max_usages) else num_of_Z 0.

Definition util_entry (activeUsagesByLicense : list (UUIDv7 * Z)) (lic : License) : LicenseSeatTopEntry * jsnum :=
  let used := used_seats activeUsagesByLicense lic in
  (mkSeatTop (l_id lic) (l_license_key lic) (l_max_usages lic) used, seat_ratio used (l_max_usages lic)).

(** The comparator of the seat list, as "may come before": ratio descending,
    then active usages descending, then id ascending (no two rows share an
    id). *)
Definition util_le (a b : LicenseSeatTopEntry * jsnum) : Prop :=
  if num_ltb a.2 b.2 then False
  else if num_ltb b.2 a.2 then True
  else if te_active_usages a.1 =? te_active_usages b.1
  then str_le (te_license_id a.1) (te_license_id b.1)
  else te_active_usages b.1 < te_active_usages a.1.
#[global] Instance util_le_dec a b : Decision (util_le a b).
Proof. unfold util_le. repeat case_match; apply _. Defined.

(** The comparator of the template list: count descending, then id. *)
Definition template_count_le (a b : UUIDv7 * Z) : Prop :=
  if a.2 =? b.2 then str_le a.1 b.1 else b.2 < a.2.
#[global] Instance template_count_le_dec a b : Decision (template_count_le a b).
Proof. unfold template_count_le. case_match; apply _. Defined.

(** The totals and the entries the loop over active licenses collects. *)
Definition add_license (activeUsagesByLicense : list (UUIDv7 * Z))
    (acc : Z * Z * list (LicenseSeatTopEntry * jsnum)) (lic : License) : Z * Z * list (LicenseSeatTopEntry * jsnum) :=
  let '(used_total, max_total, entries) := acc in
  let entry := util_entry activeUsagesByLicense lic in
  (used_total + te_active_usages entry.1, max_total + l_max_usages lic, entries ++ [entry]).

Definition computeLicenseStats (input : ComputeLicenseStatsInput) : res LicenseStats :=
  let licenses := cs_licenses input in
  let counts := fold_left (fun m lic => bump m (l_status lic)) licenses emptyCounts in
  let? horizonIso := isoFromMs (cs_nowMs input + DAYS_30) in
  let? nowIso := isoFromMs (cs_nowMs input) in
  let expiring := List.filter (is_expiring nowIso horizonIso) licenses in
  let delta := fold_left count_event (cs_auditEvents input) (mkDelta 0 0) in
  let activeUsagesByLicense := fold_left bump (cs_activeUsageLicenseIds input) [] in
  let activeLicenses := List.filter (fun lic => bool_decide (l_status lic = active)) licenses in
  let '(used_total, max_total, entries) :=
    fold_left (add_license activeUsagesByLicense) activeLicenses (0, 0, []) in
  let topN := map fst (take 10 (merge_sort util_le entries)) in
  let templateCounts :=
    fold_left (fun m lic => match l_template_id lic with None => m | Some t => bump m t end) licenses [] in
  let topTemplates := take 10 (merge_sort template_count_le templateCounts) in
  Ok (mkStats counts (Z.of_nat (List.length expiring)) delta (mkUtilization used_total max_total topN) topTemplates).

(** ** The query *)

Class StatsStorage (W : Type) : Type := {
  getLicenseStats : LicenseStatsFilter -> prog W LicenseStats
}.

(** The rows the roll-up reads out of the tables, [sinceIso] the start of the
    trailing window. *)
Definition scope_licenses (filter : LicenseStatsFilter) (s : State) : list License :=
  List.filter (fun l => matches filter (l_scope_id l)) (rows (s_licenses s)).

Definition active_usage_ids (licenses : list License) (s : State) : list UUIDv7 :=
  map u_license_id
    (List.filter (fun u => bool_decide (u_status u = u_active) && bool_decide (u_license_id u ∈ map l_id licenses))
       (rows (s_usages s))).

Definition recent_events (filter : LicenseStatsFilter) (sinceIso : Instant) (s : State) : list jsstr :=
  map a_event
    (List.filter (fun ev => negb (str_ltb (a_occurred_at ev) sinceIso) && matches filter (a_scope_id ev))
       (rows (s_audit s))).

Definition mem_getLicenseStats (filter : LicenseStatsFilter) : prog World LicenseStats :=
  let* s := get_state in
  let licenses := scope_licenses filter s in
  let activeUsageLicenseIds := active_usage_ids licenses s in
  let* ms := nowMs in
  let* sinceIso := lift (isoFromMs (ms - DAYS_30)) in
  lift (computeLicenseStats (mkStatsInput licenses activeUsageLicenseIds (recent_events filter sinceIso s) ms)).

#[global] Instance MemoryStats : StatsStorage World := {| getLicenseStats := mem_getLicenseStats |}.

(** [LicenseStats] as JSON. *)
Definition seat_top_json (e : LicenseSeatTopEntry) : jsval :=
  plain [(js "license_id", JStr (te_license_id e)); (js "license_key", JStr (te_license_key e));
         (js "max_usages", js_int (te_max_usages e)); (js "active_usages", js_int (te_active_usages e))].

Definition stats_json (st : LicenseStats) : jsval :=
  plain [(js "counts", plain (map (fun sn => (status_str sn.1, js_int sn.2)) (ls_counts st)));
         (js "expiring_within_30d", js_int (ls_expiring_within_30d st));
         (js "active_delta_30d", plain [(js "added", js_int (ld_added (ls_active_delta_30d st)));
                                        (js "removed", js_int (ld_removed (ls_active_delta_30d st)))]);
         (js "seat_utilization",
            plain [(js "active_usages_total", js_int (su_active_usages_total (ls_seat_utilization st)));
                   (js "max_usages_total", js_int (su_max_usages_total (ls_seat_utilization st)));
                   (js "top_n", JArr (map seat_top_json (su_top_n (ls_seat_utilization st))))]);
         (js "top_templates",
            JArr (map (fun tc => plain [(js "template_id", JStr tc.1); (js "license_count", js_int tc.2)])
                    (ls_top_templates st)))].
