(* ===== verification/StatsProps.v ===== *)
(** * StatsProps: the dashboard accounts for every row

    The roll-up of [Stats] counts each license of the scope under its status,
    each active seat of an active license once, and lists the licenses
    nearest their limit. *)

From S2P Require Import Prelude Errors JsNum JsArith Json Types Id Cursor Storage Pages LicenseService Memory MemoryLaws Stats.

(** ** Counting *)

Definition count {A} (p : A -> bool) (l : list A) : Z := Z.of_nat (List.length (List.filter p l)).

Lemma count_cons {A} (p : A -> bool) x l : count p (x :: l) = (if p x then 1 else 0) + count p l.
Proof. unfold count. cbn. destruct (p x); cbn [List.length]; lia. Qed.

Lemma count_map {A B} (f : A -> B) p l : count p (map f l) = count (fun x => p (f x)) l.
Proof. induction l as [|x l IH]; [done|]. cbn [map]. by rewrite !count_cons, IH. Qed.

Lemma count_ext {A} (p q : A -> bool) l : (forall x, x ∈ l -> p x = q x) -> count p l = count q l.
Proof.
  induction l as [|x l IH]; intros H; [done|]. rewrite !count_cons, IH by (intros; apply H; by right).
  by rewrite H by left.
Qed.

Lemma count_filter {A} (p q : A -> bool) l : count p (List.filter q l) = count (fun x => q x && p x) l.
Proof.
  induction l as [|x l IH]; [done|]. cbn [List.filter]. rewrite (count_cons _ x l).
  destruct (q x); [rewrite count_cons, IH|rewrite IH]; reflexivity.
Qed.

(** A table of counters filled from a list holds the number of occurrences. *)
Lemma bump_count {K} `{EqDecision K} (ks : list K) : forall m k,
  given_or (map_get (fold_left bump ks m) k) 0 = given_or (map_get m k) 0 + count (fun x => bool_decide (x = k)) ks.
Proof.
  induction ks as [|x ks IH]; intros m k; [unfold count; cbn; lia|]. cbn [fold_left]. rewrite IH, count_cons.
  unfold bump. destruct (decide (x = k)) as [->|Hne].
  - rewrite map_get_set_eq, bool_decide_true by done. cbn [given_or]. lia.
  - rewrite map_get_set_ne, bool_decide_false by done. lia.
Qed.

Lemma fold_map {A B C} (f : C -> B -> C) (g : A -> B) l : forall c,
  fold_left (fun c a => f c (g a)) l c = fold_left f (map g l) c.
Proof. induction l as [|x l IH]; intros c; [done|]. apply IH. Qed.

(** Rows grouped by a key are the rows with one of the keys. *)
Lemma count_grouped {A K} `{EqDecision K} (key : A -> K) (p : A -> bool) l ks :
  NoDup ks ->
  foldr (fun k n => count (fun x => p x && bool_decide (key x = k)) l + n) 0 ks
  = count (fun x => p x && bool_decide (key x ∈ ks)) l.
Proof.
  induction ks as [|k ks IH]; intros Hn; cbn [foldr].
  - symmetry. erewrite count_ext with (q := fun _ => false).
    + clear. induction l; [done|]. by rewrite count_cons.
    + intros x _. rewrite bool_decide_false by apply not_elem_of_nil. by rewrite andb_false_r.
  - apply NoDup_cons in Hn as [Hk Hn]. rewrite IH by done. clear IH.
    induction l as [|x l IHl]; [done|]. rewrite !count_cons, <- IHl.
    destruct (p x); cbn; [|lia].
    destruct (decide (key x = k)) as [->|Hne].
    + rewrite (bool_decide_true (k = k)), (bool_decide_true (k ∈ k :: ks)), (bool_decide_false (k ∈ ks)) by (done || left). lia.
    + rewrite (bool_decide_false (key x = k)) by done.
      rewrite (bool_decide_ext (key x ∈ k :: ks) (key x ∈ ks)); [lia|]. rewrite elem_of_cons. naive_solver.
Qed.

(** ** The order of the seat list *)

Lemma num_not_ltb_trans a b c :
  a <> NaN -> b <> NaN -> num_ltb a b = false -> num_ltb b c = false -> num_ltb a c = false.
Proof.
  intros Ha Hb H1 H2. destruct (num_ltb a c) eqn:E; [|done].
  assert (Hl : num_leb b a = true) by (unfold num_leb; destruct b, a; try done; by rewrite H1).
  pose proof (num_leb_ltb_trans _ _ _ Hl E). congruence.
Qed.

#[global] Instance util_le_total : Total util_le.
Proof.
  intros a b. unfold util_le. destruct (num_ltb a.2 b.2) eqn:E1.
  { right. rewrite (num_ltb_asym _ _ E1). done. }
  destruct (num_ltb b.2 a.2) eqn:E2; [by left|]. rewrite (Z.eqb_sym (te_active_usages b.1)).
  destruct (te_active_usages a.1 =? te_active_usages b.1) eqn:E3; bool_prop; [apply (total str_le)|lia].
Qed.

#[global] Instance template_count_le_total : Total template_count_le.
Proof.
  intros a b. unfold template_count_le. rewrite (Z.eqb_sym b.2).
  destruct (a.2 =? b.2) eqn:E; bool_prop; [apply (total str_le)|lia].
Qed.

Lemma template_count_le_trans : Transitive template_count_le.
Proof.
  intros a b c. unfold template_count_le.
  destruct (a.2 =? b.2) eqn:E1, (b.2 =? c.2) eqn:E2, (a.2 =? c.2) eqn:E3; bool_prop; try lia.
  apply (transitivity (R := str_le)).
Qed.

Lemma util_le_ratio a b : util_le a b -> num_ltb a.2 b.2 = false.
Proof. unfold util_le. by destruct (num_ltb a.2 b.2). Qed.

Definition has_ratio (e : LicenseSeatTopEntry * jsnum) : Prop := e.2 <> NaN.

Lemma util_le_trans a b c : has_ratio a -> has_ratio b -> has_ratio c ->
  util_le a b -> util_le b c -> util_le a c.
Proof.
  intros Ha Hb Hc. unfold has_ratio, util_le in *.
  destruct (num_ltb a.2 b.2) eqn:E1; [done|]. destruct (num_ltb b.2 c.2) eqn:E2; [done|].
  rewrite (num_not_ltb_trans _ _ _ Ha Hb E1 E2).
  destruct (num_ltb c.2 a.2) eqn:E3; [done|].
  assert (num_ltb b.2 a.2 = false) as -> by (eapply num_not_ltb_trans; [| |exact E2|exact E3]; done).
  assert (num_ltb c.2 b.2 = false) as -> by (eapply num_not_ltb_trans; [| |exact E3|exact E1]; done).
  destruct (_ =? _) eqn:F1, (te_active_usages b.1 =? te_active_usages c.1) eqn:F2,
    (te_active_usages a.1 =? te_active_usages c.1) eqn:F3; bool_prop; try lia.
  apply (transitivity (R := str_le)).
Qed.

(** Sorting by a relation that is transitive on the elements at hand. *)
Lemma sorted_strong {A} (R : A -> A -> Prop) (P : A -> Prop) l :
  (forall a b c, P a -> P b -> P c -> R a b -> R b c -> R a c) ->
  Forall P l -> Sorted R l -> StronglySorted R l.
Proof.
  intros Ht HP Hs. induction Hs as [|x l Hs IH Hx]; [constructor|].
  apply Forall_cons in HP as [Hpx HP]. specialize (IH HP). constructor; [done|].
  destruct Hx as [|y l Hxy]; [constructor|]. apply StronglySorted_inv in IH as [_ Hy].
  apply Forall_cons in HP as [Hpy HP]. constructor; [done|]. rewrite Forall_forall in Hy, HP |- *.
  intros z Hz. eapply Ht; [exact Hpx|exact Hpy|auto|done|auto].
Qed.

(** The first ten of a sorted list come before the others. *)
Lemma top_first {A} (R : A -> A -> Prop) n l x y :
  StronglySorted R l -> x ∈ take n l -> y ∈ l -> y ∉ take n l -> R x y.
Proof.
  intros Hs Hx Hy Hn. rewrite <- (take_drop n l) in Hs, Hy. apply elem_of_app in Hy as [Hy|Hy]; [done|].
  by eapply StronglySorted_app_1_elem_of.
Qed.

Lemma rat_not_nan n d : rat_to_num n d <> NaN.
Proof. unfold rat_to_num, norm. intros H. repeat case_match; try done. Qed.

Lemma seat_ratio_number used max : max <= 2 ^ 53 -> seat_ratio used max <> NaN.
Proof.
  unfold seat_ratio. intros Hm. destruct (0 <? max) eqn:E; bool_prop; [|apply rat_not_nan].
  rewrite (num_of_Z_exact max) by lia. destruct (norm_nat max) as (q & f & -> & Hf & Hq); [lia|].
  assert (q <> 0) by (intros ->; lia). pose proof (rat_not_nan used 1) as Hu. fold (num_of_Z used) in Hu.
  destruct (num_of_Z used) as [|b| |m e] eqn:Eu; [done|destruct q; done..|].
  assert (Hr : forall c a d a' d', (if c : bool then rat_to_num a d else rat_to_num a' d') <> NaN).
  { intros []; intros; apply rat_not_nan. }
  destruct q, m; try done; apply Hr.
Qed.

(** ** The roll-up *)

Section Collect.
Context (by_license : list (UUIDv7 * Z)).

(** What the loop over active licenses leaves behind. *)
Lemma add_licenses ls : forall u m es,
  fold_left (add_license by_license) ls (u, m, es)
  = (u + foldr (fun l n => used_seats by_license l + n) 0 ls,
     m + foldr (fun l n => l_max_usages l + n) 0 ls,
     es ++ map (util_entry by_license) ls).
Proof.
  induction ls as [|l ls IH]; intros u m es; cbn [fold_left foldr map].
  - by rewrite !Z.add_0_r, app_nil_r.
  - unfold add_license at 2. rewrite IH, <- app_assoc. cbn. do 2 f_equal; lia.
Qed.
End Collect.

Lemma foldr_ext_le {A} (f g : A -> Z) l :
  (forall x, x ∈ l -> f x <= g x) -> foldr (fun x n => f x + n) 0 l <= foldr (fun x n => g x + n) 0 l.
Proof.
  induction l as [|x l IH]; intros H; cbn; [lia|]. pose proof (H x (list_elem_of_here _ _)).
  assert (forall y, y ∈ l -> f y <= g y) by (intros; apply H; by right). specialize (IH H1). lia.
Qed.

(** Seats of a license: its active usages. *)
Definition seat_of (u : LicenseUsage) (id : UUIDv7) : bool :=
  bool_decide (u_status u = u_active) && bool_decide (u_license_id u = id).
Definition license_seats (s : State) (l : License) : Z := count (fun u => seat_of u (l_id l)) (rows (s_usages s)).

Definition active_in (filter : LicenseStatsFilter) (s : State) : list License :=
  List.filter (fun l => bool_decide (l_status l = active)) (scope_licenses filter s).

Lemma scope_active_in filter s l : l ∈ active_in filter s -> l ∈ scope_licenses filter s.
Proof. unfold active_in. rewrite elem_filter. tauto. Qed.

(** The counter the roll-up keeps for a license of the scope is its seats. *)
Lemma used_seats_count filter s l :
  l ∈ scope_licenses filter s ->
  used_seats (fold_left bump (active_usage_ids (scope_licenses filter s) s) []) l = license_seats s l.
Proof.
  intros Hl. unfold used_seats. rewrite bump_count. cbn [map_get given_or].
  unfold active_usage_ids. rewrite count_map, count_filter. unfold license_seats. cbn [Z.add].
  apply count_ext. intros u _. unfold seat_of. destruct (decide (u_license_id u = l_id l)) as [->|Hne].
  - rewrite (bool_decide_true (l_id l = l_id l)), (bool_decide_true (l_id l ∈ _)); [by rewrite !andb_true_r|..|done].
    by apply list_elem_of_fmap_2.
  - rewrite (bool_decide_false (u_license_id u = l_id l)) by done. by rewrite !andb_false_r.
Qed.

(** The total over the active licenses counts every seat of one of them. *)
Lemma seats_total filter s :
  keyed l_id (s_licenses s) ->
  foldr (fun l n => license_seats s l + n) 0 (active_in filter s)
  = count (fun u => bool_decide (u_status u = u_active) && bool_decide (u_license_id u ∈ map l_id (active_in filter s)))
      (rows (s_usages s)).
Proof.
  intros Hk. rewrite <- count_grouped.
  - induction (active_in filter s) as [|l ls IH]; [done|]. cbn [foldr map]. by rewrite IH.
  - unfold active_in, scope_licenses. do 2 apply NoDup_filter_fmap. by apply rows_NoDup.
Qed.

Lemma take_elem {A} n (l : list A) x : x ∈ take n l -> x ∈ l.
Proof. intros H. rewrite <- (take_drop n l). apply elem_of_app. by left. Qed.

(** The licenses nearest their limit: true entries of active licenses, and
    none that is left out is nearer. *)
Lemma top_entries s by_license ls :
  (forall l, l ∈ ls -> used_seats by_license l = license_seats s l /\ l_max_usages l <= 2 ^ 53) ->
  let top := map fst (take 10 (merge_sort util_le (map (util_entry by_license) ls))) in
  List.length top = Nat.min 10 (List.length ls)
  /\ (forall e, e ∈ top -> exists l, l ∈ ls /\ e = mkSeatTop (l_id l) (l_license_key l) (l_max_usages l) (license_seats s l))
  /\ (forall e l, e ∈ top -> l ∈ ls -> l_id l ∉ map te_license_id top ->
        num_ltb (seat_ratio (te_active_usages e) (te_max_usages e)) (seat_ratio (license_seats s l) (l_max_usages l)) = false).
Proof.
  intros Hls top. set (es := map (util_entry by_license) ls) in *.
  pose proof (merge_sort_Permutation util_le es) as Hp.
  assert (Hin : forall x, x ∈ es -> exists l, l ∈ ls
            /\ x = (mkSeatTop (l_id l) (l_license_key l) (l_max_usages l) (license_seats s l),
                    seat_ratio (license_seats s l) (l_max_usages l))).
  { intros x (l & -> & Hl)%list_elem_of_fmap. exists l. split; [done|]. unfold util_entry. by destruct (Hls l Hl) as [-> _]. }
  assert (Hs : StronglySorted util_le (merge_sort util_le es)).
  { apply (sorted_strong _ has_ratio); [exact util_le_trans| |apply Sorted_merge_sort; apply _].
    rewrite Hp. apply Forall_forall. intros x (l & Hl & ->)%Hin. apply seat_ratio_number. by apply Hls. }
  split_and!.
  - unfold top. rewrite length_map, length_take, Hp. unfold es. by rewrite length_map.
  - intros e (x & -> & Hx%take_elem)%list_elem_of_fmap. rewrite Hp in Hx.
    apply Hin in Hx as (l & Hl & ->). by exists l.
  - intros e l (x & -> & Hx)%list_elem_of_fmap Hl Hnot.
    assert (Hy : util_entry by_license l ∈ merge_sort util_le es) by (rewrite Hp; by apply list_elem_of_fmap_2).
    assert (Hny : util_entry by_license l ∉ take 10 (merge_sort util_le es)).
    { intros Hy'. apply Hnot. unfold top. rewrite map_map. by apply (list_elem_of_fmap_2 (fun e => te_license_id e.1)) in Hy'. }
    pose proof (top_first _ _ _ _ _ Hs Hx Hy Hny) as Hle%util_le_ratio.
    pose proof (take_elem _ _ _ Hx) as Hx'. rewrite Hp in Hx'. apply Hin in Hx' as (l' & _ & ->).
    unfold util_entry in Hle. destruct (Hls l Hl) as [Hu _]. by rewrite Hu in Hle.
Qed.

Definition of_template (t : UUIDv7) (l : License) : bool := bool_decide (l_template_id l = Some t).

(** The counters of the templates. *)
Lemma template_counts ls : forall m t,
  given_or (map_get (fold_left (fun m lic => match l_template_id lic with None => m | Some t => bump m t end) ls m) t) 0
  = given_or (map_get m t) 0 + count (of_template t) ls.
Proof.
  induction ls as [|l ls IH]; intros m t; [unfold count; cbn; lia|]. cbn [fold_left]. rewrite IH, count_cons.
  unfold of_template at 2. destruct (l_template_id l) as [t'|]; [|done].
  pose proof (bump_count [t'] m t) as Hb. cbn [fold_left] in Hb. rewrite Hb, count_cons.
  rewrite (bool_decide_ext (Some t' = Some t) (t' = t)) by naive_solver. unfold count at 1. cbn. lia.
Qed.

Lemma template_table_nodup ls : forall m,
  NoDup m.*1 -> NoDup (fold_left (fun m lic => match l_template_id lic with None => m | Some t => bump m t end) ls m).*1.
Proof.
  induction ls as [|l ls IH]; intros m Hn; [done|]. cbn [fold_left]. apply IH.
  destruct (l_template_id l); [|done]. by apply map_set_NoDup.
Qed.

(** The most licensed templates: true counts, none left out counts more. *)
Lemma top_templates_counts ls :
  let counts := fold_left (fun m lic => match l_template_id lic with None => m | Some t => bump m t end) ls [] in
  let top := take 10 (merge_sort template_count_le counts) in
  (forall t n, (t, n) ∈ top -> n = count (of_template t) ls)
  /\ (forall t t' n, (t', n) ∈ top -> t ∉ top.*1 -> count (of_template t) ls <= n).
Proof.
  intros counts top. pose proof (merge_sort_Permutation template_count_le counts) as Hp.
  assert (Hn : NoDup counts.*1) by apply template_table_nodup, NoDup_nil_2.
  assert (Hc : forall t, given_or (map_get counts t) 0 = count (of_template t) ls) by (intros t; apply template_counts).
  assert (Hs : StronglySorted template_count_le (merge_sort template_count_le counts)).
  { pose proof template_count_le_trans. apply StronglySorted_merge_sort; apply _. }
  assert (Ht : forall t n, (t, n) ∈ top -> n = count (of_template t) ls).
  { intros t n H%take_elem. rewrite Hp in H. apply elem_map_get in H; [|done]. rewrite <- Hc. by rewrite H. }
  split; [done|]. intros t t' n Hin Hnot. rewrite <- Hc. destruct (map_get counts t) as [k|] eqn:E; cbn [given_or].
  - assert (Hk : (t, k) ∈ merge_sort template_count_le counts) by (rewrite Hp; by apply map_get_elem).
    assert (Hnk : (t, k) ∉ top) by (intros H; apply Hnot; by apply (list_elem_of_fmap_2 fst) in H).
    pose proof (top_first _ _ _ _ _ Hs Hin Hk Hnk) as Hle. unfold template_count_le in Hle. cbn in Hle.
    destruct (n =? k) eqn:E2; bool_prop; lia.
  - rewrite (Ht _ _ Hin). unfold count. lia.
Qed.

Lemma status_counts ls x :
  given_or (map_get (fold_left (fun m lic => bump m (l_status lic)) ls emptyCounts) x) 0
  = count (fun l => bool_decide (l_status l = x)) ls.
Proof. rewrite (fold_map bump), bump_count, count_map. by destruct x. Qed.

(** A roll-up that answered: what it was computed from. *)
Lemma computed_stats input st :
  computeLicenseStats input = Ok st ->
  let ls := cs_licenses input in
  let by_license := fold_left bump (cs_activeUsageLicenseIds input) [] in
  let actives := List.filter (fun l => bool_decide (l_status l = active)) ls in
  ls_counts st = fold_left (fun m lic => bump m (l_status lic)) ls emptyCounts
  /\ ls_seat_utilization st
     = mkUtilization (foldr (fun l n => used_seats by_license l + n) 0 actives)
         (foldr (fun l n => l_max_usages l + n) 0 actives)
         (map fst (take 10 (merge_sort util_le (map (util_entry by_license) actives))))
  /\ ls_top_templates st
     = take 10 (merge_sort template_count_le
         (fold_left (fun m lic => match l_template_id lic with None => m | Some t => bump m t end) ls [])).
Proof.
  intros H ls by_license actives. unfold computeLicenseStats in H.
  apply rbind_ok_inv in H as (h & _ & H). apply rbind_ok_inv in H as (n & _ & H).
  fold ls by_license actives in H. rewrite add_licenses in H. apply Ok_inj in H as <-. by split_and!.
Qed.


(** ** A small shop *)

Definition shop_iso : Instant := js "2026-01-01T00:00:00.000000Z".
Definition shop_license (id : String.string) (st : LicenseStatus) (max : Z) (t : option UUIDv7) : License :=
  mkLicense (js id) None t (js "User") (js id) (js id) st max false None
    (Some (js "2026-01-15T00:00:00.000000Z")) None (plain []) shop_iso shop_iso.
Definition shop_usage (id license : String.string) (st : UsageStatus) : LicenseUsage :=
  mkUsage (js id) (js license) (js id) st shop_iso None shop_iso (plain []) shop_iso shop_iso.
Definition shop : World :=
  mkWorld
    (set_usages (map (fun u => (u_id u, u))
       [shop_usage "u1" "a" u_active; shop_usage "u2" "b" u_active; shop_usage "u3" "b" u_revoked;
        shop_usage "u4" "c" u_active])
       (set_licenses (map (fun l => (l_id l, l))
          [shop_license "a" active 4 (Some (js "t")); shop_license "b" active 2 (Some (js "t"));
           shop_license "c" suspended 1 None]) emptyState))
    0 (fixedClock 1767225600000 shop_iso) Z.of_nat.

(** Half used comes before a quarter used; the suspended license and its
    seat are left out. *)
Definition shop_stats : LicenseStats :=
  mkStats [(pending, 0); (active, 2); (grace, 0); (expired, 0); (suspended, 1); (revoked, 0)] 2 (mkDelta 0 0)
    (mkUtilization 2 6 [mkSeatTop (js "b") (js "b") 2 1; mkSeatTop (js "a") (js "a") 4 1])
    [(js "t", 2)].

