(* ===== verification/ClientHandlers.v ===== *)
(** * ClientHandlers: the endpoints devices talk to

    [src/typescript/src/http/client-handlers.ts] and the context of
    [http/context.ts]: activation, refresh, heartbeat, deactivation and the
    health probe, over any storage. [new Date()] of the health probe reads a
    wall clock of its own. *)

From S2P Require Import Prelude Errors JsNum JsArith Text Json Types Crypto TokenCodec Id Cursor Storage Pages LicenseKeyFormat Lifecycle LicenseService UsageService EncryptedPkcs8 KeyHierarchy TokenService Http.

(** ** Dates *)

Definition num_floor (n : jsnum) : jsnum := num_neg (num_ceil (num_neg n)).

(** The time value of [new Date(n)]; [None] is an invalid date. *)
Definition time_value (n : jsnum) : option Z :=
  let clip z := if max_time <? Z.abs z then None else Some z in
  match n with
  | NaN | Infinity _ => None
  | NegZero => Some 0
  | Fin m e => clip (if 0 <=? e then m * 2 ^ e else Z.quot m (2 ^ (- e)))
  end.

(** [toISOString] of a time value. *)
Definition iso_string (ms : Z) : jsstr :=
  iso_date (ms / msPerDay) ++ [84] ++ iso_time (ms mod msPerDay) ++ [90].

Definition isoOf (unixSec : jsnum) : res jsstr :=
  match time_value (num_mul unixSec (num_of_Z 1000)) with
  | Some ms => Ok (iso_string ms)
  | None => Throw PlainError
  end.

(** [Date.now()] of the process, apart from the injected clock. *)
Class WallClock (W : Type) : Type := { wallMs : prog W Z }.

(** ** The context *)

Section Context.
Context {KH : KeyHandles}.

Record ClientHandlerContext (W : Type) : Type := mkClientContext {
  cc_backends : list (KeyAlg * SignatureBackend);
  cc_version : jsstr;
  cc_tokenTtlSec : option jsnum;
  cc_defaultAlg : option KeyAlg;
  cc_tokenFormat : option TokenFormat;
  cc_signingPassphrase : jsstr;
  cc_forceOnlineAfter : option (option jsnum);
  cc_transparencyHook : option (TokenIssuedEvent -> prog W unit)
}.
End Context.
Arguments mkClientContext {KH W} _ _ _ _ _ _ _ _.
Arguments cc_backends {KH W} _.
Arguments cc_version {KH W} _.
Arguments cc_tokenTtlSec {KH W} _.
Arguments cc_defaultAlg {KH W} _.
Arguments cc_tokenFormat {KH W} _.
Arguments cc_signingPassphrase {KH W} _.
Arguments cc_forceOnlineAfter {KH W} _.
Arguments cc_transparencyHook {KH W} _.

Definition token_ttl {KH : KeyHandles} {W} (ctx : ClientHandlerContext W) : jsnum :=
  given_or (cc_tokenTtlSec ctx) (num_of_Z 3600).

(** [ttl * 0.75], rounded down. *)
Definition refresh_mark (ttl : jsnum) : jsnum := num_floor (num_mul ttl (Fin 3 (-2))).

(** What [issueToken] is asked for. *)
Definition issue_request {KH : KeyHandles} {W} (ctx : ClientHandlerContext W) (license : License) (usage : LicenseUsage)
  : IssueTokenInput W :=
  mkIssueToken license usage (token_ttl ctx) (given_or (cc_defaultAlg ctx) ed25519) (cc_signingPassphrase ctx)
    (cc_tokenFormat ctx) (cc_forceOnlineAfter ctx) None None (cc_transparencyHook ctx).

(** [if (!v.ok) return v.response] *)
Definition checked {W A} (v : ValidationResult A) (k : A -> prog W HandlerResponse) : prog W HandlerResponse :=
  match v with Ok a => k a | Throw response => ret response end.

(** The answer of /activate and /refresh. *)
Definition token_body (token expires_at refresh_at : jsstr) (foa : option jsstr) : jsval :=
  plain ([(js "token", JStr token); (js "expires_at", JStr expires_at);
          (js "refresh_recommended_at", JStr refresh_at)]
         ++ match foa with Some t => [(js "force_online_after", JStr t)] | None => [] end).

Record Reissued : Type := mkReissued { ri_token : jsstr; ri_expiresAt : jsstr; ri_foa : option jsstr }.

Definition refusal {A : Type} (status : Z) (code : String.string) (message : jsstr) : result HandlerResponse A :=
  Throw (err status (js code) message None).

Definition reasons : list jsstr := map js ["user_requested"; "uninstall"; "reassign"; "other"]%string.

Section ClientHandlers.
Context {KH : KeyHandles} {P : Pbes2} {SH : Sha256} {DP : DateParse} {CM : CaseMap} {EM : ErrorMessages}.
Context {W : Type} {HC : HasClock W} {HE : HasEntropy W} {ST : Storage W} {WC : WallClock W}.
Context (fuel : nat) (codecs : Codecs) (ctx : ClientHandlerContext W).

(** [typeof foa === 'number' ? isoOf(foa) : null] *)
Definition deadline_of (token : jsstr) : res (option jsstr) :=
  let? decoded := decodeUnverified codecs token in
  match get_prop (e_payload decoded) (js "force_online_after") with
  | JNum foa => let? t := isoOf foa in Ok (Some t)
  | _ => Ok None
  end.

(** The registry and the bindings of one request. *)
Definition verify_stored (stored : LicenseKey) (token : jsstr) : res DecodedEnvelope :=
  match map_get (cc_backends ctx) (k_alg stored) with
  | None => Throw (errors.unsupportedAlgorithm (alg_str (k_alg stored)))
  | Some backend =>
      let? registry := registry_register [] backend in
      let? bindings := bindings_bind [] (k_kid stored) (k_alg stored) in
      let record := mkKeyRecord (k_kid stored) (k_alg stored) (mkPem None (k_public_pem stored)) (mkRaw None []) in
      verify codecs token (mkVerifyOptions registry bindings [(kr_kid record, record)])
  end.

(** The time checks on the claims of a verified token. *)
Definition check_times (payload : jsval) (nowSec allowExpiredWithinSec : jsnum) : res unit :=
  let? _ := match get_prop payload (js "nbf") with
            | JNum nbf => if num_ltb nowSec nbf then Throw errors.tokenMalformed else Ok tt
            | _ => Ok tt
            end in
  match get_prop payload (js "exp") with
  | JNum exp =>
      if num_leb (num_add exp allowExpiredWithinSec) nowSec then Throw (LicensingError TokenExpired NoDetails) else Ok tt
  | _ => Ok tt
  end.

Definition verifyClientToken (token : jsstr) (allowExpiredWithinSec : jsnum) : prog W DecodedEnvelope :=
  let* header := lift (decodeUnverified codecs token) in
  let* stored := getKeyByKid (h_kid (e_header header)) in
  match stored with
  | None => throw (errors.unknownKid (h_kid (e_header header)))
  | Some stored =>
      let* parts := lift (verify_stored stored token) in
      let* now := nowIso in
      do* lift (check_times (e_payload parts) (unixSeconds now) allowExpiredWithinSec);
      ret parts
  end.

Definition handleHealth : prog W HandlerResponse :=
  let* ms := wallMs in
  let body status := plain [(js "status", JStr (js status)); (js "version", JStr (cc_version ctx));
                            (js "time", JStr (iso_string ms))] in
  try_catch
    (do* listAudit (mkAuditFilter None None None None None None None None) (mkPageRequest 1 None);
     ret (respond (body "ok"%string) 200))
    (fun _ => ret (respond (body "error"%string) 503)).

Definition activate_body (license_key fingerprint : jsstr) (client_meta : option jsval) : prog W HandlerResponse :=
  let* license := findLicenseByKey license_key in
  match license with
  | None => ret (err 404 (js "InvalidLicenseKey") (js "license key is invalid or unknown") None)
  | Some license =>
      let* reg := registerUsage fuel (mkRegisterUsage (l_id license) fingerprint client_meta) None in
      let* issued := issueToken fuel codecs (cc_backends ctx) (issue_request ctx (reg_license reg) (reg_usage reg)) in
      let refreshAt := num_add (ir_iat issued) (refresh_mark (token_ttl ctx)) in
      let* expires_at := lift (isoOf (ir_exp issued)) in
      let* refresh_at := lift (isoOf refreshAt) in
      let* foa := lift (deadline_of (ir_token issued)) in
      ret (respond (token_body (ir_token issued) expires_at refresh_at foa) 200)
  end.

Definition handleActivate (req : HandlerRequest) : prog W HandlerResponse :=
  checked (requireJsonObject req) (fun body =>
  checked (requireString body (js "license_key")) (fun licenseKey =>
  checked (requireFingerprint body (js "fingerprint")) (fun fingerprint =>
  checked (optionalObject body (js "client_meta")) (fun clientMeta =>
  try_catch (activate_body licenseKey fingerprint clientMeta) (fun e => ret (errFromLicensing e)))))).

(** [try { parts = await verifyClientToken(...) } catch (e) { return errFromLicensing(e) }] *)
Definition verified_parts (token : jsstr) (allow : jsnum) : prog W (result HandlerResponse DecodedEnvelope) :=
  try_catch (let* parts := verifyClientToken token allow in ret (Ok parts))
    (fun e => ret (Throw (errFromLicensing e))).

(** The license and usage ids the claims name. *)
Definition claimed_ids (payload : jsval) : result HandlerResponse (jsstr * jsstr) :=
  match get_prop payload (js "license_id"), get_prop payload (js "usage_id") with
  | JStr l, JStr u => Ok (l, u)
  | _, _ => refusal 401 "TokenMalformed" (js "token missing required claims")
  end.

Definition reissue_for (licenseId usageId : jsstr) : prog W (result HandlerResponse Reissued) :=
  let* license := getLicense licenseId in
  match license with
  | None => ret (refusal 404 "LicenseNotFound" (js "license not found: " ++ licenseId))
  | Some license =>
      let* usage := getUsage usageId in
      match usage with
      | None => ret (refusal 404 "NotFound" (js "usage not found: " ++ usageId))
      | Some usage =>
          if bool_decide (u_license_id usage <> l_id license)
          then ret (refusal 401 "TokenMalformed" (js "token usage does not belong to token license"))
          else if bool_decide (u_status usage <> u_active)
          then ret (refusal 403 "LicenseRevoked" (js "usage " ++ u_id usage ++ js " is no longer active"))
          else
            let* issued := issueToken fuel codecs (cc_backends ctx) (issue_request ctx license usage) in
            let* decoded := lift (decodeUnverified codecs (ir_token issued)) in
            let* expiresAt := lift (isoOf (ir_exp issued)) in
            let* foa := lift (match get_prop (e_payload decoded) (js "force_online_after") with
                              | JNum foa => let? t := isoOf foa in Ok (Some t)
                              | _ => Ok None
                              end) in
            ret (Ok (mkReissued (ir_token issued) expiresAt foa))
      end
  end.

Definition reissueFromToken (token : jsstr) (allow : jsnum) : prog W (result HandlerResponse Reissued) :=
  let* parts := verified_parts token allow in
  match parts with
  | Throw response => ret (Throw response)
  | Ok parts =>
      match claimed_ids (e_payload parts) with
      | Throw response => ret (Throw response)
      | Ok (licenseId, usageId) => reissue_for licenseId usageId
      end
  end.

Definition refresh_body (token : jsstr) : prog W HandlerResponse :=
  let ttl := token_ttl ctx in
  let* result := reissueFromToken token ttl in
  match result with
  | Throw response => ret response
  | Ok r =>
      let* now := nowIso in
      let* refresh_at := lift (isoOf (num_add (unixSeconds now) (refresh_mark ttl))) in
      ret (respond (token_body (ri_token r) (ri_expiresAt r) refresh_at (ri_foa r)) 200)
  end.

Definition handleRefresh (req : HandlerRequest) : prog W HandlerResponse :=
  checked (requireJsonObject req) (fun body =>
  checked (requireString body (js "token")) (fun token =>
  try_catch (refresh_body token) (fun e => ret (errFromLicensing e)))).

Definition heartbeat_body (token : jsstr) : prog W HandlerResponse :=
  let* parts := verified_parts token (num_of_Z 0) in
  match parts with
  | Throw response => ret response
  | Ok parts =>
      match claimed_ids (e_payload parts) with
      | Throw response => ret response
      | Ok (licenseId, usageId) =>
          let* license := getLicense licenseId in
          match license with
          | None => ret (err 404 (js "LicenseNotFound") (js "license not found: " ++ licenseId) None)
          | Some license =>
              if bool_decide (l_status license = revoked)
              then ret (err 403 (js "LicenseRevoked") (js "license is revoked") None)
              else if bool_decide (l_status license = suspended)
              then ret (err 403 (js "LicenseSuspended") (js "license is suspended") None)
              else
                let* usage := getUsage usageId in
                if bool_decide (u_status <$> usage = Some u_active) then
                  let* seen := nowIso in
                  do* updateUsage usageId (mkUsagePatch None None (Some seen) None);
                  ret (respond (plain [(js "ok", JBool true); (js "server_time", JStr seen)]) 200)
                else ret (err 403 (js "LicenseRevoked") (js "usage " ++ usageId ++ js " is no longer active") None)
          end
      end
  end.

Definition handleHeartbeat (req : HandlerRequest) : prog W HandlerResponse :=
  checked (requireJsonObject req) (fun body =>
  checked (requireString body (js "token")) (fun token =>
  try_catch (heartbeat_body token) (fun e => ret (errFromLicensing e)))).

Definition deactivate_body (token reason : jsstr) : prog W HandlerResponse :=
  let* parts := verified_parts token (num_of_Z 0) in
  match parts with
  | Throw response => ret response
  | Ok parts =>
      match get_prop (e_payload parts) (js "usage_id") with
      | JStr usageId =>
          let* usage := getUsage usageId in
          match usage with
          | None => ret (err 404 (js "NotFound") (js "usage not found: " ++ usageId) None)
          | Some usage =>
              do* (if bool_decide (u_status usage <> u_revoked)
                   then do* revokeUsage usageId (actor_only (Some (js "client:" ++ reason))); ret tt
                   else ret tt);
              ret noContent
          end
      | _ => ret (err 401 (js "TokenMalformed") (js "token missing usage_id") None)
      end
  end.

Definition handleDeactivate (req : HandlerRequest) : prog W HandlerResponse :=
  checked (requireJsonObject req) (fun body =>
  checked (requireString body (js "token")) (fun token =>
  checked (requireString body (js "reason")) (fun reason =>
  if negb (bool_decide (reason ∈ reasons)) then ret (bad_request (js "invalid reason: " ++ reason))
  else try_catch (deactivate_body token reason) (fun e => ret (errFromLicensing e))))).

(** The routes, all public: the body authenticates. *)
Definition clientRoutes (prefix : jsstr) : list (Route W) := [
  mkRoute GET (prefix ++ js "/health") (fun _ _ => handleHealth) (Some true);
  mkRoute POST (prefix ++ js "/activate") (fun req _ => handleActivate req) (Some true);
  mkRoute POST (prefix ++ js "/refresh") (fun req _ => handleRefresh req) (Some true);
  mkRoute POST (prefix ++ js "/heartbeat") (fun req _ => handleHeartbeat req) (Some true);
  mkRoute POST (prefix ++ js "/deactivate") (fun req _ => handleDeactivate req) (Some true)
].
End ClientHandlers.
