(* ===== verification/ClientHandlersProps.v ===== *)
(** * ClientHandlersProps: only an authentic token moves a seat

    The endpoints that take a token, on the memory adapter. *)

From S2P Require Import Prelude Errors JsNum JsArith Text Json Types Crypto TokenCodec Lic1 Lic2 Tokens Id Cursor Storage Pages LicenseKeyFormat Memory MemoryLaws Lifecycle LicenseService UsageService UsageProps EncryptedPkcs8 EncryptedPkcs8Props KeyHierarchy KeyHierarchyProps TokenService ValidateProps TokenProps Quiet Http ClientHandlers.

(** ** Handlers that answer *)

(** A refusal: an error envelope with a status of the 4xx or 5xx. *)
Definition refuses (resp : HandlerResponse) : Prop :=
  exists st code message, 400 <= st /\ resp = err st code message None.

Lemma refuses_err st code message : 400 <= st -> refuses (err st code message None).
Proof. intros H. by exists st, code, message. Qed.
#[local] Hint Extern 0 (refuses _) => (apply refuses_err; done) : core.

Section Outcome.
Context {EM : ErrorMessages} (w : World) (good : HandlerResponse -> World -> Prop).

(** From [w1], with the tables of [w], [c] fails or refuses without writing,
    or ends well. *)
Definition outcome (c : prog World HandlerResponse) (w1 : World) : Prop :=
  match c w1 with
  | (Ok resp, w') => (refuses resp /\ same_db w w') \/ good resp w'
  | (Throw _, w') => same_db w w'
  end.

Lemma outcome_bind {A} (c : prog World A) k w1 :
  quiet c -> same_db w w1 ->
  (forall a w2, c w1 = (Ok a, w2) -> same_db w w2 -> outcome (k a) w2) -> outcome (bind c k) w1.
Proof.
  intros Hc Hs Hk. unfold outcome, bind. specialize (Hc w1). destruct (c w1) as [[a|e] w2] eqn:E; cbn [snd] in Hc.
  - exact (Hk a w2 eq_refl (same_trans (W := World) _ _ _ Hs Hc)).
  - exact (same_trans (W := World) _ _ _ Hs Hc).
Qed.

Lemma outcome_refuse resp w1 : same_db w w1 -> refuses resp -> outcome (ret resp) w1.
Proof. intros Hs Hr. by left. Qed.

Lemma outcome_good resp w1 : good resp w1 -> outcome (ret resp) w1.
Proof. by right. Qed.

Lemma errFromLicensing_refuses e : refuses (errFromLicensing e).
Proof. destruct e as [[]| | | |]; by apply refuses_err. Qed.

Lemma outcome_assoc {A B} (c : prog World A) (k : A -> prog World B) h w1 :
  outcome (bind c (fun a => bind (k a) h)) w1 -> outcome (bind (bind c k) h) w1.
Proof. unfold outcome. by rewrite bind_assoc. Qed.

(** What the handler answers. *)
Definition answers (c : prog World HandlerResponse) (w1 : World) : Prop :=
  exists resp w', c w1 = (Ok resp, w') /\ ((refuses resp /\ same_db w w') \/ good resp w').

Lemma answers_try c w1 : outcome c w1 -> answers (try_catch c (fun e => ret (errFromLicensing e))) w1.
Proof.
  unfold outcome, answers, try_catch. destruct (c w1) as [[resp|e] w']; intros H; [by exists resp, w'|].
  eexists _, w'. split; [done|]. left. split; [apply errFromLicensing_refuses|done].
Qed.

Lemma answers_ret resp w1 : same_db w w1 -> refuses resp -> answers (ret resp) w1.
Proof. intros Hs Hr. exists resp, w1. split; [done|]. by left. Qed.

Lemma answers_checked {A} (v : ValidationResult A) k w1 :
  same_db w w1 -> (forall resp, v = Throw resp -> refuses resp) ->
  (forall a, v = Ok a -> answers (k a) w1) -> answers (checked v k) w1.
Proof. intros Hs Hr Hk. destruct v as [a|resp]; cbn; [by apply Hk|]. apply answers_ret; [done|by apply Hr]. Qed.
End Outcome.

Lemma requireJsonObject_refusal req resp : requireJsonObject req = Throw resp -> refuses resp.
Proof. unfold requireJsonObject. destruct (q_body req); intros H; simplify_eq; by apply refuses_err. Qed.

Lemma requireString_refusal obj key resp : requireString obj key = Throw resp -> refuses resp.
Proof. unfold requireString. destruct (get_prop obj key) as [| | | |[]| | | | | |]; intros H; simplify_eq; by apply refuses_err. Qed.

Lemma requireString_value obj key v : requireString obj key = Ok v -> get_prop obj key = JStr v.
Proof. unfold requireString. destruct (get_prop obj key) as [| | | |[|c s]| | | | | |]; intros H; inversion H; try done. Qed.

Lemma requireJsonObject_value req v : requireJsonObject req = Ok v -> v = q_body req.
Proof. unfold requireJsonObject. destruct (q_body req); intros H; by simplify_eq. Qed.

(** ** Verifying a token against the stored key *)

Section Calls.
Context {KH : KeyHandles} {P : Pbes2} {SH : Sha256} {DP : DateParse} {CM : CaseMap} {EM : ErrorMessages}.
Context (fuel : nat) (codecs : Codecs) (ctx : ClientHandlerContext World).

(** The token decodes, its kid names a stored key, that key is of the
    algorithm in the header and its public half verifies the signature, and
    the times in the claims admit it now, [allow] seconds past its end. *)
Definition authentic (w : World) (token : jsstr) (allow : jsnum) (parts : DecodedEnvelope) : Prop :=
  decodeUnverified codecs token = Ok parts
  /\ exists stored backend pk now,
       stored ∈ rows (s_keys (w_state w)) /\ k_kid stored = h_kid (e_header parts)
       /\ k_alg stored = h_alg (e_header parts)
       /\ map_get (cc_backends ctx) (k_alg stored) = Some backend
       /\ b_importPublic backend (PemMaterial (mkPem None (k_public_pem stored))) = Ok pk
       /\ b_verify backend pk (e_signingInput parts) (e_signature parts) = Ok true
       /\ (nowIso w).1 = Ok now /\ check_times (e_payload parts) (unixSeconds now) allow = Ok tt.

Lemma verify_stored_ok stored token parts :
  verify_stored codecs ctx stored token = Ok parts ->
  decodeUnverified codecs token = Ok parts /\ k_alg stored = h_alg (e_header parts)
  /\ exists backend pk, map_get (cc_backends ctx) (k_alg stored) = Some backend
       /\ b_importPublic backend (PemMaterial (mkPem None (k_public_pem stored))) = Ok pk
       /\ b_verify backend pk (e_signingInput parts) (e_signature parts) = Ok true.
Proof.
  unfold verify_stored. destruct (map_get _ _) as [backend|]; [|done].
  intros (registry & Hreg & (bindings & Hbind & H)%rbind_ok_inv)%rbind_ok_inv.
  unfold registry_register in Hreg. cbn in Hreg. apply Ok_inj in Hreg as <-.
  unfold bindings_bind in Hbind. cbn in Hbind. apply Ok_inj in Hbind as <-.
  unfold verify in H. apply rbind_ok_inv in H as (parts' & Hd & H). cbn [v_registry v_bindings v_keys] in H.
  apply rbind_ok_inv in H as (alg & He & H). apply rbind_ok_inv in H as (b & Hb & H).
  apply bindings_expect_ok in He as [He Halg]. unfold bindings_get in He. cbn in He. case_decide as Hkid; [|done].
  injection He as <-. apply alg_str_inj in Halg.
  unfold registry_get in Hb. rewrite (proj2 (alg_of_str_spec _ (h_alg (e_header parts'))) eq_refl) in Hb.
  cbn in Hb. case_decide; [|done]. apply Ok_inj in Hb as <-.
  cbn in H. rewrite decide_True in H by done. destruct (bool_decide _); [done|].
  apply rbind_ok_inv in H as (pk & Hpk & H). apply rbind_ok_inv in H as ([|] & Hok & H); [|done].
  apply Ok_inj in H as <-. split; [done|]. split; [done|]. by exists backend, pk.
Qed.

Lemma quiet_verifyClientToken token allow : quiet (verifyClientToken codecs ctx token allow).
Proof. unfold verifyClientToken. quiet_steps. Qed.

Lemma quiet_verified_parts token allow : quiet (verified_parts codecs ctx token allow).
Proof. unfold verified_parts. pose proof quiet_verifyClientToken. quiet_steps. Qed.

Lemma verifyClientToken_ok token allow (w w' : World) parts :
  verifyClientToken codecs ctx token allow w = (Ok parts, w') -> authentic w token allow parts.
Proof.
  intros (header & w1 & Hd & H)%bind_ok_inv. apply lift_ok_inv in Hd as [Hd ->].
  apply bind_ok_inv in H as (found & w1 & Hk & H). apply Ok_pair_inj in Hk as [<- <-].
  destruct (List.find _ _) as [stored|] eqn:Ef; [|done]. apply find_some in Ef as [Hin Hkid].
  apply bind_ok_inv in H as (parts' & w1 & Hv & H). apply lift_ok_inv in Hv as [Hv ->].
  apply bind_ok_inv in H as (now & w1 & Hn & H). apply bind_ok_inv in H as ([] & w2 & Ht & H).
  apply lift_ok_inv in Ht as [Ht ->]. apply Ok_pair_inj in H as [<- _].
  apply verify_stored_ok in Hv as (Hd' & Halg & backend & pk & Hb & Hpk & Hok). rewrite Hd in Hd'.
  apply Ok_inj in Hd' as ->. unfold str_eqb in Hkid. bool_prop.
  split; [done|]. exists stored, backend, pk, now. split_and!; try done; [by apply list_elem_of_In|].
  by rewrite Hn.
Qed.

(** Either the token is authentic, or there is a refusal to send. *)
Lemma verified_parts_run token allow (w w' : World) r :
  verified_parts codecs ctx token allow w = (r, w') ->
  same_db w w' /\ ((exists parts, r = Ok (Ok parts) /\ authentic w token allow parts)
                  \/ exists resp, r = Ok (Throw resp) /\ refuses resp).
Proof.
  intros H. split; [exact (quiet_same _ _ _ _ (quiet_verified_parts token allow) H)|].
  unfold verified_parts, try_catch, bind in H.
  destruct (verifyClientToken codecs ctx token allow w) as [[parts|e] w1] eqn:E.
  - unfold ret in H. injection H as <- <-. left. exists parts. split; [done|]. by eapply verifyClientToken_ok.
  - unfold ret in H. injection H as <- <-. right. eexists. split; [done|]. apply errFromLicensing_refuses.
Qed.

Lemma claimed_ids_ok payload l u :
  claimed_ids payload = Ok (l, u) ->
  get_prop payload (js "license_id") = JStr l /\ get_prop payload (js "usage_id") = JStr u.
Proof.
  unfold claimed_ids. destruct (get_prop payload (js "license_id")); try done.
  destruct (get_prop payload (js "usage_id")); try done. by intros [= <- <-].
Qed.

Lemma claimed_ids_refusal payload resp : claimed_ids payload = Throw resp -> refuses resp.
Proof.
  unfold claimed_ids. destruct (get_prop payload (js "license_id")); try (intros [= <-]; by apply refuses_err).
  destruct (get_prop payload (js "usage_id")); intros [= <-]; by apply refuses_err.
Qed.

(** ** The calls that present a token *)

Inductive SeatCall : Type := CallRefresh | CallHeartbeat | CallDeactivate.

Definition seat_call (c : SeatCall) (req : HandlerRequest) : prog World HandlerResponse :=
  match c with
  | CallRefresh => handleRefresh fuel codecs ctx req
  | CallHeartbeat => handleHeartbeat codecs ctx req
  | CallDeactivate => handleDeactivate codecs ctx req
  end.

(** Seconds past its end a call still takes a token. *)
Definition seat_allow (c : SeatCall) : jsnum :=
  match c with CallRefresh => token_ttl ctx | _ => num_of_Z 0 end.

Definition claims (payload : jsval) (l u : jsstr) : Prop :=
  get_prop payload (js "license_id") = JStr l /\ get_prop payload (js "usage_id") = JStr u.

(** A new token for the license and the active seat the claims name; nothing
    stored changes. *)
Definition reissued (parts : DecodedEnvelope) (resp : HandlerResponse) (w w' : World) : Prop :=
  w_state w' = w_state w
  /\ exists l u license usage wi issued wi', claims (e_payload parts) l u
     /\ map_get (s_licenses (w_state w)) l = Some license /\ map_get (s_usages (w_state w)) u = Some usage
     /\ u_license_id usage = l_id license /\ u_status usage = u_active /\ same_db w wi
     /\ issueToken fuel codecs (cc_backends ctx) (issue_request ctx license usage) wi = (Ok issued, wi')
     /\ exists data, resp = respond data 200 /\ get_prop data (js "token") = JStr (ir_token issued).

(** The last sign of life of the active seat the claims name. *)
Definition seen_seat (parts : DecodedEnvelope) (w w' : World) : Prop :=
  exists l u license usage seen stamp, claims (e_payload parts) l u
    /\ map_get (s_licenses (w_state w)) l = Some license
    /\ l_status license <> revoked /\ l_status license <> suspended
    /\ map_get (s_usages (w_state w)) u = Some usage /\ u_status usage = u_active
    /\ w_state w' = set_usages (map_set (s_usages (w_state w)) u
                      (patch_usage usage (mkUsagePatch None None (Some seen) None) stamp)) (w_state w).

(** The seat the claims name is revoked, by one update and one audit row,
    unless it already was. *)
Definition seat_freed (parts : DecodedEnvelope) (w w' : World) : Prop :=
  exists u usage, get_prop (e_payload parts) (js "usage_id") = JStr u
    /\ map_get (s_usages (w_state w)) u = Some usage
    /\ if bool_decide (u_status usage = u_revoked) then w_state w' = w_state w
       else exists next aid row, u_status next = u_revoked /\ a_event row = js "usage.revoked"
              /\ a_license_id row = Some (u_license_id usage)
              /\ w_state w' = set_audit (map_set (s_audit (w_state w)) aid row)
                   (set_usages (map_set (s_usages (w_state w)) u next) (w_state w)).

Definition seat_effect (c : SeatCall) (parts : DecodedEnvelope) (resp : HandlerResponse) (w w' : World) : Prop :=
  match c with
  | CallRefresh => reissued parts resp w w'
  | CallHeartbeat => seen_seat parts w w'
  | CallDeactivate => seat_freed parts w w'
  end.

(** A success: an authentic token was presented, and had its effect. *)
Definition succeeded (c : SeatCall) (token : jsstr) (w : World) (resp : HandlerResponse) (w' : World) : Prop :=
  r_status resp < 300
  /\ exists parts, authentic w token (seat_allow c) parts /\ seat_effect c parts resp w w'.

(** From verified parts on. *)
Lemma outcome_verified w c token (k : result HandlerResponse DecodedEnvelope -> prog World HandlerResponse) :
  (forall resp, k (Throw resp) = ret resp) ->
  (forall parts w1, same_db w w1 -> authentic w token (seat_allow c) parts ->
     outcome w (succeeded c token w) (k (Ok parts)) w1) ->
  outcome w (succeeded c token w) (bind (verified_parts codecs ctx token (seat_allow c)) k) w.
Proof.
  intros Ht Hk. apply outcome_bind; [apply quiet_verified_parts|exact (same_refl (W := World) w)|].
  intros r w1 Hr Hs. apply verified_parts_run in Hr as [_ [(parts & Hr & Ha)|(resp & Hr & Hge)]].
  - apply Ok_inj in Hr as ->. by apply Hk.
  - apply Ok_inj in Hr as ->. rewrite Ht. by apply outcome_refuse.
Qed.

Lemma outcome_read {A} w good (f : State -> A) (c : prog World A) k w1 :
  (forall v, c v = (Ok (f (w_state v)), v)) -> same_db w w1 ->
  outcome w good (k (f (w_state w))) w1 -> outcome w good (bind c k) w1.
Proof. intros Hc [Hs Hd] Hk. unfold outcome, bind in *. by rewrite Hc, Hs. Qed.

Lemma heartbeat_outcome w token :
  outcome w (succeeded CallHeartbeat token w) (heartbeat_body codecs ctx token) w.
Proof.
  apply (outcome_verified w CallHeartbeat); [done|]. intros parts w1 Hs Ha.
  destruct (claimed_ids (e_payload parts)) as [[l u]|resp] eqn:Ec;
    [|apply outcome_refuse; [done|by eapply claimed_ids_refusal]].
  apply claimed_ids_ok in Ec.
  apply (outcome_read _ _ (fun s => map_get (s_licenses s) l)); [done..|].
  destruct (map_get (s_licenses (w_state w)) l) as [license|] eqn:El; [|by apply outcome_refuse].
  destruct (bool_decide (l_status license = revoked)) eqn:E1; [by apply outcome_refuse|].
  destruct (bool_decide (l_status license = suspended)) eqn:E2; [by apply outcome_refuse|].
  apply (outcome_read _ _ (fun s => map_get (s_usages s) u)); [done..|].
  destruct (bool_decide (u_status <$> _ = _)) eqn:E3; [|by apply outcome_refuse]. bool_prop.
  destruct (map_get (s_usages (w_state w)) u) as [usage|] eqn:Eu; [|done]. injection E3 as E3.
  apply outcome_bind; [apply quiet_nowIso|done|]. intros seen w2 _ Hs2.
  unfold outcome, bind. destruct (updateUsage u _ w2) as [r w3] eqn:Eup.
  apply (wrote_result _ _ _ _ _ (mem_updateUsage_wrote u _ w2)) in Eup as [Hd Hup].
  destruct Hs2 as [Hst Hdep]. destruct r as [row|e]; [|split; congruence].
  destruct Hup as (cur & stamp & Hcur & -> & _ & Hs'). rewrite Hst in Hcur, Hs'. rewrite Eu in Hcur.
  injection Hcur as <-. right. split; [done|]. exists parts. split; [done|].
  exists l, u, license, usage, seen, stamp. by split_and!.
Qed.

Lemma deactivate_outcome w token reason :
  tx_depth w = 0 -> state_ok (w_state w) ->
  outcome w (succeeded CallDeactivate token w) (deactivate_body codecs ctx token reason) w.
Proof.
  intros Hdep Hok. apply (outcome_verified w CallDeactivate); [done|]. intros parts w1 Hs Ha.
  destruct (get_prop (e_payload parts) (js "usage_id")) eqn:Ec; try by apply outcome_refuse.
  apply (outcome_read _ _ (fun st => map_get (s_usages st) s)); [done..|].
  destruct (map_get (s_usages (w_state w)) s) as [usage|] eqn:Eu; [|by apply outcome_refuse].
  destruct Hs as [Hst Hd].
  destruct (bool_decide (u_status usage <> u_revoked)) eqn:Er.
  - unfold outcome, bind. destruct (revokeUsage s _ w1) as [r w2] eqn:Erun.
    set (opts := actor_only _) in Erun. pose proof (revoke_run s opts w1 r w2) as H. cbn [tables tx_depth memory_laws] in H. rewrite Hst, Eu in H.
    apply bool_decide_eq_true in Er.
    specialize (H Hok). rewrite Hd in H. specialize (H Hdep Erun). rewrite bool_decide_false in H by done.
    assert (Hd2 : w_txDepth w2 = w_txDepth w).
    { transitivity 0; [|done]. refine (proj2 (keeps_tx _ w1 r w2 (keeps_revoke s opts) (eq_trans Hd Hdep) Erun _)).
      cbn. by rewrite Hst. }
    destruct r as [next|e]; [|by split; [apply H|]].
    destruct H as (Hn & _ & _ & aid & row & He & Hl & Hs'). right. split; [done|]. exists parts. split; [done|].
    exists s, usage. split; [done|]. split; [done|]. rewrite bool_decide_false by done. by exists next, aid, row.
  - apply bool_decide_eq_false in Er. apply dec_stable in Er. rename Er into Hrev.
    right. split; [done|]. exists parts. split; [done|]. exists s, usage. split; [done|]. split; [done|].
    by rewrite bool_decide_true.
Qed.

Lemma refresh_outcome w token :
  cc_transparencyHook ctx = None ->
  outcome w (succeeded CallRefresh token w) (refresh_body fuel codecs ctx token) w.
Proof.
  intros Hhook. unfold refresh_body, reissueFromToken. apply outcome_assoc.
  apply (outcome_verified w CallRefresh); [done|]. intros parts w1 Hs Ha.
  destruct (claimed_ids (e_payload parts)) as [[l u]|resp] eqn:Ec;
    [|apply (outcome_refuse w _ resp w1); [done|by eapply claimed_ids_refusal]].
  apply claimed_ids_ok in Ec. unfold reissue_for. apply outcome_assoc.
  apply (outcome_read _ _ (fun s => map_get (s_licenses s) l)); [done..|].
  destruct (map_get (s_licenses (w_state w)) l) as [license|] eqn:El;
    [|exact (outcome_refuse w _ (err 404 _ _ None) w1 Hs ltac:(done))].
  apply outcome_assoc. apply (outcome_read _ _ (fun s => map_get (s_usages s) u)); [done..|].
  destruct (map_get (s_usages (w_state w)) u) as [usage|] eqn:Eu;
    [|exact (outcome_refuse w _ (err 404 _ _ None) w1 Hs ltac:(done))].
  destruct (bool_decide (u_license_id usage <> l_id license)) eqn:E1;
    [exact (outcome_refuse w _ (err 401 _ _ None) w1 Hs ltac:(done))|].
  destruct (bool_decide (u_status usage <> u_active)) eqn:E2;
    [exact (outcome_refuse w _ (err 403 _ _ None) w1 Hs ltac:(done))|].
  apply bool_decide_eq_false, dec_stable in E1. apply bool_decide_eq_false, dec_stable in E2.
  apply outcome_assoc, outcome_bind; [apply quiet_issueToken; auto with quiet|done|]. intros issued w2 Hi Hs2.
  do 3 (apply outcome_assoc, outcome_bind; [apply quiet_lift|done|]; intros ? ? _ ?).
  apply outcome_bind; [apply quiet_ret|done|]. intros res w5 Hres _. apply Ok_pair_inj in Hres as [<- <-].
  apply outcome_bind; [apply quiet_nowIso|done|]. intros now w6 _ Hs6.
  apply outcome_bind; [apply quiet_lift|done|]. intros refresh_at w7 _ Hs7. right. split; [done|].
  exists parts. split; [done|]. split; [apply Hs7|]. exists l, u, license, usage, w1, issued, w2.
  split_and!; try done. by eexists.
Qed.

(** The checks on the body, then the work under its [try]. *)
Lemma answers_token w c req (rest : jsval -> jsstr -> prog World HandlerResponse) :
  (forall body token, get_prop (q_body req) (js "token") = JStr token ->
     answers w (succeeded c token w) (rest body token) w) ->
  exists resp w',
    checked (requireJsonObject req) (fun body =>
    checked (requireString body (js "token")) (fun token => rest body token)) w = (Ok resp, w')
    /\ ((refuses resp /\ tables w' = tables w)
        \/ exists token, get_prop (q_body req) (js "token") = JStr token /\ succeeded c token w resp w').
Proof.
  intros H. destruct (requireJsonObject req) as [body|resp] eqn:Eb; cbn [checked];
    [|exists resp, w; split; [done|]; left; split; [by eapply requireJsonObject_refusal|done]].
  destruct (requireString body (js "token")) as [token|resp] eqn:Et; cbn [checked];
    [|exists resp, w; split; [done|]; left; split; [by eapply requireString_refusal|done]].
  apply requireJsonObject_value in Eb as ->. apply requireString_value in Et.
  destruct (H (q_body req) token Et) as (resp & w' & Hr & Hout). exists resp, w'. split; [exact Hr|].
  destruct Hout as [[Hge [Hs _]]|Hg]; [by left|right; by exists token].
Qed.

Lemma seat_call_run c req w :
  cc_transparencyHook ctx = None -> tx_depth w = 0 -> state_ok (tables w) ->
  exists resp w', seat_call c req w = (Ok resp, w')
    /\ ((refuses resp /\ tables w' = tables w)
        \/ exists token, get_prop (q_body req) (js "token") = JStr token /\ succeeded c token w resp w').
Proof.
  intros Hhook Houtside Hok. destruct c.
  - apply answers_token. intros body token _. by apply answers_try, refresh_outcome.
  - apply answers_token. intros body token _. by apply answers_try, heartbeat_outcome.
  - apply (answers_token w CallDeactivate req (fun body token =>
      checked (requireString body (js "reason")) (fun reason =>
      if negb (bool_decide (reason ∈ reasons)) then ret (bad_request (js "invalid reason: " ++ reason))
      else try_catch (deactivate_body codecs ctx token reason) (fun e => ret (errFromLicensing e))))).
    intros body token _. apply answers_checked; [by split|by apply requireString_refusal|]. intros reason _.
    destruct (negb _); [by apply answers_ret|]. by apply answers_try, deactivate_outcome.
Qed.
End Calls.

(** ** A device that holds a token *)

#[global] Instance no_messages : ErrorMessages := {| error_message := fun _ => [] |}.

Definition seat_world (iso : Instant) : World :=
  mkWorld (mkState [(js "l1", issue_license)] [] [] [(js "u1", issue_usage)] [(k_id the_signer, the_signer)] [] []) 0
    (fixedClock 1767225600000 iso) Z.of_nat.
Definition seat_ctx : ClientHandlerContext World :=
  mkClientContext toy_backends (js "1.0") None None (Some LIC2) (js "sign-pw") None None.
Definition token_request (token : jsstr) : HandlerRequest :=
  mkRequest POST (js "/heartbeat") [] [] (plain [(js "token", JStr token); (js "reason", JStr (js "other"))]) [] None.

Lemma seat_world_ok iso : state_ok (tables (seat_world iso)).
Proof.
  destruct emptyState_ok. split; try assumption; try (by apply keyed_singleton); try apply unique_singleton.
  apply Forall_singleton. vm_compute. reflexivity.
Qed.


(** The status each call answers a request with. *)
Definition call_status (c : SeatCall) (req : HandlerRequest) (iso : Instant) : option Z :=
  match (seat_call 1 default_codecs seat_ctx c req (seat_world iso)).1 with Ok resp => Some (r_status resp) | Throw _ => None end.

Example calls_with_a_token :
  map (fun c => call_status c (token_request (ir_token issue_result)) issue_iso) [CallRefresh; CallHeartbeat; CallDeactivate]
  = [Some 200; Some 200; Some 204].
Proof. vm_compute. reflexivity. Qed.

(** An hour and more after its end only the refresh still takes the token,
    and two hours after not even that. *)
Example calls_with_an_old_token :
  map (fun c => call_status c (token_request (ir_token issue_result)) (js "2026-01-01T01:59:59.000000Z")) [CallRefresh; CallHeartbeat; CallDeactivate]
  = [Some 200; Some 401; Some 401]
  /\ call_status CallRefresh (token_request (ir_token issue_result)) (js "2026-01-01T02:00:00.000000Z") = Some 401.
Proof. vm_compute. split; reflexivity. Qed.

(** A token whose kid names no stored key is answered 404, not the 401 the
    comment on the throw promises. *)
Example unknown_kid_is_not_found :
  r_status (errFromLicensing (errors.unknownKid (js "k"))) = 404.
Proof. reflexivity. Qed.
