(* ===== verification/ClientOnline.v ===== *)
(** * ClientOnline: the client's calls to the issuer

    [src/typescript/src/client/]: the transport ([transport.ts]) and the map
    of issuer codes ([errors.ts]), the token store ([token-store.ts], its
    in-memory form), activation, refresh with offline grace, heartbeat and
    deactivation. [fetch] is the environment's: it yields a response or fails.
    A response is its status and what its [json()] gives, if anything. *)

From S2P Require Import Prelude Errors JsNum JsArith Text Json Types Crypto TokenCodec Validate.

(** ** The token store *)

Record StoredTokenState : Type := mkStored { st_token : option jsstr; st_graceStartSec : option jsnum }.

Definition EMPTY_STATE : StoredTokenState := mkStored None None.

Class TokenStore (W : Type) : Type := {
  ts_read : prog W StoredTokenState;
  ts_write : StoredTokenState -> prog W unit;
  ts_clear : prog W unit
}.

Definition MemoryTokenStore : Type := StoredTokenState.
#[global] Instance memory_token_store : TokenStore MemoryTokenStore := {|
  ts_read := fun s => (Ok s, s);
  ts_write := fun s _ => (Ok tt, s);
  ts_clear := fun _ => (Ok tt, EMPTY_STATE)
|}.

(** ** Transport *)

Record Response : Type := mkNetResponse { rs_status : Z; rs_json : option jsval }.

(** [fetchImpl(url, { method: 'POST', headers, body })]; [None] is a failure of
    the network or an abort. *)
Class Network (W : Type) : Type := {
  fetchImpl : jsstr -> list (jsstr * jsstr) -> jsval -> prog W (option Response)
}.

Record TransportOptions : Type := mkTransport { tr_baseUrl : jsstr; tr_headers : list (jsstr * jsstr) }.

Definition ends_with_slash (s : jsstr) : bool := bool_decide (last s = Some 47).
Definition starts_with_slash (s : jsstr) : bool := bool_decide (head s = Some 47).

Definition joinUrl (base path : jsstr) : jsstr :=
  if ends_with_slash base && starts_with_slash path then base ++ drop 1 path
  else if negb (ends_with_slash base) && negb (starts_with_slash path) then base ++ [47] ++ path
  else base ++ path.

(** [v.k], which throws on [undefined] and [null]. *)
Definition member (v : jsval) (k : String.string) : res jsval :=
  match v with JUndefined | JNull => Throw PlainError | _ => Ok (get_prop v (js k)) end.

(** The entry of [ISSUER_CODE_MAP]. *)
Definition ISSUER_CODE_MAP (code : jsstr) : option ClientErrorCode :=
  map_get [(js "InvalidLicenseKey", CInvalidLicenseKey); (js "FingerprintRejected", CFingerprintMismatch);
           (js "SeatLimitExceeded", CSeatLimitExceeded); (js "LicenseRevoked", CLicenseRevoked);
           (js "LicenseSuspended", CLicenseSuspended); (js "LicenseExpired", CTokenExpired);
           (js "RateLimited", CRateLimited); (js "UnknownKid", CUnknownKid);
           (js "AlgorithmMismatch", CAlgorithmMismatch); (js "UnsupportedAlgorithm", CUnsupportedAlgorithm)] code.

(** The lookup also finds what the map inherits from [Object.prototype]: then
    the error has no code of the union, which every caller treats as it treats
    an unexpected error. *)
Definition fromIssuerCode (code : jsstr) : exn :=
  match ISSUER_CODE_MAP code with
  | Some known => ClientError known
  | None => if bool_decide (code ∈ object_proto_names) then PlainError else clientErrors.issuerUnreachable
  end.

(** [parsed.error?.code ?? 'Unknown'] as a property key; a code that is no
    string, nor a list of one, names no entry. *)
Fixpoint key_text (v : jsval) : jsstr :=
  match v with
  | JStr s => s
  | JArr [x] => key_text x
  | _ => js "Unknown"
  end.

Definition envelope_code (parsed : jsval) : jsstr :=
  match get_prop parsed (js "error") with
  | JUndefined | JNull => js "Unknown"
  | e => key_text (get_prop e (js "code"))
  end.

(** What [postJson] makes of a response. *)
Definition read_envelope (response : Response) : res jsval :=
  if rs_status response =? 429 then Throw clientErrors.rateLimited
  else match rs_json response with
  | None => Throw clientErrors.issuerUnreachable
  | Some parsed =>
      if negb (is_object parsed) || negb (has_prop parsed (js "success")) then Throw clientErrors.issuerUnreachable
      else match get_prop parsed (js "success") with
           | JBool true => Ok (get_prop parsed (js "data"))
           | _ => Throw (fromIssuerCode (envelope_code parsed))
           end
  end.

Section Online.
Context {KH : KeyHandles} {W : Type} {TS : TokenStore W} {NW : Network W}.

Definition postJson (path : jsstr) (body : jsval) (opts : TransportOptions) : prog W jsval :=
  let url := joinUrl (tr_baseUrl opts) path in
  let headers := [(js "content-type", js "application/json"); (js "accept", js "application/json")] ++ tr_headers opts in
  let* response := fetchImpl url headers body in
  match response with
  | None => throw clientErrors.issuerUnreachable
  | Some response => lift (read_envelope response)
  end.

(** ** Activation *)

Record ActivateOptions : Type := mkActivate {
  ac_transport : TransportOptions;
  ac_fingerprint : jsstr;
  ac_path : option jsstr;
  ac_metadata : option jsval
}.

Record ActivateResult : Type := mkActivated { ar_token : jsstr; ar_usage_id : jsstr; ar_license_id : jsstr }.

(** The checks on the issuer's [data]. *)
Definition activated (data : jsval) : res ActivateResult :=
  let? token := member data "token" in
  match token with
  | JStr ((_ :: _) as token) =>
      match get_prop data (js "usage_id"), get_prop data (js "license_id") with
      | JStr usage_id, JStr license_id => Ok (mkActivated token usage_id license_id)
      | _, _ => Throw clientErrors.invalidTokenFormat
      end
  | _ => Throw clientErrors.invalidTokenFormat
  end.

Definition client_activate (licenseKey : jsstr) (opts : ActivateOptions) : prog W ActivateResult :=
  match licenseKey, ac_fingerprint opts with
  | [], _ => throw clientErrors.invalidLicenseKey
  | _, [] => throw clientErrors.fingerprintMismatch
  | _, _ =>
      let body := plain [(js "license_key", JStr licenseKey); (js "fingerprint", JStr (ac_fingerprint opts));
                         (js "metadata", given_or (ac_metadata opts) (plain []))] in
      let* data := postJson (given_or (ac_path opts) (js "/api/licensing/v1/activate")) body (ac_transport opts) in
      let* result := lift (activated data) in
      do* ts_write (mkStored (Some (ar_token result)) None);
      ret result
  end.

(** ** Refresh *)

Record RefreshOptions : Type := mkRefresh {
  rf_transport : TransportOptions;
  rf_nowSec : jsnum;
  rf_proactiveThreshold : option jsnum;
  rf_graceWindowSec : option jsnum;
  rf_path : option jsstr
}.

Inductive RefreshOutcome : Type :=
| Refreshed (token : jsstr)
| NotDue (token : jsstr)
| GraceEntered (token : jsstr) (graceStartSec : jsnum)
| GraceContinued (token : jsstr) (graceStartSec : jsnum).

Definition shouldProactiveRefresh (nbf exp nowSec threshold : jsnum) : bool :=
  if num_leb threshold (num_of_Z 0) then false
  else
    let lifetime := num_sub exp nbf in
    if num_leb lifetime (num_of_Z 0) then true
    else
      let remaining := num_sub exp nowSec in
      if num_leb remaining (num_of_Z 0) then true
      else num_ltb (num_div remaining lifetime) threshold.

Definition grace_window (opts : RefreshOptions) : jsnum := given_or (rf_graceWindowSec opts) (num_of_Z 604800).

(** [opts.nowSec > graceStartSec + graceWindow] *)
Definition grace_over (opts : RefreshOptions) (graceStartSec : jsnum) : bool :=
  num_ltb (num_add graceStartSec (grace_window opts)) (rf_nowSec opts).

Definition handleUnreachable (currentToken : jsstr) (existing : option jsnum) (opts : RefreshOptions) (forced : bool)
  : prog W RefreshOutcome :=
  if negb forced then ret (NotDue currentToken)
  else if num_leb (grace_window opts) (num_of_Z 0) && num_leb (num_of_Z 0) (grace_window opts)
  then throw clientErrors.requiresOnlineRefresh
  else match existing with
  | Some graceStartSec =>
      if grace_over opts graceStartSec then throw clientErrors.graceExpired
      else ret (GraceContinued currentToken graceStartSec)
  | None =>
      let graceStartSec := rf_nowSec opts in
      do* ts_write (mkStored (Some currentToken) (Some graceStartSec));
      ret (GraceEntered currentToken graceStartSec)
  end.

(** The network call, its answer stored. *)
Definition refresh_call (currentToken : jsstr) (opts : RefreshOptions) : prog W RefreshOutcome :=
  let* data := postJson (given_or (rf_path opts) (js "/api/licensing/v1/refresh"))
                 (plain [(js "token", JStr currentToken)]) (rf_transport opts) in
  let* token := lift (member data "token") in
  match token with
  | JStr ((_ :: _) as token) =>
      do* ts_write (mkStored (Some token) None);
      ret (Refreshed token)
  | _ => throw clientErrors.invalidTokenFormat
  end.

Definition client_refresh (codecs : Codecs) (opts : RefreshOptions) : prog W RefreshOutcome :=
  let* state := ts_read in
  match st_token state with
  | None => throw clientErrors.noToken
  | Some currentToken =>
      let* metadata := lift (peek codecs currentToken) in
      let threshold := given_or (rf_proactiveThreshold opts) (Fin 1 (-2)) in
      if match st_graceStartSec state with
         | Some g => num_ltb (num_of_Z 0) (grace_window opts) && grace_over opts g
         | None => false
         end
      then throw clientErrors.graceExpired
      else
        let forced := match pk_forceOnlineAfter metadata with
                      | Some f => num_leb f (rf_nowSec opts)
                      | None => false
                      end in
        let proactive := shouldProactiveRefresh (pk_nbf metadata) (pk_exp metadata) (rf_nowSec opts) threshold in
        if negb forced && negb proactive && bool_decide (st_graceStartSec state = None)
        then ret (NotDue currentToken)
        else
          try_catch (refresh_call currentToken opts)
            (fun e => if bool_decide (e = clientErrors.issuerUnreachable)
                      then handleUnreachable currentToken (st_graceStartSec state) opts forced
                      else throw e)
  end.

(** ** Heartbeat *)

Record HeartbeatOptions : Type := mkHeartbeat {
  hb_transport : TransportOptions;
  hb_intervalSec : option jsnum;
  hb_path : option jsstr;
  hb_onError : option (exn -> prog W unit);
  hb_onSuccess : option (prog W unit)
}.

Definition notify {A} (callback : option A) (call : A -> prog W unit) : prog W unit :=
  match callback with Some f => call f | None => ret tt end.

Definition tick_success (opts : HeartbeatOptions) (before : StoredTokenState) (token : jsstr) : prog W bool :=
  do* postJson (given_or (hb_path opts) (js "/api/licensing/v1/heartbeat")) (plain [(js "token", JStr token)])
        (hb_transport opts);
  let* stateAfter := ts_read in
  do* (if bool_decide (st_token stateAfter = st_token before) && bool_decide (st_graceStartSec stateAfter <> None)
       then ts_write (mkStored (st_token stateAfter) None) else ret tt);
  do* notify (hb_onSuccess opts) (fun f => f);
  ret true.

Definition tickOnce (opts : HeartbeatOptions) : prog W bool :=
  let* stateBefore := ts_read in
  match st_token stateBefore with
  | None => ret true
  | Some token =>
      try_catch (tick_success opts stateBefore token)
        (fun e =>
           do* (if bool_decide (e = clientErrors.licenseRevoked) || bool_decide (e = clientErrors.licenseSuspended)
                then let* stateNow := ts_read in
                     if bool_decide (st_token stateNow = st_token stateBefore) then ts_clear else ret tt
                else ret tt);
           do* notify (hb_onError opts) (fun f => f e);
           ret false)
  end.

Definition sendOneHeartbeat (opts : HeartbeatOptions) : prog W bool :=
  try_catch (tickOnce opts)
    (fun e => do* notify (hb_onError opts) (fun f => f match e with ClientError _ => e | _ => PlainError end); ret false).

(** ** Deactivation *)

Record DeactivateOptions : Type := mkDeactivate {
  da_transport : TransportOptions;
  da_licenseKey : jsstr;
  da_fingerprint : jsstr;
  da_path : option jsstr
}.

(** The result is [issuerConfirmed]. *)
Definition client_deactivate (reason : jsstr) (opts : DeactivateOptions) : prog W bool :=
  match reason with
  | [] => throw PlainError
  | _ =>
      let body := plain [(js "license_key", JStr (da_licenseKey opts)); (js "fingerprint", JStr (da_fingerprint opts));
                         (js "reason", JStr reason)] in
      try_catch
        (do* postJson (given_or (da_path opts) (js "/api/licensing/v1/deactivate")) body (da_transport opts);
         do* ts_clear;
         ret true)
        (fun e => if bool_decide (e = clientErrors.invalidLicenseKey) || bool_decide (e = clientErrors.licenseRevoked)
                  then do* ts_clear; ret false
                  else throw e)
  end.
End Online.
Arguments HeartbeatOptions : clear implicits.

(** ** The heartbeat scheduler *)

Definition MIN_INTERVAL_SEC : Z := 60.
Definition DEFAULT_INTERVAL_SEC : Z := 3600.

Definition heartbeat_interval (intervalSec : option jsnum) : jsnum :=
  num_max (given_or intervalSec (num_of_Z DEFAULT_INTERVAL_SEC)) (num_of_Z MIN_INTERVAL_SEC).
Definition heartbeat_clamped (intervalSec : option jsnum) : bool :=
  num_ltb (given_or intervalSec (num_of_Z DEFAULT_INTERVAL_SEC)) (num_of_Z MIN_INTERVAL_SEC).

(** The two closure variables. *)
Record Scheduler : Type := mkScheduler { sd_timer : bool; sd_inflight : bool }.

(** What the constructor does: warn of a clamped interval. *)
Definition createHeartbeat {W} (opts : HeartbeatOptions W) : prog W Scheduler :=
  do* (if heartbeat_clamped (hb_intervalSec opts) then notify (hb_onError opts) (fun f => f PlainError) else ret tt);
  ret (mkScheduler false false).

Definition sched_start (s : Scheduler) : Scheduler := if sd_timer s then s else mkScheduler true (sd_inflight s).
Definition sched_stop (s : Scheduler) : Scheduler := if sd_timer s then mkScheduler false (sd_inflight s) else s.

(** A tick begins, unless one is under way, and ends. *)
Definition tick_begin (s : Scheduler) : option Scheduler :=
  if sd_inflight s then None else Some (mkScheduler (sd_timer s) true).
Definition tick_end (s : Scheduler) : Scheduler := mkScheduler (sd_timer s) false.

(** [tick]: whether it sends a heartbeat, and the state behind it. *)
Definition sched_tick (s : Scheduler) : Scheduler * bool :=
  match tick_begin s with Some s' => (s', true) | None => (s, false) end.

(** What happens to a scheduler: its three methods, the timer's callback, and
    the end of the tick under way, by return or by error. *)
Inductive SchedulerEvent : Type := Start | Stop | TimerFires | TickNow | TickDone.

(** The state after an event, and whether the event sent a heartbeat; [None]
    for an event that cannot happen. *)
Definition sched_step (s : Scheduler) (ev : SchedulerEvent) : option (Scheduler * bool) :=
  match ev with
  | Start => Some (sched_start s, false)
  | Stop => Some (sched_stop s, false)
  | TimerFires => if sd_timer s then Some (sched_tick s) else None
  | TickNow => Some (sched_tick s)
  | TickDone => if sd_inflight s then Some (tick_end s, false) else None
  end.

(** A history, and the number of heartbeats it sent. *)
Fixpoint sched_run (s : Scheduler) (evs : list SchedulerEvent) : option (Scheduler * nat) :=
  match evs with
  | [] => Some (s, 0%nat)
  | ev :: evs' =>
      match sched_step s ev with
      | Some (s1, sent) =>
          match sched_run s1 evs' with
          | Some (s2, n) => Some (s2, ((if sent then 1 else 0) + n)%nat)
          | None => None
          end
      | None => None
      end
  end.
