(* ===== verification/ClientOnlineProps.v ===== *)
(** * ClientOnlineProps: how long a device may stay offline

    Refresh and heartbeat on a token store, first against a dead network,
    then against any. *)

From S2P Require Import Prelude Errors JsNum JsArith Text Json Types Crypto TokenCodec Lic1 Lic2 Tokens EncryptedPkcs8Props KeyHierarchyProps TokenService Validate ValidateProps TokenProps ClientOnline.

(** ** A dead network *)

#[local] Instance dead_network : Network MemoryTokenStore := {| fetchImpl := fun _ _ _ => ret None |}.

Section Offline.
Context {KH : KeyHandles} (codecs : Codecs).

(** The store after a history of refresh calls, whatever they returned. *)
Definition after_calls (calls : list RefreshOptions) (s : MemoryTokenStore) : MemoryTokenStore :=
  fold_left (fun s opts => (client_refresh codecs opts s).2) calls s.

Definition past (deadline : jsnum) (opts : RefreshOptions) : bool := num_leb deadline (rf_nowSec opts).

(** When the deadline was first seen to have passed. *)
Definition first_past (deadline : jsnum) (calls : list RefreshOptions) : option jsnum :=
  rf_nowSec <$> List.find (past deadline) calls.

(** What a call at [opts] comes to offline, when the deadline was first seen
    past at [start]. *)
Definition offline_outcome (token : jsstr) (deadline : jsnum) (start : option jsnum) (opts : RefreshOptions)
  : res RefreshOutcome :=
  match start with
  | None => Ok (if past deadline opts then GraceEntered token (rf_nowSec opts) else NotDue token)
  | Some g =>
      if grace_over opts g then Throw clientErrors.graceExpired
      else Ok (if past deadline opts then GraceContinued token g else NotDue token)
  end.

Definition offline_store (token : jsstr) (start : option jsnum) : MemoryTokenStore := mkStored (Some token) start.

Lemma offline_call token deadline m opts start :
  peek codecs token = Ok m -> pk_forceOnlineAfter m = Some deadline ->
  num_ltb (num_of_Z 0) (grace_window opts) = true ->
  client_refresh codecs opts (offline_store token start)
  = (offline_outcome token deadline start opts,
     offline_store token (match start with
                          | Some g => Some g
                          | None => if past deadline opts then Some (rf_nowSec opts) else None
                          end)).
Proof.
  intros Hp Hf Hw. unfold client_refresh, bind. cbn [ts_read memory_token_store offline_store st_token st_graceStartSec].
  rewrite Hp. cbn [lift]. rewrite Hf, Hw. fold (past deadline opts).
  assert (Hz : num_leb (grace_window opts) (num_of_Z 0) = false).
  { unfold num_leb. rewrite Hw. by destruct (grace_window opts). }
  destruct start as [g|]; cbn [andb offline_outcome].
  - destruct (grace_over opts g) eqn:Eg; [done|]. rewrite bool_decide_false, andb_false_r by done.
    unfold try_catch, refresh_call, postJson, bind. cbn [fetchImpl dead_network ret throw].
    rewrite bool_decide_true by done. unfold handleUnreachable. rewrite Hz, Eg. by destruct (past deadline opts).
  - rewrite bool_decide_true, andb_true_r by done.
    destruct (past deadline opts) eqn:Ep; cbn [negb andb].
    + unfold try_catch, refresh_call, postJson, bind. cbn [fetchImpl dead_network ret throw].
      rewrite bool_decide_true by done. unfold handleUnreachable. by rewrite Hz.
    + destruct (shouldProactiveRefresh _ _ _ _); [|done].
      unfold try_catch, refresh_call, postJson, bind. cbn [negb fetchImpl dead_network ret throw].
      by rewrite bool_decide_true.
Qed.

Lemma after_calls_offline token deadline m calls start :
  peek codecs token = Ok m -> pk_forceOnlineAfter m = Some deadline ->
  Forall (fun opts => num_ltb (num_of_Z 0) (grace_window opts) = true) calls ->
  after_calls calls (offline_store token start)
  = offline_store token (match start with Some g => Some g | None => first_past deadline calls end).
Proof.
  intros Hp Hf Hall. revert start. induction Hall as [|opts calls Hw _ IH]; intros start; [by destruct start|].
  unfold after_calls in *. cbn [fold_left]. rewrite (offline_call token deadline m opts start) by done. cbn [snd].
  rewrite IH. unfold first_past. cbn [List.find]. f_equal. destruct start; [done|].
  by destruct (past deadline opts).
Qed.

End Offline.

(** ** Any network *)

(** A store that keeps what it is given. *)
Class TokenStoreLaws (W : Type) {TS : TokenStore W} : Type := {
  stored : W -> StoredTokenState;
  ts_read_law : forall w, ts_read w = (Ok (stored w), w);
  ts_write_law : forall s w, (ts_write s w).1 = Ok tt /\ stored (ts_write s w).2 = s;
  ts_clear_law : forall w, (ts_clear w).1 = Ok tt /\ stored (ts_clear w).2 = EMPTY_STATE
}.

Section AnyNetwork.
Context {W : Type} {TS : TokenStore W} {TL : TokenStoreLaws W} {NW : Network W}.

(** The heartbeat's call to the issuer; whatever else runs while it is under
    way is part of it. *)
Definition heartbeat_call (opts : HeartbeatOptions W) (token : jsstr) : prog W jsval :=
  postJson (given_or (hb_path opts) (js "/api/licensing/v1/heartbeat")) (plain [(js "token", JStr token)]) (hb_transport opts).

Lemma ts_write_run s w : exists w', ts_write s w = (Ok tt, w') /\ stored w' = s.
Proof. destruct (ts_write_law s w) as [H1 H2]. destruct (ts_write s w) as [r w']. cbn in *. subst r. by exists w'. Qed.

Lemma ts_clear_run w : exists w', ts_clear w = (Ok tt, w') /\ stored w' = EMPTY_STATE.
Proof. destruct (ts_clear_law w) as [H1 H2]. destruct (ts_clear w) as [r w']. cbn in *. subst r. by exists w'. Qed.

(** A heartbeat never clobbers a token it did not send. Whatever the
    issuer answers and whatever wrote to the store meanwhile, the tick returns;
    if the store holds another token by then, the store stays as it is; if it
    holds the same token, a success clears the grace marker, an answer that the
    license is revoked or suspended clears the store, and every other failure
    leaves it alone. *)
Theorem heartbeat_spares_new_token opts w token
    (Hquiet : hb_onError opts = None /\ hb_onSuccess opts = None) (Htoken : st_token (stored w) = Some token) :
  let '(answer, w1) := heartbeat_call opts token w in
  exists acknowledged w', tickOnce opts w = (Ok acknowledged, w')
    /\ (acknowledged = true <-> exists data, answer = Ok data)
    /\ (st_token (stored w1) <> Some token -> stored w' = stored w1)
    /\ (st_token (stored w1) = Some token ->
         stored w' = match answer with
                     | Ok _ => mkStored (Some token) None
                     | Throw e => if bool_decide (e = clientErrors.licenseRevoked)
                                     || bool_decide (e = clientErrors.licenseSuspended)
                                  then EMPTY_STATE else stored w1
                     end).
Proof.
  destruct Hquiet as [He Hs]. destruct (heartbeat_call opts token w) as [answer w1] eqn:Ec.
  unfold heartbeat_call in Ec. unfold tickOnce, bind at 1. rewrite ts_read_law, Htoken.
  unfold try_catch, tick_success, bind. rewrite Ec, He, Hs. cbn [notify]. destruct answer as [data|e].
  - rewrite ts_read_law, Htoken. destruct (decide (st_token (stored w1) = Some token)) as [Ht|Ht].
    + rewrite (bool_decide_true (_ = _)) by done. cbn [andb].
      destruct (bool_decide (st_graceStartSec (stored w1) <> None)) eqn:Eg.
      * destruct (ts_write_run (mkStored (st_token (stored w1)) None) w1) as (w2 & -> & Hw2).
        exists true, w2. split_and!; [done|naive_solver|done|]. intros _. by rewrite Hw2, Ht.
      * apply bool_decide_eq_false, dec_stable in Eg. exists true, w1. split_and!; [done|naive_solver|done|].
        intros _. destruct (stored w1). cbn in *. by subst.
    + rewrite (bool_decide_false (_ = _)) by done. exists true, w1. by split_and!; [|naive_solver|..].
  - destruct (bool_decide (e = clientErrors.licenseRevoked) || bool_decide (e = clientErrors.licenseSuspended)).
    + rewrite ts_read_law. destruct (decide (st_token (stored w1) = Some token)) as [Ht|Ht].
      * rewrite bool_decide_true by done. destruct (ts_clear_run w1) as (w2 & -> & Hw2).
        exists false, w2. by split_and!; [|naive_solver|..].
      * rewrite bool_decide_false by done. exists false, w1. by split_and!; [|naive_solver|..].
    + exists false, w1. by split_and!; [|naive_solver|..].
Qed.
End AnyNetwork.

(** ** A device with a token *)

Definition device_token : jsstr := ir_token issue_result.
Definition device_deadline : jsnum := num_of_Z 1767227400.
Definition device_refresh (n : Z) : RefreshOptions :=
  mkRefresh (mkTransport (js "https://issuer.example") []) (num_of_Z n) None None None.

Lemma peek_ok token (deadline : jsnum) :
  match peek default_codecs token with
  | Ok m => bool_decide (pk_forceOnlineAfter m = Some deadline) = true
  | Throw _ => False
  end -> exists m, peek default_codecs token = Ok m /\ pk_forceOnlineAfter m = Some deadline.
Proof. destruct (peek default_codecs token) as [m|]; [|done]. intros H%bool_decide_eq_true. by exists m. Qed.

Lemma device_peek : exists m, peek default_codecs device_token = Ok m /\ pk_forceOnlineAfter m = Some device_deadline.
Proof. apply peek_ok. vm_compute. reflexivity. Qed.


(** A network during whose call another refresh stores a new token. *)
#[local] Instance racing_network : Network MemoryTokenStore := {|
  fetchImpl := fun _ _ _ _ =>
    (Ok (Some (mkNetResponse 403 (Some (plain [(js "success", JBool false);
       (js "error", plain [(js "code", JStr (js "LicenseRevoked"))])])))), mkStored (Some (js "new")) None)
|}.

#[local, program] Instance memory_store_laws : TokenStoreLaws MemoryTokenStore := {| stored := fun s => s |}.
Next Obligation. done. Qed.
Next Obligation. done. Qed.
Next Obligation. done. Qed.

Definition device_heartbeat : HeartbeatOptions MemoryTokenStore :=
  mkHeartbeat (mkTransport (js "https://issuer.example") []) None None None None.

Lemma heartbeat_spares_new_token_witness :
  exists acknowledged, tickOnce device_heartbeat (mkStored (Some (js "old")) (Some (num_of_Z 5)))
                       = (Ok acknowledged, mkStored (Some (js "new")) None).
Proof.
  destruct (heartbeat_spares_new_token (TL := memory_store_laws) (NW := racing_network) device_heartbeat (mkStored (Some (js "old")) (Some (num_of_Z 5))) (js "old")
    (conj eq_refl eq_refl) eq_refl) as (acknowledged & w' & Hrun & _ & Hother & _).
  exists acknowledged. rewrite Hrun. f_equal. apply Hother. vm_compute. discriminate.
Defined.

(** ** The scheduler *)

(** How many ticks a history ended. *)
Fixpoint ticks_done (evs : list SchedulerEvent) : nat :=
  match evs with [] => 0 | TickDone :: evs' => S (ticks_done evs') | _ :: evs' => ticks_done evs' end.

Lemma ticks_from s evs s' n :
  sched_run s evs = Some (s', n) ->
  ((if sd_inflight s then 1 else 0) + n = ticks_done evs + (if sd_inflight s' then 1 else 0))%nat.
Proof.
  revert s s' n. induction evs as [|ev evs IH]; intros s s' n H; [injection H as <- <-; cbn; lia|].
  cbn in H. destruct (sched_step s ev) as [[s1 sent]|] eqn:Es; [|done].
  destruct (sched_run s1 evs) as [[s2 m]|] eqn:Er; [|done]. injection H as <- <-. apply IH in Er.
  destruct s as [[|] [|]]; destruct ev; cbn in Es; try discriminate Es; injection Es as <- <-; cbn in *; lia.
Qed.

(** Heartbeats never overlap: over any history of a new scheduler as many
    were sent as have ended, or one more, which is under way. *)
Theorem heartbeats_do_not_overlap evs s n :
  sched_run (mkScheduler false false) evs = Some (s, n) -> n = (ticks_done evs + (if sd_inflight s then 1 else 0))%nat.
Proof. intros H. by apply ticks_from in H. Qed.

(** A stopped scheduler sends nothing until it is started or asked to. *)
Theorem stopped_is_silent evs s s' n :
  sd_timer s = false -> Start ∉ evs -> TickNow ∉ evs -> sched_run s evs = Some (s', n) -> n = 0%nat.
Proof.
  revert s n. induction evs as [|ev evs IH]; intros s n Ht Hs Hn H; [by injection H|].
  apply not_elem_of_cons in Hs as [Hs Hs'], Hn as [Hn Hn'].
  cbn in H. destruct (sched_step s ev) as [[s1 sent]|] eqn:Es; [|done].
  destruct (sched_run s1 evs) as [[s2 m]|] eqn:Er; [|done]. injection H as <- <-.
  assert (sd_timer s1 = false /\ sent = false) as [Ht1 ->].
  { destruct s as [t [|]]; cbn in Ht; subst t; destruct ev; try done; cbn in Es; try discriminate Es; by injection Es as <- <-. }
  by rewrite (IH s1 m).
Qed.

(** A slow tick swallows the next; behind a stop the timer is quiet. *)
Example overlapping_tick :
  sched_run (mkScheduler false false) [Start; TimerFires; TimerFires; TickDone; TimerFires; Stop; TickDone]
  = Some (mkScheduler false false, 2%nat).
Proof. reflexivity. Qed.
