(* ===== verification/EndToEnd.v ===== *)
(** * EndToEnd: the client against the issuer's endpoints

    The client of [ClientOnline] over a link to the routes of
    [ClientHandlers], behind the router and the bearer middleware: what a
    refresh brings home, and that activation and deactivation as the client
    asks for them are not what the endpoints answer. *)

From S2P Require Import Prelude Errors JsNum JsArith Text Json Types Crypto TokenCodec Lic1 Lic2 Tokens Id Cursor Storage Pages LicenseKeyFormat Memory MemoryLaws Lifecycle LicenseService UsageService EncryptedPkcs8 EncryptedPkcs8Props KeyHierarchy KeyHierarchyProps TokenService Validate ValidateProps TokenProps Quiet Http ClientHandlers ClientHandlersProps ClientOnline ClientOnlineProps.

(** ** The link *)

(** The issuer's world and the device's store. *)
Record Online : Type := mkOnline { on_server : World; on_store : StoredTokenState }.

#[global] Instance online_store : TokenStore Online := {|
  ts_read := fun o => (Ok (on_store o), o);
  ts_write := fun s o => (Ok tt, mkOnline (on_server o) s);
  ts_clear := fun o => (Ok tt, mkOnline (on_server o) EMPTY_STATE)
|}.

#[global, program] Instance online_store_laws : TokenStoreLaws Online := {| stored := on_store |}.
Next Obligation. done. Qed.
Next Obligation. done. Qed.
Next Obligation. done. Qed.

Definition api_prefix : jsstr := js "/api/licensing/v1".

(** A POST of [body] to [url]; JSON carries the body unchanged. A handler that
    throws drops the connection; a response without a body has no JSON. *)
Definition post_request (base url : jsstr) (body : jsval) : HandlerRequest :=
  mkRequest POST (drop (List.length base) url) [] [] body [] None.

Section Link.
Context {KH : KeyHandles} {P : Pbes2} {SH : Sha256} {DP : DateParse} {CM : CaseMap} {EM : ErrorMessages} {WC : WallClock World}.
Context (fuel : nat) (codecs : Codecs) (ctx : ClientHandlerContext World) (verifier : BearerVerifier World).
Context (base : jsstr).

(** The issuer: its client routes behind bearer authentication. *)
Definition issuer : Handler World := createRouter (clientRoutes fuel codecs ctx api_prefix) [bearerAuth verifier].

#[local] Instance link : Network Online := {|
  fetchImpl := fun url _ body o =>
    let '(r, w) := issuer (post_request base url body) (on_server o) in
    (Ok (match r with Ok resp => Some (mkNetResponse (r_status resp) (r_body resp)) | Throw _ => None end),
     mkOnline w (on_store o))
|}.

Lemma bearer_public req next (w : World) :
  bearerAuth verifier (with_header req PUBLIC_HEADER (js "1")) next w = next (with_header req PUBLIC_HEADER (js "1")) w.
Proof.
  unfold bearerAuth, header. cbn [q_headers with_header]. by rewrite map_get_set_eq, bool_decide_true.
Qed.

(** The request as a public route's handler sees it. *)
Definition routed (path : jsstr) (body : jsval) : HandlerRequest :=
  with_header (mkRequest POST path [] [] body [] None) PUBLIC_HEADER (js "1").

(** The public routes reach their handlers. *)
Lemma issuer_refresh body w :
  let path := api_prefix ++ js "/refresh" in
  issuer (mkRequest POST path [] [] body [] None) w = handleRefresh fuel codecs ctx (routed path body) w.
Proof. reflexivity. Qed.

Lemma issuer_activate body w :
  let path := api_prefix ++ js "/activate" in
  issuer (mkRequest POST path [] [] body [] None) w = handleActivate fuel codecs ctx (routed path body) w.
Proof. reflexivity. Qed.

Lemma issuer_deactivate body w :
  let path := api_prefix ++ js "/deactivate" in
  issuer (mkRequest POST path [] [] body [] None) w = handleDeactivate codecs ctx (routed path body) w.
Proof. reflexivity. Qed.

Hypothesis base_ok : ends_with_slash base = false.

Lemma url_path path : starts_with_slash path = true -> drop (List.length base) (joinUrl base path) = path.
Proof. intros Hp. unfold joinUrl. rewrite base_ok, Hp. cbn [negb andb]. by rewrite drop_app_length. Qed.

(** The client's request, at its handler. *)
Lemma post_run path handle body headers o :
  starts_with_slash path = true ->
  (forall w, issuer (mkRequest POST path [] [] body [] None) w = handle w) ->
  postJson path body (mkTransport base headers) o
  = let '(r, w) := handle (on_server o) in
    (match r with
     | Ok resp => read_envelope (mkNetResponse (r_status resp) (r_body resp))
     | Throw _ => Throw clientErrors.issuerUnreachable
     end, mkOnline w (on_store o)).
Proof.
  intros Hp Hh. unfold postJson, bind. cbn [fetchImpl link tr_baseUrl tr_headers]. unfold post_request.
  rewrite url_path, Hh by done. by destruct (handle _) as [[resp|e] w].
Qed.

(** A refusal never reads as data. *)
Lemma refusal_envelope st code message headers data :
  read_envelope (mkNetResponse st (r_body (err st code message headers))) <> Ok data.
Proof. unfold read_envelope. cbn. by destruct (st =? 429). Qed.

Lemma errFromLicensing_err e : exists st code message, errFromLicensing e = err st code message None.
Proof. destruct e; by eexists _, _, _. Qed.

(** ** Refreshing end to end *)

(** What the outcome of a refresh says. *)
Definition refreshed_from (token : jsstr) (w : World) (token' : jsstr) : Prop :=
  exists parts l u license usage wi issued wi', authentic codecs ctx w token (token_ttl ctx) parts
    /\ claims (e_payload parts) l u
    /\ map_get (s_licenses (tables w)) l = Some license /\ map_get (s_usages (tables w)) u = Some usage
    /\ u_license_id usage = l_id license /\ u_status usage = u_active /\ same_db w wi
    /\ issueToken fuel codecs (cc_backends ctx) (issue_request ctx license usage) wi = (Ok issued, wi')
    /\ token' = ir_token issued.

(** The issuer's answer to a refresh, as data. *)
Lemma refresh_answer token headers o :
  cc_transparencyHook ctx = None -> tx_depth (on_server o) = 0 -> state_ok (tables (on_server o)) ->
  exists answer w, postJson (api_prefix ++ js "/refresh") (plain [(js "token", JStr token)]) (mkTransport base headers) o
                   = (answer, mkOnline w (on_store o))
    /\ tables w = tables (on_server o)
    /\ forall data, answer = Ok data -> exists token', get_prop data (js "token") = JStr token'
         /\ refreshed_from token (on_server o) token'.
Proof.
  intros Hh Hd Hok. rewrite (post_run (api_prefix ++ js "/refresh") _ _ headers o eq_refl (issuer_refresh _)).
  destruct (seat_call_run fuel codecs ctx CallRefresh
    (routed (api_prefix ++ js "/refresh") (plain [(js "token", JStr token)])) (on_server o) Hh Hd Hok)
    as (resp & w' & Hrun & Hout).
  cbn [seat_call] in Hrun. rewrite Hrun. eexists _, w'. split; [done|].
  destruct Hout as [[(st & code & message & _ & ->) Ht]|(t & Ht & _ & parts & Ha & Heff)].
  - split; [done|]. intros data Hdata. by apply refusal_envelope in Hdata.
  - injection Ht as <-. destruct Heff as (Htab & l & u & license & usage & wi & issued & wi' & Hc & Hl & Hu & Hlu & Hs & Hwi & Hi & data & -> & Htok).
    split; [exact Htab|]. intros data' Hdata. apply Ok_inj in Hdata as <-. exists (ir_token issued). split; [exact Htok|].
    by exists parts, l, u, license, usage, wi, issued, wi'.
Qed.

(** What a refresh may do to the device and the issuer. *)
Definition refresh_effect (token : jsstr) (o : Online) (r : res RefreshOutcome) (o' : Online) : Prop :=
  tables (on_server o') = tables (on_server o)
  /\ match r with
     | Ok (Refreshed t) => on_store o' = mkStored (Some t) None /\ refreshed_from token (on_server o) t
     | Ok (GraceEntered t g) => t = token /\ on_store o' = mkStored (Some token) (Some g)
     | Ok (NotDue t) | Ok (GraceContinued t _) => t = token /\ on_store o' = on_store o
     | Throw _ => on_store o' = on_store o
     end.

Lemma unreachable_effect token opts forced o w :
  tables w = tables (on_server o) ->
  let '(r, o') := handleUnreachable token (st_graceStartSec (on_store o)) opts forced (mkOnline w (on_store o)) in
  refresh_effect token o r o'.
Proof.
  intros Ht. unfold handleUnreachable. destruct (negb forced); [by split|]. destruct (_ && _); [by split|].
  destruct (st_graceStartSec (on_store o)) as [g|]; [|by split]. by destruct (grace_over opts g); split.
Qed.

(** ** What activation and deactivation ask for and get *)

Definition activate_answer (resp : HandlerResponse) : Prop :=
  (exists t e r f, resp = respond (token_body t e r f) 200) \/ exists st code message, resp = err st code message None.

Lemma checked_answer {A} (v : ValidationResult A) (k : A -> prog World HandlerResponse) w :
  (forall resp, v = Throw resp -> activate_answer resp) ->
  (forall a, exists resp w', k a w = (Ok resp, w') /\ activate_answer resp) ->
  exists resp w', checked v k w = (Ok resp, w') /\ activate_answer resp.
Proof. intros Hr Hk. destruct v as [a|resp]; [apply Hk|]. exists resp, w. by split; [|apply Hr]. Qed.

Lemma bad_request_answer message : activate_answer (bad_request message).
Proof. right. by eexists _, _, _. Qed.

Lemma requireFingerprint_refusal obj key resp : requireFingerprint obj key = Throw resp -> activate_answer resp.
Proof.
  unfold requireFingerprint, requireString. destruct (get_prop obj key) as [| | | |[|c s]| | | | | |];
    cbn [rbind]; [..|destruct (FINGERPRINT_RE (c :: s))| | | | | |]; intros H; simplify_eq; apply bad_request_answer.
Qed.

Lemma optionalObject_refusal obj key resp : optionalObject obj key = Throw resp -> activate_answer resp.
Proof. unfold optionalObject. destruct (get_prop obj key); intros H; simplify_eq; apply bad_request_answer. Qed.

Lemma refuses_answer resp : refuses resp -> activate_answer resp.
Proof. intros (st & code & message & _ & ->). right. by eexists _, _, _. Qed.

Lemma handleActivate_answers req w :
  exists resp w', handleActivate fuel codecs ctx req w = (Ok resp, w') /\ activate_answer resp.
Proof.
  unfold handleActivate. apply checked_answer; [intros resp H; by eapply refuses_answer, requireJsonObject_refusal|intros body].
  apply checked_answer; [intros resp H; by eapply refuses_answer, requireString_refusal|intros key].
  apply checked_answer; [apply requireFingerprint_refusal|intros fp].
  apply checked_answer; [apply optionalObject_refusal|intros meta].
  unfold try_catch. destruct (activate_body _ _ _ _ _ _ w) as [[resp|e] w'] eqn:E;
    [|eexists _, w'; split; [done|apply refuses_answer, errFromLicensing_refuses]].
  exists resp, w'. split; [done|]. apply bind_ok_inv in E as ([license|] & w1 & _ & E);
    [|apply Ok_pair_inj in E as [<- _]; right; by eexists _, _, _].
  apply bind_ok_inv in E as (reg & w2 & _ & E). apply bind_ok_inv in E as (issued & w3 & _ & E).
  apply bind_ok_inv in E as (e & w4 & _ & E). apply bind_ok_inv in E as (r & w5 & _ & E).
  apply bind_ok_inv in E as (f & w6 & _ & E). apply Ok_pair_inj in E as [<- _]. left. by eexists _, _, _, _.
Qed.

(** The endpoint answers an activation without the [usage_id] and
    [license_id] the client insists on: activating through the client throws
    whatever the issuer did, and stores no token. *)
Theorem activation_never_completes licenseKey opts headers o :
  ac_transport opts = mkTransport base headers -> ac_path opts = None ->
  exists e o', client_activate licenseKey opts o = (Throw e, o') /\ on_store o' = on_store o.
Proof.
  intros Htr Hpath. unfold client_activate. destruct licenseKey as [|c key]; [by eexists _, o|].
  destruct (ac_fingerprint opts); [by eexists _, o|]. rewrite Htr, Hpath.
  change (given_or None (js "/api/licensing/v1/activate")) with (api_prefix ++ js "/activate").
  unfold bind at 1. rewrite (post_run (api_prefix ++ js "/activate") _ _ headers o eq_refl (issuer_activate _)).
  destruct (handleActivate_answers (routed (api_prefix ++ js "/activate") (plain
    [(js "license_key", JStr (c :: key)); (js "fingerprint", JStr (z :: l)); (js "metadata", given_or (ac_metadata opts) (plain []))]))
    (on_server o)) as (resp & w' & Hrun & Hans).
  rewrite Hrun. destruct (read_envelope _) as [data|e] eqn:Ed; [|by eexists _, _].
  destruct Hans as [(t & e & r & f & ->)|(st & code & message & ->)]; [|by apply refusal_envelope in Ed].
  apply Ok_inj in Ed. change (token_body t e r f = data) in Ed. subst data. assert (Hbad : activated (token_body t e r f) = Throw clientErrors.invalidTokenFormat).
  { unfold activated, member, token_body. destruct f, t; reflexivity. }
  unfold bind. rewrite Hbad. by eexists _, _.
Qed.

(** The client deactivates by license key and fingerprint, the endpoint by
    token: deactivating through the client never reaches the seat, and throws
    [IssuerUnreachable]. *)
Theorem deactivation_never_confirmed c reason opts headers o :
  da_transport opts = mkTransport base headers -> da_path opts = None ->
  client_deactivate (c :: reason) opts o = (Throw clientErrors.issuerUnreachable, o).
Proof.
  intros Htr Hpath. unfold client_deactivate. rewrite Htr, Hpath.
  change (given_or None (js "/api/licensing/v1/deactivate")) with (api_prefix ++ js "/deactivate").
  unfold try_catch, bind. rewrite (post_run (api_prefix ++ js "/deactivate") _ _ headers o eq_refl (issuer_deactivate _)).
  cbn. by destruct o.
Qed.
End Link.

(** ** A device and its issuer *)

#[local] Instance toy_wall : WallClock World := {| wallMs := ret 1767225600000 |}.
#[local] Instance toy_case : CaseMap := no_case_map.

Definition toy_verifier : BearerVerifier World := fun _ => ret None.
Definition toy_base : jsstr := js "https://issuer.example".
Definition toy_transport : TransportOptions := mkTransport toy_base [].
Definition toy_online (license : License) (iso : Instant) : Online :=
  mkOnline (mkWorld (mkState [(l_id license, license)] [] [] [(js "u1", issue_usage)] [(k_id the_signer, the_signer)] [] []) 0
              (fixedClock 1767225600000 iso) Z.of_nat)
    (mkStored (Some (ir_token issue_result)) None).
Definition toy_refresh (n : Z) : RefreshOptions := mkRefresh toy_transport (num_of_Z n) None None None.
Definition toy_network : Network Online := link 1 default_codecs seat_ctx toy_verifier toy_base.


Definition outcome_kind (r : res RefreshOutcome) : option Z :=
  match r with
  | Ok (Refreshed _) => Some 0
  | Ok (NotDue _) => Some 1
  | Ok (GraceEntered _ _) => Some 2
  | Ok (GraceContinued _ _) => Some 3
  | Throw _ => None
  end.

(** Refreshed near the end of the token's life, not due early on. *)
Example refresh_when_due :
  map (fun n => outcome_kind (client_refresh (NW := toy_network) default_codecs (toy_refresh n) (toy_online issue_license issue_iso)).1)
    [1767225700; 1767228900] = [Some 1; Some 0].
Proof. vm_compute. reflexivity. Qed.

(** A refusal the client's code map does not list, such as the 401 for a token
    two hours past its end, counts as an unreachable issuer: past the online
    deadline the device enters grace. *)
Example refused_refresh_enters_grace :
  outcome_kind (client_refresh (NW := toy_network) default_codecs (toy_refresh 1767240000)
    (toy_online issue_license (js "2026-01-01T03:00:00.000000Z"))).1 = Some 2.
Proof. vm_compute. reflexivity. Qed.

Definition key_license : License :=
  mkLicense (js "l1") None None (js "User") (js "42") (js "LIC-0W3G-E1R7-0W3G-E1R7-0W3G-E1R7-0W3G-E1R7") active 2 false
    None None None (plain []) issue_iso issue_iso.
Definition toy_activation : ActivateOptions :=
  mkActivate toy_transport (repeat 97 64) None None.

(** The activation the client gives up on has taken a seat. *)
Example failed_activation_takes_seat :
  let '(r, o) := client_activate (NW := toy_network) (l_license_key key_license) toy_activation (toy_online key_license issue_iso) in
  r = Throw clientErrors.invalidTokenFormat
  /\ map u_status (rows (s_usages (tables (on_server o)))) = [u_active; u_active].
Proof. vm_compute. split; reflexivity. Qed.
