(* ===== verification/Fingerprint.v ===== *)
(** * Fingerprint: naming a device

    [src/typescript/src/client/fingerprint.ts]: the strings that identify a
    device, collected from the platform and hashed; and
    [src/typescript/src/trials/pepper.ts]: the keyed hash under which a trial
    remembers one. The hashes of the runtime are parameters, as is what the
    platform answers. *)

From S2P Require Import Prelude Errors JsNum JsArith Text Json LicenseKeyFormat TokenCodec TokenService.

(** ** From strings to a fingerprint *)

(** [for (const s of sources) { ... }] *)
Fixpoint check_sources (sources : list jsstr) : res unit :=
  match sources with
  | [] => Ok tt
  | s :: sources' =>
      if bool_decide (s = []) then Throw PlainError
      else if bool_decide (10 ∈ s) then Throw PlainError
      else check_sources sources'
  end.

(** [[...sources].sort().join('\n')] *)
Definition source_text (sources : list jsstr) : jsstr := join [10] (merge_sort str_le sources).

Definition fingerprintFromSources {SH : Sha256} (sources : list jsstr) : res jsstr :=
  match sources with
  | [] => Throw PlainError
  | _ =>
      let? _ := check_sources sources in
      Ok (sha256_hex (utf8_encode (source_text sources)))
  end.

Record FingerprintSource (W : Type) : Type := mkSource { fs_name : jsstr; fs_collect : prog W (option jsstr) }.
Arguments mkSource {W} _ _.
Arguments fs_name {W} _.
Arguments fs_collect {W} _.

(** What each source gave, nulls and empty strings left out. The sources run
    side by side; none of them sees what another does. *)
Fixpoint collect_all {W} (sources : list (FingerprintSource W)) : prog W (list jsstr) :=
  match sources with
  | [] => ret []
  | src :: sources' =>
      let* raw := fs_collect src in
      let* rest := collect_all sources' in
      ret (match raw with Some ((_ :: _) as s) => s :: rest | _ => rest end)
  end.

Definition collectFingerprint {W} {SH : Sha256} (sources : list (FingerprintSource W)) : prog W jsstr :=
  match sources with
  | [] => throw PlainError
  | _ =>
      let* strings := collect_all sources in
      match strings with
      | [] => throw PlainError
      | _ => lift (fingerprintFromSources strings)
      end
  end.

(** ** The platform's sources *)

Record NetworkEntry : Type := mkEntry { ne_internal : bool; ne_mac : jsstr }.

(** [process.platform], [process.arch], [readFile] and [networkInterfaces];
    an interface may come without entries. *)
Class Platform (W : Type) : Type := {
  platform : jsstr;
  arch : jsstr;
  readFile : jsstr -> prog W jsstr;
  networkInterfaces : prog W (list (jsstr * option (list NetworkEntry)))
}.

Section Sources.
Context {W : Type} {PL : Platform W}.

Definition readOsId : jsstr := js "os:" ++ platform ++ js ":" ++ arch.

Definition machine_id_paths : list jsstr := [js "/etc/machine-id"; js "/var/lib/dbus/machine-id"].

(** The first file that reads and is not blank. *)
Fixpoint first_machine_id (paths : list jsstr) : prog W (option jsstr) :=
  match paths with
  | [] => ret None
  | path :: paths' =>
      let* found := try_catch
        (let* raw := readFile path in
         ret (match js_trim raw with [] => None | trimmed => Some (js "machine:" ++ trimmed) end))
        (fun _ => ret None) in
      match found with Some s => ret (Some s) | None => first_machine_id paths' end
  end.
Definition readMachineId : prog W (option jsstr) := first_machine_id machine_id_paths.

Definition external_macs (ifaces : list (jsstr * option (list NetworkEntry))) : list jsstr :=
  concat (map (fun ie => match ie.2 with
    | None => []
    | Some entries =>
        map (fun e => ie.1 ++ js "|" ++ ne_mac e)
          (List.filter (fun e => negb (ne_internal e) && negb (bool_decide (ne_mac e = []))
                                 && negb (bool_decide (ne_mac e = js "00:00:00:00:00:00"))) entries)
    end) ifaces).

Definition readPrimaryMac : prog W (option jsstr) :=
  try_catch
    (let* ifaces := networkInterfaces in
     ret (match merge_sort str_le (external_macs ifaces) with
          | [] => None
          | mac :: _ => Some (js "mac:" ++ mac)
          end))
    (fun _ => ret None).

Definition defaultFingerprintSources (appSalt : jsstr) : res (list (FingerprintSource W)) :=
  match appSalt with
  | [] => Throw PlainError
  | _ => Ok [mkSource (js "os.id") (ret (Some readOsId));
             mkSource (js "machine.id") readMachineId;
             mkSource (js "net.primaryMac") readPrimaryMac;
             mkSource (js "app.salt") (ret (Some (js "salt:" ++ appSalt)))]
  end.
End Sources.

(** ** The pepper of trials *)

(** [createHmac('sha256', pepper).update(text).digest('hex')] *)
Class HmacSha256 : Type := { hmac_hex : list Z -> list Z -> jsstr }.

Definition MIN_PEPPER_LENGTH : nat := 32.

(** The variable of the environment, if it is set. *)
Definition pepperFromEnv (LICENSING_TRIAL_PEPPER : option jsstr) : res jsstr :=
  match LICENSING_TRIAL_PEPPER with
  | None | Some [] => Throw PlainError
  | Some v => if (List.length v <? MIN_PEPPER_LENGTH)%nat then Throw PlainError else Ok v
  end.

(** The digest is hexadecimal already, so [toLowerCase] acts on ASCII. *)
Definition lower_hex (s : jsstr) : jsstr := map (fun c => if (65 <=? c) && (c <=? 90) then c + 32 else c) s.

Definition hashFingerprint {HM : HmacSha256} (pepper fingerprintInput : jsstr) : res jsstr :=
  if (List.length pepper <? MIN_PEPPER_LENGTH)%nat then Throw PlainError
  else Ok (lower_hex (hmac_hex (utf8_encode pepper) (utf8_encode fingerprintInput))).

Record TrialPepperStore : Type := mkPepperStore { tp_pepper : jsstr }.

Definition newTrialPepperStore (pepper : jsstr) : res TrialPepperStore :=
  if (List.length pepper <? MIN_PEPPER_LENGTH)%nat then Throw PlainError else Ok (mkPepperStore pepper).

Definition pepper_fromEnv (env : option jsstr) : res TrialPepperStore :=
  let? pepper := pepperFromEnv env in newTrialPepperStore pepper.

Definition pepper_hash {HM : HmacSha256} (store : TrialPepperStore) (fingerprintInput : jsstr) : res jsstr :=
  hashFingerprint (tp_pepper store) fingerprintInput.

(** ** Facts *)

Definition source_ok (s : jsstr) : Prop := s <> [] /\ (10 ∉ s).

Lemma check_sources_ok sources : check_sources sources = Ok tt <-> Forall source_ok sources.
Proof.
  induction sources as [|s sources IH]; cbn; [by split; [constructor|]|]. rewrite Forall_cons, <- IH. unfold source_ok.
  repeat case_bool_decide; split; naive_solver.
Qed.

Lemma check_sources_throw sources : check_sources sources <> Ok tt -> check_sources sources = Throw PlainError.
Proof. induction sources as [|s sources IH]; cbn; [done|]. repeat case_bool_decide; auto. Qed.

(** The text determines its lines. *)
Lemma split_join sources :
  sources <> [] -> Forall source_ok sources -> split_on 10 (join [10] sources) = sources.
Proof.
  intros Hne Hall. induction Hall as [|s sources [Hs Hn] Hall IH]; [done|].
  assert (Hf : forallb (fun d => negb (d =? 10)) s = true).
  { apply forallb_Forall, Forall_forall. intros d Hd. apply negb_true_iff, Z.eqb_neq. by intros ->. }
  destruct sources as [|s' sources]; [by apply split_on_no|].
  change (join [10] (s :: s' :: sources)) with (s ++ 10 :: join [10] (s' :: sources)).
  rewrite split_on_app by done. by rewrite IH.
Qed.

Lemma sorted_sources_ok sources : Forall source_ok sources -> Forall source_ok (merge_sort str_le sources).
Proof. by rewrite merge_sort_Permutation. Qed.

(** Sorting forgets the order and nothing else. *)
Lemma merge_sort_perm l1 l2 : l1 ≡ₚ l2 <-> merge_sort str_le l1 = merge_sort str_le l2.
Proof.
  split.
  - intros Hp. apply (StronglySorted_unique str_le); [apply StronglySorted_merge_sort; apply _..|].
    by rewrite !merge_sort_Permutation.
  - intros He. rewrite <- (merge_sort_Permutation str_le l1), He. apply merge_sort_Permutation.
Qed.

Lemma merge_text_inj l1 l2 :
  l1 <> [] /\ Forall source_ok l1 -> l2 <> [] /\ Forall source_ok l2 -> source_text l1 = source_text l2 ->
  merge_sort str_le l1 = merge_sort str_le l2.
Proof.
  intros [N1 H1] [N2 H2] Ht. unfold source_text in Ht. apply (f_equal (split_on 10)) in Ht.
  assert (Hne : forall l : list jsstr, l <> [] -> merge_sort str_le l <> []).
  { intros l Hl He. apply Hl, Permutation_nil. by rewrite <- (merge_sort_Permutation str_le l), He. }
  rewrite !split_join in Ht; auto using sorted_sources_ok.
Qed.

(** What a fingerprint tells. A list of sources has one unless it is empty
    or a source is empty or spans lines; the order the sources were collected
    in does not matter; and sources that differ as multisets give different
    texts to hash, so that two devices share a fingerprint only when their
    sources are the same or the hash collides. *)
Theorem fingerprint_identifies {SH : Sha256} (l1 l2 : list jsstr) :
  ((exists f, fingerprintFromSources l1 = Ok f) <-> l1 <> [] /\ Forall source_ok l1)
  /\ (l1 ≡ₚ l2 -> fingerprintFromSources l1 = fingerprintFromSources l2)
  /\ (forall f, fingerprintFromSources l1 = Ok f -> fingerprintFromSources l2 = Ok f ->
        l1 ≡ₚ l2 \/ (source_text l1 <> source_text l2
                     /\ sha256_hex (utf8_encode (source_text l1)) = sha256_hex (utf8_encode (source_text l2)))).
Proof.
  assert (Hok : forall l, (exists f, fingerprintFromSources l = Ok f) <-> l <> [] /\ Forall source_ok l).
  { intros l. destruct l as [|s l]; [cbn; split; [by intros []|by intros []]|]. rewrite <- check_sources_ok.
    unfold fingerprintFromSources. destruct (check_sources (s :: l)) as [[]|e]; cbn [rbind]; split; naive_solver. }
  assert (Htext : forall l f, fingerprintFromSources l = Ok f -> f = sha256_hex (utf8_encode (source_text l))).
  { intros [|s l] f H; [done|]. unfold fingerprintFromSources in H. by apply rbind_ok_inv in H as (? & _ & [= <-]). }
  split_and!; [apply Hok| |].
  - intros Hp. assert (Ht : source_text l1 = source_text l2) by (unfold source_text; by rewrite (proj1 (merge_sort_perm l1 l2) Hp)).
    assert (Hc : check_sources l1 = check_sources l2).
    { destruct (check_sources l1) as [[]|e] eqn:E1.
      - apply check_sources_ok in E1. symmetry. apply check_sources_ok. by rewrite <- Hp.
      - symmetry. rewrite <- E1. rewrite (check_sources_throw l1), (check_sources_throw l2); [done| |by rewrite E1].
        intros E2%check_sources_ok. rewrite <- Hp in E2. apply check_sources_ok in E2. congruence. }
    destruct l1 as [|a l1], l2 as [|b l2]; [done|by apply Permutation_nil_cons in Hp| |].
    + by apply Permutation_sym, Permutation_nil_cons in Hp.
    + unfold fingerprintFromSources. by rewrite Ht, Hc.
  - intros f H1 H2. destruct (decide (source_text l1 = source_text l2)) as [Ht|Ht].
    + left. apply merge_sort_perm. apply merge_text_inj; [apply Hok; by exists f..|done].
    + right. split; [done|]. by rewrite <- (Htext _ _ H1), <- (Htext _ _ H2).
Qed.

(** ** A device *)

(** A hash that shows what it is given. *)
#[local] Instance clear_sha : Sha256 := {| sha256_hex := fun l => l |}.

Lemma fingerprint_identifies_witness :
  fingerprintFromSources [js "os:linux:x64"; js "salt:app"] = fingerprintFromSources [js "salt:app"; js "os:linux:x64"].
Proof. apply fingerprint_identifies. apply Permutation_swap. Defined.

Definition laptop : Type := list (jsstr * jsstr).
#[local] Instance laptop_platform : Platform laptop := {|
  platform := js "linux"; arch := js "x64";
  readFile := fun path files => (match map_get files path with Some s => Ok s | None => Throw PlainError end, files);
  networkInterfaces := ret [(js "lo", Some [mkEntry true (js "00:00:00:00:00:00")]); (js "wlan0", Some [mkEntry false (js "aa:bb")]);
                            (js "eth0", Some [mkEntry false (js "cc:dd")]); (js "tun0", None)]
|}.

(** The first machine id that is not blank, the first external interface. *)
Example laptop_fingerprint :
  match defaultFingerprintSources (W := laptop) (js "app") with
  | Ok sources => (collectFingerprint sources [(js "/etc/machine-id", js " "); (js "/var/lib/dbus/machine-id", js "m1 ")]).1
                  = Ok (js "mac:eth0|cc:dd" ++ [10] ++ js "machine:m1" ++ [10] ++ js "os:linux:x64" ++ [10] ++ js "salt:app")
  | Throw _ => False
  end.
Proof. vm_compute. reflexivity. Qed.
