(* ===== verification/Easy.v ===== *)
(** * Easy: the high-level issuer and client

    [src/typescript/src/easy.ts]: [Issuer], which issues licenses from
    templates and trials and sees to its signing key, over any storage; and
    [Client], which wires the device-side functions to one configuration. *)

From S2P Require Import Prelude Errors JsNum JsArith Text Json Types Crypto TokenCodec Id Cursor Storage Pages LicenseKeyFormat Lifecycle LicenseService EncryptedPkcs8 KeyHierarchy ScopeService TokenService Validate Templates ClientHandlers ClientOnline Fingerprint.

(** ** Issuer *)

Record SigningConfig : Type := mkSigning { sg_algorithm : option KeyAlg; sg_passphrase : jsstr }.

Definition DEFAULT_TRIAL_COOLDOWN_SEC : Z := 90 * 86400.

Section IssuerConfig.
Context {KH : KeyHandles}.

(** The configuration with its defaults filled in: the fields of [Issuer].
    [ed25519Backend] is the runtime's. *)
Record IssuerConfig : Type := mkIssuerConfig {
  ic_signing : option SigningConfig;
  ic_backends : option (list (KeyAlg * SignatureBackend));
  ic_defaultActor : option jsstr;
  ic_defaultScopeId : option (option UUIDv7);
  ic_trialPepper : option jsstr;
  ic_trialCooldownSec : option Z
}.

Record Issuer : Type := mkIssuer {
  is_signing : option SigningConfig;
  is_backends : list (KeyAlg * SignatureBackend);
  is_defaultActor : jsstr;
  is_defaultScopeId : option UUIDv7;
  is_trialPepper : option jsstr;
  is_trialCooldownSec : Z
}.

Definition newIssuer (ed25519Backend : SignatureBackend) (config : IssuerConfig) : Issuer :=
  mkIssuer (ic_signing config) (given_or (ic_backends config) [(ed25519, ed25519Backend)])
    (given_or (ic_defaultActor config) (js "system"))
    (given_or (ic_defaultScopeId config) None) (ic_trialPepper config)
    (given_or (ic_trialCooldownSec config) DEFAULT_TRIAL_COOLDOWN_SEC).
End IssuerConfig.

Record IssueInput : Type := mkIssueInput {
  in_licensableType : jsstr;
  in_licensableId : jsstr;
  in_licenseKey : option jsstr;
  in_maxUsages : option Z;
  in_status : option LicenseStatus;
  in_templateId : option (option UUIDv7);
  in_scopeId : option (option UUIDv7);
  in_expiresAt : option (option Instant);
  in_graceUntil : option (option Instant);
  in_meta : option jsval;
  in_isTrial : option bool;
  in_fingerprint : option jsstr;
  in_actor : option jsstr
}.

Record IssuedLicense : Type := mkIssued {
  il_id : UUIDv7;
  il_licenseKey : jsstr;
  il_expiresAt : option Instant;
  il_raw : License
}.

(** [input.isTrial === true], [input.templateId ?? null] *)
Definition is_trial_request (input : IssueInput) : bool := bool_decide (in_isTrial input = Some true).
Definition template_of (input : IssueInput) : option UUIDv7 := given_or (in_templateId input) None.

Section Issuer.
Context {KH : KeyHandles} {P : Pbes2} {DP : DateParse} {CM : CaseMap} {HM : HmacSha256}.
Context {W : Type} {HC : HasClock W} {HE : HasEntropy W} {ST : Storage W} {WC : WallClock W}.
Context (fuel : nat) (issuer : Issuer).

(** Step 1: the template and its resolved entitlements. *)
Definition issue_template (input : IssueInput) : prog W (option (LicenseTemplate * jsval)) :=
  match template_of input with
  | None => ret None
  | Some id =>
      let* leaf := getTemplate id in
      match leaf with
      | None => throw errors.fingerprintRejected
      | Some leaf =>
          let* resolved := resolveTemplate getTemplate leaf in
          ret (Some (leaf, rt_entitlements resolved.1))
      end
  end.

(** Step 2: the expiry, from the template when the caller gave none. *)
Definition issue_expiry (input : IssueInput) (template : option LicenseTemplate) : prog W (option (option Instant)) :=
  match in_expiresAt input, template with
  | None, Some t =>
      if 0 <? t_trial_duration_sec t then
        let* now := nowIso in
        let* expiresAt := lift (plus_seconds now (t_trial_duration_sec t)) in
        ret (Some (Some expiresAt))
      else ret None
  | expiresAt, _ => ret expiresAt
  end.

(** Step 3: entitlements and the trial mark, under the caller's meta. *)
Definition issue_meta (input : IssueInput) (entitlements : option jsval) : jsval :=
  let base := match entitlements with Some e => [(js "entitlements", e)] | None => [] end
              ++ (if is_trial_request input then [(js "is_trial", JBool true)] else []) in
  plain (spread_over base (match in_meta input with Some m => own_entries m | None => [] end)).

(** The cooldown of an earlier trial: refused while it lasts, the stale row
    removed after it. An unreadable date counts as long ago. *)
Definition check_cooldown (input : IssueInput) (template : option LicenseTemplate) (existing : TrialIssuance) : prog W unit :=
  let cooldownSec := given_or (template ≫= t_trial_cooldown_sec) (is_trialCooldownSec issuer) in
  let* now := wallMs in
  match date_parse (ti_issued_at existing) with
  | Some issuedMs =>
      let eligibleMs := issuedMs + cooldownSec * 1000 in
      if now <? eligibleMs then
        if max_time <? Z.abs eligibleMs then throw PlainError
        else throw (errors.trialAlreadyIssued (template_of input) (iso_string eligibleMs))
      else deleteTrialIssuance (ti_id existing)
  | None => deleteTrialIssuance (ti_id existing)
  end.

(** Step 4: the hash of the device, when this is a trial it may have. *)
Definition issue_trial (input : IssueInput) (template : option LicenseTemplate) : prog W (option jsstr) :=
  if is_trial_request input then
    match in_fingerprint input, is_trialPepper issuer with
    | None, _ => throw errors.fingerprintRejected
    | _, None => throw errors.fingerprintRejected
    | Some fingerprint, Some pepper =>
        let* hash := lift (hashFingerprint pepper fingerprint) in
        let* existing := findTrialIssuance (mkTrialLookup (template_of input) hash) in
        do* match existing with None => ret tt | Some row => check_cooldown input template row end;
        ret (Some hash)
    end
  else ret None.

Definition issue_request_of (input : IssueInput) (maxUsages : Z) (expiresAt : option (option Instant)) (meta : jsval)
  : CreateLicenseInput :=
  mkCreateLicense (given_or (in_scopeId input) (is_defaultScopeId issuer)) (template_of input)
    (in_licensableType input) (in_licensableId input) (in_licenseKey input) (in_status input) maxUsages None
    (given_or expiresAt None) (given_or (in_graceUntil input) None) (Some meta).

Definition issue (input : IssueInput) : prog W IssuedLicense :=
  let actor := given_or (in_actor input) (is_defaultActor issuer) in
  let* resolved := issue_template input in
  let template := fst <$> resolved in
  match given_or (Some <$> in_maxUsages input) (t_max_usages <$> template) with
  | None => throw errors.fingerprintRejected
  | Some maxUsages =>
      let* expiresAt := issue_expiry input template in
      let meta := issue_meta input (snd <$> resolved) in
      let* trialHash := issue_trial input template in
      let* license := create_license (issue_request_of input maxUsages expiresAt meta) (mkTransitionOptions (Some actor) None None) in
      do* match trialHash with
          | Some hash => do* recordTrialIssuance (mkTrialInput (template_of input) hash); ret tt
          | None => ret tt
          end;
      ret (mkIssued (l_id license) (l_license_key license) (l_expires_at license) license)
  end.

(** *** The signing key

    The world of these operations carries the cached key. *)

Definition with_db {A} (c : prog W A) : prog (W * option LicenseKey) A := fun v =>
  let '(r, w) := c v.1 in (r, (w, v.2)).

Definition remember_key (key : LicenseKey) : prog (W * option LicenseKey) LicenseKey := fun v => (Ok key, (v.1, Some key)).

Definition autoGenerateSigningKey (alg : KeyAlg) (passphrase : jsstr) : prog (W * option LicenseKey) LicenseKey :=
  let actor := Some (is_defaultActor issuer) in
  let* root_key := with_db (generateRootKey fuel (is_backends issuer)
    (mkGenerateRootKey (is_defaultScopeId issuer) alg passphrase None None) actor) in
  let* signing_key := with_db (issueInitialSigningKey fuel (is_backends issuer)
    (mkIssueInitial (is_defaultScopeId issuer) alg (k_kid root_key) passphrase passphrase None None) actor) in
  remember_key signing_key.

Definition ensureSigningKey : prog (W * option LicenseKey) LicenseKey := fun v =>
  match v.2 with
  | Some key => (Ok key, v)
  | None =>
      let alg := given_or (is_signing issuer ≫= sg_algorithm) ed25519 in
      (let* page := with_db (listKeys
         (mkKeyFilter (match is_defaultScopeId issuer with Some s => Some (Some s) | None => None end)
            None (Some alg) (Some signing) (Some k_active)) (mkPageRequest 1 None)) in
       match pg_items page with
       | key :: _ => remember_key key
       | [] =>
           match is_signing issuer with
           | None => throw PlainError
           | Some sg => autoGenerateSigningKey alg (sg_passphrase sg)
           end
       end) v
  end.
End Issuer.

(** The factory resolves the signing key when one is configured. *)
Definition makeIssuer {KH : KeyHandles} {P : Pbes2} {W} {HC : HasClock W} {HE : HasEntropy W} {ST : Storage W}
    (fuel : nat) (ed25519Backend : SignatureBackend) (config : IssuerConfig) : prog (W * option LicenseKey) Issuer :=
  let issuer := newIssuer ed25519Backend config in
  match ic_signing config with
  | Some _ => do* ensureSigningKey fuel issuer; ret issuer
  | None => ret issuer
  end.

(** ** Client *)

Section Client.
Context {KH : KeyHandles}.

Record ClientVerifyConfig : Type := mkVerifyConfig {
  cv_registry : AlgorithmRegistry;
  cv_bindings : KeyAlgBindings;
  cv_keys : list (jsstr * KeyRecord);
  cv_skewSec : option jsnum;
  cv_expectedAudience : option jsstr;
  cv_expectedIssuer : option jsstr
}.

(** The store and [fetch] are the world's. *)
Record ClientConfig (W : Type) : Type := mkClientConfig {
  cf_serverUrl : jsstr;
  cf_pathPrefix : option jsstr;
  cf_verify : option ClientVerifyConfig;
  cf_gracePeriodSec : option jsnum;
  cf_nowSec : prog W jsnum
}.

Record Client (W : Type) : Type := mkClient {
  cn_serverUrl : jsstr;
  cn_pathPrefix : jsstr;
  cn_verify : option ClientVerifyConfig;
  cn_gracePeriodSec : jsnum;
  cn_nowSec : prog W jsnum
}.
End Client.
Arguments mkClientConfig {KH W} _ _ _ _ _.
Arguments cf_serverUrl {KH W} _.
Arguments cf_pathPrefix {KH W} _.
Arguments cf_verify {KH W} _.
Arguments cf_gracePeriodSec {KH W} _.
Arguments cf_nowSec {KH W} _.
Arguments mkClient {KH W} _ _ _ _ _.
Arguments cn_serverUrl {KH W} _.
Arguments cn_pathPrefix {KH W} _.
Arguments cn_verify {KH W} _.
Arguments cn_gracePeriodSec {KH W} _.
Arguments cn_nowSec {KH W} _.

Definition stripTrailingSlash (s : jsstr) : jsstr := if ends_with_slash s then removelast s else s.

Definition DEFAULT_GRACE_PERIOD_SEC : jsnum := num_of_Z (7 * 24 * 3600).

Definition newClient {KH : KeyHandles} {W} (config : ClientConfig W) : res (Client W) :=
  match cf_serverUrl config with
  | [] => Throw PlainError
  | serverUrl =>
      Ok (mkClient (stripTrailingSlash serverUrl) (given_or (cf_pathPrefix config) (js "/api/licensing/v1"))
            (cf_verify config) (given_or (cf_gracePeriodSec config) DEFAULT_GRACE_PERIOD_SEC) (cf_nowSec config))
  end.

Record LicenseHandle : Type := mkHandle {
  lh_licenseId : jsstr;
  lh_usageId : jsstr;
  lh_status : jsstr;
  lh_maxUsages : jsnum;
  lh_exp : jsnum;
  lh_graceStartedAt : option jsnum;
  lh_isInGrace : bool;
  lh_entitlements : option jsval
}.

(** [fetch(url, { method: 'GET' })]: the status, unless it failed. *)
Class HealthNetwork (W : Type) : Type := { fetchGet : jsstr -> prog W (option Z) }.

Section ClientOps.
Context {KH : KeyHandles} {W : Type} {TS : TokenStore W} {NW : Network W} {HN : HealthNetwork W}.
Context (codecs : Codecs) (client : Client W).

Definition client_transport : TransportOptions := mkTransport (cn_serverUrl client) [].
Definition client_path (tail : String.string) : jsstr := cn_pathPrefix client ++ js tail.

Definition easy_activate (licenseKey fingerprint : jsstr) (metadata : option jsval) : prog W ActivateResult :=
  client_activate licenseKey (mkActivate client_transport fingerprint (Some (client_path "/activate")) metadata).

Definition easy_deactivate (licenseKey reason fingerprint : jsstr) : prog W bool :=
  client_deactivate reason (mkDeactivate client_transport licenseKey fingerprint (Some (client_path "/deactivate"))).

Definition requireVerify : res ClientVerifyConfig :=
  match cn_verify client with Some v => Ok v | None => Throw PlainError end.

(** [primValidate] without a ledger. *)
Definition easy_verify (verify : ClientVerifyConfig) (token fingerprint : jsstr) (nowSec : jsnum) : res ValidateResult :=
  (validate (L := MemoryJtiLedger) codecs token
     (mkValidate (cv_registry verify) (cv_bindings verify) (cv_keys verify) fingerprint nowSec (cv_skewSec verify)
        (cv_expectedAudience verify) (cv_expectedIssuer verify)) None).1.

Definition easy_validate (fingerprint : jsstr) : prog W ValidateResult :=
  let* verify := lift requireVerify in
  let* state := ts_read in
  match st_token state with
  | None => throw clientErrors.noToken
  | Some token =>
      let* nowSec := cn_nowSec client in
      lift (easy_verify verify token fingerprint nowSec)
  end.

(** The options of every refresh. *)
Definition refresh_options (nowSec : jsnum) : RefreshOptions :=
  mkRefresh client_transport nowSec None (Some (cn_gracePeriodSec client)) (Some (client_path "/refresh")).

Definition prim_refresh : prog W RefreshOutcome :=
  let* nowSec := cn_nowSec client in client_refresh codecs (refresh_options nowSec).

Definition probeHealth : prog W bool :=
  try_catch
    (let* status := fetchGet (cn_serverUrl client ++ client_path "/health") in
     ret (bool_decide (status = Some 200)))
    (fun _ => ret false).

Definition easy_refresh : prog W RefreshOutcome :=
  let* preState := ts_read in
  let* out := prim_refresh in
  let probe (token : jsstr) (entered : bool) : prog W RefreshOutcome :=
    let* healthy := probeHealth in
    if negb healthy then ret out
    else
      do* (if entered
           then ts_write (mkStored (Some (given_or (st_token preState) token)) (st_graceStartSec preState))
           else ret tt);
      throw clientErrors.issuerProtocolError in
  match out with
  | GraceEntered token _ => probe token true
  | GraceContinued token _ => probe token false
  | _ => ret out
  end.

Definition handle_of (result : ValidateResult) (fresh : StoredTokenState) : LicenseHandle :=
  mkHandle (vr_license_id result) (vr_usage_id result) (vr_status result) (vr_max_usages result) (vr_exp result)
    (st_graceStartSec fresh)
    (str_eqb (vr_status result) (js "grace") || bool_decide (st_graceStartSec fresh <> None))
    (vr_entitlements result).

Definition easy_guard (fingerprint : jsstr) : prog W LicenseHandle :=
  let* verify := lift requireVerify in
  let* state := ts_read in
  match st_token state with
  | None => throw clientErrors.noToken
  | Some _ =>
      do* prim_refresh;
      let* fresh := ts_read in
      match st_token fresh with
      | None => throw clientErrors.noToken
      | Some token =>
          let* nowSec := cn_nowSec client in
          let* result := lift (easy_verify verify token fingerprint nowSec) in
          ret (handle_of result fresh)
      end
  end.

Definition easy_heartbeat (intervalSec : option jsnum) (onError : option (exn -> prog W unit))
    (onSuccess : option (prog W unit)) : HeartbeatOptions W :=
  mkHeartbeat client_transport intervalSec (Some (client_path "/heartbeat")) onError onSuccess.
End ClientOps.
