(* ===== verification/Admin.v ===== *)
(** * Admin: the operator endpoints

    [src/typescript/src/http/admin-handlers.ts]: listing, reading, creating
    and changing licenses, scopes, templates, usages and keys, the audit log
    and the dashboard, over any storage. *)

From S2P Require Import Prelude Errors JsNum JsArith Text Json Types Crypto TokenCodec Id Cursor Storage Pages LicenseKeyFormat Lifecycle LicenseService UsageService EncryptedPkcs8 KeyHierarchy ScopeService Http Templates Memory Stats ClientHandlers.

(** ** Wire projections

    [asJson]: a row is sent as it is. *)

Definition nullable_int (o : option Z) : jsval := match o with Some z => js_int z | None => JNull end.
Definition nullable_json (o : option jsval) : jsval := match o with Some v => v | None => JNull end.

Definition license_json (l : License) : jsval :=
  plain [(js "id", JStr (l_id l)); (js "scope_id", nullable_str (l_scope_id l));
         (js "template_id", nullable_str (l_template_id l)); (js "licensable_type", JStr (l_licensable_type l));
         (js "licensable_id", JStr (l_licensable_id l)); (js "license_key", JStr (l_license_key l));
         (js "status", JStr (status_str (l_status l))); (js "max_usages", js_int (l_max_usages l));
         (js "is_trial", JBool (l_is_trial l)); (js "activated_at", nullable_str (l_activated_at l));
         (js "expires_at", nullable_str (l_expires_at l)); (js "grace_until", nullable_str (l_grace_until l));
         (js "meta", l_meta l); (js "created_at", JStr (l_created_at l)); (js "updated_at", JStr (l_updated_at l))].

Definition scope_json (s : LicenseScope) : jsval :=
  plain [(js "id", JStr (sc_id s)); (js "slug", JStr (sc_slug s)); (js "name", JStr (sc_name s));
         (js "meta", sc_meta s); (js "created_at", JStr (sc_created_at s)); (js "updated_at", JStr (sc_updated_at s))].

Definition template_json (t : LicenseTemplate) : jsval :=
  plain [(js "id", JStr (t_id t)); (js "scope_id", nullable_str (t_scope_id t));
         (js "parent_id", nullable_str (t_parent_id t)); (js "name", JStr (t_name t));
         (js "max_usages", js_int (t_max_usages t)); (js "trial_duration_sec", js_int (t_trial_duration_sec t));
         (js "trial_cooldown_sec", nullable_int (t_trial_cooldown_sec t));
         (js "grace_duration_sec", js_int (t_grace_duration_sec t));
         (js "force_online_after_sec", nullable_int (t_force_online_after_sec t));
         (js "entitlements", t_entitlements t); (js "meta", t_meta t);
         (js "created_at", JStr (t_created_at t)); (js "updated_at", JStr (t_updated_at t))].

Definition usage_json (u : LicenseUsage) : jsval :=
  plain [(js "id", JStr (u_id u)); (js "license_id", JStr (u_license_id u));
         (js "fingerprint", JStr (u_fingerprint u)); (js "status", JStr (usage_status_str (u_status u)));
         (js "registered_at", JStr (u_registered_at u)); (js "revoked_at", nullable_str (u_revoked_at u));
         (js "last_seen_at", JStr (u_last_seen_at u)); (js "client_meta", u_client_meta u);
         (js "created_at", JStr (u_created_at u)); (js "updated_at", JStr (u_updated_at u))].

Definition audit_json (a : AuditLogEntry) : jsval :=
  plain [(js "id", JStr (a_id a)); (js "license_id", nullable_str (a_license_id a));
         (js "scope_id", nullable_str (a_scope_id a)); (js "actor", JStr (a_actor a));
         (js "actor_kind", JStr (actor_kind_str (a_actor_kind a))); (js "actor_id", nullable_str (a_actor_id a));
         (js "event", JStr (a_event a)); (js "prior_state", nullable_json (a_prior_state a));
         (js "new_state", nullable_json (a_new_state a)); (js "occurred_at", JStr (a_occurred_at a))].

(** Everything but the private half. *)
Definition keyToWire (k : LicenseKey) : jsval :=
  plain [(js "id", JStr (k_id k)); (js "scope_id", nullable_str (k_scope_id k)); (js "kid", JStr (k_kid k));
         (js "alg", JStr (alg_str (k_alg k))); (js "role", JStr (role_str (k_role k)));
         (js "state", JStr (key_state_str (k_state k))); (js "public_pem", JStr (k_public_pem k));
         (js "rotated_from", nullable_str (k_rotated_from k)); (js "rotated_at", nullable_str (k_rotated_at k));
         (js "not_before", JStr (k_not_before k)); (js "not_after", nullable_str (k_not_after k));
         (js "meta", k_meta k); (js "created_at", JStr (k_created_at k)); (js "updated_at", JStr (k_updated_at k))].

Definition page_of {T} (p : Page T) (f : T -> jsval) : HandlerResponse :=
  respond (plain [(js "items", JArr (map f (pg_items p))); (js "next_cursor", nullable_str (pg_cursor p))]) 200.

(** ** Shared validators *)

Definition parseEnum {T} (str : T -> jsstr) (allowed : list T) (v : option QueryValue) : option T :=
  match v ≫= first_value with
  | None | Some [] => None
  | Some s => List.find (fun a => str_eqb (str a) s) allowed
  end.

Definition parseUuidQuery (v : option QueryValue) : option jsstr :=
  match v ≫= first_value with
  | Some ((_ :: _) as s) => Some s
  | _ => None
  end.

Definition LICENSE_STATUSES : list LicenseStatus := [pending; active; grace; expired; suspended; revoked].
Definition USAGE_STATUSES : list UsageStatus := [u_active; u_revoked].
Definition KEY_STATES : list KeyState := [k_active; k_retiring].
Definition KEY_ROLES : list KeyRole := [root; signing].

Definition query (req : HandlerRequest) (name : String.string) : option QueryValue := map_get (q_query req) (js name).

(** [type:id], neither part empty; an id may hold colons. *)
Definition parse_licensable (v : option QueryValue) : option (jsstr * jsstr) :=
  match v ≫= first_value with
  | None => None
  | Some s =>
      match findIndex (Z.eqb 58) s with
      | None | Some O => None
      | Some idx => if (S idx =? List.length s)%nat then None else Some (take idx s, drop (S idx) s)
      end
  end.

(** The integer behind a number that [requireInt] let through. *)
Definition int_of (n : jsnum) : Z := given (num_to_Z n).

(** [if (b[key] !== undefined) { ... }] *)
Definition when_present {A} (b : jsval) (key : jsstr) (v : ValidationResult A) : ValidationResult (option A) :=
  match get_prop b key with
  | JUndefined => Ok None
  | _ => let? a := v in Ok (Some a)
  end.

(** A present [null] is kept as null. *)
Definition unless_null {A} (b : jsval) (key : jsstr) (v : ValidationResult A) : ValidationResult (option A) :=
  match get_prop b key with
  | JNull => Ok None
  | _ => let? a := v in Ok (Some a)
  end.

(** A nullable field that may be absent too. *)
Definition nullable_field {A} (b : jsval) (key : jsstr) (v : ValidationResult A) : ValidationResult (option A) :=
  match get_prop b key with
  | JUndefined | JNull => Ok None
  | _ => let? a := v in Ok (Some a)
  end.

Definition object_or_empty (b : jsval) (key : jsstr) : ValidationResult jsval :=
  let? v := optionalObject b key in Ok (given_or v (plain [])).

Definition require_Z (b : jsval) (key : jsstr) (min : Z) : ValidationResult Z :=
  let? n := requireInt b key (Some min) None in Ok (int_of n).

(** [/^[a-z0-9][a-z0-9-]*$/] *)
Definition slug_ok (s : jsstr) : bool :=
  let alnum c := ((0x61 <=? c) && (c <=? 0x7a)) || ((0x30 <=? c) && (c <=? 0x39)) in
  match s with
  | [] => false
  | c :: s' => alnum c && forallb (fun d => alnum d || (d =? 45)) s'
  end.

(** Who acts. *)
Definition adminActor (req : HandlerRequest) (action : option jsstr) : TransitionOptions :=
  mkTransitionOptions
    (Some (match action with None => js "admin" | Some a => js "admin:" ++ a end))
    (Some actor_admin) (Some (q_subject req)).

(** The services of scopes, templates and keys take the actor alone. *)
Definition admin_name : option jsstr := Some (js "admin").

Section Context.
Context {KH : KeyHandles}.
Record AdminHandlerContext : Type := mkAdminContext {
  ac_backends : list (KeyAlg * SignatureBackend);
  ac_rootPassphrase : option jsstr;
  ac_signingPassphrase : option jsstr
}.
End Context.

(** ** Patches read from a body *)

Definition license_patch (b : jsval) : ValidationResult LicensePatch :=
  let? max := when_present b (js "max_usages") (require_Z b (js "max_usages") 1) in
  let? exp := when_present b (js "expires_at") (optionalString b (js "expires_at")) in
  let? until := when_present b (js "grace_until") (optionalString b (js "grace_until")) in
  let? meta := when_present b (js "meta") (object_or_empty b (js "meta")) in
  Ok (mkLicensePatch None max None exp until meta None None None).

(** [Object.keys(patch).length === 0] *)
Definition empty_license_patch (p : LicensePatch) : bool :=
  match lp_max_usages p, lp_expires_at p, lp_grace_until p, lp_meta p with
  | None, None, None, None => true
  | _, _, _, _ => false
  end.

Definition scope_patch (b : jsval) : ValidationResult LicenseScopePatch :=
  let? name := when_present b (js "name") (requireString b (js "name")) in
  let? meta := when_present b (js "meta") (object_or_empty b (js "meta")) in
  Ok (mkScopePatch name meta).

Definition empty_scope_patch (p : LicenseScopePatch) : bool :=
  match scp_name p, scp_meta p with None, None => true | _, _ => false end.

Definition template_patch (b : jsval) : ValidationResult LicenseTemplatePatch :=
  let? name := when_present b (js "name") (requireString b (js "name")) in
  let? parent := when_present b (js "parent_id") (unless_null b (js "parent_id") (requireString b (js "parent_id"))) in
  let? max := when_present b (js "max_usages") (require_Z b (js "max_usages") 1) in
  let? trial := when_present b (js "trial_duration_sec") (require_Z b (js "trial_duration_sec") 0) in
  let? cooldown := when_present b (js "trial_cooldown_sec")
                     (unless_null b (js "trial_cooldown_sec") (require_Z b (js "trial_cooldown_sec") 0)) in
  let? graceDur := when_present b (js "grace_duration_sec") (require_Z b (js "grace_duration_sec") 0) in
  let? foa := when_present b (js "force_online_after_sec")
                (unless_null b (js "force_online_after_sec") (require_Z b (js "force_online_after_sec") 0)) in
  let? entitlements := when_present b (js "entitlements") (object_or_empty b (js "entitlements")) in
  let? meta := when_present b (js "meta") (object_or_empty b (js "meta")) in
  Ok (mkTemplatePatch name parent max trial cooldown graceDur foa entitlements meta).

Definition empty_template_patch (p : LicenseTemplatePatch) : bool :=
  match tp_name p, tp_parent_id p, tp_max_usages p, tp_trial_duration_sec p, tp_trial_cooldown_sec p,
        tp_grace_duration_sec p, tp_force_online_after_sec p, tp_entitlements p, tp_meta p with
  | None, None, None, None, None, None, None, None, None => true
  | _, _, _, _, _, _, _, _, _ => false
  end.

(** ** Handlers *)

Section Handlers.
Context {KH : KeyHandles} {P : Pbes2} {CM : CaseMap} {EM : ErrorMessages}.
Context {W : Type} {HC : HasClock W} {HE : HasEntropy W} {ST : Storage W} {SS : StatsStorage W}.
Context (fuel : nat) (ctx : AdminHandlerContext).

(** A licensing error becomes its response; any other goes to the adapter. *)
Definition guard (c : prog W HandlerResponse) : prog W HandlerResponse :=
  try_catch c (fun e => match e with LicensingError _ _ => ret (errFromLicensing e) | _ => throw e end).

Definition param_id (params : Params) : jsstr := given_or (map_get params (js "id")) [].

(** What the messages print. *)
Definition id_text (params : Params) : jsstr := given_or (map_get params (js "id")) (js "undefined").

Definition not_found (code what : String.string) (params : Params) : HandlerResponse :=
  err 404 (js code) (js what ++ js " not found: " ++ id_text params) None.

(** Read a row or answer 404. *)
Definition fetched {T} (get : UUIDv7 -> prog W (option T)) (code what : String.string) (params : Params)
    (k : T -> prog W HandlerResponse) : prog W HandlerResponse :=
  let* row := get (param_id params) in
  match row with
  | None => ret (not_found code what params)
  | Some row => k row
  end.

Definition first_of {T} (list : PageRequest -> prog W (Page T)) : prog W (option T) :=
  let* p := list (mkPageRequest 1 None) in ret (head (pg_items p)).

(** *** Licenses *)

Definition license_filter (req : HandlerRequest) : LicenseFilter :=
  let licensable := parse_licensable (query req "licensable") in
  mkLicenseFilter (Some <$> parseUuidQuery (query req "scope_id"))
    ((fun s => [s]) <$> parseEnum status_str LICENSE_STATUSES (query req "status"))
    (fst <$> licensable) (snd <$> licensable)
    (Some <$> parseUuidQuery (query req "template_id")).

Definition page_request (limit : jsnum) (req : HandlerRequest) : PageRequest :=
  mkPageRequest (int_of limit) (parseCursor req).

Definition handleListLicenses (req : HandlerRequest) : prog W HandlerResponse :=
  checked (parseLimit req) (fun limit =>
  let* p := listLicenses (license_filter req) (page_request limit req) in
  ret (page_of p license_json)).

Definition license_request (b : jsval) : ValidationResult CreateLicenseInput :=
  let? licType := requireString b (js "licensable_type") in
  let? licId := requireString b (js "licensable_id") in
  let? maxUsages := require_Z b (js "max_usages") 1 in
  let? scopeId := optionalString b (js "scope_id") in
  let? templateId := optionalString b (js "template_id") in
  let? licenseKey := optionalString b (js "license_key") in
  let? expiresAt := optionalString b (js "expires_at") in
  let? graceUntil := optionalString b (js "grace_until") in
  let? meta := object_or_empty b (js "meta") in
  Ok (mkCreateLicense scopeId templateId licType licId licenseKey None maxUsages None expiresAt graceUntil (Some meta)).

(** [createLicense] is called without options. *)
Definition handleCreateLicense (req : HandlerRequest) : prog W HandlerResponse :=
  checked (requireJsonObject req) (fun b =>
  checked (license_request b) (fun input =>
  guard (let* license := create_license input no_options in ret (created (license_json license))))).

Definition handleGetLicense (req : HandlerRequest) (params : Params) : prog W HandlerResponse :=
  fetched getLicense "LicenseNotFound" "license" params (fun license => ret (respond (license_json license) 200)).

Definition handleUpdateLicense (req : HandlerRequest) (params : Params) : prog W HandlerResponse :=
  checked (requireJsonObject req) (fun b =>
  fetched getLicense "LicenseNotFound" "license" params (fun license =>
  checked (license_patch b) (fun patch =>
  if empty_license_patch patch then ret (respond (license_json license) 200)
  else guard (let* updated := updateLicense (l_id license) patch in ret (respond (license_json updated) 200))))).

Definition handleDeleteLicense (req : HandlerRequest) (params : Params) : prog W HandlerResponse :=
  fetched getLicense "LicenseNotFound" "license" params (fun license =>
  let* used := first_of (listUsages (active_of (l_id license))) in
  match used with
  | Some _ => ret (err 409 (js "SeatsStillActive") (js "license has active usages; revoke them first") None)
  | None => guard (do* withTransaction (revoke license (adminActor req None)); ret noContent)
  end).

Inductive AdminTransition : Type := ToSuspend | ToResume | ToRevoke.

Definition transition_of (t : AdminTransition) (license : License) (opts : TransitionOptions) : prog W License :=
  match t with
  | ToSuspend => suspend license opts
  | ToResume => resume license opts
  | ToRevoke => revoke license opts
  end.

Definition admin_transition (t : AdminTransition) (req : HandlerRequest) (params : Params) : prog W HandlerResponse :=
  fetched getLicense "LicenseNotFound" "license" params (fun license =>
  guard (let* updated := withTransaction (transition_of t license (adminActor req None)) in
         ret (respond (license_json updated) 200))).

Definition handleRenewLicense (req : HandlerRequest) (params : Params) : prog W HandlerResponse :=
  checked (requireJsonObject req) (fun b =>
  checked (requireString b (js "expires_at")) (fun expiresAt =>
  checked (optionalString b (js "grace_until")) (fun graceUntil =>
  fetched getLicense "LicenseNotFound" "license" params (fun license =>
  guard (let* updated := withTransaction (renew license
           (mkRenewOptions (adminActor req None) (Some expiresAt) (Some <$> graceUntil))) in
         ret (respond (license_json updated) 200)))))).

Definition handleRotateLicenseKey (req : HandlerRequest) (params : Params) : prog W HandlerResponse :=
  guard (let* res := rotateLicenseKey fuel (param_id params) (adminActor req (Some (js "rotate-key"))) in
         ret (respond (license_json (rot_license res)) 200)).

(** *** Scopes *)

Definition handleListScopes (req : HandlerRequest) : prog W HandlerResponse :=
  checked (parseLimit req) (fun limit =>
  let* p := listScopes (mkScopeFilter None) (page_request limit req) in
  ret (page_of p scope_json)).

Definition scope_request (b : jsval) : ValidationResult CreateScopeInput :=
  let? slug := requireString b (js "slug") in
  if negb (slug_ok slug) || (64 <? List.length slug)%nat
  then Throw (bad_request (js "slug must match ^[a-z0-9][a-z0-9-]*$ and be <= 64 chars"))
  else
    let? name := requireString b (js "name") in
    let? meta := object_or_empty b (js "meta") in
    Ok (mkCreateScope slug name (Some meta)).

Definition handleCreateScope (req : HandlerRequest) : prog W HandlerResponse :=
  checked (requireJsonObject req) (fun b =>
  checked (scope_request b) (fun input =>
  guard (let* scope := create_scope input admin_name in ret (created (scope_json scope))))).

Definition handleGetScope (req : HandlerRequest) (params : Params) : prog W HandlerResponse :=
  fetched getScope "NotFound" "scope" params (fun scope => ret (respond (scope_json scope) 200)).

Definition handleUpdateScope (req : HandlerRequest) (params : Params) : prog W HandlerResponse :=
  checked (requireJsonObject req) (fun b =>
  fetched getScope "NotFound" "scope" params (fun scope =>
  checked (scope_patch b) (fun patch =>
  if empty_scope_patch patch then ret (respond (scope_json scope) 200)
  else guard (let* updated := updateScope (sc_id scope) patch in ret (respond (scope_json updated) 200))))).

Definition handleDeleteScope (req : HandlerRequest) (params : Params) : prog W HandlerResponse :=
  fetched getScope "NotFound" "scope" params (fun scope =>
  let* lic := first_of (listLicenses (mkLicenseFilter (Some (Some (sc_id scope))) None None None None)) in
  match lic with
  | Some _ => ret (err 409 (js "ScopeInUse") (js "scope is referenced by one or more licenses") None)
  | None =>
      let* tpl := first_of (listTemplates (mkTemplateFilter (Some (Some (sc_id scope))) None None)) in
      match tpl with
      | Some _ => ret (err 409 (js "ScopeInUse") (js "scope is referenced by one or more templates") None)
      | None => ret noContent
      end
  end).

(** *** Templates *)

(** A parent may be named or be the text [null]. *)
Definition null_or_value (v : option QueryValue) : option (option jsstr) :=
  match parseUuidQuery v with
  | None => None
  | Some s => Some (if str_eqb s (js "null") then None else Some s)
  end.

Definition handleListTemplates (req : HandlerRequest) : prog W HandlerResponse :=
  checked (parseLimit req) (fun limit =>
  let* p := listTemplates (mkTemplateFilter (Some <$> parseUuidQuery (query req "scope_id")) None
                             (null_or_value (query req "parent_id"))) (page_request limit req) in
  ret (page_of p template_json)).

Definition template_request (b : jsval) : ValidationResult CreateTemplateInput :=
  let? name := requireString b (js "name") in
  let? maxUsages := require_Z b (js "max_usages") 1 in
  let? trial := require_Z b (js "trial_duration_sec") 0 in
  let? graceDur := require_Z b (js "grace_duration_sec") 0 in
  let? scopeId := optionalString b (js "scope_id") in
  let? parentId := optionalString b (js "parent_id") in
  let? entitlements := object_or_empty b (js "entitlements") in
  let? meta := object_or_empty b (js "meta") in
  let? foa := nullable_field b (js "force_online_after_sec") (require_Z b (js "force_online_after_sec") 0) in
  let? cooldown := nullable_field b (js "trial_cooldown_sec") (require_Z b (js "trial_cooldown_sec") 0) in
  Ok (mkCreateTemplate scopeId parentId name maxUsages trial cooldown graceDur foa (Some entitlements) (Some meta)).

Definition handleCreateTemplate (req : HandlerRequest) : prog W HandlerResponse :=
  checked (requireJsonObject req) (fun b =>
  checked (template_request b) (fun input =>
  guard (let* tpl := create_template input admin_name in ret (created (template_json tpl))))).

Definition handleGetTemplate (req : HandlerRequest) (params : Params) : prog W HandlerResponse :=
  fetched getTemplate "NotFound" "template" params (fun tpl => ret (respond (template_json tpl) 200)).

Definition handleUpdateTemplate (req : HandlerRequest) (params : Params) : prog W HandlerResponse :=
  checked (requireJsonObject req) (fun b =>
  fetched getTemplate "NotFound" "template" params (fun tpl =>
  checked (template_patch b) (fun patch =>
  if empty_template_patch patch then ret (respond (template_json tpl) 200)
  else guard (let* updated := updateTemplate (t_id tpl) patch in ret (respond (template_json updated) 200))))).

Definition handleDeleteTemplate (req : HandlerRequest) (params : Params) : prog W HandlerResponse :=
  fetched getTemplate "NotFound" "template" params (fun tpl =>
  let* lic := first_of (listLicenses (mkLicenseFilter None None None None (Some (Some (t_id tpl))))) in
  match lic with
  | Some _ => ret (err 409 (js "TemplateInUse") (js "template is referenced by one or more licenses") None)
  | None => ret noContent
  end).

(** *** Usages *)

Definition handleListUsages (req : HandlerRequest) : prog W HandlerResponse :=
  checked (parseLimit req) (fun limit =>
  let* p := listUsages (mkUsageFilter (parseUuidQuery (query req "license_id")) None
                          ((fun s => [s]) <$> parseEnum usage_status_str USAGE_STATUSES (query req "status")))
              (page_request limit req) in
  ret (page_of p usage_json)).

Definition handleGetUsage (req : HandlerRequest) (params : Params) : prog W HandlerResponse :=
  fetched getUsage "NotFound" "usage" params (fun usage => ret (respond (usage_json usage) 200)).

Definition handleRevokeUsage (req : HandlerRequest) (params : Params) : prog W HandlerResponse :=
  fetched getUsage "NotFound" "usage" params (fun usage =>
  guard (do* (if bool_decide (u_status usage <> u_revoked)
              then do* revokeUsage (u_id usage) (adminActor req None); ret tt else ret tt);
         let* fresh := getUsage (u_id usage) in
         ret (respond (usage_json (given_or fresh usage)) 200))).

(** *** Keys *)

Definition key_filter (req : HandlerRequest) : LicenseKeyFilter :=
  mkKeyFilter (match query req "scope_id" with None => None | v => Some (parseUuidQuery v) end) None None None
    (parseEnum key_state_str KEY_STATES (query req "state")).

Definition handleListKeys (req : HandlerRequest) : prog W HandlerResponse :=
  checked (parseLimit req) (fun limit =>
  let* p := listKeys (key_filter req) (page_request limit req) in
  ret (page_of p keyToWire)).

Record KeyRequest : Type := mkKeyRequest {
  kq_kid : jsstr;
  kq_alg : KeyAlg;
  kq_role : KeyRole;
  kq_scope_id : option UUIDv7;
  kq_not_after : option Instant
}.

Definition key_request (b : jsval) : ValidationResult KeyRequest :=
  let? kid := requireString b (js "kid") in
  let? algStr := requireString b (js "alg") in
  match alg_of_str algStr with
  | None => Throw (bad_request (js "unsupported alg: " ++ algStr))
  | Some alg =>
      let? roleStr := requireString b (js "role") in
      match List.find (fun r => str_eqb (role_str r) roleStr) KEY_ROLES with
      | None => Throw (bad_request (js "unsupported role: " ++ roleStr))
      | Some role =>
          let? scopeId := optionalString b (js "scope_id") in
          let? notAfter := optionalString b (js "not_after") in
          Ok (mkKeyRequest kid alg role scopeId notAfter)
      end
  end.

(** The active root of a scope and an algorithm. *)
Definition active_root (scope_id : option UUIDv7) (alg : KeyAlg) : prog W (option LicenseKey) :=
  first_of (listKeys (mkKeyFilter (Some scope_id) None (Some alg) (Some root) (Some k_active))).

Definition no_root (message : String.string) : HandlerResponse :=
  err 409 (js "IllegalLifecycleTransition") (js message) None.

Definition create_root (q : KeyRequest) (rootPassphrase : jsstr) : prog W HandlerResponse :=
  let* key := generateRootKey fuel (ac_backends ctx)
    (mkGenerateRootKey (kq_scope_id q) (kq_alg q) rootPassphrase (Some (kq_not_after q)) (Some (kq_kid q))) admin_name in
  ret (created (keyToWire key)).

Definition create_signing (q : KeyRequest) (rootPassphrase signingPassphrase : jsstr) : prog W HandlerResponse :=
  let* root_key := active_root (kq_scope_id q) (kq_alg q) in
  match root_key with
  | None => ret (no_root "no active root key for (scope, alg); generate a root first")
  | Some root_key =>
      let* key := issueInitialSigningKey fuel (ac_backends ctx)
        (mkIssueInitial (kq_scope_id q) (kq_alg q) (k_kid root_key) rootPassphrase signingPassphrase
           (Some (kq_not_after q)) (Some (kq_kid q))) admin_name in
      ret (created (keyToWire key))
  end.

Definition handleCreateKey (req : HandlerRequest) : prog W HandlerResponse :=
  checked (requireJsonObject req) (fun b =>
  checked (key_request b) (fun q =>
  match ac_rootPassphrase ctx with
  | None => ret (bad_request (js "root passphrase is not configured on this issuer"))
  | Some rootPassphrase =>
      match kq_role q, ac_signingPassphrase ctx with
      | root, _ => guard (create_root q rootPassphrase)
      | signing, None => ret (bad_request (js "signing passphrase is not configured on this issuer"))
      | signing, Some signingPassphrase => guard (create_signing q rootPassphrase signingPassphrase)
      end
  end)).

Definition handleRotateKey (req : HandlerRequest) (params : Params) : prog W HandlerResponse :=
  fetched getKey "NotFound" "key" params (fun key =>
  if bool_decide (k_role key <> signing) then ret (bad_request (js "only signing keys may be rotated"))
  else match ac_rootPassphrase ctx, ac_signingPassphrase ctx with
  | Some rootPassphrase, Some signingPassphrase =>
      let* root_key := active_root (k_scope_id key) (k_alg key) in
      match root_key with
      | None => ret (no_root "no active root key for (scope, alg)")
      | Some root_key =>
          guard (let* result := rotateSigningKey fuel (ac_backends ctx)
                   (mkRotateSigning (k_scope_id key) (k_alg key) (k_kid root_key) rootPassphrase signingPassphrase None None)
                   admin_name in
                 ret (respond (plain [(js "retiring", keyToWire result.1); (js "active", keyToWire result.2)]) 200))
      end
  | _, _ => ret (bad_request (js "root+signing passphrases are not configured on this issuer"))
  end).

(** *** Audit and statistics *)

Definition handleListAudit (req : HandlerRequest) : prog W HandlerResponse :=
  checked (parseLimit req) (fun limit =>
  let* p := listAudit (mkAuditFilter (Some <$> parseUuidQuery (query req "license_id"))
                         (Some <$> parseUuidQuery (query req "scope_id"))
                         ((fun e => [e]) <$> parseUuidQuery (query req "event")) None None None None None)
              (page_request limit req) in
  ret (page_of p audit_json)).

Definition handleGetLicenseStats (req : HandlerRequest) : prog W HandlerResponse :=
  let* stats := getLicenseStats (null_or_value (query req "scope_id")) in
  ret (respond (stats_json stats) 200).

(** *** Routes, none of them public *)

Definition route0 (method : HttpMethod) (path : jsstr) (h : Handler W) : Route W :=
  mkRoute method path (fun req _ => h req) None.
Definition routeP (method : HttpMethod) (path : jsstr) (h : HandlerRequest -> Params -> prog W HandlerResponse) : Route W :=
  mkRoute method path h None.

Definition adminRoutes (prefix : jsstr) : list (Route W) :=
  let p path := prefix ++ js path in [
  route0 GET (p "/admin/licenses"%string) handleListLicenses;
  route0 POST (p "/admin/licenses"%string) handleCreateLicense;
  routeP GET (p "/admin/licenses/:id"%string) handleGetLicense;
  routeP PATCH (p "/admin/licenses/:id"%string) handleUpdateLicense;
  routeP DELETE (p "/admin/licenses/:id"%string) handleDeleteLicense;
  routeP POST (p "/admin/licenses/:id/suspend"%string) (admin_transition ToSuspend);
  routeP POST (p "/admin/licenses/:id/resume"%string) (admin_transition ToResume);
  routeP POST (p "/admin/licenses/:id/revoke"%string) (admin_transition ToRevoke);
  routeP POST (p "/admin/licenses/:id/renew"%string) handleRenewLicense;
  routeP POST (p "/admin/licenses/:id/rotate-key"%string) handleRotateLicenseKey;
  route0 GET (p "/admin/scopes"%string) handleListScopes;
  route0 POST (p "/admin/scopes"%string) handleCreateScope;
  routeP GET (p "/admin/scopes/:id"%string) handleGetScope;
  routeP PATCH (p "/admin/scopes/:id"%string) handleUpdateScope;
  routeP DELETE (p "/admin/scopes/:id"%string) handleDeleteScope;
  route0 GET (p "/admin/templates"%string) handleListTemplates;
  route0 POST (p "/admin/templates"%string) handleCreateTemplate;
  routeP GET (p "/admin/templates/:id"%string) handleGetTemplate;
  routeP PATCH (p "/admin/templates/:id"%string) handleUpdateTemplate;
  routeP DELETE (p "/admin/templates/:id"%string) handleDeleteTemplate;
  route0 GET (p "/admin/usages"%string) handleListUsages;
  routeP GET (p "/admin/usages/:id"%string) handleGetUsage;
  routeP POST (p "/admin/usages/:id/revoke"%string) handleRevokeUsage;
  route0 GET (p "/admin/keys"%string) handleListKeys;
  route0 POST (p "/admin/keys"%string) handleCreateKey;
  routeP POST (p "/admin/keys/:id/rotate"%string) handleRotateKey;
  route0 GET (p "/admin/audit"%string) handleListAudit;
  route0 GET (p "/admin/stats/licenses"%string) handleGetLicenseStats
].
End Handlers.
