(* ===== verification/AdminProps.v ===== *)
(** * AdminProps: what the operator endpoints guarantee

    On the memory adapter: an endpoint that refuses has changed nothing,
    reading never shows the private half of a key, and the changes that
    leave no trace in the audit log. *)

From S2P Require Import Prelude Errors JsNum JsArith Text Json Types Crypto TokenCodec Id Cursor Storage Pages LicenseKeyFormat Lifecycle LicenseService UsageService EncryptedPkcs8 KeyHierarchy ScopeService Memory MemoryLaws Quiet EncryptedPkcs8Props KeyHierarchyProps TokenProps Http Templates Stats ClientHandlers ClientHandlersProps Admin.

(** ** All or nothing

    [failsafe c]: when [c] throws, the tables are what they were. *)

Definition failsafe {A} (c : prog World A) : Prop := forall w,
  match (c w).1 with Ok _ => True | Throw _ => w_state (c w).2 = w_state w end.

(** [refuses_cleanly c]: an endpoint that throws or answers an error status
    has left the tables alone. *)
Definition refused (r : res HandlerResponse) : Prop :=
  match r with Ok resp => 400 <= r_status resp | Throw _ => True end.
Definition refuses_cleanly (c : prog World HandlerResponse) : Prop := forall w,
  refused (c w).1 -> w_state (c w).2 = w_state w.

Lemma failsafe_quiet {A} (c : prog World A) : quiet c -> failsafe c.
Proof. intros H w. destruct (H w) as [Hs _]. by destruct ((c w).1). Qed.

Lemma failsafe_bind {A B} (c : prog World A) (k : A -> prog World B) :
  quiet c -> (forall a, failsafe (k a)) -> failsafe (bind c k).
Proof.
  intros Hc Hk w. unfold bind. specialize (Hc w). destruct (c w) as [[a|e] w1]; destruct Hc as [Hs _].
  - specialize (Hk a w1). cbn in Hs. by rewrite Hs in Hk.
  - done.
Qed.

Lemma failsafe_wrote {A} (c : prog World A) post : (forall w, wrote post c w) -> failsafe c.
Proof. intros H w. destruct (H w) as [_ Hp]. by destruct ((c w).1). Qed.

(** Whatever its body does, a transaction is. *)
Lemma failsafe_tx {A} (c : prog World A) : failsafe (withTransaction c).
Proof.
  intros w. cbn [withTransaction MemoryStorage]. unfold mem_withTransaction. destruct (_ <? _); [done|].
  by destruct (c _) as [[a|e] w1].
Qed.

(** What follows a commit and cannot fail. *)
Definition succeeds (k : prog World HandlerResponse) : Prop := forall w,
  match (k w).1 with Ok resp => r_status resp < 400 | Throw _ => False end.

Section Cleanly.
Implicit Types (c : prog World HandlerResponse).

Lemma cleanly_quiet c : quiet c -> refuses_cleanly c.
Proof. intros H w _. by destruct (H w). Qed.

Lemma cleanly_bind {A} (c : prog World A) k :
  quiet c -> (forall a, refuses_cleanly (k a)) -> refuses_cleanly (bind c k).
Proof.
  intros Hc Hk w. unfold bind. specialize (Hc w). destruct (c w) as [[a|e] w1]; destruct Hc as [Hs _].
  - specialize (Hk a w1). cbn in Hs. by rewrite Hs in Hk.
  - done.
Qed.

Lemma cleanly_commit {A} (c : prog World A) k :
  failsafe c -> (forall a, succeeds (k a)) -> refuses_cleanly (bind c k).
Proof.
  intros Hc Hk w. unfold bind. specialize (Hc w). destruct (c w) as [[a|e] w1]; [|done].
  specialize (Hk a w1). destruct (k a w1) as [[resp|e] w2]; cbn in *; [lia|done].
Qed.

Lemma cleanly_guard {EM : ErrorMessages} c : refuses_cleanly c -> refuses_cleanly (guard c).
Proof.
  intros H w. unfold guard, try_catch. specialize (H w). destruct (c w) as [[resp|e] w1]; [done|].
  intros _. specialize (H I). by destruct e.
Qed.

Lemma cleanly_checked {A} (v : ValidationResult A) k :
  (forall a, refuses_cleanly (k a)) -> refuses_cleanly (checked v k).
Proof. intros H. destruct v; [apply H|]. by apply cleanly_quiet, quiet_ret. Qed.

Lemma cleanly_fetched {T} (get : UUIDv7 -> prog World (option T)) code what params k :
  (forall id, quiet (get id)) -> (forall row, refuses_cleanly (k row)) -> refuses_cleanly (fetched get code what params k).
Proof.
  intros Hg Hk. apply cleanly_bind; [apply Hg|]. intros [row|]; [apply Hk|]. by apply cleanly_quiet, quiet_ret.
Qed.

Lemma succeeds_ret resp : r_status resp < 400 -> succeeds (ret resp).
Proof. by intros H w. Qed.
End Cleanly.

(** Reading is quiet. *)
Section Reads.
Lemma quiet_listLicenses f p : quiet (listLicenses f p : prog World _).
Proof. by intros w. Qed.
Lemma quiet_listScopes f p : quiet (listScopes f p : prog World _).
Proof. by intros w. Qed.
Lemma quiet_listTemplates f p : quiet (listTemplates f p : prog World _).
Proof. by intros w. Qed.
Lemma quiet_listUsages f p : quiet (listUsages f p : prog World _).
Proof. by intros w. Qed.
Lemma quiet_listAudit f p : quiet (listAudit f p : prog World _).
Proof. by intros w. Qed.
Lemma quiet_getTemplate id : quiet (getTemplate id : prog World _).
Proof. by intros w. Qed.
Lemma quiet_getKey id : quiet (getKey id : prog World _).
Proof. by intros w. Qed.
Lemma quiet_stats f : quiet (getLicenseStats f : prog World _).
Proof.
  cbn [getLicenseStats MemoryStats]. unfold mem_getLicenseStats.
  apply quiet_bind; [by intros w|]. intros s. quiet_steps.
Qed.
Lemma quiet_first_of {T} (l : PageRequest -> prog World (Page T)) : (forall p, quiet (l p)) -> quiet (first_of l).
Proof. intros H. unfold first_of. quiet_steps. Qed.
End Reads.
#[export] Hint Resolve quiet_listLicenses quiet_listScopes quiet_listTemplates quiet_listUsages quiet_listAudit
  quiet_getTemplate quiet_getKey quiet_stats quiet_first_of : quiet.

Create HintDb cleanly.
#[export] Hint Resolve failsafe_tx cleanly_quiet : cleanly.

(** One write is. *)
Section Writes.
Lemma failsafe_updateLicense id p : failsafe (updateLicense id p).
Proof. eapply failsafe_wrote. intros w. apply mem_updateLicense_wrote. Qed.
Lemma failsafe_updateScope id p : failsafe (updateScope id p).
Proof. eapply failsafe_wrote. intros w. apply mem_updateScope_wrote. Qed.
Lemma failsafe_updateTemplate id p : failsafe (updateTemplate id p).
Proof. eapply failsafe_wrote. intros w. apply mem_updateTemplate_wrote. Qed.

Lemma failsafe_create_license {CM : CaseMap} input opts : failsafe (create_license (W := World) input opts).
Proof.
  unfold create_license. apply failsafe_bind; [|intros key; apply failsafe_tx].
  destruct (cl_license_key input); [apply quiet_lift|].
  unfold generateLicenseKey. quiet_steps.
Qed.

Lemma failsafe_create_template {CM : CaseMap} input actor : failsafe (create_template (W := World) input actor).
Proof.
  unfold create_template. repeat case_match; try (by apply failsafe_quiet, quiet_throw). apply failsafe_tx.
Qed.
End Writes.
#[export] Hint Resolve failsafe_updateLicense failsafe_updateScope failsafe_updateTemplate
  failsafe_create_license failsafe_create_template : cleanly.

Ltac clean := repeat first
  [ apply cleanly_checked; intros ?
  | apply cleanly_fetched; [intros ?; solve [eauto with quiet]|intros ?]
  | apply cleanly_guard
  | solve [apply cleanly_commit; [solve [eauto with cleanly]|intros ?; apply succeeds_ret; done]]
  | solve [apply cleanly_quiet; quiet_steps]
  | apply cleanly_bind; [solve [eauto with quiet]|intros ?]
  | match goal with |- refuses_cleanly (match ?x with _ => _ end) => destruct x end ].

Section Endpoints.
Context {KH : KeyHandles} {P : Pbes2} {CM : CaseMap} {EM : ErrorMessages}.
Context (fuel : nat) (ctx : AdminHandlerContext).

Lemma cleanly_revoke_usage req params : refuses_cleanly (handleRevokeUsage (W := World) req params).
Proof.
  unfold handleRevokeUsage. clean. apply cleanly_commit.
  - destruct (bool_decide _); [|by apply failsafe_quiet, quiet_ret].
    intros w. pose proof (failsafe_tx (revoke_body (u_id row) (adminActor req None)) w) as H.
    unfold bind, revokeUsage. by destruct (withTransaction _ w) as [[a|e] w1].
  - intros _ w. done.
Qed.

(** C22: an operator endpoint is all or nothing: on the memory adapter,
    whatever the request and the state of the tables, every one of the admin
    routes that answers with an error status or throws has left every table
    as it was. *)
Theorem admin_all_or_nothing prefix route req params w :
  route ∈ adminRoutes (W := World) fuel ctx prefix ->
  refused (rt_handler route req params w).1 ->
  w_state (rt_handler route req params w).2 = w_state w.
Proof.
  intros Hin. revert w. change (refuses_cleanly (rt_handler route req params)).
  assert (Hall : Forall (fun r => refuses_cleanly (rt_handler r req params)) (adminRoutes (W := World) fuel ctx prefix)).
  { unfold adminRoutes. repeat apply Forall_cons_2; try apply Forall_nil_2; cbn [rt_handler route0 routeP].
    all: try (by apply cleanly_revoke_usage).
    all: unfold handleListLicenses, handleCreateLicense, handleGetLicense, handleUpdateLicense, handleDeleteLicense,
      admin_transition, handleRenewLicense, handleRotateLicenseKey, handleListScopes, handleCreateScope, handleGetScope,
      handleUpdateScope, handleDeleteScope, handleListTemplates, handleCreateTemplate, handleGetTemplate,
      handleUpdateTemplate, handleDeleteTemplate, handleListUsages, handleGetUsage, handleListKeys, handleCreateKey,
      handleRotateKey, handleListAudit, handleGetLicenseStats, rotateLicenseKey, create_scope, create_root,
      create_signing, active_root, generateRootKey, issueInitialSigningKey, rotateSigningKey; clean. }
  rewrite Forall_forall in Hall. by apply Hall.
Qed.
End Endpoints.

(** ** Reading keys

    [redact]: the tables with every private half blanked out. *)

Definition redact_key (k : LicenseKey) : LicenseKey :=
  mkKey (k_id k) (k_scope_id k) (k_kid k) (k_alg k) (k_role k) (k_state k) (k_public_pem k) None
    (k_rotated_from k) (k_rotated_at k) (k_not_before k) (k_not_after k) (k_meta k) (k_created_at k) (k_updated_at k).

Definition redact (w : World) : World :=
  with_state (set_keys (map (fun p => (p.1, redact_key p.2)) (s_keys (w_state w))) (w_state w)) w.

(** Sorting commutes with a map that keeps the order. *)
Section SortMap.
Context {A : Type} (R : A -> A -> Prop) {D : forall x y, Decision (R x y)} (f : A -> A).
Hypothesis f_R : forall x y, R (f x) (f y) <-> R x y.

Lemma decide_f {B} x y (a b : B) :
  (if decide (R (f x) (f y)) then a else b) = (if decide (R x y) then a else b).
Proof. destruct (f_R x y). by repeat case_decide; auto; exfalso; auto. Qed.

Lemma list_merge_map : forall l1 l2, list_merge R (map f l1) (map f l2) = map f (list_merge R l1 l2).
Proof.
  induction l1 as [|x1 l1 IH1]; [by intros []|]. induction l2 as [|x2 l2 IH2]; [done|].
  cbn [map list_merge]. rewrite decide_f. case_decide; cbn [map]; f_equal; [apply (IH1 (x2 :: l2))|apply IH2].
Qed.

Lemma merge_to_stack_map st : forall l,
  merge_list_to_stack R (map (fmap (map f)) st) (map f l) = map (fmap (map f)) (merge_list_to_stack R st l).
Proof.
  induction st as [|[l'|] st IH]; intros l; [done| |done]. cbn. rewrite list_merge_map. by rewrite IH.
Qed.

Lemma merge_stack_map st : merge_stack R (map (fmap (map f)) st) = map f (merge_stack R st).
Proof. induction st as [|[l|] st IH]; cbn; [done| |done]. by rewrite IH, list_merge_map. Qed.

Lemma merge_sort_map l : merge_sort R (map f l) = map f (merge_sort R l).
Proof.
  unfold merge_sort. change (@nil (option (list A))) with (map (fmap (map f)) (@nil (option (list A)))) at 1.
  generalize (@nil (option (list A))). induction l as [|x l IH]; intros st; [apply merge_stack_map|].
  cbn [merge_sort_aux map]. rewrite <- IH. f_equal. apply (merge_to_stack_map st [x]).
Qed.
End SortMap.

Section PageMap.
Context {T : Type} (key : T -> CursorTuple) (f : T -> T).
Hypothesis f_key : forall x, key (f x) = key x.

Lemma findIndex_map (p : T -> bool) l : (forall x, p (f x) = p x) -> findIndex p (map f l) = findIndex p l.
Proof. intros H. induction l as [|x l IH]; [done|]. cbn. by rewrite H, IH. Qed.

Lemma last_map (l : list T) : last (map f l) = f <$> last l.
Proof. induction l as [|x [|y l] IH]; [done|done|]. exact IH. Qed.

Lemma paginate_map items page :
  paginate key (map f items) page = mkPage (map f (pg_items (paginate key items page))) (pg_cursor (paginate key items page)).
Proof.
  unfold paginate. rewrite (merge_sort_map (desc_le key) f); [|intros; unfold desc_le; by rewrite !f_key].
  set (sorted := merge_sort (desc_le key) items). rewrite length_map.
  set (start := match decodeCursor (pr_cursor page) with
                | None => Some O | Some c => findIndex (fun r => isAfter (key r) c) sorted end).
  assert (Hstart : match decodeCursor (pr_cursor page) with
                   | None => Some O | Some c => findIndex (fun r => isAfter (key r) c) (map f sorted) end = start).
  { unfold start. destruct (decodeCursor _); [|done]. apply findIndex_map. intros x. by rewrite f_key. }
  rewrite Hstart. destruct start as [n|]; [|done]. cbn [pg_items pg_cursor].
  rewrite skipn_map, firstn_map, length_map, last_map. f_equal. destruct (_ <? _)%nat; [|done].
  destruct (last _); [|done]. cbn. by rewrite f_key.
Qed.
End PageMap.

Lemma map_get_map {A B} (f : A -> B) (m : list (UUIDv7 * A)) k :
  map_get (map (fun p => (p.1, f p.2)) m) k = f <$> map_get m k.
Proof. induction m as [|[k' a] m IH]; [done|]. cbn. by case_decide. Qed.

Lemma rows_map {A} (f : A -> A) (m : list (UUIDv7 * A)) : rows (map (fun p => (p.1, f p.2)) m) = map f (rows m).
Proof. unfold rows. induction m as [|[k a] m IH]; [done|]. cbn. by f_equal. Qed.

Lemma filter_map_same {A} (p : A -> bool) (f : A -> A) l :
  (forall x, p (f x) = p x) -> List.filter p (map f l) = map f (List.filter p l).
Proof. intros H. induction l as [|x l IH]; [done|]. cbn. rewrite H, IH. by destruct (p x). Qed.

(** A step whose answer does not depend on the private halves, and which
    commutes with blanking them. *)
Definition key_blind {A} (c : prog World A) : Prop := forall w, c (redact w) = ((c w).1, redact (c w).2).

Section KeyBlind.
Lemma blind_ret {A} (a : A) : key_blind (ret a).
Proof. done. Qed.
Lemma blind_bind {A B} (c : prog World A) (k : A -> prog World B) :
  key_blind c -> (forall a, key_blind (k a)) -> key_blind (bind c k).
Proof.
  intros Hc Hk w. unfold bind. rewrite Hc. destruct (c w) as [[a|e] w1]; cbn [fst snd]; [apply Hk|done].
Qed.
Lemma blind_checked {A} (v : ValidationResult A) k : (forall a, key_blind (k a)) -> key_blind (checked v k).
Proof. intros H. destruct v; [apply H|apply blind_ret]. Qed.
Lemma blind_fetched {T} (get : UUIDv7 -> prog World (option T)) code what params k :
  key_blind (get (param_id params)) -> (forall row, key_blind (k row)) -> key_blind (fetched get code what params k).
Proof. intros Hg Hk. apply blind_bind; [done|]. intros [row|]; [apply Hk|apply blind_ret]. Qed.

Lemma blind_stats f : key_blind (getLicenseStats f : prog World _).
Proof.
  intros w. cbn [getLicenseStats MemoryStats]. unfold mem_getLicenseStats, bind, get_state, lift.
  cbn [nowMs world_clock redact with_state w_clock]. by destruct (clock_nowMs (w_clock w)) as [ms c], (isoFromMs _).
Qed.

(** The listing shows the wire form of each key, which has no private half. *)
Lemma listKeys_blind f p w :
  listKeys f p (redact w)
  = (match (listKeys f p w).1 with
     | Ok pg => Ok (mkPage (map redact_key (pg_items pg)) (pg_cursor pg)) | Throw e => Throw e end, redact w).
Proof.
  cbn [listKeys MemoryStorage]. unfold mem_listKeys, bind, get_state, ret. cbn [fst snd].
  assert (Hr : rows (s_keys (w_state (redact w))) = map redact_key (rows (s_keys (w_state w)))) by apply rows_map.
  rewrite Hr, (filter_map_same _ redact_key) by done. by rewrite (paginate_map key_key_of redact_key).
Qed.

Lemma blind_handleListKeys req : key_blind (handleListKeys req).
Proof.
  apply blind_checked. intros limit w. unfold bind. rewrite listKeys_blind.
  destruct (listKeys _ _ w) as [[pg|e] w1] eqn:E; [|by cbn in E]. injection E as <- <-.
  unfold ret, page_of. cbn [fst snd pg_items pg_cursor]. by rewrite map_map.
Qed.
End KeyBlind.

(** C23: no read shows a private key. The answer of every GET route of the
    admin API is the same when the encrypted private half of every stored key
    is blanked out: nothing an operator can read depends on them. *)
Theorem reads_hide_private_keys {KH : KeyHandles} {P : Pbes2} {CM : CaseMap} {EM : ErrorMessages} fuel ctx prefix
    route req params w :
  route ∈ adminRoutes (W := World) fuel ctx prefix -> rt_method route = GET ->
  (rt_handler route req params (redact w)).1 = (rt_handler route req params w).1.
Proof.
  intros Hin Hget. cut (key_blind (rt_handler route req params)); [by intros ->|]. revert Hget.
  assert (Hall : Forall (fun r => rt_method r = GET -> key_blind (rt_handler r req params))
                   (adminRoutes (W := World) fuel ctx prefix)).
  { unfold adminRoutes. repeat apply Forall_cons_2; try apply Forall_nil_2;
      cbn [rt_handler rt_method route0 routeP]; try done; intros _.
    all: try apply blind_handleListKeys.
    all: try (apply blind_checked; intros ?; apply blind_bind; [by intros ?|intros ?; apply blind_ret]).
    all: try (apply blind_fetched; [by intros ?|intros ?; apply blind_ret]).
    apply blind_bind; [apply blind_stats|intros ?; apply blind_ret]. }
  rewrite Forall_forall in Hall. by apply Hall.
Qed.

(** ** What a PATCH of a license does *)

Lemma require_Z_min b key min n : Z.abs min <= 2 ^ 53 -> require_Z b key min = Ok n -> min <= n.
Proof.
  intros Hm H. unfold require_Z in H. apply rbind_ok_inv in H as (v & Hv & [= <-]). unfold requireInt in Hv.
  destruct (get_prop b key) as [| | |x| | | | | | |]; try done. destruct (isInteger x) eqn:Hi; [|done]. cbn [negb] in Hv.
  destruct (num_ltb x (num_of_Z min)) eqn:E; [done|]. injection Hv as <-. unfold isInteger in Hi.
  unfold int_of. destruct (num_to_Z x) as [z|] eqn:Hx; [|done]. cbn [given].
  rewrite (num_ltb_Z _ _ _ _ Hx (num_of_Z_to_Z min Hm)) in E. bool_prop. lia.
Qed.

Lemma license_patch_fields b p : license_patch b = Ok p ->
  lp_status p = None /\ lp_activated_at p = None /\ lp_scope_id p = None /\ lp_template_id p = None
  /\ lp_license_key p = None /\ match lp_max_usages p with Some n => 1 <= n | None => True end.
Proof.
  intros H. unfold license_patch in H. apply rbind_ok_inv in H as (max & Hm & H).
  do 3 (apply rbind_ok_inv in H as (? & _ & H)). injection H as <-. split_and!; try done. cbn.
  unfold when_present in Hm. destruct max as [n|]; [|done].
  destruct (get_prop b _); try done; apply rbind_ok_inv in Hm as (n' & Hn & [= <-]);
    by apply require_Z_min in Hn.
Qed.

(** What the validators throw are refusals. *)
Section Refusals.
Lemma bad_request_refuses message : refuses (bad_request message).
Proof. by apply refuses_err. Qed.

Lemma throws_requireInt b key min max : throws_only refuses (requireInt b key min max).
Proof. unfold requireInt. throws_steps ltac:(apply bad_request_refuses). Qed.
Lemma throws_require_Z b key min : throws_only refuses (require_Z b key min).
Proof. apply throws_only_bind; [apply throws_requireInt|done]. Qed.
Lemma throws_optionalString b key : throws_only refuses (optionalString b key).
Proof. unfold optionalString. throws_steps ltac:(apply bad_request_refuses). Qed.
Lemma throws_object_or_empty b key : throws_only refuses (object_or_empty b key).
Proof.
  apply throws_only_bind; [|done]. unfold optionalObject. throws_steps ltac:(apply bad_request_refuses).
Qed.
Lemma throws_when_present {A} b key (v : ValidationResult A) : throws_only refuses v -> throws_only refuses (when_present b key v).
Proof. intros H. unfold when_present. destruct (get_prop b key); try done; by apply throws_only_bind. Qed.

Lemma throws_license_patch b : throws_only refuses (license_patch b).
Proof.
  unfold license_patch. repeat (apply throws_only_bind; [apply throws_when_present|intros ? _]); [..|done].
  all: first [apply throws_require_Z|apply throws_optionalString|apply throws_object_or_empty].
Qed.

Lemma refused_status resp : refuses resp -> 400 <= r_status resp.
Proof. by intros (st & code & message & Hs & ->). Qed.

(** An endpoint that answered success went past a check. *)
Lemma checked_success {W A} (v : ValidationResult A) k (w : W) resp w' :
  throws_only refuses v -> checked v k w = (Ok resp, w') -> r_status resp < 400 ->
  exists a, v = Ok a /\ k a w = (Ok resp, w').
Proof.
  intros Hv H Hs. destruct v as [a|bad]; [by exists a|]. apply Ok_pair_inj in H as [-> _].
  apply refused_status in Hv. lia.
Qed.

Lemma fetched_success {W T} (get : UUIDv7 -> prog W (option T)) code what params k w resp w' :
  fetched get code what params k w = (Ok resp, w') -> r_status resp < 400 ->
  exists row w1, get (param_id params) w = (Ok (Some row), w1) /\ k row w1 = (Ok resp, w').
Proof.
  intros H Hs. unfold fetched in H. apply bind_ok_inv in H as ([row|] & w1 & Hg & H); [by exists row, w1|].
  apply Ok_pair_inj in H as [<- _]. done.
Qed.

Lemma errFromLicensing_error {EM : ErrorMessages} e : 400 <= r_status (errFromLicensing e).
Proof. apply refused_status, errFromLicensing_refuses. Qed.

Lemma guard_success {W} {EM : ErrorMessages} (c : prog W HandlerResponse) w resp w' :
  guard c w = (Ok resp, w') -> r_status resp < 400 -> c w = (Ok resp, w').
Proof.
  unfold guard, try_catch. intros H Hs. destruct (c w) as [[r|e] w1]; [done|].
  pose proof (errFromLicensing_error e). destruct e; try done. apply Ok_pair_inj in H as [<- _]. lia.
Qed.
End Refusals.

(** What a PATCH of a license reaches. A call that succeeds answers with
    the row now stored under the id; it has written nothing else, the audit
    log included, and neither the key, the status, the owner, the scope nor
    the template of the row has changed; a new seat limit is at least one. *)
Theorem license_patch_reach {KH : KeyHandles} {P : Pbes2} {CM : CaseMap} {EM : ErrorMessages} req params w resp w' :
  keyed l_id (s_licenses (w_state w)) ->
  handleUpdateLicense (W := World) req params w = (Ok resp, w') -> r_status resp < 400 ->
  let id := param_id params in
  exists cur next, map_get (s_licenses (w_state w)) id = Some cur /\ resp = respond (license_json next) 200
    /\ ((next = cur /\ w_state w' = w_state w)
        \/ w_state w' = set_licenses (map_set (s_licenses (w_state w)) id next) (w_state w))
    /\ l_license_key next = l_license_key cur /\ l_status next = l_status cur
    /\ l_licensable_type next = l_licensable_type cur /\ l_licensable_id next = l_licensable_id cur
    /\ l_scope_id next = l_scope_id cur /\ l_template_id next = l_template_id cur
    /\ (l_max_usages next = l_max_usages cur \/ 1 <= l_max_usages next).
Proof.
  intros Hk H Hs id. unfold handleUpdateLicense in H.
  apply checked_success in H as (b & _ & H); [|intros; unfold requireJsonObject; by throws_steps ltac:(apply bad_request_refuses)|done].
  apply fetched_success in H as (cur & w1 & Hg & H); [|done]. fold id in Hg.
  cbn [getLicense MemoryStorage] in Hg. unfold mem_getLicense in Hg. apply Ok_pair_inj in Hg as [Hcur <-].
  apply checked_success in H as (p & Hp & H); [|apply throws_license_patch|done].
  apply license_patch_fields in Hp as (P1 & P2 & P3 & P4 & P5 & P6).
  destruct (empty_license_patch p); [apply Ok_pair_inj in H as [<- <-]; exists cur, cur; split_and!; try done; by left|].
  apply guard_success in H; [|done]. apply bind_ok_inv in H as (next & w2 & Hu & H). apply Ok_pair_inj in H as [<- <-].
  pose proof (mem_updateLicense_wrote (l_id cur) p w) as [_ Hw]. cbn [updateLicense MemoryStorage] in Hu. rewrite Hu in Hw.
  cbn [fst snd] in Hw. destruct Hw as (cur' & now & Hc' & -> & _ & Hst).
  rewrite (keyed_get _ _ _ _ Hk Hcur) in Hc', Hst. assert (cur' = cur) as -> by congruence.
  exists cur, (patch_license cur p now).
  split_and!; try done; [by right|cbn; by rewrite ?P1, ?P3, ?P4, ?P5..|].
  cbn. destruct (lp_max_usages p); [by right|by left].
Qed.

(** ** An issuer's operator *)

#[local] Instance admin_case : CaseMap := no_case_map.

Definition admin_world : World := seat_world (js "2026-01-01T00:00:00.000000Z").
Definition admin_ctx : AdminHandlerContext := mkAdminContext toy_backends (Some (js "root-pw")) (Some (js "sign-pw")).
Definition admin_routes : list (Route World) := adminRoutes 1 admin_ctx [].
Definition admin_call (method : HttpMethod) (path : jsstr) (body : jsval) : HandlerRequest :=
  mkRequest method path [] [(js "authorization", js "Bearer s3cret")] body (js "10.0.0.1") None.
Definition admin_verifier : BearerVerifier World :=
  match sharedSecretVerifier (js "s3cret") with Ok v => v | Throw _ => fun _ => ret None end.
Definition admin_dispatch (method : HttpMethod) (path : jsstr) (body : jsval) : res HandlerResponse * World :=
  createRouter admin_routes [bearerAuth admin_verifier] (admin_call method path body) admin_world.
Definition status_of (r : res HandlerResponse) : option Z := match r with Ok resp => Some (r_status resp) | Throw _ => None end.

(** A license with an active seat is not deleted. *)
Lemma admin_all_or_nothing_witness :
  let run := handleDeleteLicense (W := World) (admin_call DELETE (js "/admin/licenses/l1") JUndefined) [(js "id", js "l1")] admin_world in
  status_of run.1 = Some 409 /\ w_state run.2 = w_state admin_world.
Proof.
  intros run. split; [vm_compute; reflexivity|].
  apply (admin_all_or_nothing 1 admin_ctx [] (routeP DELETE (js "/admin/licenses/:id") handleDeleteLicense)
    (admin_call DELETE (js "/admin/licenses/l1") JUndefined) [(js "id", js "l1")] admin_world).
  - unfold adminRoutes. do 4 right. left.
  - vm_compute. discriminate.
Defined.

Lemma reads_hide_private_keys_witness :
  (handleListKeys (admin_call GET (js "/admin/keys") JUndefined) (redact admin_world)).1
  = (handleListKeys (admin_call GET (js "/admin/keys") JUndefined) admin_world).1
  /\ status_of (handleListKeys (admin_call GET (js "/admin/keys") JUndefined) admin_world).1 = Some 200
  /\ map k_private_pem_enc (rows (s_keys (w_state (redact admin_world))))
     <> map k_private_pem_enc (rows (s_keys (w_state admin_world))).
Proof.
  split_and!; [|vm_compute; reflexivity|vm_compute; discriminate].
  apply (reads_hide_private_keys 1 admin_ctx [] (route0 GET (js "/admin/keys") handleListKeys)
    (admin_call GET (js "/admin/keys") JUndefined) [] admin_world); [|reflexivity].
  unfold adminRoutes. do 23 right. left.
Defined.

Definition patch_call : HandlerRequest := admin_call PATCH (js "/admin/licenses/l1") (plain [(js "max_usages", js_int 7)]).
Definition patch_run := handleUpdateLicense (W := World) patch_call [(js "id", js "l1")] admin_world.
Definition patched_license : License :=
  match map_get (s_licenses (w_state patch_run.2)) (js "l1") with Some l => l | None => issue_license end.

Lemma patch_run_eq : patch_run = (Ok (respond (license_json patched_license) 200), patch_run.2).
Proof. unfold patched_license. vm_compute. reflexivity. Qed.

Lemma license_patch_reach_witness :
  exists cur next, map_get (s_licenses (w_state admin_world)) (js "l1") = Some cur
    /\ respond (license_json patched_license) 200 = respond (license_json next) 200 /\ l_license_key next = l_license_key cur
    /\ (l_max_usages next = l_max_usages cur \/ 1 <= l_max_usages next).
Proof.
  destruct (license_patch_reach patch_call [(js "id", js "l1")] admin_world
    (respond (license_json patched_license) 200) patch_run.2 (ok_licenses _ (seat_world_ok (js "2026-01-01T00:00:00.000000Z"))) patch_run_eq
    (proj1 (Z.ltb_lt 200 400) eq_refl))
    as (cur & next & H1 & H2 & _ & H3 & _ & _ & _ & _ & _ & H4).
  exact (ex_intro _ cur (ex_intro _ next (conj H1 (conj H2 (conj H3 H4))))).
Defined.

(** Who revoked the license is not recorded: the middleware puts the subject
    of the credential in a header, and the audit row takes it from a field of
    the request nothing sets. *)
Example revocation_unattributed :
  let '(r, w) := admin_dispatch POST (js "/admin/licenses/l1/revoke") JUndefined in
  status_of r = Some 200
  /\ map (fun a => (a_actor a, a_actor_kind a, a_actor_id a)) (rows (s_audit (w_state w))) = [(js "admin", actor_admin, None)].
Proof. vm_compute. split; reflexivity. Qed.

(** A license an operator creates is attributed to the system. *)
Example creation_by_system :
  let '(r, w) := admin_dispatch POST (js "/admin/licenses")
    (plain [(js "licensable_type", JStr (js "Org")); (js "licensable_id", JStr (js "7")); (js "max_usages", js_int 3)]) in
  status_of r = Some 201
  /\ map (fun a => (a_actor a, a_actor_kind a)) (rows (s_audit (w_state w))) = [(js "system", actor_system)].
Proof. vm_compute. split; reflexivity. Qed.

(** A change by PATCH leaves no audit row. *)
Example patch_unaudited :
  let '(r, w) := admin_dispatch PATCH (js "/admin/licenses/l1") (plain [(js "max_usages", js_int 7)]) in
  status_of r = Some 200 /\ l_max_usages <$> map_get (s_licenses (w_state w)) (js "l1") = Some 7 /\ s_audit (w_state w) = [].
Proof. vm_compute. split_and!; reflexivity. Qed.

(** Deleting a scope or a template deletes nothing. *)
Lemma delete_scope_keeps_it {EM : ErrorMessages} req params : quiet (handleDeleteScope (W := World) req params).
Proof. unfold handleDeleteScope, fetched. quiet_steps. Qed.
Lemma delete_template_keeps_it {EM : ErrorMessages} req params : quiet (handleDeleteTemplate (W := World) req params).
Proof. unfold handleDeleteTemplate, fetched. quiet_steps. Qed.

(** A status the listing does not know is no filter: every license is listed. *)
Example unknown_filter_lists_everything :
  parseEnum status_str LICENSE_STATUSES (Some (OneValue (js "retired"))) = None.
Proof. reflexivity. Qed.
