(* ===== verification/EasyProps.v ===== *)
(** * EasyProps: one trial per device, and what the guard serves

    The high-level issuer on the memory adapter, the high-level client on any
    token store that keeps what it is given. *)

From S2P Require Import Prelude Errors JsNum JsArith Text Json StrictJson Types Crypto TokenCodec Lic1 Lic2 Tokens Id JsonLib Cursor Storage Pages LicenseKeyFormat Lifecycle LicenseService UsageProps EncryptedPkcs8 EncryptedPkcs8Props KeyHierarchy KeyHierarchyProps ScopeService TokenService Memory MemoryLaws Quiet TokenProps Validate ValidateProps Http Templates Stats ClientHandlers ClientHandlersProps ClientOnline ClientOnlineProps Fingerprint Easy Admin AdminProps.

(** ** Trials *)

Section Trials.
Context {KH : KeyHandles} {P : Pbes2} {DP : DateParse} {CM : CaseMap} {HM : HmacSha256} {WC : WallClock World}.
Context (issuer : Issuer).

(** The row that remembers the trial of [input] on the device with [hash]. *)
Definition trial_row (input : IssueInput) (hash : jsstr) (row : TrialIssuance) (s : State) : Prop :=
  ti_template_id row = template_of input /\ ti_fingerprint_hash row = hash
  /\ exists id, map_get (s_trialIssuances s) id = Some row.

(** The cooldown that applies to [input]: its template's, or the issuer's. *)
Definition cooldown_of (input : IssueInput) (s : State) : Z :=
  given_or ((template_of input ≫= map_get (s_templates s)) ≫= t_trial_cooldown_sec) (is_trialCooldownSec issuer).

(** [c] fails at [w] and changes no table. *)
Definition fails_at {A} (c : prog World A) (w : World) : Prop :=
  exists e, (c w).1 = Throw e /\ w_state (c w).2 = w_state w.

Lemma fails_bind {A B} (c : prog World A) (k : A -> prog World B) w :
  quiet c -> (forall a w1, c w = (Ok a, w1) -> w_state w1 = w_state w -> fails_at (k a) w1) -> fails_at (bind c k) w.
Proof.
  intros Hc Hk. unfold fails_at, bind. destruct (Hc w) as [Hs _]. destruct (c w) as [[a|e] w1]; cbn in *.
  - destruct (Hk a w1 eq_refl Hs) as (e & H1 & H2). exists e. by rewrite H2.
  - by exists e.
Qed.

Lemma fails_early {A B} (c : prog World A) (k : A -> prog World B) w : fails_at c w -> fails_at (bind c k) w.
Proof. intros (e & H1 & H2). exists e. unfold bind. destruct (c w) as [[a|e'] w1]; cbn in *; by simplify_eq. Qed.

Lemma quiet_walk leaf : forall room chain visited cursor,
  quiet (walk_ancestors (getTemplate (W := World)) leaf room chain visited cursor).
Proof. intros room. induction room as [|room IH]; intros chain visited cursor; cbn [walk_ancestors]; quiet_steps; apply IH. Qed.

Lemma quiet_issue_template input : quiet (issue_template (W := World) input).
Proof. pose proof quiet_walk. unfold issue_template, resolveTemplate. quiet_steps. Qed.

Lemma quiet_issue_expiry input template : quiet (issue_expiry (W := World) input template).
Proof. unfold issue_expiry. quiet_steps. Qed.

(** The template that governs an issuance is the stored one. *)
Lemma issue_template_leaf input w r w' :
  issue_template (W := World) input w = (Ok r, w') ->
  fst <$> r = template_of input ≫= map_get (s_templates (w_state w)).
Proof.
  unfold issue_template. destruct (template_of input) as [id|]; cbn [mbind option_bind]; [|by intros [= <- _]].
  unfold bind at 1. change (getTemplate id w) with (@Ok exn _ (map_get (s_templates (w_state w)) id), w). cbv iota beta.
  destruct (map_get _ id) as [leaf|]; [|done]. intros (resolved & w1 & _ & H)%bind_ok_inv. by injection H as <- _.
Qed.

(** The lookup finds the row of the trial and no other. *)
Lemma find_trial w input hash row :
  state_ok (w_state w) -> trial_row input hash row (w_state w) ->
  findTrialIssuance (mkTrialLookup (template_of input) hash) w = (Ok (Some row), w).
Proof.
  intros Hok (Ht & Hh & id & Hrow). cbn. unfold mem_findTrialIssuance. cbn.
  destruct (List.find _ _) as [row'|] eqn:E.
  - apply find_some in E as [Hin Heq]. apply list_elem_of_In in Hin. unfold str_eqb in Heq. bool_prop.
    apply (rows_map_get ti_id) in Hin; [|apply Hok].
    assert (Hid : ti_id row' = id) by (eapply (ok_trial _ Hok); [exact Hin|exact Hrow|done|cbn; congruence]).
    rewrite Hid, Hrow in Hin. by injection Hin as <-.
  - eapply find_none in E; [|apply list_elem_of_In; by eapply map_get_rows].
    unfold str_eqb in E. by rewrite !bool_decide_true in E.
Qed.

Definition wall_before (ms : Z) : Prop := forall w : World,
  same w (wallMs w).2 /\ exists now, (wallMs w).1 = Ok now /\ now < ms.

Lemma cooling_down input template row ms w :
  date_parse (ti_issued_at row) = Some ms ->
  wall_before (ms + given_or (template ≫= t_trial_cooldown_sec) (is_trialCooldownSec issuer) * 1000) ->
  fails_at (check_cooldown issuer input template row) w.
Proof.
  intros Hms Hw. unfold check_cooldown, fails_at, bind. destruct (Hw w) as [[Hs _] (now & Hn & Hlt)].
  destruct (wallMs w) as [r w1]. cbn in *. subst r. rewrite Hms, (proj2 (Z.ltb_lt _ _)) by done.
  case_match; by eexists.
Qed.

(** C20: one trial per device and template. A trial that was issued leaves a
    row for its template and the hash of the fingerprint; and as long as that
    row is stored and its cooldown, the template's or the issuer's, is not
    over by the wall clock, every other attempt to issue a trial of the same
    template to the same fingerprint fails, whatever else it asks for, and
    changes no table. *)
Theorem trial_once input fingerprint w issued w1
    (Htrial : is_trial_request input = true) (Hfp : in_fingerprint input = Some fingerprint)
    (Hissued : issue issuer input w = (Ok issued, w1)) :
  exists pepper hash row, is_trialPepper issuer = Some pepper /\ hashFingerprint pepper fingerprint = Ok hash
    /\ trial_row input hash row (w_state w1)
    /\ forall again ms w2, state_ok (w_state w2) -> trial_row input hash row (w_state w2) ->
         is_trial_request again = true -> in_fingerprint again = Some fingerprint ->
         template_of again = template_of input ->
         date_parse (ti_issued_at row) = Some ms -> wall_before (ms + cooldown_of again (w_state w2) * 1000) ->
         fails_at (issue issuer again) w2.
Proof.
  assert (Hrow : exists pepper hash row, is_trialPepper issuer = Some pepper
      /\ hashFingerprint pepper fingerprint = Ok hash /\ trial_row input hash row (w_state w1)).
  { unfold issue in Hissued. apply bind_ok_inv in Hissued as (resolved & v1 & _ & H). case_match; [|done].
    apply bind_ok_inv in H as (expiresAt & v2 & _ & H). apply bind_ok_inv in H as (trialHash & v3 & Ht & H).
    apply bind_ok_inv in H as (license & v4 & _ & H).
    unfold issue_trial in Ht. rewrite Htrial, Hfp in Ht. destruct (is_trialPepper issuer) as [pepper|]; [|done].
    apply bind_ok_inv in Ht as (hash & v5 & Hh & Ht). apply lift_ok_inv in Hh as [Hh ->].
    apply bind_ok_inv in Ht as (existing & v6 & _ & Ht). apply bind_ok_inv in Ht as ([] & v7 & _ & Ht).
    apply Ok_pair_inj in Ht as [<- <-]. apply bind_ok_inv in H as ([] & v8 & Hr & H).
    apply Ok_pair_inj in H as [_ ->]. apply bind_ok_inv in Hr as (row & v9 & Hr & H). apply Ok_pair_inj in H as [_ ->].
    exists pepper, hash, row. split_and!; [done|done|].
    destruct (mem_recordTrialIssuance_wrote (mkTrialInput (template_of input) hash) v4) as [_ Hp].
    cbn [recordTrialIssuance MemoryStorage] in Hr. rewrite Hr in Hp. cbn in Hp. destruct Hp as (id & now & _ & -> & ->).
    split_and!; [done|done|]. exists id. apply map_get_set_eq. }
  destruct Hrow as (pepper & hash & row & Hp & Hh & Hrow). exists pepper, hash, row. split_and!; [done|done|done|].
  intros again ms w2 Hok Hrow2 Hagain Hsame Htemplate Hms Hcooling. unfold issue.
  apply fails_bind; [apply quiet_issue_template|]. intros resolved v1 Hres Hv1. apply issue_template_leaf in Hres.
  case_match; [|by eexists]. apply fails_bind; [apply quiet_issue_expiry|]. intros expiresAt v2 _ Hv2.
  apply fails_early. unfold issue_trial. rewrite Hagain, Hsame, Hp. apply fails_bind; [apply quiet_lift|].
  intros hash' v3 Hl Hv3. apply lift_ok_inv in Hl as [Hl ->]. rewrite Hh in Hl. apply Ok_inj in Hl as <-.
  assert (Hs : w_state v2 = w_state w2) by congruence.
  apply fails_bind; [by intros w0|]. intros existing v4 He Hv4. rewrite Htemplate in He.
  rewrite (find_trial v2 input hash row) in He by (rewrite Hs; done). apply Ok_pair_inj in He as [<- <-].
  apply fails_early. eapply cooling_down; [exact Hms|]. by rewrite Hres.
Qed.
End Trials.

(** *** A trial *)

Section Sample.
#[local] Existing Instance toy_dates.
#[local] Instance trial_case : CaseMap := no_case_map.
#[local] Instance trial_hmac : HmacSha256 := {| hmac_hex := fun pepper input => pepper ++ 58 :: input |}.
#[local] Instance trial_wall : WallClock World := {| wallMs := ret 1767225700000 |}.

Definition trial_issuer : Issuer (KH := toy.handles) :=
  newIssuer toy.backend (mkIssuerConfig None None None None (Some (js "0123456789abcdef0123456789abcdef")) None).
Definition trial_input (licensable : String.string) : IssueInput :=
  mkIssueInput (js "User") (js licensable) None (Some 1) None None None None None None (Some true) (Some (js "device")) None.
Definition empty_world : World :=
  mkWorld (mkState [] [] [] [] [] [] []) 0 (fixedClock 1767225600000 issue_iso) Z.of_nat.

Definition first_trial : res IssuedLicense * World := issue trial_issuer (trial_input "42") empty_world.
Definition trial_rows : list (UUIDv7 * TrialIssuance) := s_trialIssuances (w_state first_trial.2).
Definition remembering : World :=
  mkWorld (mkState [] [] [] [] [] [] trial_rows) 0 (fixedClock 1767225600000 issue_iso) Z.of_nat.

Lemma first_trial_eq : exists issued, first_trial = (Ok issued, first_trial.2).
Proof.
  assert (H : match first_trial.1 with Ok _ => true | Throw _ => false end = true) by (vm_compute; reflexivity).
  destruct first_trial as [[issued|e] w]; [by exists issued|done].
Qed.

Definition the_trial : TrialIssuance :=
  match trial_rows with (_, row) :: _ => row | [] => mkTrial [] None [] [] end.
Lemma trial_rows_one : trial_rows = [(ti_id the_trial, the_trial)].
Proof. vm_compute. reflexivity. Qed.
Lemma trial_date : date_parse (ti_issued_at the_trial) = Some 1767225600000.
Proof. vm_compute. reflexivity. Qed.

Lemma remembering_ok : state_ok (w_state remembering).
Proof.
  destruct emptyState_ok. unfold remembering. rewrite trial_rows_one.
  split; try assumption; [by apply keyed_singleton|apply unique_singleton].
Qed.

(** A second attempt a hundred seconds later. *)
Lemma trial_once_witness : fails_at (issue trial_issuer (trial_input "43")) remembering.
Proof.
  destruct first_trial_eq as [issued Hrun].
  destruct (trial_once trial_issuer (trial_input "42") (js "device") empty_world issued first_trial.2 eq_refl eq_refl Hrun)
    as (pepper & hash & row & Hp & Hh & (Ht & Hf & id & Hrow) & Hagain).
  assert (row = the_trial) as ->.
  { change (map_get trial_rows id = Some row) in Hrow. rewrite trial_rows_one in Hrow. cbn [map_get] in Hrow. case_decide; [by injection Hrow|done]. }
  apply (Hagain (trial_input "43") 1767225600000); [exact remembering_ok| |reflexivity..|exact trial_date|].
  - split_and!; [exact Ht|exact Hf|]. exists id. exact Hrow.
  - intros w0. split; [apply same_refl|]. exists 1767225700000. split; [reflexivity|]. vm_compute. reflexivity.
Defined.

(** The license of a trial says so in its meta only: its [is_trial] column
    stays false. *)
Example trial_column : option_map (fun l => (l_is_trial (il_raw l), get_prop (l_meta (il_raw l)) (js "is_trial")))
  (match first_trial.1 with Ok l => Some l | Throw _ => None end) = Some (false, JBool true).
Proof. vm_compute. reflexivity. Qed.
End Sample.

(** ** The client *)

Section Client.
Context {KH : KeyHandles} {W : Type} {TS : TokenStore W} {TL : TokenStoreLaws W} {NW : Network W} {HN : HealthNetwork W}.
Context (codecs : Codecs) (client : Client W) (now : jsnum).

(** The clock stands still and the network is not the store. *)
Hypothesis still : forall w, cn_nowSec client w = (Ok now, w).
Hypothesis network_apart : forall url headers body w, stored (fetchImpl url headers body w).2 = stored w.
Hypothesis health_apart : forall url w, stored (fetchGet url w).2 = stored w.

Definition in_grace (out : RefreshOutcome) : bool :=
  match out with GraceEntered _ _ | GraceContinued _ _ => true | Refreshed _ | NotDue _ => false end.

Definition token_of (out : RefreshOutcome) : jsstr :=
  match out with Refreshed t | NotDue t => t | GraceEntered t _ | GraceContinued t _ => t end.

Lemma post_stored path body opts w : stored (postJson path body opts w).2 = stored w.
Proof.
  unfold postJson, bind. match goal with |- context [fetchImpl ?u ?h body w] => pose proof (network_apart u h body w) as H end.
  destruct (fetchImpl _ _ body w) as [[[r|]|e] w']; done.
Qed.

Lemma read_inv w state w' : ts_read w = (Ok state, w') -> state = stored w /\ w' = w.
Proof. rewrite ts_read_law. intros H. by apply Ok_pair_inj in H as [<- <-]. Qed.

Lemma write_inv s w w' : ts_write s w = (Ok tt, w') -> stored w' = s.
Proof. intros H. destruct (ts_write_law s w) as [_ Hs]. by rewrite H in Hs. Qed.

(** The call to the issuer stores what it returns, or nothing. *)
Lemma refresh_call_run token opts w r w' :
  refresh_call token opts w = (r, w') ->
  match r with
  | Ok out => exists t, out = Refreshed t /\ stored w' = mkStored (Some t) None
  | Throw _ => stored w' = stored w
  end.
Proof.
  unfold refresh_call, bind. match goal with |- context [postJson ?p ?b ?o w] => pose proof (post_stored p b o w) as Hp end.
  destruct (postJson _ _ _ w) as [[data|e] w1]; cbn in Hp; [|by intros [= <- <-]].
  unfold lift. destruct (member data "token") as [v|e]; [|by intros [= <- <-]].
  case_match; try (by intros [= <- <-]). case_match; [by intros [= <- <-]|].
  destruct (ts_write_run (mkStored (Some (z :: l)) None) w1) as (w2 & -> & Hw2). intros [= <- <-]. by eexists.
Qed.

(** What a refresh that returned did to the store. Grace needs a token whose
    deadline to go online has come. *)
Lemma client_refresh_run opts w out w' :
  client_refresh codecs opts w = (Ok out, w') ->
  exists token, st_token (stored w) = Some token
    /\ match out with
       | Refreshed t => stored w' = mkStored (Some t) None
       | NotDue t => t = token /\ stored w' = stored w
       | GraceEntered t _ => t = token /\ st_token (stored w') = Some token
       | GraceContinued t _ => t = token /\ stored w' = stored w
       end
    /\ (in_grace out = true -> exists m deadline, peek codecs token = Ok m /\ pk_forceOnlineAfter m = Some deadline
                               /\ num_leb deadline (rf_nowSec opts) = true).
Proof.
  intros H. unfold client_refresh in H. apply bind_ok_inv in H as (state & w1 & Hr & H).
  apply read_inv in Hr as [-> ->]. destruct (st_token (stored w)) as [token|] eqn:Et; [|done].
  apply bind_ok_inv in H as (m & w1 & Hm & H). apply lift_ok_inv in Hm as [Hm ->].
  exists token. split; [done|]. case_match; [done|]. clear H0.
  case_match; [by apply Ok_pair_inj in H as [<- <-]|]. clear H0.
  unfold try_catch in H. destruct (refresh_call token opts w) as [[o|e] w1] eqn:Ec; apply refresh_call_run in Ec.
  - apply Ok_pair_inj in H as [<- <-]. by destruct Ec as (t & -> & Hs).
  - case_bool_decide; [|done]. unfold handleUnreachable in H.
    destruct (pk_forceOnlineAfter m) as [deadline|] eqn:Ed; [destruct (num_leb deadline _) eqn:El|];
      cbn [negb] in H; [|by apply Ok_pair_inj in H as [<- <-]..].
    case_match; [done|]. destruct (st_graceStartSec (stored w)) as [g|].
    + case_match; [done|]. apply Ok_pair_inj in H as [<- <-]. split; [done|]. by exists m, deadline.
    + apply bind_ok_inv in H as ([] & w2 & Hw & H). apply Ok_pair_inj in H as [<- <-].
      apply write_inv in Hw. rewrite Hw. split; [done|]. by exists m, deadline.
Qed.

Definition guard_options (verify : ClientVerifyConfig) (fingerprint : jsstr) : ValidateOptions :=
  mkValidate (cv_registry verify) (cv_bindings verify) (cv_keys verify) fingerprint now (cv_skewSec verify)
    (cv_expectedAudience verify) (cv_expectedIssuer verify).

Lemma prim_refresh_run w : prim_refresh codecs client w = client_refresh codecs (refresh_options client now) w.
Proof. unfold prim_refresh, bind. by rewrite still. Qed.

Lemma easy_verify_inv verify token fingerprint r :
  easy_verify codecs verify token fingerprint now = Ok r ->
  exists parts claims, TokenCodec.verify codecs token (verify_options (guard_options verify fingerprint)) = Ok parts
    /\ assertClaimShape (e_payload parts) = Ok claims /\ acceptable claims (guard_options verify fingerprint)
    /\ r = valid_result (e_header parts) claims.
Proof.
  unfold easy_verify. fold (guard_options verify fingerprint).
  destruct (validate codecs token (guard_options verify fingerprint) None) as [r' s'] eqn:E. cbn [fst]. intros ->.
  apply validate_ok_inv in E as (parts & claims & H1 & H2 & H3 & _ & H4). by exists parts, claims.
Qed.

(** A token past its deadline to go online is not acceptable. *)
Lemma no_grace token m deadline opts parts claims :
  peek codecs token = Ok m -> pk_forceOnlineAfter m = Some deadline -> num_leb deadline (o_nowSec opts) = true ->
  TokenCodec.verify codecs token (verify_options opts) = Ok parts -> assertClaimShape (e_payload parts) = Ok claims ->
  acceptable claims opts -> False.
Proof.
  intros Hp Hd Hl Hv%verify_decodes Hc Ha. unfold peek in Hp. rewrite Hv in Hp. cbn [rbind] in Hp. rewrite Hc in Hp.
  cbn [rbind] in Hp. apply Ok_inj in Hp as <-. cbn in Hd. by rewrite (acc_online _ _ Ha _ Hd) in Hl.
Qed.

(** C18: what the guard lets through. When [guard] returns a handle, the refresh
    before it neither entered nor continued grace; the token it names is the
    one in the store; its signature verifies under a configured key, its
    claims are acceptable for this device at this time, and the handle is read
    off those claims and the store. So a device that cannot reach the issuer
    past its deadline is refused, whatever is left of its grace window. *)
Theorem guard_sound fingerprint w h w' :
  easy_guard codecs client fingerprint w = (Ok h, w') ->
  exists verify out w1 parts claims,
    cn_verify client = Some verify
    /\ client_refresh codecs (refresh_options client now) w = (Ok out, w1) /\ in_grace out = false
    /\ st_token (stored w') = Some (token_of out)
    /\ TokenCodec.verify codecs (token_of out) (verify_options (guard_options verify fingerprint)) = Ok parts
    /\ assertClaimShape (e_payload parts) = Ok claims
    /\ acceptable claims (guard_options verify fingerprint)
    /\ h = handle_of (valid_result (e_header parts) claims) (stored w').
Proof.
  intros H. unfold easy_guard in H. apply bind_ok_inv in H as (verify & v1 & Hv & H). apply lift_ok_inv in Hv as [Hv ->].
  unfold requireVerify in Hv. destruct (cn_verify client) as [cfg|]; [apply Ok_inj in Hv as <-|done].
  apply bind_ok_inv in H as (state & v2 & Hr & H). apply read_inv in Hr as [-> ->].
  destruct (st_token (stored w)) as [before|] eqn:Eb; [|done].
  apply bind_ok_inv in H as (out & w1 & Hout & H). rewrite prim_refresh_run in Hout.
  apply bind_ok_inv in H as (fresh & v3 & Hr & H). apply read_inv in Hr as [-> ->].
  destruct (st_token (stored w1)) as [token|] eqn:Et; [|done].
  unfold bind at 1 in H. rewrite still in H. apply bind_ok_inv in H as (r & v4 & Hval & H).
  apply lift_ok_inv in Hval as [Hval ->]. apply Ok_pair_inj in H as [<- <-].
  apply easy_verify_inv in Hval as (parts & claims & H1 & H2 & H3 & ->).
  exists cfg, out, w1, parts, claims. apply client_refresh_run in Hout as Hrun.
  destruct Hrun as (token' & Ht' & Hstore & Hgrace).
  assert (Hname : token = token_of out).
  { destruct out as [t|t|t g|t g]; cbn [token_of].
    1: rewrite Hstore in Et; cbn in Et; congruence.
    all: destruct Hstore as [-> Hs]; congruence. }
  split_and!; try done; [|by rewrite Et, Hname|by rewrite <- Hname].
  destruct (in_grace out) eqn:Eg; [|done]. destruct (Hgrace eq_refl) as (m & deadline & Hp & Hd & Hl).
  assert (token' = token) as ->.
  { rewrite Hname. destruct out as [t|t|t g|t g]; [done..| |]; cbn [token_of]; symmetry; apply Hstore. }
  exfalso. exact (no_grace token m deadline (guard_options cfg fingerprint) parts claims Hp Hd Hl H1 H2 H3).
Qed.

Lemma probe_run w : exists healthy w', probeHealth client w = (Ok healthy, w') /\ stored w' = stored w.
Proof.
  unfold probeHealth, try_catch, bind. match goal with |- context [fetchGet ?u w] => pose proof (health_apart u w) as H end.
  destruct (fetchGet _ w) as [[status|e] w1]; cbn in *; by eexists _, _.
Qed.

(** An outage is told from a broken route. [refresh] is the primitive's
    refresh, except that grace also needs a health endpoint that does not
    answer 200: when it does, [refresh] fails with [IssuerProtocolError] and
    the store is what it was before, the grace marker rolled back. *)
Theorem outage_told_apart w :
  let '(r, w1) := client_refresh codecs (refresh_options client now) w in
  exists w', match r with
  | Throw e => easy_refresh codecs client w = (Throw e, w') /\ w' = w1
  | Ok out =>
      if in_grace out then
        exists healthy, (probeHealth client w1).1 = Ok healthy
          /\ if healthy : bool
             then easy_refresh codecs client w = (Throw clientErrors.issuerProtocolError, w') /\ stored w' = stored w
             else easy_refresh codecs client w = (Ok out, w') /\ stored w' = stored w1
      else easy_refresh codecs client w = (Ok out, w') /\ w' = w1
  end.
Proof.
  destruct (client_refresh codecs (refresh_options client now) w) as [r w1] eqn:E.
  remember (easy_refresh codecs client w) as run eqn:Hrun. unfold easy_refresh, bind at 1 in Hrun.
  rewrite ts_read_law in Hrun. unfold bind at 1 in Hrun. rewrite prim_refresh_run, E in Hrun.
  destruct r as [out|e]; [|by exists w1]. apply client_refresh_run in E as (token & Ht & Hs & _).
  destruct (probe_run w1) as (healthy & w2 & Hp & Hs2).
  destruct out as [t|t|t g|t g]; cbn [in_grace]; [by exists w1..| |]; destruct Hs as [-> Hs];
    unfold bind at 1 in Hrun; rewrite Hp in *; destruct healthy; cbn [negb] in Hrun.
  - rewrite Ht in Hrun. cbn [given_or] in Hrun. unfold bind in Hrun.
    destruct (ts_write_run (mkStored (Some token) (st_graceStartSec (stored w))) w2) as (w3 & Hw & Hw3).
    rewrite Hw in Hrun. exists w3, true. split_and!; [done|done|]. rewrite Hw3, <- Ht. by destruct (stored w).
  - by exists w2, false.
  - exists w2, true. split_and!; [done|done|congruence].
  - by exists w2, false.
Qed.
End Client.

(** *** A device *)

Section Device.
#[local] Existing Instance memory_store_laws.
#[local] Existing Instance dead_network.

(** The issuer's process is up, its routes are down. *)
#[local] Instance healthy_network : HealthNetwork MemoryTokenStore := {| fetchGet := fun _ => ret (Some 200) |}.

Definition device_verify : ClientVerifyConfig (KH := toy.handles) :=
  mkVerifyConfig [(ed25519, toy.backend)] [(js "k1", ed25519)] [(js "k1", toy.record)] None None None.
Definition device_client (now : Z) : Client (KH := toy.handles) MemoryTokenStore :=
  mkClient (js "https://issuer.example") (js "/api/licensing/v1") (Some device_verify) DEFAULT_GRACE_PERIOD_SEC
    (ret (num_of_Z now)).

(** The sample token, with a deadline to go online before its end. *)
Definition due_claims : jsval :=
  match client_claims with
  | JObj proto props => JObj proto (map_set props (js "force_online_after") (JNum (num_of_Z 1400)))
  | v => v
  end.
Definition due_token : jsstr := match c_encode lic1Codec (toy_input due_claims) with Ok t => t | Throw _ => [] end.
Definition holding (token : jsstr) : MemoryTokenStore := mkStored (Some token) None.

Definition served (now : Z) (token : jsstr) := easy_guard default_codecs (device_client now) (js "fp") (holding token).
Definition device_handle : LicenseHandle :=
  mkHandle (js "l-1") (js "u-1") (js "active") (num_of_Z 3) (num_of_Z 2000) None false None.

Lemma guard_sound_witness :
  exists parts claims,
    verify default_codecs client_token (verify_options (guard_options (num_of_Z 1500) device_verify (js "fp"))) = Ok parts
    /\ acceptable claims (guard_options (num_of_Z 1500) device_verify (js "fp"))
    /\ device_handle = handle_of (valid_result (e_header parts) claims) (holding client_token).
Proof.
  assert (Hrun : served 1500 client_token = (Ok device_handle, holding client_token)) by (vm_compute; reflexivity).
  destruct (guard_sound (TL := memory_store_laws) (NW := dead_network) default_codecs (device_client 1500) (num_of_Z 1500) (fun _ => eq_refl) (fun _ _ _ _ => eq_refl)
    (js "fp") (holding client_token) device_handle (holding client_token) Hrun)
    as (cfg & out & w1 & parts & claims & Hcfg & _ & _ & Ht & Hv & _ & Ha & Hh).
  apply Some_inj in Ht. injection Hcfg as <-. rewrite <- Ht in Hv. exists parts, claims. split; [exact Hv|]. split; [exact Ha|exact Hh].
Defined.

(** Past the deadline and cut off, the device enters a grace of a week, in
    which the guard refuses all the same. *)
Example guard_refuses_in_grace :
  match client_refresh default_codecs (refresh_options (device_client 1500) (num_of_Z 1500)) (holding due_token) with
  | (Ok out, w) => in_grace out = true /\ (easy_guard default_codecs (device_client 1501) (js "fp") w).1 = Throw clientErrors.requiresOnlineRefresh
  | _ => False
  end /\ (served 1500 due_token).1 = Throw clientErrors.requiresOnlineRefresh.
Proof. vm_compute. split; [split|]; reflexivity. Qed.

Lemma outage_told_apart_witness :
  exists w', easy_refresh default_codecs (device_client 1500) (holding due_token)
             = (Throw clientErrors.issuerProtocolError, w') /\ w' = holding due_token.
Proof.
  pose proof (outage_told_apart (TL := memory_store_laws) (NW := dead_network) (HN := healthy_network) default_codecs (device_client 1500) (num_of_Z 1500) (fun _ => eq_refl)
    (fun _ _ _ _ => eq_refl) (fun _ _ => eq_refl) (holding due_token)) as H.
  assert (Hrun : client_refresh default_codecs (refresh_options (device_client 1500) (num_of_Z 1500)) (holding due_token)
    = (Ok (GraceEntered due_token (num_of_Z 1500)), mkStored (Some due_token) (Some (num_of_Z 1500)))) by (vm_compute; reflexivity).
  rewrite Hrun in H. destruct H as (w' & healthy & Hp & H). injection Hp as <-. exists w'. exact H.
Defined.
End Device.
