(* ===== verification/Middleware.v ===== *)
(** * Middleware: guarding a route of a web framework with a license

    [src/typescript/src/middleware/]: the framework-free core ([core.ts]) and
    its three adapters ([express.ts], [hono.ts], [fastify.ts]). A framework is
    what the adapters use of it: the slot of the handle on the request, the
    reply, and the protected handler, which is [next]. An error without a code
    of the client's union (see [fromIssuerCode]) counts as an unexpected one. *)

From S2P Require Import Prelude Errors JsNum Text Json Types Crypto TokenCodec Http Validate ClientOnline Easy.

(** ** The core *)

Record GuardErrorBody : Type := mkGuardBody { gb_error : jsstr; gb_message : jsstr }.

Inductive GuardResult : Type :=
| Allowed (handle : LicenseHandle)
| Refused (status : Z) (body : GuardErrorBody).

(** The code as the response carries it. *)
Definition client_code_str (c : ClientErrorCode) : jsstr :=
  match c with
  | CInvalidLicenseKey => js "InvalidLicenseKey"
  | CFingerprintMismatch => js "FingerprintMismatch"
  | CAudienceMismatch => js "AudienceMismatch"
  | CIssuerMismatch => js "IssuerMismatch"
  | CTokenReplayed => js "TokenReplayed"
  | CTokenExpired => js "TokenExpired"
  | CTokenNotYetValid => js "TokenNotYetValid"
  | CSeatLimitExceeded => js "SeatLimitExceeded"
  | CLicenseRevoked => js "LicenseRevoked"
  | CLicenseSuspended => js "LicenseSuspended"
  | CRequiresOnlineRefresh => js "RequiresOnlineRefresh"
  | CGraceExpired => js "GraceExpired"
  | CNoToken => js "NoToken"
  | CIssuerUnreachable => js "IssuerUnreachable"
  | CIssuerProtocolError => js "IssuerProtocolError"
  | CRateLimited => js "RateLimited"
  | CInvalidTokenFormat => js "InvalidTokenFormat"
  | CUnsupportedAlgorithm => js "UnsupportedAlgorithm"
  | CAlgorithmMismatch => js "AlgorithmMismatch"
  | CUnknownKid => js "UnknownKid"
  end.

(** An entry of the table, or the [?? 500] after it. *)
Definition STATUS_BY_CODE (c : ClientErrorCode) : Z :=
  match c with
  | CInvalidTokenFormat => 400
  | CNoToken | CTokenExpired | CTokenNotYetValid | CTokenReplayed => 401
  | CFingerprintMismatch | CAudienceMismatch | CIssuerMismatch | CLicenseRevoked | CLicenseSuspended
  | CGraceExpired | CRequiresOnlineRefresh => 403
  | CInvalidLicenseKey | CUnknownKid => 404
  | CUnsupportedAlgorithm | CAlgorithmMismatch => 422
  | CRateLimited => 429
  | CIssuerProtocolError => 502
  | CIssuerUnreachable => 503
  | CSeatLimitExceeded => 500
  end.

Section Guard.
Context {EM : ErrorMessages}.

Definition buildGuardError (err : exn) : GuardResult :=
  match err with
  | ClientError code => Refused (STATUS_BY_CODE code) (mkGuardBody (client_code_str code) (error_message err))
  | _ => Refused 500 (mkGuardBody (js "InternalError") (error_message err))
  end.

Definition missing_fingerprint (message : jsstr) : GuardResult :=
  Refused 400 (mkGuardBody (js "MissingFingerprint") message).

Section Run.
Context {W Req : Type}.

(** [client.guard], the extractor ([None] for [null] and [undefined]), the
    hook. *)
Record LicenseGuardOptions : Type := mkGuardOptions {
  go_guard : jsstr -> prog W LicenseHandle;
  go_fingerprint : Req -> prog W (option jsstr);
  go_onSuccess : option (Req -> LicenseHandle -> prog W unit)
}.

Definition runGuard (req : Req) (opts : LicenseGuardOptions) : prog W GuardResult := fun w =>
  match go_fingerprint opts req w with
  | (Throw err, w) => (Ok (missing_fingerprint (js "fingerprint extractor threw: " ++ error_message err)), w)
  | (Ok fingerprint, w) =>
      match fingerprint with
      | None | Some [] => (Ok (missing_fingerprint (js "fingerprint extractor returned no value")), w)
      | Some fingerprint =>
          match go_guard opts fingerprint w with
          | (Throw err, w) => (Ok (buildGuardError err), w)
          | (Ok handle, w) =>
              match go_onSuccess opts with
              | None => (Ok (Allowed handle), w)
              | Some onSuccess =>
                  match onSuccess req handle w with
                  | (Throw err, w) => (Ok (buildGuardError err), w)
                  | (Ok _, w) => (Ok (Allowed handle), w)
                  end
              end
          end
      end
  end.
End Run.
End Guard.
Arguments LicenseGuardOptions : clear implicits.

(** ** The frameworks *)

(** What a response has on the wire. *)
Record Reply : Type := mkReply { rp_status : Z; rp_headers : list (jsstr * jsstr); rp_body : GuardErrorBody }.

(** The exchange an adapter works on: the handle on the request (Express and
    Fastify) or in the context (Hono), whether headers have gone out, and the
    reply that was sent. *)
Record Exchange : Type := mkExchange {
  ex_license : option LicenseHandle;
  ex_headersSent : bool;
  ex_reply : option Reply
}.

Definition attach {W} (handle : LicenseHandle) : prog (W * Exchange) unit := fun v =>
  (Ok tt, (v.1, mkExchange (Some handle) (ex_headersSent v.2) (ex_reply v.2))).

(** [status(code)], [setHeader], [json(body)] in a row, on a fresh response. *)
Definition send_json {W} (status : Z) (body : GuardErrorBody) : prog (W * Exchange) unit := fun v =>
  (Ok tt, (v.1, mkExchange (ex_license v.2) true (Some (mkReply status [(js "Content-Type", js "application/json")] body)))).

(** A computation that does not touch the exchange. *)
Definition aside {W A} (c : prog W A) : prog (W * Exchange) A := fun v => let '(r, w) := c v.1 in (r, (w, v.2)).

Section Adapters.
Context {EM : ErrorMessages} {W Req : Type}.
Context (opts : LicenseGuardOptions W Req) (req : Req).

Definition express_licenseGuard (next : prog (W * Exchange) unit) : prog (W * Exchange) unit :=
  let* result := aside (runGuard req opts) in
  match result with
  | Refused status body => fun v => if ex_headersSent v.2 then (Ok tt, v) else send_json status body v
  | Allowed handle => do* attach handle; next
  end.

Definition hono_licenseGuard (next : prog (W * Exchange) unit) : prog (W * Exchange) unit :=
  let* result := aside (runGuard req opts) in
  match result with
  | Refused status body => send_json status body
  | Allowed handle => do* attach handle; next
  end.

(** [LicenseGuardError] *)
Record LicenseGuardError : Type := mkGuardError { ge_statusCode : Z; ge_body : GuardErrorBody }.

(** The hook; its result is the error it throws, if it does. *)
Definition fastify_licenseGuard : prog (W * Exchange) (option LicenseGuardError) :=
  let* result := aside (runGuard req opts) in
  match result with
  | Refused status body => ret (Some (mkGuardError status body))
  | Allowed handle => do* attach handle; ret None
  end.

(** The error handler the plugin installs, on an error of the guard or on
    another with its message. *)
Definition fastify_errorHandler (err : LicenseGuardError + jsstr) : prog (W * Exchange) unit := fun v =>
  match err with
  | inl e => send_json (ge_statusCode e) (ge_body e) v
  | inr message =>
      (Ok tt, (v.1, mkExchange (ex_license v.2) true (Some (mkReply 500 [] (mkGuardBody (js "InternalError") message)))))
  end.

(** The plugin: the slot cleared, the error handler and the hook installed.
    [pipeline] is how the framework runs a request through them. *)
Definition decorated (w : W) : W * Exchange := (w, mkExchange None false None).

Definition fastifyLicenseGuard
    (pipeline : prog (W * Exchange) (option LicenseGuardError) -> (LicenseGuardError + jsstr -> prog (W * Exchange) unit) ->
                prog (W * Exchange) unit -> prog (W * Exchange) unit)
    (handler : prog (W * Exchange) unit) : prog (W * Exchange) unit :=
  pipeline fastify_licenseGuard fastify_errorHandler handler.
End Adapters.
