(* ===== verification/MiddlewareProps.v ===== *)
(** * MiddlewareProps: three frameworks, one gate

    What a license guard lets through does not depend on the framework. *)

From S2P Require Import Prelude Errors JsNum JsArith Text Json StrictJson Types Crypto TokenCodec Lic1 Lic2 Tokens TokenProps Validate ValidateProps Http ClientOnline ClientOnlineProps Easy EasyProps Middleware.

Section Gate.
Context {EM : ErrorMessages} {W Req : Type}.
Context (opts : LicenseGuardOptions W Req) (req : Req).

(** [runGuard] never throws; it allows what the extractor, the guard and the
    hook let through, and refuses with an error status. *)
Lemma runGuard_cases w :
  exists result w', runGuard req opts w = (Ok result, w')
    /\ match result with
       | Refused status _ => 400 <= status <= 599
       | Allowed handle =>
           exists fingerprint w1 w2, fingerprint <> [] /\ go_fingerprint opts req w = (Ok (Some fingerprint), w1)
             /\ go_guard opts fingerprint w1 = (Ok handle, w2)
             /\ match go_onSuccess opts with
                | None => w' = w2
                | Some onSuccess => onSuccess req handle w2 = (Ok tt, w')
                end
       end.
Proof.
  assert (Hb : forall e, match buildGuardError e with Refused status _ => 400 <= status <= 599 | Allowed _ => False end).
  { intros [code d|code d|code| |]; cbn; try lia. destruct code; cbn; lia. }
  assert (Hr : forall e (w1 : W) (P : LicenseHandle -> Prop), exists result w',
            (@Ok exn _ (buildGuardError e), w1) = (Ok result, w')
            /\ match result with Refused status _ => 400 <= status <= 599 | Allowed h => P h end).
  { intros e w1 P. eexists _, _. split; [done|]. specialize (Hb e). by destruct (buildGuardError e). }
  unfold runGuard. destruct (go_fingerprint opts req w) as [[fp|e] w1] eqn:Ef.
  - destruct fp as [[|c fp]|]; [eexists _, _; split; [done|]; cbn; lia| |eexists _, _; split; [done|]; cbn; lia].
    destruct (go_guard opts (c :: fp) w1) as [[h|e] w2] eqn:Eg; [|eexists _, _; split; [done|]; specialize (Hb e); by destruct (buildGuardError e)].
    destruct (go_onSuccess opts) as [hook|] eqn:Eh.
    + destruct (hook req h w2) as [[[]|e] w3] eqn:Ek.
      * eexists _, _. split; [done|]. exists (c :: fp), w1, w2. by split_and!.
      * eexists _, _. split; [done|]. specialize (Hb e). by destruct (buildGuardError e).
    + eexists _, _. split; [done|]. exists (c :: fp), w1, w2. by split_and!.
  - eexists _, _. split; [done|]. cbn. lia.
Qed.

Definition fresh (w : W) : W * Exchange := decorated w.
Definition refused_with (status : Z) (body : GuardErrorBody) : Exchange :=
  mkExchange None true (Some (mkReply status [(js "Content-Type", js "application/json")] body)).
Definition allowed_with (handle : LicenseHandle) : Exchange := mkExchange (Some handle) false None.

End Gate.
