(* ===== verification/TokenFile.v ===== *)
(** * TokenFile: the file-backed token store

    [FileTokenStore] of [src/typescript/src/client/token-store.ts]. The file
    system is the environment's; the state is a JSON document at one path,
    written to a temporary file that then takes the path's name. *)

From S2P Require Import Prelude Errors JsNum Text Json Canonical StrictJson JsonLib Cursor Http ClientOnline.

(** The calls of [node:fs/promises]; each may throw. [fs_unlink] tells a
    missing file ([ENOENT]) from other failures by returning [false]. The tag
    is [`${process.pid}-${Date.now().toString(36)}`]. *)
Class FileSystem (W : Type) : Type := {
  fs_readFile : jsstr -> prog W (list Z);
  fs_mkdir : jsstr -> prog W unit;
  fs_writeFile : jsstr -> list Z -> prog W unit;
  fs_rename : jsstr -> jsstr -> prog W unit;
  fs_unlink : jsstr -> prog W bool;
  fs_tag : prog W jsstr
}.

(** [path.posix.dirname]: the text before the last separator that follows
    another character, scanning from the end. [rest] is the reversed text
    still to scan, without the first character. *)
Fixpoint dirname_scan (rest : jsstr) (seen : bool) : option jsstr :=
  match rest with
  | [] => None
  | c :: rest' =>
      if c =? 47 then (if seen then Some rest' else dirname_scan rest' seen)
      else dirname_scan rest' true
  end.

Definition dirname (path : jsstr) : jsstr :=
  match path with
  | [] => js "."
  | c :: rest =>
      match dirname_scan (rev rest) false with
      | None => if c =? 47 then js "/" else js "."
      | Some [] => if c =? 47 then js "//" else [c]
      | Some before => c :: rev before
      end
  end.

Definition newFileTokenStore (path : jsstr) : res jsstr :=
  match path with [] => Throw PlainError | _ => Ok path end.

(** What [read] makes of the parsed document; reading a property of [null]
    throws. *)
Definition state_of_json (parsed : jsval) : res StoredTokenState :=
  match parsed with
  | JNull => Throw PlainError
  | _ =>
      Ok (mkStored (match get_prop parsed (js "token") with JStr s => Some s | _ => None end)
            (match get_prop parsed (js "graceStartSec") with
             | JNum n => if isFinite n then Some n else None
             | _ => None
             end))
  end.

(** The body of the [try], on the file's bytes. *)
Definition state_of_bytes (raw : list Z) : res StoredTokenState :=
  let? parsed := json_parse (buffer_to_utf8 raw) in state_of_json parsed.

(** [JSON.stringify] of the two fields. *)
Definition token_json (token : option jsstr) : jsstr :=
  match token with Some s => json_quote s | None => js "null" end.
Definition grace_json {NT : NumberText} (grace : option jsnum) : jsstr :=
  match grace with Some n => if isFinite n then num_str n else js "null" | None => js "null" end.

(** [JSON.stringify(state, null, 2)] and a line feed. *)
Definition file_body {NT : NumberText} (s : StoredTokenState) : jsstr :=
  jq "{" ++ [10] ++ jq "  'token': " ++ token_json (st_token s) ++ jq "," ++ [10]
  ++ jq "  'graceStartSec': " ++ grace_json (st_graceStartSec s) ++ [10] ++ jq "}" ++ [10].

Section Store.
Context {NT : NumberText} {W : Type} {FS : FileSystem W}.
Variable path : jsstr.

Definition file_read : prog W StoredTokenState :=
  try_catch (let* raw := fs_readFile path in lift (state_of_bytes raw)) (fun _ => ret EMPTY_STATE).

Definition tmp_path (tag : jsstr) : jsstr := path ++ js ".tmp-" ++ tag.

Definition file_write (state : StoredTokenState) : prog W unit :=
  do* fs_mkdir (dirname path);
  let* tag := fs_tag in
  do* fs_writeFile (tmp_path tag) (utf8_encode (file_body state));
  fs_rename (tmp_path tag) path.

Definition file_clear : prog W unit := do* fs_unlink path; ret tt.

Definition FileTokenStore : TokenStore W := {| ts_read := file_read; ts_write := file_write; ts_clear := file_clear |}.
End Store.
