(* ===== verification/TokenFileProps.v ===== *)
(** * TokenFileProps: a write lands whole or not at all

    The file-backed store on any file system that renames atomically. *)

From S2P Require Import Prelude Errors JsNum Text Json Canonical StrictJson JsonLib Cursor Http ClientOnline TokenFile.

(** ** The document *)

(** A token is ASCII; the start of grace is a count of seconds. *)
Definition storable (s : StoredTokenState) : Prop :=
  (forall t, st_token s = Some t -> forallb is_ascii t = true)
  /\ (forall g, st_graceStartSec s = Some g -> exists z, Z.abs z <= 2 ^ 53 /\ g = norm z 0).

Lemma json_number_of s v rest : parseNumber s = Ok (JNum v, rest) -> json_number s = Ok (JNum v, rest).
Proof.
  unfold parseNumber, json_number. destruct (match s with c :: s' => _ | [] => _ end) as [neg s0].
  destruct (parse_integer s0) as [[ip s1]|]; [|done]. cbn [rbind].
  destruct (parse_fraction s1) as [[fp s2]|]; [|done]. cbn [rbind].
  destruct (parse_exponent s2) as [[ex s3]|]; [|done]. cbn [rbind]. by destruct (isFinite _).
Qed.

(** As [parseValue_dec], in the runtime's parser. *)
Lemma json_value_dec f z rest :
  Z.abs z <= 2 ^ 53 -> num_stop rest = true -> json_value (S f) (dec z ++ rest) = Ok (JNum (norm z 0), rest).
Proof.
  intros Hz Hr. pose proof (json_number_of _ _ _ (parseNumber_dec z rest Hz Hr)) as Hp.
  destruct (dec_head z) as (c & r & Hd & Hc). rewrite Hd in *. cbn [app json_value] in *.
  rewrite skipWs_head by (unfold is_ws; by rewrite !(proj2 (Z.eqb_neq c _)) by lia).
  rewrite !(proj2 (Z.eqb_neq c _)) by lia. rewrite Hp.
  destruct Hc as [->|Hc]; [done|]. unfold isDigit.
  by rewrite (proj2 (Z.leb_le 48 c)), (proj2 (Z.leb_le c 57)), orb_true_r by lia.
Qed.

Lemma json_value_ws f c s : is_ws c = true -> json_value (S f) (c :: s) = json_value (S f) s.
Proof. intros H. cbn [json_value skipWs]. by rewrite H. Qed.

Section Document.
Context {NT : NumberText}.

Definition token_value (t : option jsstr) : jsval := match t with Some s => JStr s | None => JNull end.
Definition grace_value (g : option jsnum) : jsval := match g with Some n => JNum n | None => JNull end.

Lemma token_text f s rest :
  storable s -> json_value (S f) (token_json (st_token s) ++ rest) = Ok (token_value (st_token s), rest).
Proof.
  intros [Ht _]. unfold token_json, token_value. destruct (st_token s) as [t|]; [|done].
  apply json_value_string. by apply Ht.
Qed.

Lemma num_str_int z : Z.abs z <= 2 ^ 53 -> num_str (norm z 0) = dec z.
Proof. intros Hz. unfold num_str. rewrite norm_to_Z, (proj2 (Z.ltb_lt _ _)) by lia. done. Qed.

Lemma grace_text f s rest :
  storable s -> num_stop rest = true ->
  json_value (S f) (grace_json (st_graceStartSec s) ++ rest) = Ok (grace_value (st_graceStartSec s), rest).
Proof.
  intros [_ Hg] Hr. unfold grace_json, grace_value. destruct (st_graceStartSec s) as [g|]; [|done].
  destruct (Hg g eq_refl) as (z & Hz & ->). rewrite isFinite_norm, num_str_int by done. by apply json_value_dec.
Qed.
End Document.

(** What is written reads back. *)
Section RoundTrip.
Context {NT : NumberText}.

Lemma ascii_dec z : forallb is_ascii (dec z) = true.
Proof.
  assert (Hd : forall fuel n, 0 <= n -> forallb is_ascii (dec_digits fuel n) = true).
  { intros fuel. induction fuel as [|fuel IH]; intros n Hn; cbn [dec_digits]; [done|].
    repeat case_goal; bool_prop; rewrite ?forallb_app; cbn [forallb]; unfold is_ascii in *;
      rewrite ?IH by (apply Z.div_pos; lia); cbn [andb]; rewrite ?andb_true_r; zdiv. }
  unfold dec. destruct (z <? 0); cbn [forallb]; by rewrite Hd by apply Z.abs_nonneg.
Qed.

Lemma file_body_ascii s : storable s -> forallb is_ascii (file_body s) = true.
Proof.
  intros [Ht Hg]. unfold file_body, token_json, grace_json.
  assert (H1 : forallb is_ascii (match st_token s with Some t => json_quote t | None => js "null" end) = true).
  { destruct (st_token s) as [t|]; [|done]. apply json_quote_is_ascii. by apply Ht. }
  assert (H2 : forallb is_ascii (match st_graceStartSec s with Some n => if isFinite n then num_str n else js "null" | None => js "null" end) = true).
  { destruct (st_graceStartSec s) as [g|]; [|done]. destruct (Hg g eq_refl) as (z & Hz & ->).
    rewrite isFinite_norm, num_str_int by done. apply ascii_dec. }
  rewrite !forallb_app, H1, H2. done.
Qed.

Lemma file_body_parse s :
  storable s -> json_parse (file_body s)
                = Ok (plain [(js "token", token_value (st_token s)); (js "graceStartSec", grace_value (st_graceStartSec s))]).
Proof.
  intros Hs. unfold json_parse. set (n := List.length (file_body s)).
  assert (Hn : exists m, n = S (S (S (S (S m))))) by (unfold n, file_body; cbn [app List.length]; eauto).
  clearbody n. destruct Hn as [m ->].
  change (file_body s) with (123 :: 10 :: 32 :: 32 :: 34 :: (js "token" ++ 34 :: 58 :: 32 :: (token_json (st_token s)
    ++ 44 :: 10 :: 32 :: 32 :: 34 :: (js "graceStartSec" ++ 34 :: 58 :: 32 :: (grace_json (st_graceStartSec s) ++ [10; 125; 10]))))).
  set (r := token_json (st_token s) ++ _).
  change (json_value (S (S (S (S (S (S m)))))) (123 :: 10 :: 32 :: 32 :: 34 :: (js "token" ++ 34 :: 58 :: 32 :: r)))
    with (json_object_loop (json_value (S (S (S (S (S m)))))) (S (S (S (S (S m))))) [] (34 :: (js "token" ++ 34 :: 58 :: 32 :: r))).
  unfold r. erewrite json_member; [|reflexivity|reflexivity|rewrite json_value_ws by done; by apply token_text].
  cbn [skipWs is_ws Z.eqb Pos.eqb orb].
  erewrite json_member; [|reflexivity|reflexivity|rewrite json_value_ws by done; by apply grace_text].
  done.
Qed.

Lemma file_round_trip s : storable s -> state_of_bytes (utf8_encode (file_body s)) = Ok s.
Proof.
  intros Hs. pose proof (file_body_ascii s Hs) as Ha. unfold state_of_bytes.
  rewrite utf8_encode_ascii, buffer_to_utf8_ascii, file_body_parse by done. cbn [rbind]. unfold state_of_json.
  cbv iota. change (get_prop _ (js "token")) with (token_value (st_token s)).
  change (get_prop _ (js "graceStartSec")) with (grace_value (st_graceStartSec s)).
  destruct Hs as [_ Hg]. destruct s as [t g]. cbn in *. destruct t, g as [g|]; cbn; try done;
    destruct (Hg g eq_refl) as (z & _ & ->); by rewrite isFinite_norm.
Qed.
End RoundTrip.

(** ** The file system *)

(** What the store relies on: a call that touches a file touches only the
    files it names, and a rename either happens or does not. A write that
    fails may leave anything under the name it was given. *)
Class FileSystemLaws (W : Type) {FS : FileSystem W} : Type := {
  content : W -> jsstr -> option (list Z);
  read_law : forall p w, fs_readFile p w = (match content w p with Some b => Ok b | None => Throw PlainError end, w);
  mkdir_law : forall p w q, content (fs_mkdir p w).2 q = content w q;
  tag_law : forall w q, content (fs_tag w).2 q = content w q;
  write_law : forall p b w, (forall q, q <> p -> content (fs_writeFile p b w).2 q = content w q)
    /\ ((fs_writeFile p b w).1 = Ok tt -> content (fs_writeFile p b w).2 p = Some b);
  rename_law : forall a b w, a <> b ->
    match fs_rename a b w with
    | (Ok _, w') => content w' b = content w a
    | (Throw _, w') => content w' b = content w b
    end;
  unlink_law : forall p w,
    match fs_unlink p w with
    | (Ok _, w') => content w' p = None
    | (Throw _, w') => content w' p = content w p
    end
}.

Section Atomic.
Context {NT : NumberText} {W : Type} {FS : FileSystem W} {FL : FileSystemLaws W}.
Variable path : jsstr.

(** The state the file stands for: none when it is missing or unreadable. *)
Definition file_state (w : W) : StoredTokenState :=
  match content w path with
  | None => EMPTY_STATE
  | Some raw => match state_of_bytes raw with Ok s => s | Throw _ => EMPTY_STATE end
  end.

Lemma file_read_run w : file_read path w = (Ok (file_state w), w).
Proof.
  unfold file_read, try_catch, bind, file_state. rewrite read_law. destruct (content w path) as [raw|]; [|done].
  unfold lift. by destruct (state_of_bytes raw).
Qed.

Lemma tmp_apart tag : tmp_path path tag <> path.
Proof.
  unfold tmp_path. intros H. apply (f_equal (List.length (A := Z))) in H. rewrite !length_app in H.
  change (List.length (js ".tmp-")) with 5%nat in H. lia.
Qed.

(** C38: the file-backed token store is the abstract one. Reading returns the
    state the file stands for and changes nothing; a write that returns has
    stored exactly what it was given, and one that throws, at whatever step,
    has left the stored state as it was: the new state lands whole or not at
    all, the token never without its grace marker. A clear that returns has
    emptied the store, one that throws has changed nothing. *)
Theorem file_store_refines s w (Hs : storable s) :
  file_read path w = (Ok (file_state w), w)
  /\ (let '(r, w') := file_write path s w in
      (r = Ok tt /\ file_state w' = s) \/ ((exists e, r = Throw e) /\ file_state w' = file_state w))
  /\ (let '(r, w') := file_clear path w in
      (r = Ok tt /\ file_state w' = EMPTY_STATE) \/ ((exists e, r = Throw e) /\ file_state w' = file_state w)).
Proof.
  assert (Hsame : forall w1 w2, content w1 path = content w2 path -> file_state w1 = file_state w2).
  { intros w1 w2 H. unfold file_state. by rewrite H. }
  split_and!; [apply file_read_run| |].
  - unfold file_write, bind. pose proof (mkdir_law (dirname path) w path) as H1.
    destruct (fs_mkdir (dirname path) w) as [[[]|e] w1]; [|by right; split; [eexists|apply Hsame]].
    pose proof (tag_law w1 path) as H2. destruct (fs_tag w1) as [[tag|e] w2];
      [|right; split; [by eexists|apply Hsame; cbn in *; congruence]].
    set (body := utf8_encode (file_body s)). destruct (write_law (tmp_path path tag) body w2) as [H3 H4].
    specialize (H3 path (not_eq_sym (tmp_apart tag))).
    destruct (fs_writeFile (tmp_path path tag) body w2) as [[[]|e] w3];
      [|right; split; [by eexists|apply Hsame; cbn in *; congruence]].
    pose proof (rename_law (tmp_path path tag) path w3 (tmp_apart tag)) as H5.
    destruct (fs_rename (tmp_path path tag) path w3) as [[[]|e] w4];
      [left|right; split; [by eexists|apply Hsame; cbn in *; congruence]].
    split; [done|]. cbn [fst snd] in H4. unfold file_state. rewrite H5, (H4 eq_refl). unfold body. by rewrite file_round_trip.
  - unfold file_clear, bind. pose proof (unlink_law path w) as H1.
    destruct (fs_unlink path w) as [[b|e] w1]; [left|right].
    + split; [done|]. unfold file_state. by rewrite H1.
    + split; [by eexists|by apply Hsame].
Qed.
End Atomic.

(** ** A disk that loses power

    The calls left before the power goes: the next call then fails, a write
    leaving half of its bytes. *)

Record Disk : Type := mkDisk { dk_files : list (jsstr * list Z); dk_left : nat }.

Definition powered {A} (half full : Disk -> A * Disk) : prog Disk A := fun d =>
  match dk_left d with
  | O => (Throw PlainError, (half d).2)
  | S n => let '(a, d') := full d in (Ok a, mkDisk (dk_files d') n)
  end.
Definition idle (d : Disk) : unit * Disk := (tt, d).
Definition store_file (p : jsstr) (b : list Z) (d : Disk) : unit * Disk := (tt, mkDisk (map_set (dk_files d) p b) (dk_left d)).
Definition drop_file (p : jsstr) (d : Disk) : Disk := mkDisk (map_delete (dk_files d) p) (dk_left d).

#[local] Instance disk_files : FileSystem Disk := {|
  fs_readFile := fun p d => (match map_get (dk_files d) p with Some b => Ok b | None => Throw PlainError end, d);
  fs_mkdir := fun _ => powered idle idle;
  fs_writeFile := fun p b => powered (store_file p (take (List.length b / 2) b)) (store_file p b);
  fs_rename := fun a b d =>
    match map_get (dk_files d) a with
    | Some x => powered idle (fun d => (tt, mkDisk (map_set (map_delete (dk_files d) a) b x) (dk_left d))) d
    | None => (Throw PlainError, d)
    end;
  fs_unlink := fun p => powered (fun d => (true, d)) (fun d => (map_has (dk_files d) p, drop_file p d));
  fs_tag := fun d => (Ok (js "7-k"), d)
|}.

#[local, program] Instance disk_laws : FileSystemLaws Disk := {| content := fun d p => map_get (dk_files d) p |}.
Next Obligation. done. Qed.
Next Obligation. intros p w q. cbn. unfold powered. by destruct (dk_left w). Qed.
Next Obligation. done. Qed.
Next Obligation.
  intros p b w. cbn. unfold powered. destruct (dk_left w); cbn; split.
  - intros q Hq. by apply map_get_set_ne.
  - done.
  - intros q Hq. by apply map_get_set_ne.
  - intros _. apply map_get_set_eq.
Qed.
Next Obligation.
  intros a b w Hab. cbn. destruct (map_get (dk_files w) a) eqn:E; [|done]. unfold powered.
  destruct (dk_left w); [done|]. cbn. apply map_get_set_eq.
Qed.
Next Obligation. intros p w. cbn. unfold powered. destruct (dk_left w); [done|]. cbn. apply map_get_delete_eq. Qed.

#[local] Instance plain_numbers : NumberText := {| other_number_text := fun _ => js "?" |}.

Definition token_path : jsstr := js "./.licensing/token.json".
Definition held : StoredTokenState := mkStored (Some (js "LIC1.old")) (Some (num_of_Z 1746000000)).
Definition next_state : StoredTokenState := mkStored (Some (js "LIC1.new")) None.
Definition disk (left : nat) : Disk := mkDisk [(token_path, utf8_encode (file_body held))] left.

(** The power goes during the write of the temporary file. *)
Lemma file_store_refines_witness :
  storable next_state
  /\ (file_read token_path (file_write token_path next_state (disk 1)).2).1 = Ok held.
Proof.
  assert (Hs : storable next_state) by (split; [by intros t [= <-]|done]).
  split; [exact Hs|].
  destruct (file_store_refines (FL := disk_laws) token_path next_state (disk 1) Hs) as (_ & Hw & _).
  destruct (file_store_refines (FL := disk_laws) token_path next_state (file_write token_path next_state (disk 1)).2 Hs) as (Hr & _ & _).
  assert (E : (file_write token_path next_state (disk 1)).1 = Throw PlainError) by (vm_compute; reflexivity).
  rewrite Hr. destruct (file_write token_path next_state (disk 1)) as [r w']. cbn [fst snd] in *. subst r.
  destruct Hw as [[Hw _]|[_ Hw]]; [discriminate Hw|]. rewrite Hw. vm_compute. reflexivity.
Defined.

(** With power enough the new state is there; a field another version of the
    client put in the document is not kept. *)
Example write_drops_unknown_fields :
  let old := mkDisk [(token_path, utf8_encode (jq "{'token':'LIC1.old','graceStartSec':null,'device':'d1'}"))] 3 in
  let new := (file_write token_path next_state old).2 in
  dk_files new = [(token_path, utf8_encode (jq "{" ++ [10] ++ jq "  'token': 'LIC1.new'," ++ [10] ++ jq "  'graceStartSec': null" ++ [10] ++ jq "}" ++ [10]))]
  /\ (file_read token_path new).1 = Ok next_state /\ dirname token_path = js "./.licensing".
Proof. vm_compute. split_and!; reflexivity. Qed.

(** The path a client that names no store gets is a directory's: a write makes
    the directory above it only, and puts its temporary file into the one
    that was not made. *)
Example default_store_directory :
  dirname (js "./.licensing/") = js "." /\ dirname (tmp_path (js "./.licensing/") (js "7-k")) = js "./.licensing".
Proof. vm_compute. split; reflexivity. Qed.
