(* ===== verification/Adapters.v ===== *)
(** * Adapters: from a framework's request to a handler and back

    [src/typescript/src/http/adapters/]: the Node listener ([node.ts]) and the
    Express, Hono and Fastify handlers. A raw request is what the framework
    hands over; what the framework parses itself (the query of Express and
    Fastify, the URL and the JSON of Hono, pre-parsed bodies) is part of it.
    The text of [JSON.stringify] of a body is left as the body. *)

From S2P Require Import Prelude Errors JsNum JsArith Text Json JsonLib LicenseKeyFormat TokenCodec Der EncryptedPkcs8 Http HttpProps.

(** ** Shared pieces *)

(** [m.toUpperCase()]: a method is a token, which is ASCII. *)
Definition known_method (m : jsstr) : option HttpMethod :=
  List.find (fun k => str_eqb (method_str k) (map upper_ascii m)) [GET; POST; PATCH; DELETE].

(** A raw header: one value, or the values of a repeated one. *)
Inductive RawHeader : Type := OneHeader (v : jsstr) | ManyHeader (l : list jsstr).

(** [out[k.toLowerCase()] = Array.isArray(v) ? v.join(', ') : v]; a header
    name is ASCII. *)
Definition normalizeHeaders (raw : list (jsstr * RawHeader)) : list (jsstr * jsstr) :=
  fold_left (fun out kv => map_set out (map lower_ascii kv.1)
               match kv.2 with OneHeader v => v | ManyHeader l => join (js ", ") l end) raw [].

Definition strip_slash (path : jsstr) : jsstr :=
  if (1 <? List.length path)%nat && bool_decide (last path = Some 47) then removelast path else path.

(** What stands before and after the first ['?']. *)
Fixpoint at_question (url : jsstr) : jsstr * jsstr :=
  match url with
  | [] => ([], [])
  | c :: url' => if c =? 63 then ([], url') else let '(p, q) := at_question url' in (c :: p, q)
  end.

Definition includes (s pat : jsstr) : bool := negb (indexOf s pat =? -1).

Definition json_type (content_type : option jsstr) : bool :=
  includes (map lower_ascii (given_or content_type [])) (js "application/json").

(** [JSON.parse] of the bytes received; anything it refuses, an empty body
    among it, is no body. *)
Definition parsed_or_undefined (raw : list Z) : jsval :=
  match json_parse (buffer_to_utf8 raw) with Ok v => v | Throw _ => JUndefined end.

Definition bodyless (method : jsstr) : bool := str_eqb method (js "GET") || str_eqb method (js "DELETE").

(** ** [URLSearchParams] *)

(** Percent-decoding of bytes; an escape that is none stays as it is. *)
Fixpoint percent_decode (bs : list Z) : list Z :=
  match bs with
  | [] => []
  | p :: ((a :: b :: bs') as rest) =>
      match hex_digit a, hex_digit b with
      | Some x, Some y => if p =? 37 then x * 16 + y :: percent_decode bs' else p :: percent_decode rest
      | _, _ => p :: percent_decode rest
      end
  | p :: rest => p :: percent_decode rest
  end.

Definition form_text (bs : list Z) : jsstr :=
  buffer_to_utf8 (percent_decode (map (fun c => if c =? 43 then 32 else c) bs)).

(** What stands before and after the first ['=']. *)
Fixpoint at_equals (bs : list Z) : list Z * list Z :=
  match bs with
  | [] => ([], [])
  | c :: bs' => if c =? 61 then ([], bs') else let '(n, v) := at_equals bs' in (c :: n, v)
  end.

(** [new URLSearchParams(queryStr)], a leading ['?'] dropped. *)
Definition search_params (queryStr : jsstr) : list (jsstr * jsstr) :=
  let s := match queryStr with c :: s' => if c =? 63 then s' else queryStr | [] => [] end in
  map (fun part => let '(n, v) := at_equals part in (form_text n, form_text v))
    (List.filter (fun part => negb (bool_decide (part = []))) (split_on 38 (utf8_encode s))).

(** [for (const key of params.keys()) q[key] = all.length === 1 ? all[0] : all];
    setting [__proto__] makes no property. *)
Definition query_of_params (params : list (jsstr * jsstr)) : list (jsstr * QueryValue) :=
  fold_left (fun q kv =>
    if bool_decide (kv.1 = proto_key) then q
    else map_set q kv.1 match map snd (List.filter (fun p => str_eqb p.1 kv.1) params) with
                        | [s] => OneValue s
                        | all => ManyValues all
                        end) params [].

(** A query another library parsed: strings, and the strings of arrays. *)
Definition normalizeQuery (entries : list (jsstr * jsval)) : list (jsstr * QueryValue) :=
  fold_left (fun out kv =>
    if bool_decide (kv.1 = proto_key) then out
    else match kv.2 with
         | JStr s => map_set out kv.1 (OneValue s)
         | JArr l => map_set out kv.1 (ManyValues (omap (fun v => match v with JStr s => Some s | _ => None end) l))
         | _ => out
         end) entries [].

(** ** Answers *)

(** What goes out: the status, the headers in the order they were set, and
    the body to be written as JSON, if any. *)
Record WireResponse : Type := mkWire { wr_status : Z; wr_headers : list (jsstr * jsstr); wr_body : option jsval }.

Definition json_content : jsstr := js "application/json; charset=utf-8".

Definition wire_of (hres : HandlerResponse) : WireResponse :=
  let headers := fold_left (fun out kv => map_set out kv.1 kv.2) (given_or (r_headers hres) []) [] in
  match r_body hres with
  | None => mkWire (r_status hres) headers None
  | Some body => mkWire (r_status hres) (map_set headers (js "content-type") json_content) (Some body)
  end.

Definition error_wire (status : Z) (code message : jsstr) : WireResponse := wire_of (err status code message None).

Definition method_not_allowed (m : jsstr) : WireResponse :=
  error_wire 405 (js "MethodNotAllowed") (js "method " ++ map upper_ascii m ++ js " not allowed").

(** ** Node *)

Record NodeRequest : Type := mkNode {
  nr_method : option jsstr;
  nr_url : option jsstr;
  nr_headers : list (jsstr * RawHeader);
  nr_body : list Z;
  nr_remoteAddress : option jsstr
}.

Definition raw_header (headers : list (jsstr * RawHeader)) (name : jsstr) : option jsstr :=
  match map_get headers name with Some (OneHeader v) => Some v | _ => None end.

(** [fwd.split(',')[0].trim()] *)
Definition leftmost (fwd : jsstr) : jsstr := js_trim (given_or (head (split_on 44 fwd)) []).

Definition remoteAddrFrom (req : NodeRequest) : jsstr :=
  match raw_header (nr_headers req) (js "x-forwarded-for") with
  | Some ((_ :: _) as fwd) => leftmost fwd
  | _ => given_or (nr_remoteAddress req) (js "unknown")
  end.

Definition parseQuery (urlStr : jsstr) : jsstr * list (jsstr * QueryValue) :=
  let '(pathOnly, queryStr) := at_question urlStr in
  (strip_slash pathOnly, query_of_params (search_params queryStr)).

Definition readBody (method : jsstr) (req : NodeRequest) : jsval :=
  if bodyless method || negb (json_type (raw_header (nr_headers req) (js "content-type"))) then JUndefined
  else parsed_or_undefined (nr_body req).

Definition node_request (m : HttpMethod) (req : NodeRequest) : HandlerRequest :=
  let '(path, query) := parseQuery (given_or (nr_url req) (js "/")) in
  mkRequest m path query (normalizeHeaders (nr_headers req))
    (readBody (given_or (nr_method req) (js "GET")) req) (remoteAddrFrom req) None.

Definition internal_error : WireResponse :=
  error_wire 500 (js "InternalError") (js "an unexpected error occurred").

Definition toNodeListener {W} (handler : Handler W) (req : NodeRequest) : prog W WireResponse :=
  let method := given_or (nr_method req) (js "GET") in
  match known_method method with
  | None => ret (method_not_allowed method)
  | Some m =>
      try_catch (let* hres := handler (node_request m req) in ret (wire_of hres)) (fun _ => ret internal_error)
  end.

(** ** Express *)

Record ExpressRequest : Type := mkExpress {
  er_node : NodeRequest;
  er_originalUrl : option jsstr;
  er_ip : option jsstr;
  er_body : jsval;
  er_query : option (list (jsstr * jsval))
}.

(** [typeof v === 'object'], for a value other than [null]. *)
Definition readJsonBody (req : ExpressRequest) : jsval :=
  match er_body req with
  | (JArr _ | JObj _ _ | JObjProto | JOther) as v => v
  | _ => readBody (map upper_ascii (given_or (nr_method (er_node req)) (js "GET"))) (er_node req)
  end.

Definition express_request (m : HttpMethod) (req : ExpressRequest) : HandlerRequest :=
  let url := match er_originalUrl req with Some u => u | None => given_or (nr_url (er_node req)) (js "/") end in
  mkRequest m (strip_slash (at_question url).1) (normalizeQuery (given_or (er_query req) []))
    (normalizeHeaders (nr_headers (er_node req))) (readJsonBody req)
    (match er_ip req with Some ip => ip | None => given_or (nr_remoteAddress (er_node req)) (js "unknown") end) None.

(** A failure goes to [next] as it is. *)
Definition toExpressHandler {W} (handler : Handler W) (req : ExpressRequest) : prog W (WireResponse + exn) :=
  let method := given_or (nr_method (er_node req)) (js "GET") in
  match known_method method with
  | None => ret (inl (method_not_allowed method))
  | Some m =>
      try_catch (let* hres := handler (express_request m req) in ret (inl (wire_of hres))) (fun e => ret (inr e))
  end.

(** ** Hono *)

(** [new URL(s)]: its path and search parameters, unless it throws. *)
Class UrlParser : Type := { url_parse : jsstr -> option (jsstr * list (jsstr * jsstr)) }.

(** Header names are lowercase; the JSON is what [c.req.json()] gives, unless
    it fails. *)
Record HonoRequest : Type := mkHono {
  ho_method : jsstr;
  ho_url : jsstr;
  ho_headers : list (jsstr * jsstr);
  ho_json : option jsval
}.

Definition parseQueryFromUrl {UP : UrlParser} (urlStr : jsstr) : jsstr * list (jsstr * QueryValue) :=
  match url_parse urlStr with
  | None => (urlStr, [])
  | Some (pathname, params) => (strip_slash pathname, query_of_params params)
  end.

Definition clientIpFromHeaders (h : list (jsstr * jsstr)) : jsstr :=
  match map_get h (js "x-forwarded-for") with
  | Some ((_ :: _) as fwd) => leftmost fwd
  | _ => given_or (map_get h (js "x-real-ip")) (js "unknown")
  end.

Definition readHonoBody (req : HonoRequest) : jsval :=
  if bodyless (map upper_ascii (ho_method req)) || negb (json_type (map_get (ho_headers req) (js "content-type"))) then JUndefined
  else given_or (ho_json req) JUndefined.

Definition hono_request {UP : UrlParser} (m : HttpMethod) (req : HonoRequest) : HandlerRequest :=
  let '(path, query) := parseQueryFromUrl (ho_url req) in
  mkRequest m path query (normalizeHeaders (map (fun kv => (kv.1, OneHeader kv.2)) (ho_headers req)))
    (readHonoBody req) (clientIpFromHeaders (ho_headers req)) None.

Definition toHonoHandler {UP : UrlParser} {W} (handler : Handler W) (req : HonoRequest) : prog W WireResponse :=
  match known_method (ho_method req) with
  | None => ret (method_not_allowed (ho_method req))
  | Some m => let* hres := handler (hono_request m req) in ret (wire_of hres)
  end.

(** ** Fastify *)

Record FastifyRequest : Type := mkFastify {
  fr_method : jsstr;
  fr_url : jsstr;
  fr_headers : list (jsstr * RawHeader);
  fr_query : jsval;
  fr_body : jsval;
  fr_ip : jsstr
}.

(** [Object.entries] of an object; an array's entries are its elements by
    index, none of which the endpoints name. *)
Definition fastify_query (q : jsval) : list (jsstr * QueryValue) :=
  match q with JObj _ props => normalizeQuery props | _ => [] end.

(** Functions, symbols and big integers are dropped, [null] becomes [undefined]. *)
Definition bodyOrUndefined (b : jsval) : jsval :=
  match b with JUndefined | JNull | JFun | JBig _ => JUndefined | v => v end.

Definition fastify_request (m : HttpMethod) (req : FastifyRequest) : HandlerRequest :=
  mkRequest m (strip_slash (at_question (fr_url req)).1) (fastify_query (fr_query req))
    (normalizeHeaders (fr_headers req)) (bodyOrUndefined (fr_body req)) (fr_ip req) None.

Definition toFastifyHandler {W} (handler : Handler W) (req : FastifyRequest) : prog W WireResponse :=
  match known_method (fr_method req) with
  | None => ret (method_not_allowed (fr_method req))
  | Some m => let* hres := handler (fastify_request m req) in ret (wire_of hres)
  end.

(** ** One handler, four frameworks

    What a handler sees of a request does not depend on the framework, but
    for the address; and what follows from trusting the headers. *)

(** Nothing a handler does escapes the Node listener, and a failure says
    nothing of itself. *)
Lemma node_always_answers {W} (handler : Handler W) req w :
  exists resp w', toNodeListener handler req w = (Ok resp, w')
    /\ (forall m e, known_method (given_or (nr_method req) (js "GET")) = Some m ->
          (handler (node_request m req) w).1 = Throw e -> resp = internal_error).
Proof.
  unfold toNodeListener, try_catch, bind. destruct (known_method _) as [m|]; [|by eexists _, _].
  destruct (handler (node_request m req) w) as [[hres|e] w'] eqn:E.
  - eexists _, _. split; [done|]. intros m' e [= <-]. by rewrite E.
  - eexists _, _. split; [done|]. by intros.
Qed.

(** ** One request, seen through each adapter *)

(** A request to a path without a query, its headers in lower case. *)
Record PlainRequest : Type := mkPlainRequest {
  pr_method : HttpMethod;
  pr_path : jsstr;
  pr_headers : list (jsstr * jsstr);
  pr_body : list Z
}.

Definition single (headers : list (jsstr * jsstr)) : list (jsstr * RawHeader) := map (fun kv => (kv.1, OneHeader kv.2)) headers.

(** The body a framework parses for the handler. *)
Definition parsed_body (r : PlainRequest) : jsval :=
  if bodyless (method_str (pr_method r)) || negb (json_type (map_get (pr_headers r) (js "content-type"))) then JUndefined
  else parsed_or_undefined (pr_body r).

Definition as_node (r : PlainRequest) (address : option jsstr) : NodeRequest :=
  mkNode (Some (method_str (pr_method r))) (Some (pr_path r)) (single (pr_headers r)) (pr_body r) address.
Definition as_express (r : PlainRequest) (ip : jsstr) : ExpressRequest :=
  mkExpress (as_node r None) (Some (pr_path r)) (Some ip) JUndefined (Some []).
Definition as_hono (r : PlainRequest) (url : jsstr) : HonoRequest :=
  mkHono (method_str (pr_method r)) url (pr_headers r)
    (match json_parse (buffer_to_utf8 (pr_body r)) with Ok v => Some v | Throw _ => None end).
Definition as_fastify (r : PlainRequest) (ip : jsstr) : FastifyRequest :=
  mkFastify (method_str (pr_method r)) (pr_path r) (single (pr_headers r)) (plain []) (parsed_body r) ip.

(** The request without its address. *)
Definition anonymous (req : HandlerRequest) : HandlerRequest :=
  mkRequest (q_method req) (q_path req) (q_query req) (q_headers req) (q_body req) [] (q_subject req).

Definition seen (r : PlainRequest) : HandlerRequest :=
  mkRequest (pr_method r) (strip_slash (pr_path r)) [] (normalizeHeaders (single (pr_headers r))) (parsed_body r) [] None.

Lemma at_question_none url : 63 ∉ url -> at_question url = (url, []).
Proof.
  induction url as [|c url IH]; [done|]. rewrite not_elem_of_cons. intros [Hc Hu]. cbn [at_question].
  rewrite (proj2 (Z.eqb_neq c 63)) by done. by rewrite IH.
Qed.

Lemma raw_header_single headers name : raw_header (single headers) name = map_get headers name.
Proof.
  unfold raw_header, single. induction headers as [|[k v] headers IH]; [done|]. cbn [map map_get fst snd].
  case_decide; done.
Qed.

Lemma known_method_str m : known_method (method_str m) = Some m.
Proof. destruct m; vm_compute; reflexivity. Qed.

Lemma upper_method m : map upper_ascii (method_str m) = method_str m.
Proof. destruct m; vm_compute; reflexivity. Qed.

Lemma readBody_single r address : readBody (method_str (pr_method r)) (as_node r address) = parsed_body r.
Proof. unfold readBody, parsed_body. cbn [nr_headers as_node nr_body]. by rewrite raw_header_single. Qed.

(** The four adapters call the handler with the same request, the address
    apart. *)
Lemma adapters_agree {UP : UrlParser} r address ip1 ip2 url :
  63 ∉ pr_path r -> parsed_body r <> JNull -> (forall b, parsed_body r <> JBig b) -> parsed_body r <> JFun ->
  url_parse url = Some (pr_path r, []) ->
  anonymous (node_request (pr_method r) (as_node r address)) = seen r
  /\ anonymous (express_request (pr_method r) (as_express r ip1)) = seen r
  /\ anonymous (hono_request (pr_method r) (as_hono r url)) = seen r
  /\ anonymous (fastify_request (pr_method r) (as_fastify r ip2)) = seen r.
Proof.
  intros Hq Hnull Hbig Hfun Hurl. pose proof (at_question_none _ Hq) as Ha. split_and!.
  - unfold node_request, parseQuery. cbn [given_or nr_url as_node]. rewrite Ha. change (query_of_params (search_params [])) with (@nil (jsstr * QueryValue)).
    unfold anonymous, seen. cbn [q_method q_path q_query q_headers q_body q_subject nr_headers nr_method given_or as_node]. by rewrite readBody_single.
  - unfold express_request, anonymous, seen. cbn [q_method q_path q_query q_headers q_body q_subject er_originalUrl er_query er_node as_express given_or].
    rewrite Ha. unfold readJsonBody. cbn [er_body er_node as_express as_node nr_method given_or]. rewrite upper_method. by rewrite readBody_single.
  - unfold hono_request, parseQueryFromUrl. cbn [ho_url as_hono]. rewrite Hurl. unfold anonymous, seen.
    cbn [q_method q_path q_query q_headers q_body q_subject ho_headers as_hono]. f_equal.
    unfold readHonoBody, parsed_body, parsed_or_undefined. cbn [ho_headers ho_json ho_method as_hono]. rewrite upper_method.
    case_match; [done|]. by destruct (json_parse _).
  - unfold fastify_request, anonymous, seen. cbn [q_method q_path q_query q_headers q_body q_subject fr_url fr_headers fr_query fr_body as_fastify].
    rewrite Ha. f_equal. unfold bodyOrUndefined. by destruct (parsed_body r); try naive_solver.
Qed.

(** ** What trusting the headers allows *)

(** A POST to the protected route of [HttpProps], as the Node listener gets
    it, with a header of the client's choice. *)
Definition node_post (headers : list (jsstr * jsstr)) : NodeRequest :=
  mkNode (Some (js "POST")) (Some (js "/admin/licenses/l1/revoke?x=1")) (single headers) [] (Some (js "10.0.0.1")).
Definition node_dispatch (headers : list (jsstr * jsstr)) : res WireResponse * nat :=
  toNodeListener (createRouter admin_routes [bearerAuth admin_verifier]) (node_post headers) 0%nat.

(** The mark of a public route survives the adapter: no credential, and the
    protected handler runs. *)
Example forged_header_from_the_wire :
  node_dispatch [(js "X-Licensing-Route-Public", js "1")]
  = (Ok (mkWire 200 [(js "content-type", json_content)] (r_body (respond JNull 200))), 1%nat)
  /\ (node_dispatch []).2 = 0%nat.
Proof. vm_compute. split; reflexivity. Qed.

(** The address a limit counts by is the client's word: three requests from
    one socket, past a burst of one, are served under three names, and
    the second is refused under the same name. *)
Definition limited_listener : Handler RateWorld := fun req =>
  limiter (num_of_Z 1) req (fun _ => ret (respond JNull 200)).
Definition limited_run (names : list String.string) : list (option Z) :=
  (fold_left (fun acc name =>
     let '(out, w) := acc in
     let '(r, w) := toNodeListener limited_listener (node_post [(js "x-forwarded-for", js name)]) w in
     (out ++ [match r with Ok resp => Some (wr_status resp) | Throw _ => None end], w)) names ([], mkRateWorld [] 0)).1.

Example forwarded_for_evades_limit :
  limited_run ["a"; "b"; "c"]%string = [Some 200; Some 200; Some 200]
  /\ limited_run ["a"; "a"]%string = [Some 200; Some 429].
Proof. vm_compute. split; reflexivity. Qed.

(** The query of the Node listener. *)
Example node_query :
  parseQuery (js "/a/?status=active&x=1&x=2&q=a%20b+c&&flag") = (js "/a",
    [(js "status", OneValue (js "active")); (js "x", ManyValues [js "1"; js "2"]); (js "q", OneValue (js "a b c"));
     (js "flag", OneValue [])]).
Proof. vm_compute. reflexivity. Qed.
