(* ===== verification/Backends.v ===== *)
(** * Backends: the three signature backends

    [src/typescript/src/crypto/]: [hmac.ts], [ed25519.ts] and [rsa.ts]. What
    they ask of [node:crypto] beyond [NodeCrypto] is the class [KeyRuntime]: a
    function of it that throws gives [None]. The two shapes of key material
    are the constructors of [KeyMaterial], so the third branch of the imports,
    for a material of neither shape, has no counterpart. *)

From S2P Require Import Prelude Errors JsNum Text Json Types Crypto Der EncryptedPkcs8 KeyHierarchy.

(** [errors.insufficientKeyStrength] *)
Definition insufficientKeyStrength : exn := LicensingError InsufficientKeyStrength NoDetails.

(** The members of [export({ format: 'jwk' })] the source reads. *)
Record Jwk : Type := mkJwk { jwk_crv : option jsstr; jwk_d : option jsstr; jwk_x : option jsstr }.

(** The salt of an RSA-PSS signature is the runtime's choice: [signPss] is any
    function that makes it. *)
Class KeyRuntime {NC : NodeCrypto} : Type := {
  createPrivateKey_der : list Z -> option KeyObject;
  createPrivateKey_pem : jsstr -> option jsstr -> option KeyObject;
  createPublicKey_der : list Z -> option KeyObject;
  asymmetricKeyType : KeyObject -> jsstr;
  modulusLength : KeyObject -> option Z;
  export_jwk : KeyObject -> option Jwk;
  export_pkcs8_pem : KeyObject -> jsstr;
  export_pkcs8_der : KeyObject -> list Z;
  export_spki_pem : KeyObject -> jsstr;
  sign_null : list Z -> KeyObject -> option (list Z);
  verify_null : list Z -> KeyObject -> list Z -> option bool;
  signPss : Z -> list Z -> KeyObject -> option (list Z);
  verifyPss : Z -> list Z -> KeyObject -> list Z -> option bool;
  hmac_sha256 : list Z -> list Z -> list Z;
  generate_ed25519 : list Z -> KeyObject * KeyObject;
  generate_rsa : Z -> list Z -> KeyObject * KeyObject
}.

(** A call into the runtime: what it throws is no error of the library. *)
Definition native {A} (o : option A) : res A := match o with Some a => Ok a | None => Throw PlainError end.

Definition is_licensing (e : exn) : bool := match e with LicensingError _ _ => true | _ => false end.

(** [catch (e) { if (e instanceof LicensingError) throw e; throw keyDecryptionFailed }] *)
Definition decryption_guard {A} (r : res A) : res A :=
  match r with
  | Ok a => Ok a
  | Throw e => if is_licensing e then Throw e else Throw errors.keyDecryptionFailed
  end.

Section Backends.
Context {NC : NodeCrypto} {KR : KeyRuntime}.

(** The handles, by the property that brands them. *)
Inductive PrivHandle : Type := Ed25519Private (k : KeyObject) | RSAPrivate (k : KeyObject) | HMACPrivate (secret : list Z).
Inductive PubHandle : Type := Ed25519Public (k : KeyObject) | RSAPublic (k : KeyObject) | HMACPublic (secret : list Z).

#[local] Instance node_handles : KeyHandles := {| PrivateKeyHandle := PrivHandle; PublicKeyHandle := PubHandle |}.

(** ** HMAC *)

Definition HMAC_MIN_SECRET_LEN : nat := 32.
Definition HMAC_DEFAULT_SECRET_LEN : nat := 32.

Definition assertSecretStrength (secret : list Z) : res unit :=
  if (List.length secret <? HMAC_MIN_SECRET_LEN)%nat then Throw insufficientKeyStrength else Ok tt.

Definition hmac_importPrivate (material : KeyMaterial) (passphrase : option jsstr) : res PrivHandle :=
  match material with
  | PemMaterial _ => Throw errors.tokenMalformed
  | RawMaterial raw =>
      let secret := given_or (privateRaw raw) (publicRaw raw) in
      let? _ := assertSecretStrength secret in
      Ok (HMACPrivate secret)
  end.

Definition hmac_importPublic (material : KeyMaterial) : res PubHandle :=
  match material with
  | PemMaterial _ => Throw errors.tokenMalformed
  | RawMaterial raw => let? _ := assertSecretStrength (publicRaw raw) in Ok (HMACPublic (publicRaw raw))
  end.

(** The secret of a handle of another backend is [undefined], which
    [createHmac] refuses. *)
Definition hmac_sign (key : PrivHandle) (data : list Z) : res (list Z) :=
  match key with HMACPrivate secret => Ok (hmac_sha256 secret data) | _ => Throw PlainError end.

Definition hmac_verify (key : PubHandle) (data signature : list Z) : res bool :=
  match key with
  | HMACPublic secret =>
      let expected := hmac_sha256 secret data in
      if negb (List.length signature =? List.length expected)%nat then Ok false
      else Ok (bool_decide (signature = expected))
  | _ => Throw PlainError
  end.

Definition hmac_generate (passphrase : jsstr) (entropy : list Z) : res (PemKeyMaterial * RawKeyMaterial) :=
  let secret := take HMAC_DEFAULT_SECRET_LEN entropy in
  Ok (mkPem None [], mkRaw (Some secret) secret).

Definition hmacBackend : SignatureBackend :=
  mkBackend hs256 hmac_importPrivate hmac_sign hmac_importPublic hmac_verify hmac_generate.

(** ** Ed25519 *)

Definition ED25519_RAW_KEY_LEN : nat := 32.
Definition ED25519_SIG_LEN : nat := 64.

Definition PKCS8_ED25519_PREFIX : list Z :=
  [0x30; 0x2e; 0x02; 0x01; 0x00; 0x30; 0x05; 0x06; 0x03; 0x2b; 0x65; 0x70; 0x04; 0x22; 0x04; 0x20].
Definition SPKI_ED25519_PREFIX : list Z :=
  [0x30; 0x2a; 0x30; 0x05; 0x06; 0x03; 0x2b; 0x65; 0x70; 0x03; 0x21; 0x00].

Definition seedToPkcs8Der (seed : list Z) : res (list Z) :=
  if negb (List.length seed =? ED25519_RAW_KEY_LEN)%nat then Throw insufficientKeyStrength
  else Ok (PKCS8_ED25519_PREFIX ++ seed).

Definition publicToSpkiDer (pub : list Z) : res (list Z) :=
  if negb (List.length pub =? ED25519_RAW_KEY_LEN)%nat then Throw insufficientKeyStrength
  else Ok (SPKI_ED25519_PREFIX ++ pub).

(** The 32 bytes of a member of an Ed25519 key in JWK form. *)
Definition jwk_bytes (member : Jwk -> option jsstr) (k : KeyObject) : res (list Z) :=
  let? jwk := native (export_jwk k) in
  match member jwk with
  | Some text =>
      if bool_decide (jwk_crv jwk <> Some (js "Ed25519")) then Throw errors.tokenMalformed
      else
        let bytes := buffer_from_base64 text in
        if negb (List.length bytes =? ED25519_RAW_KEY_LEN)%nat then Throw insufficientKeyStrength else Ok bytes
  | None => Throw errors.tokenMalformed
  end.
Definition privateKeyObjectToRawSeed : KeyObject -> res (list Z) := jwk_bytes jwk_d.
Definition publicKeyObjectToRawBytes : KeyObject -> res (list Z) := jwk_bytes jwk_x.

(** [createPrivateKey({ key: privatePem, passphrase })]; an absent or empty
    text is falsy. *)
Definition private_from_pem (pem : PemKeyMaterial) (passphrase : option jsstr) : res KeyObject :=
  match privatePem pem with
  | Some ((_ :: _) as text) => native (createPrivateKey_pem text passphrase)
  | _ => Throw errors.tokenMalformed
  end.

Definition ed25519_importPrivate (material : KeyMaterial) (passphrase : option jsstr) : res PrivHandle :=
  decryption_guard
    match material with
    | RawMaterial raw =>
        match privateRaw raw with
        | None => Throw errors.tokenMalformed
        | Some seed =>
            let? der := seedToPkcs8Der seed in
            let? k := native (createPrivateKey_der der) in
            Ok (Ed25519Private k)
        end
    | PemMaterial pem => let? k := private_from_pem pem passphrase in Ok (Ed25519Private k)
    end.

Definition ed25519_importPublic (material : KeyMaterial) : res PubHandle :=
  match material with
  | RawMaterial raw =>
      let? der := publicToSpkiDer (publicRaw raw) in
      let? k := native (createPublicKey_der der) in
      Ok (Ed25519Public k)
  | PemMaterial pem => let? k := createPublicKey (publicPem pem) in Ok (Ed25519Public k)
  end.

Definition ed25519_sign (key : PrivHandle) (data : list Z) : res (list Z) :=
  match key with
  | Ed25519Private k =>
      let? sig := native (sign_null data k) in
      if negb (List.length sig =? ED25519_SIG_LEN)%nat then Throw errors.tokenSignatureInvalid else Ok sig
  | _ => Throw PlainError
  end.

Definition ed25519_verify (key : PubHandle) (data signature : list Z) : res bool :=
  if negb (List.length signature =? ED25519_SIG_LEN)%nat then Ok false
  else match key with
       | Ed25519Public k => native (verify_null data k signature)
       | _ => Throw PlainError
       end.

Definition ed25519_generate (passphrase : jsstr) (entropy : list Z) : res (PemKeyMaterial * RawKeyMaterial) :=
  let '(privateKey, publicKey) := generate_ed25519 entropy in
  let? seed := privateKeyObjectToRawSeed privateKey in
  let? point := publicKeyObjectToRawBytes publicKey in
  Ok (mkPem (Some (export_pkcs8_pem privateKey)) (export_spki_pem publicKey), mkRaw (Some seed) point).

Definition ed25519Backend : SignatureBackend :=
  mkBackend ed25519 ed25519_importPrivate ed25519_sign ed25519_importPublic ed25519_verify ed25519_generate.

(** ** RSA-PSS *)

Definition RSA_MIN_BITS : Z := 2048.
Definition RSA_DEFAULT_BITS : Z := 3072.
Definition RSA_PSS_SALT_LEN : Z := 32.

Definition assertMinimumStrength (k : KeyObject) : res unit :=
  match modulusLength k with
  | None => Throw insufficientKeyStrength
  | Some bits => if bits <? RSA_MIN_BITS then Throw insufficientKeyStrength else Ok tt
  end.

Definition rsa_key (k : KeyObject) : res KeyObject :=
  if bool_decide (asymmetricKeyType k <> js "rsa" /\ asymmetricKeyType k <> js "rsa-pss")
  then Throw insufficientKeyStrength
  else let? _ := assertMinimumStrength k in Ok k.

Definition rsa_importPrivate (material : KeyMaterial) (passphrase : option jsstr) : res PrivHandle :=
  decryption_guard
    (let? k := match material with
               | RawMaterial raw =>
                   match privateRaw raw with
                   | None => Throw errors.tokenMalformed
                   | Some der => native (createPrivateKey_der der)
                   end
               | PemMaterial pem => private_from_pem pem passphrase
               end in
     let? k := rsa_key k in
     Ok (RSAPrivate k)).

Definition rsa_importPublic (material : KeyMaterial) : res PubHandle :=
  let? k := match material with
            | RawMaterial raw => native (createPublicKey_der (publicRaw raw))
            | PemMaterial pem => createPublicKey (publicPem pem)
            end in
  let? k := rsa_key k in
  Ok (RSAPublic k).

Definition rsa_sign (key : PrivHandle) (data : list Z) : res (list Z) :=
  match key with RSAPrivate k => native (signPss RSA_PSS_SALT_LEN data k) | _ => Throw PlainError end.

Definition rsa_verify (key : PubHandle) (data signature : list Z) : res bool :=
  match key with RSAPublic k => native (verifyPss RSA_PSS_SALT_LEN data k signature) | _ => Throw PlainError end.

Definition rsa_generate (passphrase : jsstr) (entropy : list Z) : res (PemKeyMaterial * RawKeyMaterial) :=
  let '(privateKey, publicKey) := generate_rsa RSA_DEFAULT_BITS entropy in
  Ok (mkPem (Some (export_pkcs8_pem privateKey)) (export_spki_pem publicKey),
      mkRaw (Some (export_pkcs8_der privateKey)) (export_spki publicKey)).

Definition rsaPssBackend : SignatureBackend :=
  mkBackend rs256_pss rsa_importPrivate rsa_sign rsa_importPublic rsa_verify rsa_generate.

(** The backends the command line hands to the services. *)
Definition DEFAULT_BACKENDS : list (KeyAlg * SignatureBackend) :=
  [(ed25519, ed25519Backend); (rs256_pss, rsaPssBackend); (hs256, hmacBackend)].

(** The default of the high-level issuer. *)
Definition defaultBackends : list (KeyAlg * SignatureBackend) := [(ed25519, ed25519Backend)].
End Backends.
