(* ===== verification/BackendsProps.v ===== *)
(** * BackendsProps: the shipped backends keep the interface

    What the key hierarchy and the token service ask of a backend, proved of
    the backends that ship, from what is documented of [node:crypto]. *)

From S2P Require Import Prelude Errors JsNum Text Json Types Crypto Der EncryptedPkcs8 EncryptedPkcs8Props KeyHierarchy KeyHierarchyProps Backends.

Definition PUBLIC : jsstr := js "PUBLIC KEY".

(** An RSA key pair as [generateKeyPairSync] gives it. *)
Record rsa_pair {NC : NodeCrypto} {KR : KeyRuntime} (bits : Z) (sk pk : KeyObject) : Prop := {
  rp_type : asymmetricKeyType sk = js "rsa" /\ asymmetricKeyType pk = js "rsa";
  rp_bits : modulusLength sk = Some bits /\ modulusLength pk = Some bits;
  rp_private : createPrivateKey_der (export_pkcs8_der sk) = Some sk
    /\ export_pkcs8_pem sk = toPem (export_pkcs8_der sk) PRIVATE
    /\ Forall is_byte (export_pkcs8_der sk) /\ Z.of_nat (List.length (export_pkcs8_der sk)) < 2 ^ 29;
  rp_public : createPublicKey_der (export_spki pk) = Some pk
    /\ export_spki_pem pk = toPem (export_spki pk) PUBLIC /\ Forall is_byte (export_spki pk);
  rp_signs : forall salt d s, signPss salt d sk = Some s ->
    verifyPss salt d pk s = Some true /\ Forall is_byte s /\ s <> []
}.

(** What is documented of the runtime: PKCS#8 and SPKI as RFC 8410 has them,
    PEM texts that carry the DER, JWK members in base64url, and signatures
    that verify under the partner of the key that made them. *)
Class KeyRuntimeLaws {NC : NodeCrypto} {KR : KeyRuntime} : Type := {
  ed_private : list Z -> KeyObject;
  ed_public : list Z -> KeyObject;
  ed_point : list Z -> list Z;
  load_seed : forall s, List.length s = 32%nat -> createPrivateKey_der (PKCS8_ED25519_PREFIX ++ s) = Some (ed_private s);
  load_point : forall s, createPublicKey_der (SPKI_ED25519_PREFIX ++ ed_point s) = Some (ed_public (ed_point s));
  load_private_pem : forall der, Forall is_byte der -> createPrivateKey_pem (toPem der PRIVATE) None = createPrivateKey_der der;
  load_public_pem : forall der, Forall is_byte der -> createPublicKey (toPem der PUBLIC) = native (createPublicKey_der der);
  ed_generated : forall e, exists s, Forall is_byte s /\ List.length s = 32%nat
    /\ generate_ed25519 e = (ed_private s, ed_public (ed_point s));
  ed_point_bytes : forall s, Forall is_byte (ed_point s) /\ List.length (ed_point s) = 32%nat;
  ed_jwk_private : forall s, export_jwk (ed_private s)
    = Some (mkJwk (Some (js "Ed25519")) (Some (base64url.encode s)) (Some (base64url.encode (ed_point s))));
  ed_jwk_public : forall p, export_jwk (ed_public p) = Some (mkJwk (Some (js "Ed25519")) None (Some (base64url.encode p)));
  jwk_x_agrees : forall k j, export_jwk k = Some j -> export_jwk_x k = jwk_x j;
  ed_pem_private : forall s, export_pkcs8_pem (ed_private s) = toPem (PKCS8_ED25519_PREFIX ++ s) PRIVATE;
  ed_pem_public : forall p, export_spki_pem (ed_public p) = toPem (SPKI_ED25519_PREFIX ++ p) PUBLIC;
  ed_signs : forall s d, exists sig, sign_null d (ed_private s) = Some sig /\ List.length sig = 64%nat
    /\ Forall is_byte sig /\ verify_null d (ed_public (ed_point s)) sig = Some true;
  rsa_generated : forall e, rsa_pair RSA_DEFAULT_BITS (generate_rsa RSA_DEFAULT_BITS e).1 (generate_rsa RSA_DEFAULT_BITS e).2
}.

(** ** Shared facts *)

Lemma toPem_text der armor : exists c t, toPem der armor = c :: t.
Proof. unfold toPem, pem_begin. eexists _, _. reflexivity. Qed.

Section Laws.
Context {NC : NodeCrypto} {KR : KeyRuntime} {KL : KeyRuntimeLaws}.
#[local] Existing Instance node_handles.

Lemma private_from_toPem der publicText :
  Forall is_byte der -> private_from_pem (mkPem (Some (toPem der PRIVATE)) publicText) None = native (createPrivateKey_der der).
Proof.
  intros Hb. unfold private_from_pem. cbn [privatePem]. rewrite <- load_private_pem by done.
  by destruct (toPem_text der PRIVATE) as (c & t & ->).
Qed.

Lemma derived_from_toPem der raw :
  Forall is_byte der -> pemToDerIfPresent (Some (toPem der PRIVATE)) raw = Ok (Some der).
Proof.
  intros Hb. unfold pemToDerIfPresent. pose proof (pem_roundtrip der PRIVATE eq_refl Hb) as Hf.
  unfold pkcs8PemToDer. destruct (toPem_text der PRIVATE) as (c & t & E). rewrite E in *. by rewrite Hf.
Qed.

(** ** Ed25519 *)

Lemma prefix_bytes : Forall is_byte PKCS8_ED25519_PREFIX /\ Forall is_byte SPKI_ED25519_PREFIX.
Proof. split; decided. Qed.

(** The prefixes are the DER of the header of RFC 8410, as the encoder of the
    library writes it. *)
Lemma seed_der s :
  List.length s = 32%nat ->
  seedToPkcs8Der s = (let? version := der.der_integer 0 in let? algorithm := der.oid (js "1.3.101.112") in
                      Ok (der.der_sequence [version; der.der_sequence [algorithm]; der.der_octets (der.der_octets s)])).
Proof.
  intros Hs. unfold seedToPkcs8Der, der.der_octets, der.der_sequence, der.tlv, ED25519_RAW_KEY_LEN. rewrite Hs.
  do 33 (destruct s as [|? s]; try done).
Qed.

Lemma ed25519_pair s :
  key_pair ed25519Backend (Ed25519Private (ed_private s)) (Ed25519Public (ed_public (ed_point s))).
Proof.
  intros d sig. cbn. destruct (ed_signs s d) as (sig' & Hs & Hl & Hb & Hv). rewrite Hs. cbn [native rbind].
  unfold ED25519_SIG_LEN. rewrite Hl. cbn [Nat.eqb negb]. intros <-%Ok_inj. split; [|done].
  unfold ed25519_verify, ED25519_SIG_LEN. rewrite Hl. cbn [Nat.eqb negb]. by rewrite Hv.
Qed.

Lemma jwk_bytes_of member k j text bs :
  export_jwk k = Some j -> jwk_crv j = Some (js "Ed25519") -> member j = Some text -> text = base64url.encode bs ->
  Forall is_byte bs -> List.length bs = 32%nat -> jwk_bytes member k = Ok bs.
Proof.
  intros Hj Hc Hm -> Hb Hl. unfold jwk_bytes. rewrite Hj. cbn [native rbind]. rewrite Hm, Hc.
  rewrite bool_decide_false by tauto. rewrite base64url_facts.buffer_from_encode by done.
  unfold ED25519_RAW_KEY_LEN. by rewrite Hl.
Qed.

Lemma ed25519_generates pass entropy pem raw :
  ed25519_generate pass entropy = Ok (pem, raw) -> generates_pairs ed25519Backend pem raw.
Proof.
  unfold ed25519_generate. destruct (ed_generated entropy) as (s & Hb & Hl & ->).
  destruct (ed_point_bytes s) as [Hpb Hpl]. destruct prefix_bytes as [Hx1 Hx2].
  unfold privateKeyObjectToRawSeed, publicKeyObjectToRawBytes.
  erewrite jwk_bytes_of by (apply ed_jwk_private || done). cbn [rbind].
  erewrite jwk_bytes_of by (apply ed_jwk_public || done). cbn [rbind]. intros [= <- <-].
  rewrite ed_pem_private, ed_pem_public.
  assert (Hsd : Forall is_byte (PKCS8_ED25519_PREFIX ++ s)) by (by apply Forall_app).
  assert (Hpd : Forall is_byte (SPKI_ED25519_PREFIX ++ ed_point s)) by (by apply Forall_app).
  split.
  - intros record Hpub Halg. cbn [publicPem publicRaw] in *. unfold extractPublicRawFromRecord.
    rewrite Hpub, load_public_pem, load_point, Halg by done. cbn [native rbind b_alg ed25519Backend].
    rewrite (jwk_x_agrees _ _ (ed_jwk_public _)). cbn [jwk_x]. by rewrite base64url_facts.buffer_from_encode.
  - exists (PKCS8_ED25519_PREFIX ++ s), (Ed25519Private (ed_private s)), (Ed25519Public (ed_public (ed_point s))).
    cbn [privatePem privateRaw publicPem b_importPrivate b_importPublic b_sign ed25519Backend].
    split; [by apply derived_from_toPem|]. split; [done|]. split; [rewrite length_app, Hl; cbn; lia|].
    split; [|split; [|split; [apply ed25519_pair|]]].
    + unfold ed25519_importPrivate, derToPkcs8Pem. rewrite private_from_toPem, load_seed by done. done.
    + unfold ed25519_importPublic. cbn [publicPem]. by rewrite load_public_pem, load_point.
    + intros d sig. cbn. destruct (ed_signs s d) as (sig' & Hs & Hsl & _). rewrite Hs. cbn [native rbind].
      unfold ED25519_SIG_LEN. rewrite Hsl. cbn [Nat.eqb negb]. intros <-%Ok_inj. by destruct sig'.
Qed.

(** ** RSA-PSS *)

Lemma rsa_key_pair bits sk pk : rsa_pair bits sk pk -> key_pair rsaPssBackend (RSAPrivate sk) (RSAPublic pk).
Proof.
  intros [_ _ _ _ Hs] d sig. cbn. destruct (signPss _ d sk) as [s|] eqn:E; [|done]. cbn [native]. intros <-%Ok_inj.
  destruct (Hs _ _ _ E) as (Hv & Hb & _). split; [|done]. by rewrite Hv.
Qed.

Lemma rsa_key_ok k bits : asymmetricKeyType k = js "rsa" -> modulusLength k = Some bits -> 2048 <= bits -> rsa_key k = Ok k.
Proof.
  intros Ht Hm Hb. unfold rsa_key, assertMinimumStrength, RSA_MIN_BITS. rewrite Hm, Ht. rewrite bool_decide_false by tauto.
  by rewrite (proj2 (Z.ltb_ge _ _)) by lia.
Qed.

Lemma rsa_generates pass entropy pem raw :
  rsa_generate pass entropy = Ok (pem, raw) -> generates_pairs rsaPssBackend pem raw.
Proof.
  unfold rsa_generate. pose proof (rsa_generated entropy) as Hp.
  destruct (generate_rsa RSA_DEFAULT_BITS entropy) as [sk pk]. cbn [fst snd] in Hp. intros [= <- <-].
  pose proof (rsa_key_pair _ _ _ Hp) as Hkp.
  destruct Hp as [[Ht1 Ht2] [Hm1 Hm2] (Hl1 & Hp1 & Hb1 & Hz1) (Hl2 & Hp2 & Hb2) Hs]. rewrite Hp1, Hp2. split.
  - intros record Hpub Halg. cbn [publicPem publicRaw] in *. unfold extractPublicRawFromRecord.
    by rewrite Hpub, load_public_pem, Hl2, Halg by done.
  - exists (export_pkcs8_der sk), (RSAPrivate sk), (RSAPublic pk).
    cbn [privatePem privateRaw publicPem b_importPrivate b_importPublic b_sign rsaPssBackend].
    split; [by apply derived_from_toPem|]. split; [done|]. split; [done|].
    split; [|split; [|split; [done|]]].
    + unfold rsa_importPrivate, derToPkcs8Pem. rewrite private_from_toPem, Hl1 by done. cbn [native rbind].
      by rewrite (rsa_key_ok sk _ Ht1 Hm1) by done.
    + unfold rsa_importPublic. cbn [publicPem]. rewrite load_public_pem, Hl2 by done. cbn [native rbind].
      by rewrite (rsa_key_ok pk _ Ht2 Hm2) by done.
    + intros d sig. cbn. destruct (signPss _ d sk) as [s|] eqn:E; [|done]. intros <-%Ok_inj. by destruct (Hs _ _ _ E) as (_ & _ & ?).
Qed.
End Laws.

(** ** The interface *)

Section Interface.
Context {NC : NodeCrypto} {KR : KeyRuntime}.
#[local] Existing Instance node_handles.

(** C13: the shipped backends keep what the key hierarchy asks of a backend: a
    key pair that the Ed25519 or the RSA-PSS backend generates leaves through
    its PEM texts, comes back through the imports as a key pair (what the
    private handle signs, the public handle verifies), and its raw public half
    is the one read back from the public PEM; so for the backends of the
    command line and for those of the high-level issuer. *)
Theorem shipped_backends_ok {KL : KeyRuntimeLaws} :
  backends_ok DEFAULT_BACKENDS /\ backends_ok defaultBackends.
Proof.
  assert (He : forall pass e pem raw, b_generate ed25519Backend pass e = Ok (pem, raw) -> generates_pairs ed25519Backend pem raw)
    by (intros pass e; apply ed25519_generates).
  split; intros alg b; cbn; repeat (case_decide; [intros [= <-] Hs; subst; split; [done|]|]); try done.
  intros pass e pem raw. apply rsa_generates.
Qed.

(** The strength a profile asks of an imported key, and what a signature is
    held against. *)
Definition profile (h : PubHandle) (data sig : list Z) : Prop :=
  match h with
  | HMACPublic secret => (32 <= List.length secret)%nat /\ sig = hmac_sha256 secret data
  | RSAPublic k => (asymmetricKeyType k = js "rsa" \/ asymmetricKeyType k = js "rsa-pss")
      /\ (exists bits, modulusLength k = Some bits /\ 2048 <= bits) /\ verifyPss 32 data k sig = Some true
  | Ed25519Public k => List.length sig = 64%nat /\ verify_null data k sig = Some true
  end.

Lemma native_ok {A} (o : option A) a : native o = Ok a -> o = Some a.
Proof. destruct o; [|done]. by intros ->%Ok_inj. Qed.

Lemma rsa_key_inv k k' :
  rsa_key k = Ok k' -> k' = k /\ (asymmetricKeyType k = js "rsa" \/ asymmetricKeyType k = js "rsa-pss")
  /\ exists bits, modulusLength k = Some bits /\ 2048 <= bits.
Proof.
  unfold rsa_key, assertMinimumStrength, RSA_MIN_BITS. case_bool_decide as Ht; [done|].
  destruct (modulusLength k) as [bits|]; [|done]. destruct (bits <? 2048) eqn:E; [done|]. cbn [rbind].
  intros <-%Ok_inj. bool_prop. split_and!; [done| |by exists bits].
  destruct (decide (asymmetricKeyType k = js "rsa")); [by left|right].
  destruct (decide (asymmetricKeyType k = js "rsa-pss")); tauto.
Qed.

Lemma secret_strong secret u : assertSecretStrength secret = Ok u -> (32 <= List.length secret)%nat.
Proof.
  unfold assertSecretStrength, HMAC_MIN_SECRET_LEN. destruct (_ <? 32)%nat eqn:E; [done|]. intros _. by apply Nat.ltb_ge.
Qed.

(** A key of an algorithm, as strong as its profile asks. *)
Definition imported (alg : KeyAlg) (h : PubHandle) : Prop :=
  match alg, h with
  | hs256, HMACPublic secret => (32 <= List.length secret)%nat
  | rs256_pss, RSAPublic k => (asymmetricKeyType k = js "rsa" \/ asymmetricKeyType k = js "rsa-pss")
      /\ exists bits, modulusLength k = Some bits /\ 2048 <= bits
  | ed25519, Ed25519Public _ => True
  | _, _ => False
  end.

Lemma import_imported alg b material h :
  (alg, b) ∈ DEFAULT_BACKENDS -> b_importPublic b material = Ok h -> imported alg h.
Proof.
  unfold DEFAULT_BACKENDS. rewrite !elem_of_cons, elem_of_nil. intros [[= -> ->]|[[= -> ->]|[[= -> ->]|[]]]]; cbn.
  - unfold ed25519_importPublic. destruct material as [pem|raw].
    + by intros (k & _ & <-%Ok_inj)%rbind_ok_inv.
    + intros (der & _ & H)%rbind_ok_inv. by apply rbind_ok_inv in H as (k & _ & <-%Ok_inj).
  - unfold rsa_importPublic. intros (k & _ & H)%rbind_ok_inv.
    apply rbind_ok_inv in H as (k' & (-> & Ht & Hm)%rsa_key_inv & <-%Ok_inj). by split.
  - unfold hmac_importPublic. destruct material as [pem|raw]; [done|].
    intros (u & Hs%secret_strong & <-%Ok_inj)%rbind_ok_inv. done.
Qed.

Lemma verify_profile alg alg' b h data sig :
  (alg', b) ∈ DEFAULT_BACKENDS -> imported alg h -> b_verify b h data sig = Ok true -> alg = alg' /\ profile h data sig.
Proof.
  unfold DEFAULT_BACKENDS. rewrite !elem_of_cons, elem_of_nil.
  intros [[= -> ->]|[[= -> ->]|[[= -> ->]|[]]]] Hi Hv; cbn in Hv.
  - unfold ed25519_verify, ED25519_SIG_LEN in Hv. destruct (List.length sig =? 64)%nat eqn:E; [|done].
    destruct h as [k|k|secret]; cbn in Hv; [|done|done]. apply native_ok in Hv. apply Nat.eqb_eq in E. by destruct alg.
  - destruct h as [k|k|secret]; cbn in Hv; [done| |done]. apply native_ok in Hv.
    destruct alg; try done. split; [done|]. destruct Hi. by split_and!.
  - destruct h as [k|k|secret]; cbn in Hv; [done|done|]. case_match; [done|]. apply Ok_inj, bool_decide_eq_true in Hv.
    destruct alg; try done.
Qed.

(** C16: keys keep to their backend. A signature verifies under a public key
    that one of the shipped backends imported only in that same backend, and
    then within its profile: an HMAC secret has at least 32 bytes and the
    signature is its MAC of the data, an RSA key has at least 2048 bits and
    the salt is of 32 bytes, an Ed25519 signature has 64 bytes. *)
Theorem keys_keep_to_their_backend alg b alg' b' material h data sig
  (Hb : (alg, b) ∈ DEFAULT_BACKENDS) (Hb' : (alg', b') ∈ DEFAULT_BACKENDS)
  (Hi : b_importPublic b material = Ok h) (Hv : b_verify b' h data sig = Ok true) :
  alg = alg' /\ profile h data sig.
Proof. apply (verify_profile alg alg' b'); try done. by apply (import_imported alg b material). Qed.

(** An import of a private key throws errors of the library only. *)
Lemma private_imports_typed alg b material passphrase e :
  (alg, b) ∈ DEFAULT_BACKENDS -> b_importPrivate b material passphrase = Throw e -> is_licensing e = true.
Proof.
  assert (Hg : forall A (r : res A), decryption_guard r = Throw e -> is_licensing e = true).
  { intros A [a|e']; cbn; [done|]. destruct (is_licensing e') eqn:E; by intros [= <-]. }
  unfold DEFAULT_BACKENDS. rewrite !elem_of_cons, elem_of_nil. intros [[= -> ->]|[[= -> ->]|[[= -> ->]|[]]]]; cbn; [apply Hg|apply Hg|].
  unfold hmac_importPrivate, assertSecretStrength. destruct material; [by intros [= <-]|]. case_match; [by intros [= <-]|done].
Qed.

(** What one secret signs, it verifies. *)
Lemma hmac_pair secret : (forall d, Forall is_byte (hmac_sha256 secret d)) -> key_pair hmacBackend (HMACPrivate secret) (HMACPublic secret).
Proof.
  intros Hb d s. cbn. intros <-%Ok_inj. rewrite Nat.eqb_refl. cbn [negb]. by rewrite bool_decide_true.
Qed.
End Interface.

(** ** A runtime of checksums

    It keeps every documented property, and forges trivially. *)
Module toy_runtime.
Inductive key : Type := EdSk (seed : list Z) | EdPk (point : list Z) | RsaSk (e : list Z) | RsaPk (e : list Z).

Definition point (s : list Z) : list Z := take 32 (map (fun b => b mod 256) s ++ repeat 0 32).
Definition mac (l d : list Z) : list Z := toy.toy_sign (toy.sum l) d.
Definition load_private (der : list Z) : option key :=
  if bool_decide (take 16 der = PKCS8_ED25519_PREFIX /\ List.length der = 48%nat) then Some (EdSk (drop 16 der))
  else match der with 1 :: e => Some (RsaSk e) | _ => None end.
Definition load_public (der : list Z) : option key :=
  if bool_decide (take 12 der = SPKI_ED25519_PREFIX) then Some (EdPk (drop 12 der))
  else match der with 1 :: e => Some (RsaPk e) | _ => None end.
Definition private_der (k : key) : list Z :=
  match k with EdSk s => PKCS8_ED25519_PREFIX ++ s | RsaSk e => 1 :: e | _ => [] end.
Definition public_der (k : key) : list Z :=
  match k with EdPk p => SPKI_ED25519_PREFIX ++ p | RsaPk e => 1 :: e | _ => [] end.
Definition jwk_of (k : key) : option Jwk :=
  match k with
  | EdSk s => Some (mkJwk (Some (js "Ed25519")) (Some (base64url.encode s)) (Some (base64url.encode (point s))))
  | EdPk p => Some (mkJwk (Some (js "Ed25519")) None (Some (base64url.encode p)))
  | _ => None
  end.

#[global] Instance node : NodeCrypto := {|
  KeyObject := key;
  createPublicKey := fun text => let? der := fromPem text PUBLIC in native (load_public der);
  export_jwk_x := fun k => match jwk_of k with Some j => jwk_x j | None => None end;
  export_spki := public_der
|}.

Definition seed_of (e : list Z) : list Z := take 32 (map (fun b => b mod 256) e ++ repeat 0 32).

#[global] Instance runtime : KeyRuntime := {|
  createPrivateKey_der := load_private;
  createPrivateKey_pem := fun text _ => match fromPem text PRIVATE with Ok der => load_private der | Throw _ => None end;
  createPublicKey_der := load_public;
  asymmetricKeyType := fun k => match k with RsaSk _ | RsaPk _ => js "rsa" | _ => js "ed25519" end;
  modulusLength := fun k => match k with RsaSk _ | RsaPk _ => Some 3072 | _ => None end;
  export_jwk := jwk_of;
  export_pkcs8_pem := fun k => toPem (private_der k) PRIVATE;
  export_pkcs8_der := private_der;
  export_spki_pem := fun k => toPem (public_der k) PUBLIC;
  sign_null := fun d k => match k with EdSk s => Some (mac (point s) d) | _ => None end;
  verify_null := fun d k s => match k with EdPk p => Some (bool_decide (s = mac p d)) | _ => None end;
  signPss := fun _ d k => match k with RsaSk e => Some (mac e d) | _ => None end;
  verifyPss := fun _ d k s => match k with RsaPk e => Some (bool_decide (s = mac e d)) | _ => None end;
  hmac_sha256 := fun k d => take 32 (mac k d);
  generate_ed25519 := fun e => (EdSk (seed_of e), EdPk (point (seed_of e)));
  generate_rsa := fun _ e => (RsaSk (seed_of e), RsaPk (seed_of e))
|}.

Lemma point_ok s : Forall is_byte (point s) /\ List.length (point s) = 32%nat.
Proof.
  unfold point. split.
  - apply Forall_take, Forall_app. split; [|decided].
    induction s as [|b s IH]; [by apply Forall_nil|]. apply Forall_cons. split; [unfold is_byte; zdiv|done].
  - rewrite length_take, length_app, repeat_length. lia.
Qed.

#[global, program] Instance laws : KeyRuntimeLaws := {| ed_private := EdSk; ed_public := EdPk; ed_point := point |}.
Next Obligation.
  intros s Hs. cbn. unfold load_private. rewrite bool_decide_true; [done|]. split; [done|]. cbn. by rewrite Hs.
Qed.
Next Obligation. done. Qed.
Next Obligation. intros der Hb. cbn. by rewrite pem_roundtrip. Qed.
Next Obligation. intros der Hb. cbn. by rewrite pem_roundtrip. Qed.
Next Obligation. intros e. exists (seed_of e). pose proof (point_ok e) as [??]. by split_and!. Qed.
Next Obligation. apply point_ok. Qed.
Next Obligation. done. Qed.
Next Obligation. done. Qed.
Next Obligation. intros k j Hj. cbn in *. by rewrite Hj. Qed.
Next Obligation. done. Qed.
Next Obligation. done. Qed.
Next Obligation.
  intros s d. exists (mac (point s) d). cbn. split; [done|]. split; [done|].
  split; [apply toy.toy_sign_bytes|]. by rewrite bool_decide_true.
Qed.
Next Obligation.
  intros e. pose proof (point_ok e) as [Hb Hl]. change (point e) with (seed_of e) in *.
  assert (Hd : Forall is_byte (1 :: seed_of e)) by (apply Forall_cons; split; [unfold is_byte; lia|done]).
  split; cbn [fst snd]; try done.
  - split_and!; try done. cbn [export_pkcs8_der runtime private_der List.length generate_rsa fst]. rewrite Hl. lia.
  - intros salt d s [= <-]. cbn. split_and!; [by rewrite bool_decide_true|apply toy.toy_sign_bytes|done].
Qed.
End toy_runtime.

#[local] Existing Instance node_handles.
Lemma shipped_backends_ok_witness : exists laws : KeyRuntimeLaws, backends_ok DEFAULT_BACKENDS.
Proof. exists toy_runtime.laws. exact (proj1 (shipped_backends_ok (KL := toy_runtime.laws))). Defined.

Lemma keys_keep_to_their_backend_witness :
  let secret := repeat 7 32 in let h := HMACPublic secret in let sig := hmac_sha256 secret [1; 2; 3] in
  b_importPublic hmacBackend (RawMaterial (mkRaw None secret)) = Ok h
  /\ b_verify hmacBackend h [1; 2; 3] sig = Ok true /\ profile h [1; 2; 3] sig.
Proof.
  cbv zeta. split; [reflexivity|]. split; [vm_compute; reflexivity|].
  apply (keys_keep_to_their_backend hs256 hmacBackend hs256 hmacBackend (RawMaterial (mkRaw None (repeat 7 32)))).
  - unfold DEFAULT_BACKENDS. right. right. left.
  - unfold DEFAULT_BACKENDS. right. right. left.
  - reflexivity.
  - vm_compute. reflexivity.
Defined.
