(* ===== verification/Stringify.v ===== *)
(** * Stringify: [JSON.stringify] and its way back

    The text of a JSON value, and the theorem that [JSON.parse] reads the
    value back from it. *)

From S2P Require Import Prelude Errors JsNum Text Json Canonical StrictJson JsonLib Cursor LicenseKeyFormat Http.

(** [JSON.stringify] of what calls a [toJSON] method (a [Date], say). *)
Class JsonHost : Type := { other_json : res (option jsstr) }.

Section Stringify.
Context {NT : NumberText} {JH : JsonHost}.

(** [JSON.stringify(v)]; [None] is [undefined]. Members that are [undefined]
    or functions are left out of objects and written [null] in arrays. *)
Fixpoint stringify (v : jsval) : res (option jsstr) :=
  match v with
  | JUndefined | JFun => Ok None
  | JNull => Ok (Some (js "null"))
  | JBool b => Ok (Some (if b then js "true" else js "false"))
  | JNum n => Ok (Some (if isFinite n then num_str n else js "null"))
  | JStr s => Ok (Some (json_quote s))
  | JBig _ => Throw PlainError
  | JArr l =>
      let? parts := (fix elems (l : list jsval) : res (list jsstr) :=
        match l with
        | [] => Ok []
        | x :: l' =>
            let? t := stringify x in
            let? ts := elems l' in
            Ok (given_or t (js "null") :: ts)
        end) l in
      Ok (Some (js "[" ++ join (js ",") parts ++ js "]"))
  | JObj _ props =>
      match get_prop v (js "toJSON") with
      | JFun => other_json
      | _ =>
        let? parts := (fix members (l : list (jsstr * jsval)) : res (list jsstr) :=
          match l with
          | [] => Ok []
          | (k, x) :: l' =>
              let? t := stringify x in
              let? ts := members l' in
              Ok (match t with Some t => (json_quote k ++ js ":" ++ t) :: ts | None => ts end)
          end) props in
        Ok (Some (js "{" ++ join (js ",") parts ++ js "}"))
      end
  | JObjProto => Ok (Some (js "{}"))
  | JOther => other_json
  end.
End Stringify.

(** ** Data

    Null, booleans, ASCII strings, and arrays and objects of them. *)
Fixpoint wire_data (v : jsval) : bool :=
  match v with
  | JNull | JBool _ => true
  | JStr s => forallb is_ascii s
  | JArr l => forallb wire_data l
  | JObj JObjProto props =>
      bool_decide (NoDup props.*1) && forallb (fun kv => forallb is_ascii kv.1 && wire_data kv.2) props
  | _ => false
  end.

(** ** Reading back *)

Section ReadBack.
Context {NT : NumberText} {JH : JsonHost}.

(** A text that holds a value: it starts as one, is ASCII on one line, and
    the parser reads the value from it. *)
Record holds (t : jsstr) (v : jsval) : Prop := {
  hd_head : exists c r, t = c :: r /\ value_head c = true;
  hd_ascii : forallb (fun c => is_ascii c && negb (c =? 10)) t = true;
  hd_reads : forall f rest, (List.length (t ++ rest) < f)%nat -> json_value f (t ++ rest) = Ok (v, rest)
}.

Definition member_text (k t : jsstr) : jsstr := json_quote k ++ js ":" ++ t.

Lemma join_two sep (a b : jsstr) l : join sep (a :: b :: l) = a ++ sep ++ join sep (b :: l).
Proof. reflexivity. Qed.

Lemma write_chars_line s : forallb is_ascii s = true -> forallb (fun c => is_ascii c && negb (c =? 10)) (write_chars s) = true.
Proof.
  induction s as [|c s IH]; [done|]. intros Ha. cbn [forallb] in Ha. apply andb_prop in Ha as [Hc Hs].
  destruct (ascii_not_surrogate c Hc) as [Hh _]. cbn [write_chars]. unfold is_high in Hh. rewrite Hh.
  assert (Hd : forall n, is_ascii (hex_digit n) && negb (hex_digit n =? 10) = true).
  { intros n. unfold hex_digit. generalize (Z.to_nat n). intros k. destruct (Nat.lt_ge_cases k 16).
    - do 16 (destruct k as [|k]; [done|]). lia.
    - rewrite nth_overflow; [done|]. change (List.length HEX) with 16%nat. done. }
  repeat (case_goal; [rewrite ?forallb_app, IH by done; cbn [forallb]; rewrite ?Hd; done|]).
  cbn [forallb]. rewrite IH by done. bool_prop. rewrite Hc, (proj2 (Z.eqb_neq c 10)) by lia. done.
Qed.

Lemma json_quote_line s : forallb is_ascii s = true -> forallb (fun c => is_ascii c && negb (c =? 10)) (json_quote s) = true.
Proof. intros H. unfold json_quote. rewrite quote_chars_ascii, !forallb_app, write_chars_line by done. done. Qed.

Lemma holds_string s : forallb is_ascii s = true -> holds (json_quote s) (JStr s).
Proof.
  intros H. split; [by eexists _, _|by apply json_quote_line|].
  intros [|f] rest Hf; [lia|]. by apply json_value_string.
Qed.

Lemma array_texts ts vs f N out rest :
  ts <> [] -> Forall2 holds ts vs -> (List.length (join (js ",") ts ++ 93%Z :: rest) < f)%nat -> (f <= N)%nat ->
  array_loop (json_value N) f out (join (js ",") ts ++ 93 :: rest) = Ok (JArr (out ++ vs), rest).
Proof.
  intros Hne H. revert f out Hne. induction H as [|t v ts vs Ht Hts IH]; intros f out Hne Hf HN; [done|].
  destruct f as [|f]; [lia|]. cbn [array_loop]. destruct Ht as [_ _ Hr]. destruct Hts as [|t' v' ts vs Ht' Hts].
  - cbn [join] in *. rewrite Hr by lia. cbn [rbind skipWs]. done.
  - rewrite join_two, <- !app_assoc in *. rewrite Hr by lia. cbn [rbind app js skipWs].
    change (js ",") with [44] in *. cbn [app skipWs] in *. change (is_ws 44) with false. cbv iota. change (44 =? 44) with true. cbv iota.
    rewrite IH; [by rewrite <- app_assoc|done| |lia]. rewrite length_app in Hf. cbn [List.length] in Hf. lia.
Qed.

Lemma parse_quote k rest : forallb is_ascii k = true -> parseString (skipWs (json_quote k ++ rest)) = Ok (k, rest).
Proof.
  intros Hk. destruct (ascii_text k Hk) as [Hu _].
  change (json_quote k ++ rest) with (34 :: ((quote_chars k ++ [34]) ++ rest)). rewrite skipWs_head by done.
  apply (parseString_text k (json_quote k) rest Hu (json_quote_ascii k Hk)).
Qed.

Lemma object_texts ms vs f N props rest :
  ms <> [] -> Forall2 (fun m kv => m.1 = kv.1 /\ forallb is_ascii m.1 = true /\ holds m.2 kv.2) ms vs ->
  NoDup vs.*1 -> (forall k, k ∈ vs.*1 -> map_get props k = None) ->
  (List.length (join (js ",") (map (fun m => member_text m.1 m.2) ms) ++ 125%Z :: rest) < f)%nat -> (f <= N)%nat ->
  json_object_loop (json_value N) f props (join (js ",") (map (fun m => member_text m.1 m.2) ms) ++ 125 :: rest)
  = Ok (plain (props ++ vs), rest).
Proof.
  intros Hne H. revert f props Hne. induction H as [|[k t] [k' v] ms vs (Hk & Ha & Ht) Hms IH]; intros f props Hne Hd Hg Hf HN; [done|].
  cbn [fst snd] in *. subst k'. destruct Ht as [Hh _ Hr]. destruct f as [|f]; [lia|].
  assert (Hgk : map_get props k = None) by (apply Hg; csimpl; left).
  apply NoDup_cons in Hd as [Hn Hd].
  destruct Hms as [|m kv ms vs Hm Hms].
  - cbn [map join fst snd] in *. unfold member_text in *. rewrite <- !app_assoc in *.
    erewrite json_member; [|by apply parse_quote|reflexivity|apply Hr; rewrite !length_app in *; cbn [List.length] in *; lia].
    cbn [skipWs]. change (is_ws 125) with false. cbv iota. change (125 =? 44) with false. change (125 =? 125) with true. cbv iota.
    by rewrite map_set_new.
  - rewrite map_cons in *. cbn [map] in *. rewrite join_two in *. cbn [fst snd] in *. unfold member_text at 1. unfold member_text at 1 in Hf.
    rewrite <- !app_assoc in *. set (body := join (js ",") _ ++ 125 :: rest) in *.
    change (js ",") with [44] in *. change (js ":") with [58] in *. cbn [app] in *.
    assert (Hl : (List.length (t ++ 44%Z :: body) < N)%nat /\ (List.length body < f)%nat).
    { rewrite !length_app in *. cbn [List.length] in *. rewrite ?length_app in *. cbn [List.length] in *. lia. }
    erewrite json_member; [|by apply parse_quote|reflexivity|apply Hr; apply Hl].
    cbn [skipWs]. change (is_ws 44) with false. cbv iota. change (44 =? 44) with true. cbv iota.
    rewrite map_set_new by done. unfold body. rewrite IH; [by rewrite <- app_assoc|done|done| |apply Hl|lia].
    intros k' Hk'. apply map_get_None. rewrite fmap_app, not_elem_of_app. split.
    + apply map_get_None, Hg. csimpl. by right.
    + csimpl. rewrite list_elem_of_singleton. by intros ->.
Qed.

Lemma line_join sep ts :
  forallb (fun c => is_ascii c && negb (c =? 10)) sep = true ->
  Forall (fun t => forallb (fun c => is_ascii c && negb (c =? 10)) t = true) ts ->
  forallb (fun c => is_ascii c && negb (c =? 10)) (join sep ts) = true.
Proof.
  intros Hs H. induction H as [|t ts Ht Hts IH]; [done|]. destruct ts as [|t' ts]; [done|].
  rewrite join_two, !forallb_app, Ht, Hs, IH. done.
Qed.

Lemma holds_bool (b : bool) : holds (if b then js "true" else js "false") (JBool b).
Proof. split; [destruct b; repeat eexists|by destruct b|]. intros [|f] rest Hf; [lia|]. by destruct b. Qed.

Lemma join_head sep t ts : exists r, join sep (t :: ts) = t ++ r.
Proof. destruct ts; [exists []; by rewrite app_nil_r|]. rewrite join_two. eauto. Qed.

Lemma holds_array ts vs : Forall2 holds ts vs -> holds (js "[" ++ join (js ",") ts ++ js "]") (JArr vs).
Proof.
  intros H. split.
  - by eexists _, _.
  - rewrite !forallb_app. apply andb_true_intro. split; [done|]. apply andb_true_intro. split; [|done].
    apply line_join; [done|]. clear -H. induction H as [|t v ts vs Ht _ IH]; [by apply Forall_nil|].
    apply Forall_cons. split; [apply Ht|done].
  - intros [|f] rest Hf; [lia|]. change (js "[") with [91] in *. change (js "]") with [93] in *. cbn [app] in *.
    rewrite <- app_assoc in *. cbn [app] in *. cbn [json_value]. rewrite skipWs_head by done. cbv zeta.
    change (91 =? 123) with false. change (91 =? 91) with true. cbv iota. unfold parseArray. cbn [expectChar].
    change (91 =? 91) with true. cbn [rbind]. destruct H as [|t v ts vs Ht Hts]; [done|].
    assert (Hh : exists c r, join (js ",") (t :: ts) ++ 93 :: rest = c :: r /\ value_head c = true).
    { destruct Ht as [(c & r & -> & Hc) _ _]. destruct (join_head (js ",") (c :: r) ts) as [r' ->]. by eexists _, _. }
    destruct Hh as (c & r & E & Hc). unfold value_head in Hc. bool_prop. rewrite E. rewrite skipWs_head by done.
    rewrite bool_decide_false by (intros [= ->]; done). rewrite <- E.
    rewrite (array_texts (t :: ts) (v :: vs)); [done|done|by apply Forall2_cons| |lia]. cbn [List.length] in Hf. lia.
Qed.

Lemma holds_object ms vs :
  Forall2 (fun m kv => m.1 = kv.1 /\ forallb is_ascii m.1 = true /\ holds m.2 kv.2) ms vs -> NoDup vs.*1 ->
  holds (js "{" ++ join (js ",") (map (fun m => member_text m.1 m.2) ms) ++ js "}") (plain vs).
Proof.
  intros H Hd. split.
  - by eexists _, _.
  - rewrite !forallb_app. apply andb_true_intro. split; [done|]. apply andb_true_intro. split; [|done].
    apply line_join; [done|]. clear -H. induction H as [|m kv ms vs (_ & Ha & Ht) _ IH]; [by apply Forall_nil|].
    cbn [map]. apply Forall_cons. split; [|done]. unfold member_text.
    by rewrite !forallb_app, json_quote_line, (hd_ascii _ _ Ht) by done.
  - intros [|f] rest Hf; [lia|]. change (js "{") with [123] in *. change (js "}") with [125] in *. cbn [app] in *.
    rewrite <- app_assoc in *. cbn [app] in *. cbn [json_value]. rewrite skipWs_head by done. cbv zeta.
    change (123 =? 123) with true. cbv iota. destruct H as [|m kv ms vs Hm Hms]; [done|].
    assert (Hh : exists r, join (js ",") (map (fun m => member_text m.1 m.2) (m :: ms)) ++ 125 :: rest = 34 :: r).
    { cbn [map]. destruct (join_head (js ",") (member_text m.1 m.2) (map (fun m => member_text m.1 m.2) ms)) as [r ->].
      by eexists. }
    destruct Hh as (r & E). rewrite E. rewrite skipWs_head by done.
    rewrite bool_decide_false by done. rewrite <- E.
    rewrite (object_texts (m :: ms) (kv :: vs)); [done|done|by apply Forall2_cons|done|done| |lia].
    cbn [List.length] in Hf. lia.
Qed.

Lemma no_toJSON props : forallb (fun kv => forallb is_ascii kv.1 && wire_data kv.2) props = true ->
  match get_prop (plain props) (js "toJSON") with JFun => False | _ => True end.
Proof.
  intros H. unfold get_prop. cbn [proto_of lookup_chain].
  destruct (map_get props (js "toJSON")) as [v|] eqn:E.
  - apply map_get_elem in E. apply forallb_Forall in H. rewrite Forall_forall in H. specialize (H _ E). cbn in H.
    apply andb_prop in H as [_ H]. by destruct v.
  - done.
Qed.

(** What [stringify] writes of data holds the data. *)
Lemma stringify_holds v : wire_data v = true -> exists t, stringify v = Ok (Some t) /\ holds t v.
Proof.
  induction v as [| |b|n|s|z|l IH|proto props _ IH| | |] using jsval_ind'; intros Hw; try done.
  - eexists. split; [done|]. split; [by eexists _, _|done|]. intros [|f] rest Hf; [lia|]. done.
  - eexists. split; [done|]. apply holds_bool.
  - eexists. split; [done|]. by apply holds_string.
  - assert (Hp : exists ts, (fix elems (l : list jsval) : res (list jsstr) :=
        match l with
        | [] => Ok []
        | x :: l' => let? t := stringify x in let? ts := elems l' in Ok (given_or t (js "null") :: ts)
        end) l = Ok ts /\ Forall2 holds ts l).
    { cbn [wire_data] in Hw. induction IH as [|v l Hv _ IHl]; [by exists []|]. cbn [forallb] in Hw.
      apply andb_prop in Hw as [Hw1 Hw2]. destruct (Hv Hw1) as (t & -> & Ht). destruct (IHl Hw2) as (ts & Hts & Hall).
      cbn [rbind]. rewrite Hts. cbn [rbind given_or]. exists (t :: ts). split; [done|]. by apply Forall2_cons. }
    destruct Hp as (ts & Hts & Hall). cbn [stringify]. rewrite Hts. cbn [rbind]. eexists. split; [done|].
    by apply holds_array.
  - destruct proto; try done. cbn [wire_data] in Hw. apply andb_prop in Hw as [Hd%bool_decide_eq_true Hw].
    assert (Hp : exists ms, (fix members (l : list (jsstr * jsval)) : res (list jsstr) :=
        match l with
        | [] => Ok []
        | (k, x) :: l' =>
            let? t := stringify x in
            let? ts := members l' in
            Ok (match t with Some t => (json_quote k ++ js ":" ++ t) :: ts | None => ts end)
        end) props = Ok (map (fun m => member_text m.1 m.2) ms)
        /\ Forall2 (fun m kv => m.1 = kv.1 /\ forallb is_ascii m.1 = true /\ holds m.2 kv.2) ms props).
    { clear Hd. induction IH as [|[k v] l Hv _ IHl]; [by exists []|]. cbn [forallb fst snd] in *.
      apply andb_prop in Hw as [[Hk Hw1]%andb_prop Hw2]. destruct (Hv Hw1) as (t & -> & Ht).
      destruct (IHl Hw2) as (ms & Hms & Hall). cbn [rbind]. rewrite Hms. cbn [rbind].
      exists ((k, t) :: ms). split; [done|]. by apply Forall2_cons. }
    destruct Hp as (ms & Hms & Hall). pose proof (no_toJSON props Hw) as Hj.
    cbn [stringify]. destruct (get_prop (plain props) (js "toJSON")); try done;
      rewrite Hms; cbn [rbind]; (eexists; split; [done|]; by apply holds_object).
Qed.

Lemma holds_parse t v : holds t v -> json_parse t = Ok v.
Proof.
  intros [_ _ Hr]. unfold json_parse. specialize (Hr (S (List.length t)) []). rewrite app_nil_r in Hr.
  rewrite Hr by lia. done.
Qed.

(** Data written as JSON parses back. *)
Lemma stringify_parse v : wire_data v = true -> exists t, stringify v = Ok (Some t) /\ json_parse t = Ok v.
Proof. intros H. destruct (stringify_holds v H) as (t & Ht & Hh). exists t. split; [done|]. by apply holds_parse. Qed.
End ReadBack.
