(* ===== verification/KeyFile.v ===== *)
(** * KeyFile: the key store of the command line

    [src/typescript/src/cli/json-keystore.ts]: keys in a file of one JSON
    document per line under a header line. The file system is the
    environment's; a store object holds the maps it read. *)

From S2P Require Import Prelude Errors JsNum Text Json Canonical StrictJson JsonLib Types Crypto TokenCodec LicenseKeyFormat Storage KeyHierarchy Http TokenFile Stringify.

(** The calls of [node:fs] the store makes, and
    [`${process.pid}-${Date.now()}`]; each may throw. *)
Class KeyFiles (W : Type) : Type := {
  existsSync : jsstr -> prog W bool;
  readFileSync : jsstr -> prog W (list Z);
  writeFileSync : jsstr -> list Z -> prog W unit;
  openSync : jsstr -> prog W Z;
  fsyncSync : Z -> prog W unit;
  closeSync : Z -> prog W unit;
  renameSync : jsstr -> jsstr -> prog W unit;
  kf_tag : prog W jsstr
}.

(** What the program makes of a line that is JSON but no key record: the
    source casts it to one. *)
Class ForeignRecords : Type := { foreign_key : jsval -> LicenseKey }.

Definition HEADER : jsstr := jq "{'__kind':'licensing-keys/v1'}".

(** ** A record and its line *)

Definition nullable_string (o : option jsstr) : jsval := match o with Some s => JStr s | None => JNull end.

Definition key_value (k : LicenseKey) : jsval :=
  plain [(js "id", JStr (k_id k)); (js "scope_id", nullable_string (k_scope_id k)); (js "kid", JStr (k_kid k));
         (js "alg", JStr (alg_str (k_alg k))); (js "role", JStr (role_str (k_role k)));
         (js "state", JStr (key_state_str (k_state k))); (js "public_pem", JStr (k_public_pem k));
         (js "private_pem_enc", nullable_string (k_private_pem_enc k));
         (js "rotated_from", nullable_string (k_rotated_from k)); (js "rotated_at", nullable_string (k_rotated_at k));
         (js "not_before", JStr (k_not_before k)); (js "not_after", nullable_string (k_not_after k));
         (js "meta", k_meta k); (js "created_at", JStr (k_created_at k)); (js "updated_at", JStr (k_updated_at k))].

Definition text_of (v : jsval) : option jsstr := match v with JStr s => Some s | _ => None end.
Definition nullable_of (v : jsval) : option (option jsstr) :=
  match v with JStr s => Some (Some s) | JNull => Some None | _ => None end.
Definition named {A} (name : A -> jsstr) (all : list A) (v : jsval) : option A :=
  match v with JStr s => List.find (fun a => str_eqb (name a) s) all | _ => None end.

(** A parsed line with the fields of a record. *)
Definition typed_key (v : jsval) : option LicenseKey :=
  let field name := get_prop v (js name) in
  id ← text_of (field "id"%string);
  scope ← nullable_of (field "scope_id"%string);
  kid ← text_of (field "kid"%string);
  alg ← named alg_str all_algs (field "alg"%string);
  role ← named role_str [root; signing] (field "role"%string);
  state ← named key_state_str [k_active; k_retiring] (field "state"%string);
  public ← text_of (field "public_pem"%string);
  private ← nullable_of (field "private_pem_enc"%string);
  from ← nullable_of (field "rotated_from"%string);
  at_ ← nullable_of (field "rotated_at"%string);
  not_before ← text_of (field "not_before"%string);
  not_after ← nullable_of (field "not_after"%string);
  created ← text_of (field "created_at"%string);
  updated ← text_of (field "updated_at"%string);
  Some (mkKey id scope kid alg role state public private from at_ not_before not_after (field "meta"%string) created updated).

(** [JSON.parse(line) as LicenseKey], whose [id] is read next. *)
Definition key_of_line {FR : ForeignRecords} (line : jsstr) : res LicenseKey :=
  let? v := json_parse line in
  match v with
  | JNull => Throw PlainError
  | _ => Ok (given_or (typed_key v) (foreign_key v))
  end.

(** ** The store *)

Record JsonFileKeyStore : Type := mkJsonStore { jf_store : InMemoryKeyStore; jf_loaded : bool }.

Definition newJsonFileKeyStore : JsonFileKeyStore := mkJsonStore (mkKeyStore [] []) false.

(** [try { c } finally { f }]: what [f] throws wins. *)
Definition try_finally {W A} (c : prog W A) (f : prog W unit) : prog W A := fun w =>
  let '(r, w) := c w in
  match f w with
  | (Ok _, w) => (r, w)
  | (Throw e, w) => (Throw e, w)
  end.

Section Store.
Context {NT : NumberText} {JH : JsonHost} {FR : ForeignRecords} {W : Type} {KF : KeyFiles W}.
Variable path : jsstr.

Definition on_files {A} (c : prog W A) : prog (W * JsonFileKeyStore) A := fun v => let '(r, w) := c v.1 in (r, (w, v.2)).
Definition on_maps {A} (c : prog InMemoryKeyStore A) : prog (W * JsonFileKeyStore) A := fun v =>
  let '(r, s) := c (jf_store v.2) in (r, (v.1, mkJsonStore s (jf_loaded v.2))).
Definition set_loaded : prog (W * JsonFileKeyStore) unit := fun v => (Ok tt, (v.1, mkJsonStore (jf_store v.2) true)).

(** [for (const line of rest) { ...; byId.set(...); byKid.set(...) }] *)
Fixpoint load_lines (lines : list jsstr) : prog (W * JsonFileKeyStore) unit :=
  match lines with
  | [] => ret tt
  | line :: lines' =>
      let* rec := lift (key_of_line line) in
      do* on_maps (fun s => (Ok tt, store_record (k_id rec) rec s));
      load_lines lines'
  end.

Definition loadIfNeeded : prog (W * JsonFileKeyStore) unit := fun v =>
  if jf_loaded v.2 then (Ok tt, v)
  else (let* exists_ := on_files (existsSync path) in
        if negb exists_ then set_loaded
        else
          let* raw := on_files (readFileSync path) in
          match List.filter (fun l => negb (bool_decide (l = []))) (split_on 10 (buffer_to_utf8 raw)) with
          | [] => set_loaded
          | first :: rest =>
              if bool_decide (first <> HEADER) then throw errors.tokenMalformed
              else do* load_lines rest; set_loaded
          end) v.

(** The lines of the records. *)
Fixpoint record_lines (recs : list LicenseKey) : res (list jsstr) :=
  match recs with
  | [] => Ok []
  | rec :: recs' =>
      let? t := stringify (key_value rec) in
      let? ts := record_lines recs' in
      Ok (given_or t [] :: ts)
  end.

Definition keys_tmp_path (tag : jsstr) : jsstr := path ++ js ".tmp-" ++ tag.

Definition sync_path (p : jsstr) : prog W unit :=
  let* fd := openSync p in try_finally (fsyncSync fd) (closeSync fd).

Definition flush_text (lines : list jsstr) : jsstr := join [10] (HEADER :: lines) ++ [10].

Definition flush (s : InMemoryKeyStore) : prog W unit :=
  let* lines := lift (record_lines (byId s).*2) in
  let* tag := kf_tag in
  do* writeFileSync (keys_tmp_path tag) (utf8_encode (flush_text lines));
  do* sync_path (keys_tmp_path tag);
  do* renameSync (keys_tmp_path tag) path;
  try_catch (sync_path (dirname path)) (fun _ => ret tt).

Definition flush_maps : prog (W * JsonFileKeyStore) unit := fun v => on_files (flush (jf_store v.2)) v.

Definition file_put (record : LicenseKey) : prog (W * JsonFileKeyStore) unit :=
  do* loadIfNeeded; do* on_maps (store_put record); flush_maps.

Definition file_get (id : UUIDv7) : prog (W * JsonFileKeyStore) (option LicenseKey) :=
  do* loadIfNeeded; on_maps (store_get id).

Definition file_findByKid (kid : jsstr) : prog (W * JsonFileKeyStore) (option LicenseKey) :=
  do* loadIfNeeded; on_maps (store_findByKid kid).

(** [list], with the test its filter makes of a record. *)
Definition file_select (passes : LicenseKey -> bool) : prog (W * JsonFileKeyStore) (list LicenseKey) :=
  do* loadIfNeeded;
  on_maps (fun s => (Ok (merge_sort key_order (List.filter passes (byId s).*2)), s)).

Definition file_list (f : KeyStoreFilter) : prog (W * JsonFileKeyStore) (list LicenseKey) := file_select (key_passes f).

Definition file_update (id : UUIDv7) (next : LicenseKey) : prog (W * JsonFileKeyStore) unit :=
  do* loadIfNeeded; do* on_maps (store_update id next); flush_maps.

#[local] Instance file_key_store : KeyStore (W * JsonFileKeyStore) := {|
  ks_put := file_put;
  ks_get := file_get;
  ks_findByKid := file_findByKid;
  ks_list := file_list;
  ks_update := file_update
|}.
End Store.
