(* ===== verification/KeyFileProps.v ===== *)
(** * KeyFileProps: what the key file holds survives the process

    The file-backed key store against the in-memory one: a store opened on
    the file finds what the last successful write left. *)

From S2P Require Import Prelude Errors JsNum Text Json Canonical StrictJson JsonLib Cursor Types Crypto TokenCodec LicenseKeyFormat Storage KeyHierarchy KeyHierarchyProps Http TokenFile TokenFileProps Stringify KeyFile.

(** ** Lines *)

(** A record whose line holds it: its texts are ASCII and its [meta] is
    JSON data. *)
Definition storable_key (k : LicenseKey) : Prop := wire_data (key_value k) = true.

Ltac field_of_key name val :=
  match goal with |- context [get_prop (key_value ?k) (js name)] => change (get_prop (key_value k) (js name)) with val end.

Lemma typed_key_value k : typed_key (key_value k) = Some k.
Proof.
  assert (Hn : forall o, nullable_of (nullable_string o) = Some o) by (by intros []).
  assert (Ha : named alg_str all_algs (JStr (alg_str (k_alg k))) = Some (k_alg k)) by (destruct (k_alg k); vm_compute; reflexivity).
  assert (Hr : named role_str [root; signing] (JStr (role_str (k_role k))) = Some (k_role k))
    by (destruct (k_role k); vm_compute; reflexivity).
  assert (Hs : named key_state_str [k_active; k_retiring] (JStr (key_state_str (k_state k))) = Some (k_state k))
    by (destruct (k_state k); vm_compute; reflexivity).
  unfold typed_key. cbv zeta.
  field_of_key "id"%string (JStr (k_id k)). field_of_key "scope_id"%string (nullable_string (k_scope_id k)).
  field_of_key "kid"%string (JStr (k_kid k)). field_of_key "alg"%string (JStr (alg_str (k_alg k))).
  field_of_key "role"%string (JStr (role_str (k_role k))). field_of_key "state"%string (JStr (key_state_str (k_state k))).
  field_of_key "public_pem"%string (JStr (k_public_pem k)). field_of_key "private_pem_enc"%string (nullable_string (k_private_pem_enc k)).
  field_of_key "rotated_from"%string (nullable_string (k_rotated_from k)). field_of_key "rotated_at"%string (nullable_string (k_rotated_at k)).
  field_of_key "not_before"%string (JStr (k_not_before k)). field_of_key "not_after"%string (nullable_string (k_not_after k)).
  field_of_key "meta"%string (k_meta k). field_of_key "created_at"%string (JStr (k_created_at k)).
  field_of_key "updated_at"%string (JStr (k_updated_at k)).
  rewrite !Hn, Ha, Hr, Hs. by destruct k.
Qed.

Section Lines.
Context {NT : NumberText} {JH : JsonHost} {FR : ForeignRecords}.

Lemma line_reads k :
  storable_key k -> exists t, stringify (key_value k) = Ok (Some t) /\ key_of_line t = Ok k
    /\ t <> [] /\ forallb (fun c => is_ascii c && negb (c =? 10)) t = true.
Proof.
  intros Hk. destruct (stringify_holds _ Hk) as (t & Ht & Hh). exists t. split; [done|].
  pose proof (holds_parse t _ Hh) as Hp. destruct Hh as [(c & r & -> & _) Ha _]. split; [|by split].
  unfold key_of_line. rewrite Hp. cbn [rbind]. unfold key_value at 1. fold (key_value k).
  by rewrite typed_key_value.
Qed.

Definition one_line (c : Z) : bool := is_ascii c && negb (c =? 10).
Definition reads_key (t : jsstr) (k : LicenseKey) : Prop := key_of_line t = Ok k /\ t <> [] /\ forallb one_line t = true.

Lemma record_lines_ok recs : Forall storable_key recs -> exists ts, record_lines recs = Ok ts /\ Forall2 reads_key ts recs.
Proof.
  induction 1 as [|k recs Hk _ (ts & Hts & IH)]; [by exists []|].
  destruct (line_reads k Hk) as (t & Ht & Hr). exists (t :: ts). cbn [record_lines]. rewrite Ht. cbn [rbind].
  rewrite Hts. split; [done|]. by apply Forall2_cons.
Qed.

Lemma forallb_weaken {A} (f g : A -> bool) l : (forall a, f a = true -> g a = true) -> forallb f l = true -> forallb g l = true.
Proof. intros H. induction l as [|a l IH]; [done|]. cbn [forallb]. intros [H1 H2]%andb_prop. by rewrite H, IH. Qed.

Lemma split_lines ts :
  Forall (fun t => t <> [] /\ forallb one_line t = true) ts -> ts <> [] ->
  List.filter (fun l => negb (bool_decide (l = []))) (split_on 10 (join [10] ts ++ [10])) = ts.
Proof.
  assert (Hl : forall t, forallb one_line t = true -> forallb (fun d => negb (d =? 10)) t = true).
  { intros t. apply forallb_weaken. unfold one_line. by intros c [_ H]%andb_prop. }
  induction 1 as [|t ts [Hn Ht] Hts IH]; [done|]. intros _. destruct ts as [|t' ts].
  - cbn [join]. rewrite split_on_app by auto. cbn [List.filter split_on].
    rewrite bool_decide_false by done. done.
  - rewrite join_two, <- !app_assoc. cbn [app]. rewrite split_on_app by auto. cbn [List.filter].
    rewrite bool_decide_false by done. cbn [negb]. f_equal. by apply IH.
Qed.

(** The text of a file of records splits into its lines. *)
Lemma file_lines ts recs :
  Forall2 reads_key ts recs ->
  List.filter (fun l => negb (bool_decide (l = []))) (split_on 10 (buffer_to_utf8 (utf8_encode (flush_text ts)))) = HEADER :: ts.
Proof.
  intros H.
  assert (Hf : Forall (fun t => t <> [] /\ forallb one_line t = true) (HEADER :: ts)).
  { apply Forall_cons. split; [split; [done|vm_compute; reflexivity]|].
    induction H as [|t k ts recs (_ & H1 & H2) _ IH]; [by apply Forall_nil|]. apply Forall_cons. by split. }
  assert (Ha : forallb is_ascii (flush_text ts) = true).
  { unfold flush_text. rewrite forallb_app. apply andb_true_intro. split; [|done].
    revert Hf. generalize (HEADER :: ts). clear. intros l Hf. induction Hf as [|t l [_ Ht] Hl IH]; [done|].
    assert (Hta : forallb is_ascii t = true).
    { revert Ht. apply forallb_weaken. unfold one_line. by intros c [H _]%andb_prop. }
    destruct l; [done|]. rewrite join_two, !forallb_app, Hta, IH. done. }
  rewrite utf8_encode_ascii, buffer_to_utf8_ascii by done. unfold flush_text. by apply split_lines.
Qed.
End Lines.

(** ** Stores up to the order of their kids *)

Definition same_keys (s s' : InMemoryKeyStore) : Prop :=
  byId s = byId s' /\ forall kid, map_get (byKid s) kid = map_get (byKid s') kid.

#[global] Instance same_keys_equiv : Equivalence same_keys.
Proof.
  split; [done|intros s s' [H1 H2]; by split|]. intros s1 s2 s3 [H1 H2] [H3 H4]. split; [congruence|].
  intros kid. by rewrite H2.
Qed.

#[global] Instance store_record_proper id r : Proper (same_keys ==> same_keys) (store_record id r).
Proof.
  intros s s' [H1 H2]. split; cbn; [by rewrite H1|]. intros kid.
  destruct (decide (k_kid r = kid)) as [<-|Hne]; [by rewrite !map_get_set_eq|]. by rewrite !map_get_set_ne.
Qed.

(** What a file can hold: ids are keys, kids lead to the records that have
    them and to nothing else. *)
Record file_ok (s : InMemoryKeyStore) : Prop := {
  fo_nodup : NoDup (byId s).*1;
  fo_ids : forall id r, map_get (byId s) id = Some r -> k_id r = id;
  fo_kids : forall kid id, map_get (byKid s) kid = Some id <-> exists r, map_get (byId s) id = Some r /\ k_kid r = kid;
  fo_storable : Forall storable_key (byId s).*2
}.

#[global] Instance file_ok_proper : Proper (same_keys ==> iff) file_ok.
Proof.
  assert (H : forall s s', same_keys s s' -> file_ok s -> file_ok s').
  { intros s s' [H1 H2] [Ha Hb Hc Hd]. split; [by rewrite <- H1| |by intros; rewrite <- H2, <- H1|by rewrite <- H1].
    intros id r. rewrite <- H1. apply Hb. }
  intros s s' Hs. split; apply H; [done|by symmetry].
Qed.

Definition rebuild (recs : list LicenseKey) (s : InMemoryKeyStore) : InMemoryKeyStore :=
  fold_left (fun s r => store_record (k_id r) r s) recs s.

Lemma rebuild_snoc recs r s : rebuild (recs ++ [r]) s = store_record (k_id r) r (rebuild recs s).
Proof. unfold rebuild. by rewrite fold_left_app. Qed.

(** Reading the records back in order gives the store again. *)
Lemma rebuild_list (l : list (UUIDv7 * LicenseKey)) :
  NoDup l.*1 -> (forall id r, (id, r) ∈ l -> k_id r = id) ->
  (forall id1 r1 id2 r2, (id1, r1) ∈ l -> (id2, r2) ∈ l -> k_kid r1 = k_kid r2 -> id1 = id2) ->
  byId (rebuild l.*2 (mkKeyStore [] [])) = l
  /\ forall kid id, map_get (byKid (rebuild l.*2 (mkKeyStore [] []))) kid = Some id <-> exists r, (id, r) ∈ l /\ k_kid r = kid.
Proof.
  induction l as [|[id r] l IH] using rev_ind.
  { intros _ _ _. split; [done|]. intros kid id. split; [done|]. intros (r & H & _). by apply elem_of_nil in H. }
  intros Hd Hi Hk. rewrite fmap_app in Hd. apply NoDup_app in Hd as (Hd & Hn & _).
  destruct IH as [IH1 IH2]; [done|intros ???; apply Hi, elem_of_app; by left|
    intros id1 r1 id2 r2 H1 H2; apply (Hk id1 r1 id2 r2); apply elem_of_app; by left|].
  assert (Hid : k_id r = id) by (apply Hi, elem_of_app; right; by apply list_elem_of_singleton).
  rewrite fmap_app. change ([(id, r)].*2) with [r]. rewrite rebuild_snoc. unfold store_record. cbn [byId byKid]. rewrite IH1, Hid.
  split.
  - apply map_set_new, map_get_None. intros H. apply (Hn id H). csimpl. by left.
  - intros kid id'. destruct (decide (k_kid r = kid)) as [<-|Hne].
    + rewrite map_get_set_eq. split.
      * intros [= <-]. exists r. split; [|done]. apply elem_of_app. right. by apply list_elem_of_singleton.
      * intros (r' & Hr' & Hkid). f_equal. symmetry. apply (Hk id' r' id r); [done| |done].
        apply elem_of_app. right. by apply list_elem_of_singleton.
    + rewrite map_get_set_ne by done. rewrite IH2. split; intros (r' & Hr' & Hkid); exists r'; (split; [|done]).
      * apply elem_of_app. by left.
      * apply elem_of_app in Hr' as [?|H%list_elem_of_singleton]; [done|]. by injection H as -> ->.
Qed.

Lemma rebuild_ok s : file_ok s -> same_keys (rebuild (byId s).*2 (mkKeyStore [] [])) s.
Proof.
  intros [Hd Hi Hk _].
  assert (Hin : forall id r, (id, r) ∈ byId s <-> map_get (byId s) id = Some r).
  { intros id r. split; [by apply elem_map_get|apply map_get_elem]. }
  destruct (rebuild_list (byId s)) as [H1 H2].
  - done.
  - intros id r. rewrite Hin. apply Hi.
  - intros id1 r1 id2 r2. rewrite !Hin. intros Hr1 Hr2 E.
    assert (map_get (byKid s) (k_kid r1) = Some id1) as E1 by (apply Hk; eauto).
    assert (map_get (byKid s) (k_kid r2) = Some id2) as E2 by (apply Hk; eauto). rewrite E in E1. congruence.
  - split; [done|]. intros kid. apply option_eq. intros id. rewrite H2, Hk. by setoid_rewrite Hin.
Qed.

(** ** The file system *)

(** As [FileSystemLaws]: a call touches the files it names, a rename happens
    or does not; [fsync] and its descriptors touch none. *)
Class KeyFileLaws (W : Type) {KF : KeyFiles W} : Type := {
  kept : W -> jsstr -> option (list Z);
  exists_law : forall p w, existsSync p w = (Ok (bool_decide (kept w p <> None)), w);
  read_file_law : forall p w, readFileSync p w = (match kept w p with Some b => Ok b | None => Throw PlainError end, w);
  write_file_law : forall p b w, (forall q, q <> p -> kept (writeFileSync p b w).2 q = kept w q)
    /\ ((writeFileSync p b w).1 = Ok tt -> kept (writeFileSync p b w).2 p = Some b);
  open_law : forall p w q, kept (openSync p w).2 q = kept w q;
  fsync_law : forall fd w q, kept (fsyncSync fd w).2 q = kept w q;
  close_law : forall fd w q, kept (closeSync fd w).2 q = kept w q;
  kf_rename_law : forall a b w, a <> b ->
    match renameSync a b w with
    | (Ok _, w') => kept w' b = kept w a
    | (Throw _, w') => kept w' b = kept w b
    end;
  kf_tag_law : forall w q, kept (kf_tag w).2 q = kept w q
}.

Section Durable.
Context {NT : NumberText} {JH : JsonHost} {FR : ForeignRecords} {W : Type} {KF : KeyFiles W} {KL : KeyFileLaws W}.
Variable path : jsstr.

Lemma keys_tmp_apart tag : keys_tmp_path path tag <> path.
Proof.
  unfold keys_tmp_path. intros H. apply (f_equal (List.length (A := Z))) in H. rewrite !length_app in H.
  change (List.length (js ".tmp-")) with 5%nat in H. lia.
Qed.

Lemma load_lines_frame lines (w1 w2 : W) j :
  exists r j', load_lines lines (w1, j) = (r, (w1, j')) /\ load_lines lines (w2, j) = (r, (w2, j')).
Proof.
  revert j. induction lines as [|line lines IH]; intros j; [by eexists _, _|]. cbn [load_lines]. unfold bind, lift, on_maps.
  destruct (key_of_line line) as [rec|e]; [|by eexists _, _]. cbn [snd fst jf_loaded jf_store]. apply IH.
Qed.

Lemma load_lines_reads ts recs (w : W) s b :
  Forall2 reads_key ts recs -> load_lines ts (w, mkJsonStore s b) = (Ok tt, (w, mkJsonStore (rebuild recs s) b)).
Proof.
  intros H. revert s. induction H as [|t k ts recs (Hk & _ & _) _ IH]; intros s; [done|]. cbn [load_lines].
  unfold bind, lift. rewrite Hk. unfold on_maps. cbn [snd fst jf_loaded jf_store]. apply IH.
Qed.

(** Opening the file depends on what it holds only. *)
Lemma load_frame (w1 w2 : W) r j :
  kept w1 path = kept w2 path ->
  loadIfNeeded path (w1, newJsonFileKeyStore) = (r, (w1, j)) -> loadIfNeeded path (w2, newJsonFileKeyStore) = (r, (w2, j)).
Proof.
  intros Hc. unfold loadIfNeeded, on_files, bind. cbn [snd fst jf_loaded newJsonFileKeyStore]. rewrite !exists_law, <- Hc.
  destruct (negb _); [unfold set_loaded; cbn [fst snd]; by intros [= <- <-]|]. cbn [fst snd]. rewrite !read_file_law, <- Hc.
  destruct (kept w1 path) as [raw|]; [|by intros [= <- <-]].
  destruct (List.filter _ _) as [|first rest]; [unfold set_loaded; cbn [fst snd]; by intros [= <- <-]|].
  case_bool_decide; [by intros [= <- <-]|]. unfold bind.
  destruct (load_lines_frame rest w1 w2 (mkJsonStore (mkKeyStore [] []) false)) as (r' & j' & E1 & E2).
  unfold newJsonFileKeyStore in *. rewrite E1, E2. destruct r'; [|by intros [= <- <-]].
  unfold set_loaded. cbn [fst snd]. by intros [= <- <-].
Qed.

(** The file stands for the store [s]: opening it gives [s]. *)
Definition synced (w : W) (s : InMemoryKeyStore) : Prop :=
  file_ok s /\ exists s', loadIfNeeded path (w, newJsonFileKeyStore) = (Ok tt, (w, mkJsonStore s' true)) /\ same_keys s' s.

(** A store object in step with the file: new, or holding [s]. *)
Definition in_step (j : JsonFileKeyStore) (s : InMemoryKeyStore) : Prop :=
  j = newJsonFileKeyStore \/ jf_loaded j = true /\ same_keys (jf_store j) s.

Lemma synced_kept (w1 w2 : W) s : kept w1 path = kept w2 path -> synced w1 s -> synced w2 s.
Proof. intros Hc [Hok (s' & Hl & Hs)]. split; [done|]. exists s'. split; [by eapply load_frame|done]. Qed.

Lemma synced_missing (w : W) : kept w path = None -> synced w (mkKeyStore [] []).
Proof.
  intros Hc. split.
  - split; cbn; [by apply NoDup_nil|done| |by apply Forall_nil]. intros kid id. split; [done|]. by intros (r & ? & _).
  - exists (mkKeyStore [] []). split; [|done]. unfold loadIfNeeded, on_files, bind. cbn [snd fst jf_loaded newJsonFileKeyStore].
    rewrite exists_law, Hc. by rewrite bool_decide_false by tauto.
Qed.

Lemma opened (w : W) j s : synced w s -> in_step j s ->
  exists s', loadIfNeeded path (w, j) = (Ok tt, (w, mkJsonStore s' true)) /\ same_keys s' s.
Proof.
  intros [_ Hl] [->|[Hj Hs]]; [done|]. exists (jf_store j). split; [|done]. unfold loadIfNeeded. cbn [snd]. rewrite Hj.
  destruct j as [s' b]. cbn in Hj. by subst b.
Qed.

Lemma store_record_file_ok id r s :
  file_ok s -> storable_key r -> k_id r = id -> (forall i, map_get (byKid s) (k_kid r) = Some i -> i = id) ->
  (forall r0, map_get (byId s) id = Some r0 -> k_kid r0 = k_kid r) -> file_ok (store_record id r s).
Proof.
  intros [Hd Hi Hk Hst] Hr Hid Hfree Hsame.
  assert (Hg : forall i, map_get (map_set (byId s) id r) i = if decide (i = id) then Some r else map_get (byId s) i).
  { intros i. case_decide; [subst; apply map_get_set_eq|by apply map_get_set_ne]. }
  split; cbn [byId byKid store_record].
  - by apply map_set_NoDup.
  - intros i r'. rewrite Hg. case_decide as E; [intros [= <-]; by rewrite E|apply Hi].
  - intros kid i. rewrite Hg. destruct (decide (k_kid r = kid)) as [<-|Hne].
    + rewrite map_get_set_eq. split.
      * intros [= <-]. exists r. by rewrite decide_True.
      * intros (r' & Hr' & E). case_decide as Ei; [by rewrite Ei|]. exfalso. apply Ei, Hfree, Hk. eauto.
    + rewrite map_get_set_ne, Hk by done. case_decide as Ei; [subst i|done]. split; intros (r' & Hr' & E).
      * destruct Hne. by rewrite <- E, (Hsame r').
      * injection Hr' as <-. done.
  - apply Forall_forall. intros r' Hr'. apply list_elem_of_fmap in Hr' as ([i r''] & -> & Hin).
    apply elem_map_get in Hin; [|by apply map_set_NoDup]. rewrite Hg in Hin. cbn [snd]. case_decide; [by injection Hin as <-|].
    rewrite Forall_forall in Hst. apply Hst, list_elem_of_fmap. exists (i, r''). split; [done|]. by apply map_get_elem.
Qed.

Lemma sync_path_kept p (w : W) q : kept (sync_path p w).2 q = kept w q.
Proof.
  unfold sync_path, bind, try_finally. pose proof (open_law p w q) as H1. destruct (openSync p w) as [[fd|e] w1]; [|done].
  pose proof (fsync_law fd w1 q) as H2. destruct (fsyncSync fd w1) as [r w2]. pose proof (close_law fd w2 q) as H3.
  destruct (closeSync fd w2) as [[u|e] w3]; cbn in *; congruence.
Qed.

(** A flush lands whole or not at all. *)
Lemma flush_lands s (w : W) :
  file_ok s -> let '(r, w') := flush path s w in
  (r = Ok tt /\ synced w' s) \/ ((exists e, r = Throw e) /\ kept w' path = kept w path).
Proof.
  intros Hok. destruct (record_lines_ok _ (fo_storable s Hok)) as (ts & Hts & Hreads).
  unfold flush, lift, bind. rewrite Hts. pose proof (kf_tag_law w path) as H1.
  destruct (kf_tag w) as [[tag|e] w1]; [|right; by split; [eexists|]].
  set (body := utf8_encode (flush_text ts)). destruct (write_file_law (keys_tmp_path path tag) body w1) as [H2 H3].
  specialize (H2 path (not_eq_sym (keys_tmp_apart tag))).
  destruct (writeFileSync (keys_tmp_path path tag) body w1) as [[[]|e] w2];
    [|right; split; [by eexists|cbn in *; congruence]]. specialize (H3 eq_refl).
  pose proof (sync_path_kept (keys_tmp_path path tag) w2) as H4.
  destruct (sync_path (keys_tmp_path path tag) w2) as [[[]|e] w3]; [|right; split; [by eexists|rewrite H4; cbn in *; congruence]].
  pose proof (kf_rename_law (keys_tmp_path path tag) path w3 (keys_tmp_apart tag)) as H5. cbn [snd] in *.
  destruct (renameSync (keys_tmp_path path tag) path w3) as [[[]|e] w4];
    [|right; split; [by eexists|rewrite H5, H4; congruence]].
  rewrite H4, H3 in H5. unfold try_catch. pose proof (sync_path_kept (dirname path) w4 path) as H6.
  assert (Hs : forall w5, kept w5 path = kept w4 path -> synced w5 s).
  { intros w5 Hc. split; [done|]. exists (rebuild (byId s).*2 (mkKeyStore [] [])). split; [|by apply rebuild_ok].
    unfold loadIfNeeded, on_files, bind. cbn [snd fst jf_loaded newJsonFileKeyStore].
    rewrite exists_law, Hc, H5, bool_decide_true by done. cbn [negb snd fst]. rewrite read_file_law, Hc, H5.
    unfold body. rewrite (file_lines ts _ Hreads). rewrite bool_decide_false by tauto. unfold newJsonFileKeyStore.
    unfold bind. rewrite (load_lines_reads ts _ w5 (mkKeyStore [] []) false Hreads). done. }
  destruct (sync_path (dirname path) w4) as [[[]|e] w5]; left; (split; [done|by apply Hs]).
Qed.

Lemma store_put_same r s1 s2 : same_keys s1 s2 ->
  (store_put r s1).1 = (store_put r s2).1 /\ same_keys (store_put r s1).2 (store_put r s2).2.
Proof.
  intros H. unfold store_put. rewrite (proj2 H (k_kid r)).
  destruct (map_get (byKid s2) _); [case_bool_decide|]; cbn; (split; [done|]); by rewrite ?H.
Qed.

Lemma store_update_same id r s1 s2 : same_keys s1 s2 ->
  (store_update id r s1).1 = (store_update id r s2).1 /\ same_keys (store_update id r s1).2 (store_update id r s2).2.
Proof.
  intros H. unfold store_update. rewrite (proj1 H). destruct (negb _); [by split|].
  case_bool_decide; cbn; (split; [done|]); by rewrite ?H.
Qed.

(** A write through the file, against the same write [c0] of the in-memory
    store: refused alike without touching a thing; or done, in the object and
    in the file; or, when a call on the file system fails, not done in the
    file. *)
Definition lands (c : prog (W * JsonFileKeyStore) unit) (c0 : prog InMemoryKeyStore unit)
    (w : W) (j : JsonFileKeyStore) (s : InMemoryKeyStore) : Prop :=
  let '(res, (w', j')) := c (w, j) in
  match c0 s with
  | (Throw e, _) => res = Throw e /\ w' = w /\ in_step j' s
  | (Ok _, s2) => (res = Ok tt /\ synced w' s2 /\ in_step j' s2) \/ ((exists e, res = Throw e) /\ synced w' s)
  end.

Lemma write_lands (c0 : prog InMemoryKeyStore unit) w j s :
  synced w s -> in_step j s ->
  (forall s1 s2, same_keys s1 s2 -> (c0 s1).1 = (c0 s2).1 /\ same_keys (c0 s1).2 (c0 s2).2) ->
  (forall e s2, c0 s = (Throw e, s2) -> s2 = s) -> (forall s2, c0 s = (Ok tt, s2) -> file_ok s2) ->
  lands (do* loadIfNeeded path; do* on_maps c0; flush_maps path) c0 w j s.
Proof.
  intros Hs Hj Hsame Hthrow Hok. destruct (opened w j s Hs Hj) as (s1 & Hload & H1).
  unfold lands, bind. rewrite Hload. unfold on_maps. cbn [fst snd jf_store jf_loaded].
  destruct (Hsame s1 s H1) as [Hr H2]. destruct (c0 s1) as [r s1'] eqn:E1. destruct (c0 s) as [r0 s2] eqn:E2. cbn [fst snd] in *. subst r0.
  destruct r as [[]|e].
  - specialize (Hok s2 eq_refl). assert (Hok1 : file_ok s1') by (by rewrite H2).
    unfold flush_maps, on_files. cbn [fst snd jf_store]. pose proof (flush_lands s1' w Hok1) as Hf.
    destruct (flush path s1' w) as [r w']. destruct Hf as [[-> Hf]|[[e ->] Hf]].
    + left. split; [done|]. split; [|by right]. destruct Hf as [_ (s' & Hl & Hs')]. split; [done|]. exists s'. split; [done|].
      by rewrite Hs'.
    + right. split; [by eexists|]. by eapply synced_kept.
  - specialize (Hthrow e s2 eq_refl). subst s2. split; [done|]. split; [done|]. right. by split.
Qed.

Lemma query_reads {A} (q : prog InMemoryKeyStore A) w j s :
  synced w s -> in_step j s ->
  (forall s1 s2, same_keys s1 s2 -> (q s1).1 = (q s2).1) -> (forall s1, (q s1).2 = s1) ->
  exists j', (do* loadIfNeeded path; on_maps q) (w, j) = ((q s).1, (w, j')) /\ in_step j' s.
Proof.
  intros Hs Hj Hsame Hkeep. destruct (opened w j s Hs Hj) as (s1 & Hload & H1). unfold bind. rewrite Hload.
  unfold on_maps. cbn [fst snd jf_store jf_loaded]. rewrite <- (Hsame s1 s H1). specialize (Hkeep s1).
  destruct (q s1) as [r s1']. cbn [fst snd] in *. subst s1'. eexists. split; [done|]. by right.
Qed.

(** C33: the key file is the key store. Over a file that stands for a store of
    keys, and an object just opened on it or in step with it, looking up and
    listing answer as the in-memory store does and touch nothing; adding a
    key, or updating one without renaming it, is refused exactly as there, or
    lands whole, so that the next process to open the file finds the new
    store, or, when a call on the file system fails, leaves the file with the
    old one. A file that is not there stands for the empty store. *)
Theorem key_file_refines w j s (Hs : synced w s) (Hj : in_step j s) :
  (forall kid, exists j', file_findByKid path kid (w, j) = ((store_findByKid kid s).1, (w, j')) /\ in_step j' s)
  /\ (forall f, exists j', file_list path f (w, j) = ((store_list f s).1, (w, j')) /\ in_step j' s)
  /\ (forall r, storable_key r -> (forall r0, map_get (byId s) (k_id r) = Some r0 -> k_kid r0 = k_kid r) ->
        lands (file_put path r) (store_put r) w j s)
  /\ (forall id r, storable_key r -> (forall r0, map_get (byId s) id = Some r0 -> k_kid r0 = k_kid r) ->
        lands (file_update path id r) (store_update id r) w j s)
  /\ (forall w0, kept w0 path = None -> synced w0 (mkKeyStore [] [])).
Proof.
  split_and!.
  - intros kid. apply (query_reads (store_findByKid kid)); [done|done| |done]. intros s1 s2 [H1 H2].
    unfold store_findByKid. cbn [fst]. by rewrite H1, H2.
  - intros f. unfold file_list, file_select. apply (query_reads (store_list f)); [done|done| |done]. intros s1 s2 [H1 _].
    unfold store_list. cbn [fst]. by rewrite H1.
  - intros r Hr Hown. apply write_lands; [done|done|apply store_put_same| |].
    + intros e s2 H. destruct (store_put_inv _ _ _ _ H) as [(? & _)|[_ ?]]; [done|by subst].
    + intros s2 H. destruct (store_put_inv _ _ _ _ H) as [(_ & -> & Hfree)|[[e ?] _]]; [|done].
      apply store_record_file_ok; try done. by destruct Hs.
  - intros id r Hr Hown. apply write_lands; [done|done|apply store_update_same| |].
    + intros e s2 H. destruct (store_update_inv _ _ _ _ _ H) as [(? & _)|[_ ?]]; [done|by subst].
    + intros s2 H. destruct (store_update_inv _ _ _ _ _ H) as [(_ & -> & Hid & r0 & Hr0)|[[e ?] _]]; [|done].
      destruct Hs as [Hok _]. apply store_record_file_ok; try done. intros i Hi.
      rewrite <- (Hown r0 Hr0) in Hi. apply (fo_kids s Hok) in Hi as (r' & Hr' & E). apply (fo_ids s Hok) in Hr0 as Hid0.
      assert (map_get (byKid s) (k_kid r0) = Some id) as E1 by (apply (fo_kids s Hok); eauto).
      assert (map_get (byKid s) (k_kid r0) = Some i) as E2 by (apply (fo_kids s Hok); eauto). congruence.
  - apply synced_missing.
Qed.
End Durable.

(** ** A disk that loses power *)

#[local] Existing Instance plain_numbers.
#[global] Instance disk_key_files : KeyFiles Disk := {|
  existsSync := fun p d => (Ok (map_has (dk_files d) p), d);
  readFileSync := fs_readFile (FileSystem := disk_files);
  writeFileSync := fs_writeFile (FileSystem := disk_files);
  openSync := fun _ d => (Ok 3, d);
  fsyncSync := fun _ d => (Ok tt, d);
  closeSync := fun _ d => (Ok tt, d);
  renameSync := fs_rename (FileSystem := disk_files);
  kf_tag := fun d => (Ok (js "7-1"), d)
|}.

#[global, program] Instance disk_key_laws : KeyFileLaws Disk := {| kept := fun d p => map_get (dk_files d) p |}.
Next Obligation. intros p w. cbn. unfold map_has. f_equal. f_equal. by destruct (map_get _ _). Qed.
Next Obligation. done. Qed.
Next Obligation. intros p b w. apply (write_law (FileSystemLaws := disk_laws)). Qed.
Next Obligation. done. Qed.
Next Obligation. done. Qed.
Next Obligation. done. Qed.
Next Obligation. intros a b w. apply (rename_law (FileSystemLaws := disk_laws)). Qed.
Next Obligation. done. Qed.

#[global] Instance no_json_host : JsonHost := {| other_json := Throw PlainError |}.
Definition sample_key (kid : String.string) : LicenseKey :=
  mkKey (js "0190-" ++ js kid) None (js kid) ed25519 root k_active (js "PUB") (Some (js "ENC")) None None
    (js "2026-01-01T00:00:00.000Z") None (plain []) (js "2026-01-01T00:00:00.000Z") (js "2026-01-01T00:00:00.000Z").
#[global] Instance no_foreign : ForeignRecords := {| foreign_key := fun _ => sample_key "?" |}.

Definition keys_path : jsstr := js "./licensing-keys.json".

(** A key is added to a missing file and the next process finds it. *)
Lemma key_file_refines_witness :
  let w := mkDisk [] 9 in let added := (file_put keys_path (sample_key "r1") (w, newJsonFileKeyStore)).2.1 in
  synced keys_path w (mkKeyStore [] []) /\ storable_key (sample_key "r1")
  /\ (file_findByKid keys_path (js "r1") (added, newJsonFileKeyStore)).1 = Ok (Some (sample_key "r1")).
Proof.
  cbv zeta. set (w := mkDisk [] 9).
  assert (H0 : synced keys_path w (mkKeyStore [] [])) by (by apply synced_missing).
  assert (Hk : storable_key (sample_key "r1")) by (vm_compute; reflexivity).
  split; [exact H0|]. split; [exact Hk|].
  destruct (key_file_refines keys_path w newJsonFileKeyStore _ H0 (or_introl eq_refl)) as (_ & _ & Hput & _).
  specialize (Hput (sample_key "r1") Hk ltac:(done)). unfold lands in Hput.
  assert (Hr : (file_put keys_path (sample_key "r1") (w, newJsonFileKeyStore)).1 = Ok tt) by (vm_compute; reflexivity).
  destruct (file_put keys_path (sample_key "r1") (w, newJsonFileKeyStore)) as [r [w' j']]. cbn [fst snd] in *. subst r.
  destruct Hput as [(_ & H1 & _)|[[e He] _]]; [|discriminate He].
  destruct (key_file_refines keys_path w' newJsonFileKeyStore _ H1 (or_introl eq_refl)) as (Hfind & _).
  destruct (Hfind (js "r1")) as (j2 & -> & _). vm_compute. reflexivity.
Defined.

(** Power gone in the middle of the second write: the file still holds the
    first key, and only it. *)
Example torn_write_keeps_the_old_file :
  let one := (file_put keys_path (sample_key "r1") (mkDisk [] 3, newJsonFileKeyStore)).2.1 in
  let '(r, (w, _)) := file_put keys_path (sample_key "r2") (one, newJsonFileKeyStore) in
  r = Throw PlainError
  /\ (file_select keys_path (fun _ => true) (w, newJsonFileKeyStore)).1 = Ok [sample_key "r1"].
Proof. vm_compute. split; reflexivity. Qed.
