(* ===== verification/Cli.v ===== *)
(** * Cli: the [licensing-keys] command

    [src/typescript/src/cli/main.ts]: the argument and environment checks,
    the four subcommands over the key file, and what a failure prints. The
    options come from [parseArgs] of [node:util], of which the strict form
    with string options is modelled; an error of it is a runtime error. The
    two output channels are logs. *)

From S2P Require Import Prelude Errors JsNum Text Json Types Crypto TokenCodec LicenseKeyFormat Storage EncryptedPkcs8 KeyHierarchy Http Stringify KeyFile Backends.

(** [e.stack] of an error that is none of the library. *)
Class ErrorStacks : Type := { error_stack : exn -> jsstr }.

(** ** [parseArgs]

    [parseArgs({ args, options, strict: true })] for string options: an
    option takes its value after ['='] or from the next argument, which must
    not look like an option; anything else is refused. *)

Definition looks_like_option (value : jsstr) : bool :=
  match value with 45 :: _ :: _ => true | _ => false end.

(** [--name] and [--name=value], the [=] not before the fourth character. *)
Definition long_option (arg : jsstr) : option (jsstr * option jsstr) :=
  match arg with
  | 45 :: 45 :: c :: rest =>
      let '(name, value) := (fix cut (s : jsstr) : jsstr * option jsstr :=
        match s with
        | [] => ([], None)
        | d :: s' => if d =? 61 then ([], Some s') else let '(n, v) := cut s' in (d :: n, v)
        end) rest in
      Some (c :: name, value)
  | _ => None
  end.

Fixpoint parse_args (options : list jsstr) (args : list jsstr) (values : list (jsstr * jsstr)) : res (list (jsstr * jsstr)) :=
  match args with
  | [] => Ok values
  | arg :: args' =>
      match long_option arg with
      | Some (name, inline) =>
          if negb (bool_decide (name ∈ options)) then Throw PlainError
          else match inline with
               | Some value => parse_args options args' (map_set values name value)
               | None =>
                   match args' with
                   | value :: args'' =>
                       if looks_like_option value then Throw PlainError
                       else parse_args options args'' (map_set values name value)
                   | [] => Throw PlainError
                   end
               end
      | None =>
          (* [--] ends the options; with positionals after it the call is refused *)
          if bool_decide (arg = js "--") then match args' with [] => Ok values | _ => Throw PlainError end
          else Throw PlainError
      end
  end.

Definition parseArgs (options : list String.string) (args : list jsstr) : res (list (jsstr * jsstr)) :=
  parse_args (map js options) args [].

(** ** Errors and channels *)

(** What a command throws: a usage error, or what a call below it throws. *)
Inductive CliError : Type := UsageError (message : jsstr) | Failed (e : exn).

Record Console : Type := mkConsole { c_stdout : list jsstr; c_stderr : list jsstr }.

Abbreviation cli W := (M CliError (W * Console)).

Definition say {W} (s : jsstr) : cli W unit := fun v => (Ok tt, (v.1, mkConsole (c_stdout v.2 ++ [s]) (c_stderr v.2))).
Definition complain {W} (s : jsstr) : cli W unit := fun v => (Ok tt, (v.1, mkConsole (c_stdout v.2) (c_stderr v.2 ++ [s]))).

(** A call of the library, its error passed on. *)
Definition call {W A} (c : prog W A) : cli W A := fun v =>
  match c v.1 with
  | (Ok a, w) => (Ok a, (w, v.2))
  | (Throw e, w) => (Throw (Failed e), (w, v.2))
  end.

(** ** Checks *)

Definition VALID_ALGS : list KeyAlg := all_algs.

(** An absent or empty value is falsy. *)
Definition requireAlg (v : option jsstr) : result CliError KeyAlg :=
  match v with
  | None | Some [] => Throw (UsageError (js "--alg is required"))
  | Some v =>
      match List.find (fun a => str_eqb (alg_str a) v) VALID_ALGS with
      | Some alg => Ok alg
      | None => Throw (UsageError (js "--alg must be one of: " ++ join (js ", ") (map alg_str VALID_ALGS)
                                   ++ js " (got " ++ v ++ js ")"))
      end
  end.

Definition requireFlag (v : option jsstr) (name : String.string) : result CliError jsstr :=
  match v with
  | None | Some [] => Throw (UsageError (js name ++ js " is required"))
  | Some v => Ok v
  end.

Definition requireEnv (env : jsstr -> option jsstr) (name : String.string) : result CliError jsstr :=
  match env (js name) with
  | None | Some [] => Throw (UsageError (js "env var " ++ js name ++ js " is required and must be non-empty"))
  | Some v => Ok v
  end.

(** The surface of a key: no private half. *)
Definition formatKey (rec : LicenseKey) : jsstr :=
  join newline
    ([js "  id:         " ++ k_id rec; js "  kid:        " ++ k_kid rec; js "  alg:        " ++ alg_str (k_alg rec);
      js "  role:       " ++ role_str (k_role rec); js "  state:      " ++ key_state_str (k_state rec);
      js "  scope:      " ++ given_or (k_scope_id rec) (js "(global)"); js "  not_before: " ++ k_not_before rec;
      js "  not_after:  " ++ given_or (k_not_after rec) (js "(none)")]
     ++ match k_rotated_from rec with Some ((_ :: _) as from) => [js "  rotated_from: " ++ from] | _ => [] end).

Definition USAGE : jsstr :=
  js "licensing-keys " ++ [0x2014] ++ js " root/signing key management for @anorebel/licensing

USAGE
  licensing-keys <command> [options]

COMMANDS
  make-root      Create a root key
  issue-signing  Issue a signing key under a root
  rotate         Rotate the active signing key (outgoing -> retiring)
  list           List keys (no secrets)

COMMON OPTIONS
  --store <path>      Path to the JSON keystore file (default: ./licensing-keys.json)
  --alg <alg>         Algorithm: ed25519 | rs256-pss | hs256
  --scope <uuid>      Scope id (optional; omit for global scope)
  --kid <string>      Override generated kid (optional)

make-root OPTIONS
  --not-after <iso>   Root validity end (optional)
  ENV: LICENSING_ROOT_PASSPHRASE (required, non-empty)

issue-signing OPTIONS
  --root-kid <kid>    Root kid to certify under (required)
  --not-after <iso>   Signing key validity end (optional)
  ENV: LICENSING_ROOT_PASSPHRASE, LICENSING_SIGNING_PASSPHRASE (both required, non-empty)

rotate OPTIONS
  --root-kid <kid>    Root kid (required; same scope+alg as the outgoing key)
  --retire-at <iso>   Clamp outgoing not_after to this instant (optional)
  ENV: LICENSING_ROOT_PASSPHRASE, LICENSING_SIGNING_PASSPHRASE (both required, non-empty)

list OPTIONS
  --role <role>       Filter: root | signing
  --state <state>     Filter: active | retiring

EXAMPLES
  LICENSING_ROOT_PASSPHRASE=... licensing-keys make-root --alg ed25519
  LICENSING_ROOT_PASSPHRASE=... LICENSING_SIGNING_PASSPHRASE=... \
    licensing-keys issue-signing --alg ed25519 --root-kid root-xyz
".

(** ** The commands *)

Section Commands.
Context {NC : NodeCrypto} {KR : KeyRuntime} {P : Pbes2}.
Context {NT : NumberText} {JH : JsonHost} {FR : ForeignRecords} {EM : ErrorMessages} {ES : ErrorStacks}.
Context {W : Type} {HC : HasClock W} {HE : HasEntropy W} {KF : KeyFiles W}.
#[local] Existing Instance node_handles.
#[local] Remove Hints toy.handles : typeclass_instances.

(** [RunOptions], the channels apart. *)
Record RunOptions : Type := mkRun {
  ro_argv : list jsstr;
  ro_env : jsstr -> option jsstr;
  ro_backends : list (KeyAlg * SignatureBackend)
}.
Context (opts : RunOptions).

(** The library runs in the world of the command with the store object it
    opens beside it. *)
#[local] Instance beside_clock : HasClock (W * JsonFileKeyStore) := {|
  nowMs := on_files nowMs;
  nowIso := on_files nowIso
|}.
#[local] Instance beside_entropy : HasEntropy (W * JsonFileKeyStore) := {| randomFill := fun n => on_files (randomFill n) |}.

Definition with_store {A} (c : prog (W * JsonFileKeyStore) A) : prog W A := fun w =>
  let '(r, (w, _)) := c (w, newJsonFileKeyStore) in (r, w).

Definition resolveBackend (alg : KeyAlg) : result CliError SignatureBackend :=
  match map_get (ro_backends opts) alg with
  | Some override => Ok override
  | None =>
      match map_get DEFAULT_BACKENDS alg with
      | Some b => Ok b
      | None => Throw (UsageError (js "no backend registered for alg: " ++ alg_str alg))
      end
  end.

Definition values_of (options : list String.string) (argv : list jsstr) : cli W (list (jsstr * jsstr)) :=
  call (lift (parseArgs options argv)).
Definition value (values : list (jsstr * jsstr)) (name : String.string) : option jsstr := map_get values (js name).
Definition store_path (values : list (jsstr * jsstr)) : jsstr := given_or (value values "store") (js "./licensing-keys.json").

Definition cmdMakeRoot (argv : list jsstr) : cli W Z :=
  let* args := values_of ["store"; "alg"; "scope"; "kid"; "not-after"]%string argv in
  let* alg := lift (requireAlg (value args "alg")) in
  let* passphrase := lift (requireEnv (ro_env opts) "LICENSING_ROOT_PASSPHRASE") in
  let* backend := lift (resolveBackend alg) in
  let* made := call (with_store (generateRoot (KS := file_key_store (store_path args)) [(alg, backend)] default_kid
    (mkGenerateRoot (value args "scope") alg passphrase (value args "not-after") (value args "kid") None))) in
  do* say (formatKey made ++ newline);
  ret 0.

Definition cmdIssueSigning (argv : list jsstr) : cli W Z :=
  let* args := values_of ["store"; "alg"; "scope"; "kid"; "root-kid"; "not-after"]%string argv in
  let* alg := lift (requireAlg (value args "alg")) in
  let* rootKid := lift (requireFlag (value args "root-kid") "--root-kid") in
  let* rootPassphrase := lift (requireEnv (ro_env opts) "LICENSING_ROOT_PASSPHRASE") in
  let* signingPassphrase := lift (requireEnv (ro_env opts) "LICENSING_SIGNING_PASSPHRASE") in
  let* backend := lift (resolveBackend alg) in
  let* issued := call (with_store (issueSigning (KS := file_key_store (store_path args)) [(alg, backend)] default_kid
    (mkIssueSigning (value args "scope") alg rootKid rootPassphrase signingPassphrase (value args "not-after") (value args "kid")))) in
  do* say (formatKey issued ++ newline);
  ret 0.

Definition cmdRotate (argv : list jsstr) : cli W Z :=
  let* args := values_of ["store"; "alg"; "scope"; "kid"; "root-kid"; "retire-at"]%string argv in
  let* alg := lift (requireAlg (value args "alg")) in
  let* rootKid := lift (requireFlag (value args "root-kid") "--root-kid") in
  let* rootPassphrase := lift (requireEnv (ro_env opts) "LICENSING_ROOT_PASSPHRASE") in
  let* signingPassphrase := lift (requireEnv (ro_env opts) "LICENSING_SIGNING_PASSPHRASE") in
  let* backend := lift (resolveBackend alg) in
  let* (outgoing, incoming) := call (with_store (rotateSigning (KS := file_key_store (store_path args)) [(alg, backend)] default_kid
    (mkRotateSigning (value args "scope") alg rootKid rootPassphrase signingPassphrase
       (option_map Some (value args "retire-at")) (value args "kid")))) in
  do* say (js "retiring:" ++ newline ++ formatKey outgoing ++ newline ++ newline ++ js "active:" ++ newline
           ++ formatKey incoming ++ newline);
  ret 0.

(** The filters of [list] are compared as text. *)
Definition text_passes (filter : option jsstr) (text : jsstr) : bool :=
  match filter with Some f => str_eqb text f | None => true end.

Definition list_passes (args : list (jsstr * jsstr)) (rec : LicenseKey) : bool :=
  match value args "scope" with Some scope => bool_decide (k_scope_id rec = Some scope) | None => true end
  && text_passes (value args "role") (role_str (k_role rec)) && text_passes (value args "state") (key_state_str (k_state rec))
  && text_passes (value args "alg") (alg_str (k_alg rec)).

Fixpoint say_keys (records : list LicenseKey) : cli W unit :=
  match records with
  | [] => ret tt
  | rec :: records' => do* say (formatKey rec ++ newline); say_keys records'
  end.

Definition cmdList (argv : list jsstr) : cli W Z :=
  let* args := values_of ["store"; "role"; "state"; "scope"; "alg"]%string argv in
  let* records := call (with_store (file_select (store_path args) (list_passes args))) in
  match records with
  | [] => do* say (js "(no keys)" ++ newline); ret 0
  | _ => do* say_keys records; ret 0
  end.

Definition reportError (e : CliError) : cli W Z :=
  match e with
  | UsageError message => do* complain (js "licensing-keys: " ++ message ++ newline); ret 1
  | Failed (LicensingError code _ as e) =>
      do* complain (js "licensing-keys: " ++ error_code_str code ++ js ": " ++ error_message e ++ newline); ret 1
  | Failed e => do* complain (js "licensing-keys: unexpected error:" ++ newline ++ error_stack e ++ newline); ret 2
  end.

Definition run : cli W Z :=
  match ro_argv opts with
  | [] => do* say USAGE; ret 0
  | cmd :: rest =>
      if bool_decide (cmd = []) || bool_decide (cmd ∈ map js ["--help"; "-h"; "help"]%string) then do* say USAGE; ret 0
      else
        let command (name : String.string) := bool_decide (cmd = js name) in
        try_catch
          (if command "make-root"%string then cmdMakeRoot rest
           else if command "issue-signing"%string then cmdIssueSigning rest
           else if command "rotate"%string then cmdRotate rest
           else if command "list"%string then cmdList rest
           else do* complain (js "licensing-keys: unknown command: " ++ cmd ++ newline ++ USAGE); ret 1)
          reportError
  end.
End Commands.
