(* ===== verification/CliProps.v ===== *)
(** * CliProps: exit codes, and a session of the command line *)

From S2P Require Import Prelude Errors JsNum Text Json Types Crypto TokenCodec LicenseKeyFormat Storage Memory EncryptedPkcs8 EncryptedPkcs8Props KeyHierarchy KeyHierarchyProps Http TokenFile TokenFileProps Stringify KeyFile KeyFileProps Backends BackendsProps Cli.

Section Exit.
Context {NC : NodeCrypto} {KR : KeyRuntime} {P : Pbes2}.
Context {NT : NumberText} {JH : JsonHost} {FR : ForeignRecords} {EM : ErrorMessages} {ES : ErrorStacks}.
Context {W : Type} {HC : HasClock W} {HE : HasEntropy W} {KF : KeyFiles W}.
#[local] Existing Instance node_handles.
#[local] Remove Hints toy.handles toy_node : typeclass_instances.

(** A step that prints nothing. *)
Definition silent {A} (c : cli W A) : Prop := forall v, (c v).2.2 = v.2.

(** A step that prints on the output only, and only as it succeeds, with the
    exit code 0. *)
Definition succeeds_or_throws (c : cli W Z) : Prop := forall v,
  match c v with
  | (Ok code, v') => code = 0 /\ c_stderr v'.2 = c_stderr v.2
  | (Throw _, v') => v'.2 = v.2
  end.

Lemma silent_call {A} (c : prog W A) : silent (call c).
Proof. intros [w con]. unfold call. cbn [fst snd]. by destruct (c w) as [[a|e] w']. Qed.
Lemma silent_lift {A} (r : result CliError A) : silent (lift r).
Proof. by intros v. Qed.

Lemma sot_bind {A} (c : cli W A) k : silent c -> (forall a, succeeds_or_throws (k a)) -> succeeds_or_throws (bind c k).
Proof.
  intros Hc Hk v. unfold bind. specialize (Hc v). destruct (c v) as [[a|e] v1]; cbn [snd] in Hc; [|done].
  specialize (Hk a v1). destruct (k a v1) as [[code|e] v2]; rewrite Hc in Hk; done.
Qed.

Lemma sot_said (c : cli W unit) :
  (forall v, exists con, c v = (Ok tt, (v.1, con)) /\ c_stderr con = c_stderr v.2) -> succeeds_or_throws (do* c; ret 0).
Proof. intros Hc v. unfold bind. destruct (Hc v) as (con & -> & Hs). done. Qed.

Lemma say_said s v : exists con, (say s : cli W unit) v = (Ok tt, (v.1, con)) /\ c_stderr con = c_stderr v.2.
Proof. by eexists. Qed.

Lemma say_keys_said records v : exists con, (say_keys records : cli W unit) v = (Ok tt, (v.1, con)) /\ c_stderr con = c_stderr v.2.
Proof.
  revert v. induction records as [|r records IH]; intros v; [destruct v; by eexists|]. cbn [say_keys]. unfold bind.
  destruct (say_said (formatKey r ++ newline) v) as (con & -> & H1). destruct (IH (v.1, con)) as (con' & -> & H2).
  exists con'. split; [done|]. by rewrite H2.
Qed.

Ltac sot := repeat first
  [ apply sot_bind; [first [apply silent_call | apply silent_lift]|intros; cbv beta; repeat match goal with x : (_ * _)%type |- _ => destruct x end]
  | apply sot_said; first [apply say_said | apply say_keys_said] ].

Lemma make_root_sot opts argv : succeeds_or_throws (cmdMakeRoot opts argv).
Proof. unfold cmdMakeRoot, values_of. sot. Qed.
Lemma issue_sot opts argv : succeeds_or_throws (cmdIssueSigning opts argv).
Proof. unfold cmdIssueSigning, values_of. sot. Qed.
Lemma rotate_sot opts argv : succeeds_or_throws (cmdRotate opts argv).
Proof. unfold cmdRotate, values_of. sot. Qed.
Lemma list_sot argv : succeeds_or_throws (cmdList argv : cli W Z).
Proof. unfold cmdList, values_of. sot. match goal with |- context [match ?l with _ => _ end] => destruct l end; sot. Qed.

(** A passphrase is missing for one of the three commands that need it. *)
Definition lacks_passphrase (opts : RunOptions) : Prop :=
  (exists rest, ro_argv opts = js "make-root" :: rest \/ ro_argv opts = js "issue-signing" :: rest \/ ro_argv opts = js "rotate" :: rest)
  /\ (ro_env opts (js "LICENSING_ROOT_PASSPHRASE") = None \/ ro_env opts (js "LICENSING_ROOT_PASSPHRASE") = Some []).

Lemma lacking_env opts : lacks_passphrase opts -> exists m, requireEnv (ro_env opts) "LICENSING_ROOT_PASSPHRASE" = Throw (UsageError m).
Proof. intros [_ H]. unfold requireEnv. destruct H as [-> | ->]; eauto. Qed.

(** What a command refuses for want of a passphrase has not reached the
    library. *)
Lemma lacking_untouched opts v :
  lacks_passphrase opts ->
  (forall argv, exists e, cmdMakeRoot opts argv v = (Throw e, v))
  /\ (forall argv, exists e, cmdIssueSigning opts argv v = (Throw e, v))
  /\ (forall argv, exists e, cmdRotate opts argv v = (Throw e, v)).
Proof.
  intros Hl. destruct (lacking_env opts Hl) as [m Hm]. destruct v as [w con].
  assert (Hv : forall names argv, (exists vs, values_of names argv (w, con) = (Ok vs, (w, con)))
                                  \/ exists e, values_of names argv (w, con) = (Throw e, (w, con))).
  { intros names argv. unfold values_of, call, lift. cbn [fst snd]. destruct (parseArgs names argv); eauto. }
  split_and!; intros argv; [unfold cmdMakeRoot|unfold cmdIssueSigning|unfold cmdRotate]; unfold bind at 1;
    (match goal with |- context [values_of ?n ?a] => destruct (Hv n a) as [[vs ->]|[e ->]] end; [|by eexists]);
    unfold bind, lift; (destruct (requireAlg _); [|by eexists]); rewrite ?Hm; try (by eexists);
    (destruct (requireFlag _ _); [|by eexists]); rewrite ?Hm; by eexists.
Qed.

(** C34: every run of the command line ends, with the exit code 0, 1 or 2. It
    is 0 when nothing was printed on the error channel; otherwise exactly one
    message was, and nothing on the output. A
    command that creates keys without a non-empty root passphrase in the
    environment never exits with 0 and leaves the file system, the clock and
    the entropy as they were. *)
Theorem cli_exit_codes opts w con :
  exists code w' con', run opts (w, con) = (Ok code, (w', con'))
  /\ (code = 0 /\ c_stderr con' = c_stderr con
      \/ (code = 1 \/ code = 2) /\ c_stdout con' = c_stdout con /\ exists m, c_stderr con' = c_stderr con ++ [m])
  /\ (lacks_passphrase opts -> code <> 0 /\ w' = w).
Proof.
  assert (Hrep : forall e (v : W * Console), exists code m, reportError e v = (Ok code, (v.1, mkConsole (c_stdout v.2) (c_stderr v.2 ++ [m])))
                                        /\ (code = 1 \/ code = 2)).
  { intros [m|[c d|c d|c| |]] v; cbn; eexists _, _; (split; [reflexivity|]); auto. }
  unfold run. destruct (ro_argv opts) as [|cmd rest] eqn:Ea.
  { eexists _, _, _. split; [reflexivity|]. split; [by left|]. intros [(r & H) _]. rewrite Ea in H. naive_solver. }
  destruct (bool_decide (cmd = []) || _) eqn:Eh.
  { eexists _, _, _. split; [reflexivity|]. split; [by left|]. intros [(r & H) _]. rewrite Ea in H. exfalso.
    assert (Hc : cmd = js "make-root" \/ cmd = js "issue-signing" \/ cmd = js "rotate") by naive_solver.
    destruct Hc as [-> | [-> | ->]]; by vm_compute in Eh. }
  unfold try_catch.
  assert (Hgo : forall c : cli W Z, succeeds_or_throws c -> (lacks_passphrase opts -> exists e, c (w, con) = (Throw e, (w, con))) ->
    exists code w' con',
      match c (w, con) with (Ok a, w') => (Ok a, w') | (Throw e, w') => reportError e w' end = (Ok code, (w', con'))
      /\ (code = 0 /\ c_stderr con' = c_stderr con
          \/ (code = 1 \/ code = 2) /\ c_stdout con' = c_stdout con /\ exists m, c_stderr con' = c_stderr con ++ [m])
      /\ (lacks_passphrase opts -> code <> 0 /\ w' = w)).
  { intros c Hc Hl. specialize (Hc (w, con)). destruct (c (w, con)) as [[code|e] [w1 con1]]; cbn [fst snd] in Hc.
    - destruct Hc as [-> Hs]. eexists _, _, _. split; [reflexivity|]. split; [by left|].
      intros H. by destruct (Hl H) as [e He].
    - subst con1. destruct (Hrep e (w1, con)) as (code & m & -> & Hcode). cbn [fst snd]. eexists _, _, _. split; [reflexivity|].
      split; [right; split; [done|]; split; [done|]; by exists m|]. intros H. destruct (Hl H) as [e' He]. injection He as _ ->.
      split; [by destruct Hcode as [-> | ->]|done]. }
  clear Eh. pose proof (fun H => lacking_untouched opts (w, con) H) as Hun.
  case_bool_decide; [apply Hgo; [apply make_root_sot|intros Hlack; by apply Hun]|].
  case_bool_decide; [apply Hgo; [apply issue_sot|intros Hlack; by apply Hun]|].
  case_bool_decide; [apply Hgo; [apply rotate_sot|intros Hlack; by apply Hun]|].
  assert (Hno : ~ lacks_passphrase opts) by (intros [(r & Hr) _]; rewrite Ea in Hr; naive_solver).
  case_bool_decide; [apply Hgo; [apply list_sot|done]|].
  unfold bind, complain, ret. cbn [fst snd]. eexists _, _, _. split; [reflexivity|]. split; [|done].
  right. split; [by left|]. split; [done|]. by eexists.
Qed.
End Exit.

(** ** A session *)

#[local] Existing Instances plain_numbers node_handles.
#[local] Remove Hints toy.handles toy_node kw_key_store : typeclass_instances.

(** A machine: a disk, and the clock and entropy of [KeyWorld]. *)
Definition Machine : Type := Disk * KeyWorld.
Definition with_disk {A} (c : prog Disk A) : prog Machine A := fun m => let '(r, d) := c m.1 in (r, (d, m.2)).
Definition with_clock {A} (c : prog KeyWorld A) : prog Machine A := fun m => let '(r, k) := c m.2 in (r, (m.1, k)).
#[local] Instance machine_clock : HasClock Machine := {| nowMs := with_clock nowMs; nowIso := with_clock nowIso |}.
#[local] Instance machine_entropy : HasEntropy Machine := {| randomFill := fun n => with_clock (randomFill n) |}.
#[local] Instance machine_files : KeyFiles Machine := {|
  existsSync := fun p => with_disk (existsSync p); readFileSync := fun p => with_disk (readFileSync p);
  writeFileSync := fun p b => with_disk (writeFileSync p b); openSync := fun p => with_disk (openSync p);
  fsyncSync := fun fd => with_disk (fsyncSync fd); closeSync := fun fd => with_disk (closeSync fd);
  renameSync := fun a b => with_disk (renameSync a b); kf_tag := with_disk kf_tag
|}.
#[local] Instance no_stacks : ErrorStacks := {| error_stack := fun _ => js "stack" |}.
#[local] Instance bare_messages : ErrorMessages := {| error_message := fun _ => js "message" |}.

Definition both_passphrases (name : jsstr) : option jsstr :=
  if bool_decide (name = js "LICENSING_ROOT_PASSPHRASE") then Some (js "root-pw")
  else if bool_decide (name = js "LICENSING_SIGNING_PASSPHRASE") then Some (js "sign-pw") else None.

(** One process: its exit code and what it printed. *)
Definition process (env : jsstr -> option jsstr) (argv : list String.string) (m : Machine) : option Z * Console * Machine :=
  let '(r, (m, con)) := run (mkRun (map js argv) env []) (m, mkConsole [] []) in
  (match r with Ok code => Some code | Throw _ => None end, con, m).

Definition machine : Machine := (mkDisk [] 99, key_world).

(** Root, signing key, rotation and listing, each in a process of its own,
    with RSA keys. *)
Definition session : list (option Z) * list jsstr :=
  let '(c1, _, m) := process both_passphrases ["make-root"; "--alg"; "rs256-pss"; "--kid=r1"]%string machine in
  let '(c2, _, m) := process both_passphrases ["issue-signing"; "--alg"; "rs256-pss"; "--root-kid"; "r1"; "--kid"; "s1"]%string m in
  let '(c3, _, m) := process both_passphrases ["rotate"; "--alg"; "rs256-pss"; "--root-kid"; "r1"; "--kid"; "s2"]%string m in
  let '(c4, con, m) := process (fun _ => None) ["list"; "--role"; "signing"]%string m in
  ([c1; c2; c3; c4], c_stdout con).

Definition line (i : nat) (s : jsstr) : jsstr := nth i (split_on 10 s) [].

Example session_runs :
  session.1 = [Some 0; Some 0; Some 0; Some 0]
  /\ map (fun s => (line 1 s, line 4 s)) session.2
     = [(js "  kid:        s1", js "  state:      retiring"); (js "  kid:        s2", js "  state:      active")].
Proof. vm_compute. split; reflexivity. Qed.

(** No passphrase, no key: the run is refused and the disk is as it was. *)
Lemma cli_exit_codes_witness :
  let opts := mkRun [js "make-root"; js "--alg"; js "ed25519"] (fun _ => None) [] in
  lacks_passphrase opts
  /\ exists code con, run opts (machine, mkConsole [] []) = (Ok code, (machine, con)) /\ code <> 0.
Proof.
  cbv zeta. set (opts := mkRun _ _ _).
  assert (Hl : lacks_passphrase opts) by (split; [eexists; by left|by left]).
  split; [exact Hl|].
  destruct (cli_exit_codes opts machine (mkConsole [] [])) as (code & w' & con' & Hrun & _ & Hlack).
  destruct (Hlack Hl) as [Hcode ->]. exists code, con'. split; [exact Hrun|exact Hcode].
Defined.

(** The usage text offers [hs256]; the hierarchy refuses it. *)
Example hs256_is_refused :
  let '(code, con, _) := process both_passphrases ["make-root"; "--alg"; "hs256"]%string machine in
  code = Some 1 /\ c_stderr con = [js "licensing-keys: UnsupportedAlgorithm: message" ++ newline].
Proof. vm_compute. split; reflexivity. Qed.

(** A mistyped option is reported as an unexpected error. *)
Example mistyped_option :
  let '(code, con, _) := process both_passphrases ["make-root"; "--algo"; "ed25519"]%string machine in
  code = Some 2 /\ c_stderr con = [js "licensing-keys: unexpected error:" ++ newline ++ js "stack" ++ newline].
Proof. vm_compute. split; reflexivity. Qed.

(** A rotation under a wrong root passphrase fails, and so does the next one
    under the right one: the file no longer has an active signing key. *)
Definition wrong_root (name : jsstr) : option jsstr :=
  if bool_decide (name = js "LICENSING_ROOT_PASSPHRASE") then Some (js "wrong") else both_passphrases name.

Example wrong_passphrase_strands_the_file :
  let rotate env := process env ["rotate"; "--alg"; "rs256-pss"; "--root-kid"; "r1"]%string in
  let '(_, _, m) := process both_passphrases ["make-root"; "--alg"; "rs256-pss"; "--kid=r1"]%string machine in
  let '(_, _, m) := process both_passphrases ["issue-signing"; "--alg"; "rs256-pss"; "--root-kid"; "r1"]%string m in
  let '(c3, _, m) := rotate wrong_root m in
  let '(c4, _, m) := rotate both_passphrases m in
  let '(_, con, _) := process (fun _ => None) ["list"; "--role"; "signing"; "--state"; "active"]%string m in
  (c3, c4, c_stdout con) = (Some 1, Some 1, [js "(no keys)" ++ newline]).
Proof. vm_compute. reflexivity. Qed.
