(* ===== verification/SqlErrors.v ===== *)
(** * SqlErrors: what the SQL adapters make of a driver's error

    [src/typescript/src/storage/sqlite/errors.ts] and
    [src/typescript/src/storage/postgres/errors.ts]. An error is what the
    driver throws, by the fields the source reads; a mapping throws an error
    of the library, or the driver's own again. *)

From S2P Require Import Prelude Errors JsNum Text Json TokenCodec LicenseKeyFormat Http.

(** What a driver throws: an object with a message, or something else. *)
Inductive Thrown : Type :=
| DriverError (code constraint detail : option jsstr) (message : jsstr)
| OtherThrown.

(** The mapping's own throw: the library's error, or [e] rethrown. *)
Abbreviation mapped := (exn + Thrown)%type.

(** [errors.immutableAuditLog] *)
Definition immutableAuditLog : exn := LicensingError ImmutableAuditLog NoDetails.

(** ** The regular expressions *)

Definition ci_eqb (a b : Z) : bool := lower_ascii a =? lower_ascii b.

Fixpoint ci_strip (pat s : jsstr) : option jsstr :=
  match pat, s with
  | [], _ => Some s
  | p :: pat', c :: s' => if ci_eqb p c then ci_strip pat' s' else None
  | _, [] => None
  end.

(** What follows the first occurrence of [pat], in any case. *)
Fixpoint ci_after (pat s : jsstr) : option jsstr :=
  match ci_strip pat s with
  | Some rest => Some rest
  | None => match s with [] => None | _ :: s' => ci_after pat s' end
  end.

(** [/pat/i.test(s)] *)
Definition ci_test (pat s : jsstr) : bool := match ci_after pat s with Some _ => true | None => false end.

Fixpoint drop_space (s : jsstr) : jsstr :=
  match s with c :: s' => if is_trim_space c then drop_space s' else s | [] => [] end.

Definition line_end (c : Z) : bool := (c =? 10) || (c =? 13) || (c =? 0x2028) || (c =? 0x2029).

Fixpoint to_line_end (s : jsstr) : jsstr :=
  match s with c :: s' => if line_end c then [] else c :: to_line_end s' | [] => [] end.

(** What stands before and after the first ['.']. *)
Fixpoint at_dot (s : jsstr) : option (jsstr * jsstr) :=
  match s with
  | [] => None
  | c :: s' => if c =? 46 then Some ([], s') else match at_dot s' with Some (a, b) => Some (c :: a, b) | None => None end
  end.

(** [/UNIQUE constraint failed:\s*(.+)/i]: the table of the first column, and
    the columns. When only white space follows, the group holds some of it or
    nothing, and no column. *)
Definition parseUniqueFailure (msg : jsstr) : option (jsstr * list jsstr) :=
  match ci_after (js "UNIQUE constraint failed:") msg with
  | None => None
  | Some rest =>
      match mapM (fun s => at_dot (js_trim s)) (split_on 44 (to_line_end (drop_space rest))) with
      | None => None
      | Some parts => Some (match parts with (table, _) :: _ => table | [] => [] end, parts.*2)
      end
  end.

(** The value of [column] in a [detail] text:
    [/\(column\)=\(([^)]+)\)/.exec(detail)?.[1]]. *)
Fixpoint take_paren (s : jsstr) : option jsstr :=
  match s with
  | [] => None
  | c :: s' => if c =? 41 then Some [] else match take_paren s' with Some v => Some (c :: v) | None => None end
  end.

Fixpoint strip (pat s : jsstr) : option jsstr :=
  match pat, s with
  | [], _ => Some s
  | p :: pat', c :: s' => if p =? c then strip pat' s' else None
  | _, [] => None
  end.

Fixpoint detail_value (column s : jsstr) : option jsstr :=
  match strip (js "(" ++ column ++ js ")=(") s with
  | Some rest =>
      match take_paren rest with
      | Some (c :: v) => Some (c :: v)
      | _ => match s with [] => None | _ :: s' => detail_value column s' end
      end
  | None => match s with [] => None | _ :: s' => detail_value column s' end
  end.

(** ** SQLite *)

Definition constraint_names : list (jsstr * jsstr) := map (fun kv => (js kv.1, js kv.2))
  [("licenses:license_key", "licenses_license_key_key");
   ("licenses:licensable_type,licensable_id,scope_id", "licenses_scoped_triple_key");
   ("licenses:licensable_type,licensable_id", "licenses_global_pair_key");
   ("license_scopes:slug", "license_scopes_slug_key");
   ("license_templates:scope_id,name", "license_templates_scope_name_key");
   ("license_templates:name", "license_templates_global_name_key");
   ("license_usages:license_id,fingerprint", "license_usages_active_fp_key");
   ("license_keys:kid", "license_keys_kid_key");
   ("license_keys:scope_id", "license_keys_active_signing_scoped_key");
   ("license_keys:role", "license_keys_active_signing_global_key")]%string.

Definition columns_text (columns : list jsstr) : jsstr := join (js ",") columns.

Definition nameConstraint (table : jsstr) (columns : list jsstr) : option jsstr :=
  map_get constraint_names (table ++ js ":" ++ columns_text columns).

Definition immutable_audit (message : jsstr) : bool := ci_test (js "ImmutableAuditLog") message.

Definition is_name (constraint : option jsstr) (names : list String.string) : bool :=
  match constraint with Some c => bool_decide (c ∈ map js names) | None => false end.

(** The error for a parsed failure. *)
Definition sqlite_violation (table : jsstr) (columns : list jsstr) : exn :=
  let constraint := nameConstraint table columns in
  let violation name value := errors.uniqueConstraintViolation (js name) value in
  if is_name constraint ["licenses_license_key_key"]%string then errors.licenseKeyConflict (js "unknown")
  else if is_name constraint ["licenses_scoped_triple_key"; "licenses_global_pair_key"]%string
  then violation "licensable_scope"%string (columns_text columns)
  else if is_name constraint ["license_scopes_slug_key"]%string then violation "slug"%string (js "unknown")
  else if is_name constraint ["license_templates_scope_name_key"; "license_templates_global_name_key"]%string
  then violation "scope_name"%string (columns_text columns)
  else if is_name constraint ["license_usages_active_fp_key"]%string
  then violation "license_fingerprint_active"%string (columns_text columns)
  else if is_name constraint ["license_keys_kid_key"]%string then violation "kid"%string (js "unknown")
  else if is_name constraint ["license_keys_active_signing_scoped_key"; "license_keys_active_signing_global_key"]%string
  then violation "scope_active_signing"%string (columns_text columns)
  else errors.uniqueConstraintViolation (given_or constraint (table ++ js "." ++ columns_text columns)) (columns_text columns).

Definition mapSqliteError (e : Thrown) : mapped :=
  match e with
  | OtherThrown => inr e
  | DriverError code _ _ message =>
      match (if bool_decide (code = Some (js "SQLITE_CONSTRAINT_UNIQUE")) || ci_test (js "UNIQUE constraint failed") message
             then parseUniqueFailure message else None) with
      | Some (table, columns) => inl (sqlite_violation table columns)
      | None => if immutable_audit message then inl immutableAuditLog else inr e
      end
  end.

(** ** PostgreSQL *)

Definition pg_violation (c : jsstr) (detail : option jsstr) : exn :=
  let named names := is_name (Some c) names in
  let column name := given_or (detail_value (js name) (given_or detail [])) (js "unknown") in
  let violation name value := errors.uniqueConstraintViolation (js name) value in
  if named ["licenses_license_key_key"]%string then errors.licenseKeyConflict (column "license_key"%string)
  else if named ["licenses_scoped_triple_key"; "licenses_global_pair_key"]%string
  then violation "licensable_scope"%string (given_or detail (js "(licensable_type, licensable_id, scope_id)"))
  else if named ["license_scopes_slug_key"]%string then violation "slug"%string (column "slug"%string)
  else if named ["license_templates_scope_name_key"; "license_templates_global_name_key"]%string
  then violation "scope_name"%string (given_or detail (js "(scope_id, name)"))
  else if named ["license_usages_active_fp_key"]%string
  then violation "license_fingerprint_active"%string (given_or detail (js "(license_id, fingerprint)"))
  else if named ["license_keys_kid_key"]%string then violation "kid"%string (column "kid"%string)
  else if named ["license_keys_active_signing_scoped_key"; "license_keys_active_signing_global_key"]%string
  then violation "scope_active_signing"%string (given_or detail (js "(scope_id, role, state)"))
  else errors.uniqueConstraintViolation c (given_or detail []).

(** An empty constraint is falsy. *)
Definition mapPgError (e : Thrown) : mapped :=
  match e with
  | OtherThrown => inr e
  | DriverError code constraint detail message =>
      match bool_decide (code = Some (js "23505")), constraint with
      | true, Some ((_ :: _) as c) => inl (pg_violation c detail)
      | _, _ =>
          if bool_decide (code = Some (js "P0001")) && immutable_audit message then inl immutableAuditLog else inr e
      end
  end.

(** ** The constraints of the schema *)

(** A unique index of the migrations: its name, table and columns. *)
Record UniqueIndex : Type := mkIndex { ix_name : jsstr; ix_table : jsstr; ix_columns : list jsstr }.

Definition index (name table : String.string) (columns : list String.string) : UniqueIndex :=
  mkIndex (js name) (js table) (map js columns).

(** [migrations/sqlite/], in order; those of [migrations/postgres/] have the
    same names. *)
Definition unique_indexes : list UniqueIndex :=
  [index "license_scopes_slug_key" "license_scopes" ["slug"];
   index "license_templates_scope_name_key" "license_templates" ["scope_id"; "name"];
   index "license_templates_global_name_key" "license_templates" ["name"];
   index "licenses_license_key_key" "licenses" ["license_key"];
   index "licenses_scoped_triple_key" "licenses" ["licensable_type"; "licensable_id"; "scope_id"];
   index "licenses_global_pair_key" "licenses" ["licensable_type"; "licensable_id"];
   index "license_usages_active_fp_key" "license_usages" ["license_id"; "fingerprint"];
   index "license_keys_kid_key" "license_keys" ["kid"];
   index "license_keys_active_signing_scoped_key" "license_keys" ["scope_id"];
   index "license_keys_active_signing_global_key" "license_keys" ["role"];
   index "trial_issuances_template_fp_key" "trial_issuances" ["template_id"; "fingerprint_hash"];
   index "trial_issuances_global_fp_key" "trial_issuances" ["fingerprint_hash"]]%string.

(** What SQLite says when a write violates the index. *)
Definition sqlite_message (ix : UniqueIndex) : jsstr :=
  js "UNIQUE constraint failed: " ++ join (js ", ") (map (fun c => ix_table ix ++ js "." ++ c) (ix_columns ix)).
Definition sqlite_failure (ix : UniqueIndex) : Thrown :=
  DriverError (Some (js "SQLITE_CONSTRAINT_UNIQUE")) None None (sqlite_message ix).

(** What PostgreSQL says, with the detail it gives. *)
Definition pg_failure (ix : UniqueIndex) (detail message : jsstr) : Thrown :=
  DriverError (Some (js "23505")) (Some (ix_name ix)) (Some detail) message.

(** The code of an error and the constraint it names, without the value. *)
Definition violated (m : mapped) : option (LicensingErrorCode * option jsstr) :=
  match m with
  | inl (LicensingError UniqueConstraintViolation (Strings (constraint :: _))) => Some (UniqueConstraintViolation, Some constraint)
  | inl (LicensingError code _) => Some (code, None)
  | _ => None
  end.

Definition core_index (ix : UniqueIndex) : bool := negb (bool_decide (ix_table ix = js "trial_issuances")).

(** The drivers' errors for a violated constraint of the core tables map to
    the same code and constraint, whatever PostgreSQL puts in its texts. *)
Lemma drivers_agree ix detail message :
  ix ∈ unique_indexes -> core_index ix = true ->
  violated (mapSqliteError (sqlite_failure ix)) = violated (mapPgError (pg_failure ix detail message)).
Proof.
  unfold unique_indexes. rewrite !elem_of_cons, elem_of_nil. intros H Hc.
  repeat (destruct H as [->|H]; [try (vm_compute in Hc; discriminate); reflexivity|]). done.
Qed.

(** Those of the trial table do not: each adapter surfaces a name of its own. *)
Example trial_constraint_differs :
  violated (mapSqliteError (sqlite_failure (index "trial_issuances_template_fp_key" "trial_issuances" ["template_id"; "fingerprint_hash"]%string)))
  = Some (UniqueConstraintViolation, Some (js "trial_issuances.template_id,fingerprint_hash"))
  /\ violated (mapPgError (pg_failure (index "trial_issuances_template_fp_key" "trial_issuances" ["template_id"; "fingerprint_hash"]%string) [] []))
  = Some (UniqueConstraintViolation, Some (js "trial_issuances_template_fp_key")).
Proof. vm_compute. split; reflexivity. Qed.

(** What no rule matches goes on as it was thrown. *)
Lemma sqlite_rethrows e : (exists x, mapSqliteError e = inl x) \/ mapSqliteError e = inr e.
Proof. destruct e as [code c d m|]; cbn; [|by right]. repeat case_match; eauto. Qed.
Lemma pg_rethrows e : (exists x, mapPgError e = inl x) \/ mapPgError e = inr e.
Proof. destruct e as [code c d m|]; cbn; [|by right]. repeat case_match; eauto. Qed.

Example pg_detail :
  detail_value (js "license_key") (js "Key (license_key)=(LIC-A) already exists.") = Some (js "LIC-A").
Proof. reflexivity. Qed.
