(* ===== verification/SqlSetup.v ===== *)
(** * SqlSetup: migrations and the replay table of the SQL adapters

    [migrations.ts] and [jti-ledger.ts] of
    [src/typescript/src/storage/sqlite/] and [.../postgres/]. The database is
    the environment's, one method per statement the source sends. *)

From S2P Require Import Prelude Errors JsNum Text Json Types Crypto TokenCodec Storage Stats Validate ValidateProps.

(** ** Migrations *)

(** The directory of migration files. *)
Class MigrationFiles (W : Type) : Type := {
  readdirSync : prog W (list jsstr);
  readMigration : jsstr -> prog W jsstr
}.

(** The statements: the table of applied migrations created if missing, a row
    of it looked up and inserted, a transaction, a migration's own SQL. *)
Class Database (W : Type) : Type := {
  db_ensure : prog W unit;
  db_selects : jsstr -> prog W bool;
  db_insert : jsstr -> prog W unit;
  db_begin : prog W unit;
  db_commit : prog W unit;
  db_rollback : prog W unit;
  db_run : jsstr -> prog W unit
}.

(** A pool hands out the connection and takes it back. *)
Class Pool (W : Type) : Type := { pool_connect : prog W unit; pool_release : prog W unit }.

Record Migration : Type := mkMigration { mg_name : jsstr; mg_sql : jsstr }.

Definition ends_with (suffix s : jsstr) : bool :=
  bool_decide (drop (List.length s - List.length suffix) s = suffix).

Section Migrations.
Context {W : Type} {MF : MigrationFiles W} {DB : Database W}.

Fixpoint read_all (names : list jsstr) : prog W (list Migration) :=
  match names with
  | [] => ret []
  | name :: names' =>
      let* sql := readMigration name in
      let* migs := read_all names' in
      ret (mkMigration name sql :: migs)
  end.

Definition loadMigrations : prog W (list Migration) :=
  let* files := readdirSync in
  read_all (merge_sort str_le (List.filter (ends_with (js ".sql")) files)).

Definition apply_one (mig : Migration) : prog W unit :=
  do* db_begin;
  try_catch (do* db_run (mg_sql mig); do* db_insert (mg_name mig); db_commit)
            (fun err => do* db_rollback; throw err).

(** The loop; [applied] is in order. *)
Fixpoint apply_loop (migs : list Migration) (applied : list jsstr) : prog W (list jsstr) :=
  match migs with
  | [] => ret applied
  | mig :: migs' =>
      let* isApplied := db_selects (mg_name mig) in
      if isApplied : bool then apply_loop migs' applied
      else do* apply_one mig; apply_loop migs' (applied ++ [mg_name mig])
  end.

Definition sqlite_applyMigrations : prog W (list jsstr) :=
  let* migrations := loadMigrations in
  do* db_ensure;
  apply_loop migrations [].

Definition pg_applyMigrations {PO : Pool W} : prog W (list jsstr) :=
  let* migrations := loadMigrations in
  do* pool_connect;
  fun w =>
    let '(r, w) := (do* db_ensure; apply_loop migrations []) w in
    match pool_release w with
    | (Ok _, w) => (r, w)
    | (Throw e, w) => (Throw e, w)
    end.

Definition listMigrations : prog W (list jsstr) := let* migs := loadMigrations in ret (map mg_name migs).
End Migrations.

(** What a transactional database promises, over an abstract content [db]
    with the names recorded in it. [tx] is the content an open transaction
    goes back to. *)
Class DatabaseLaws (W : Type) {DB : Database W} : Type := {
  content : Type;
  db : W -> content;
  tx : W -> option content;
  names_in : content -> list jsstr;
  exec : jsstr -> content -> content;
  mark : jsstr -> content -> content;
  names_exec : forall sql d, names_in (exec sql d) = names_in d;
  names_mark : forall n d, names_in (mark n d) = names_in d ++ [n];
  ensure_law : forall w, db (db_ensure w).2 = db w /\ tx (db_ensure w).2 = tx w;
  selects_law : forall n w, db (db_selects n w).2 = db w /\ tx (db_selects n w).2 = tx w
    /\ forall b, (db_selects n w).1 = Ok b -> b = bool_decide (n ∈ names_in (db w));
  begin_law : forall w, tx w = None ->
    db (db_begin w).2 = db w /\ tx (db_begin w).2 = match (db_begin w).1 with Ok _ => Some (db w) | Throw _ => None end;
  run_law : forall sql w, tx (db_run sql w).2 = tx w /\ ((db_run sql w).1 = Ok tt -> db (db_run sql w).2 = exec sql (db w));
  insert_law : forall n w, tx (db_insert n w).2 = tx w /\ ((db_insert n w).1 = Ok tt -> db (db_insert n w).2 = mark n (db w));
  commit_law : forall w, match db_commit w with
                         | (Ok _, w') => db w' = db w /\ tx w' = None
                         | (Throw _, w') => tx w' = tx w
                         end;
  rollback_law : forall w d, tx w = Some d -> exists w', db_rollback w = (Ok tt, w') /\ db w' = d /\ tx w' = None
}.

Section Applied.
Context {W : Type} {MF : MigrationFiles W} {DB : Database W} {DL : DatabaseLaws W}.

Definition applied_to (d : content) (migs : list Migration) : content :=
  fold_left (fun d m => mark (mg_name m) (exec (mg_sql m) d)) migs d.
Definition pending (d : content) (migs : list Migration) : list Migration :=
  List.filter (fun m => negb (bool_decide (mg_name m ∈ names_in d))) migs.

(** One migration happens whole, recorded, or not at all. *)
Lemma apply_one_whole mig (w : W) :
  tx w = None -> let '(r, w') := apply_one mig w in
  tx w' = None /\ db w' = match r with Ok _ => applied_to (db w) [mig] | Throw _ => db w end.
Proof.
  intros H. unfold apply_one, bind, try_catch. destruct (begin_law w H) as [H1 H2].
  destruct (db_begin w) as [[[]|e] w1]; cbn [fst snd] in *; [|done].
  assert (Hback : forall e w2, tx w2 = Some (db w) ->
    let '(r, w') := match db_rollback w2 with (Ok _, w') => (Throw e, w') | (Throw e', w') => (Throw e', w') end in
    tx w' = None /\ db w' = match (r : res unit) with Ok _ => applied_to (db w) [mig] | Throw _ => db w end).
  { intros e w2 Ht. destruct (rollback_law w2 (db w) Ht) as (w3 & -> & Hd & Hn). done. }
  destruct (run_law (mg_sql mig) w1) as [H3 H4]. destruct (db_run (mg_sql mig) w1) as [[[]|e] w2]; cbn [fst snd] in *;
    [|apply Hback; congruence].
  destruct (insert_law (mg_name mig) w2) as [H5 H6]. destruct (db_insert (mg_name mig) w2) as [[[]|e] w3]; cbn [fst snd] in *;
    [|apply Hback; congruence].
  pose proof (commit_law w3) as H7. destruct (db_commit w3) as [[[]|e] w4]; [|apply Hback; congruence].
  destruct H7 as [-> Hn]. split; [done|]. cbn. by rewrite H6, H4, H1.
Qed.

Lemma names_applied d migs : names_in (applied_to d migs) = names_in d ++ map mg_name migs.
Proof.
  revert d. induction migs as [|m migs IH]; intros d; [by rewrite app_nil_r|]. cbn. change (fold_left _ migs ?d) with (applied_to d migs).
  by rewrite IH, names_mark, names_exec, <- app_assoc.
Qed.

Lemma pending_applied d m migs :
  mg_name m ∉ map mg_name migs -> pending (applied_to d [m]) migs = pending d migs.
Proof.
  intros Hn. unfold pending. apply List.filter_ext_in. intros m' Hm'. f_equal. apply bool_decide_ext.
  rewrite names_applied. cbn. rewrite elem_of_app, list_elem_of_singleton. split; [|by left]. intros [?|E]; [done|].
  destruct Hn. rewrite <- E. apply list_elem_of_fmap. exists m'. split; [done|]. by apply list_elem_of_In.
Qed.

(** The loop applies the pending migrations in order, each at most once: all
    of them, or those before the one that failed. *)
Lemma apply_loop_pending migs done_ (w : W) :
  tx w = None -> NoDup (map mg_name migs) -> let '(r, w') := apply_loop migs done_ w in
  tx w' = None /\ exists now later, pending (db w) migs = now ++ later /\ db w' = applied_to (db w) now
    /\ match r with Ok names => later = [] /\ names = done_ ++ map mg_name now | Throw _ => True end.
Proof.
  revert done_ w. induction migs as [|m migs IH]; intros done_ w Ht Hd; cbn [apply_loop].
  - split; [done|]. exists [], []. split_and!; try done. by rewrite app_nil_r.
  - cbn [map] in Hd. apply NoDup_cons in Hd as [Hn Hd]. unfold bind.
    destruct (selects_law (mg_name m) w) as (H1 & H2 & H3).
    destruct (db_selects (mg_name m) w) as [[b|e] w1]; cbn [fst snd] in *.
    + specialize (H3 b eq_refl). unfold pending. cbn [List.filter]. rewrite <- H3. destruct b; cbn [negb].
      * rewrite <- H1. apply IH; [congruence|done].
      * pose proof (apply_one_whole m w1 ltac:(congruence)) as H4. destruct (apply_one m w1) as [[[]|e] w2].
        -- destruct H4 as [H4 H5]. specialize (IH (done_ ++ [mg_name m]) w2 H4 Hd).
           destruct (apply_loop migs (done_ ++ [mg_name m]) w2) as [r w3].
           destruct IH as (H6 & now & later & Hp & Hdb & Hr). split; [done|].
           rewrite H5, pending_applied, H1 in Hp by done. exists (m :: now), later. split_and!.
           ++ fold (pending (db w) migs). by rewrite Hp.
           ++ by rewrite Hdb, H5, H1.
           ++ destruct r as [names|]; [|done]. destruct Hr as [-> ->]. split; [done|]. by rewrite <- app_assoc.
        -- destruct H4 as [H4 H5]. split; [done|]. exists [], (m :: pending (db w) migs). split_and!; [done| |done]. cbn. congruence.
    + split; [congruence|]. exists [], (pending (db w) (m :: migs)). split_and!; done.
Qed.

(** Applying the migrations of a directory: the pending ones, in the order of
    their names, each once; a failure keeps those already applied and undoes
    the one it hit; a second run finds nothing to do. *)
Lemma migrations_once migs (w : W) :
  (forall w, loadMigrations w = (Ok migs, w)) -> tx w = None -> NoDup (map mg_name migs) ->
  let '(r, w') := sqlite_applyMigrations w in
  tx w' = None /\ (exists now later, pending (db w) migs = now ++ later /\ db w' = applied_to (db w) now
    /\ match r with
       | Ok names => later = [] /\ names = map mg_name now
           /\ let '(r2, w2) := sqlite_applyMigrations w' in db w2 = db w' /\ (forall names2, r2 = Ok names2 -> names2 = [])
       | Throw _ => True
       end).
Proof.
  intros Hload Ht Hd.
  assert (Hrun : forall w, tx w = None -> let '(r, w') := sqlite_applyMigrations w in
    tx w' = None /\ exists now later, pending (db w) migs = now ++ later /\ db w' = applied_to (db w) now
      /\ match r with Ok names => later = [] /\ names = map mg_name now | Throw _ => True end).
  { intros w0 H0. unfold sqlite_applyMigrations, bind. rewrite Hload. destruct (ensure_law w0) as [H1 H2].
    destruct (db_ensure w0) as [[[]|e] w1]; cbn [fst snd] in *.
    - rewrite <- H1. pose proof (apply_loop_pending migs [] w1 ltac:(congruence) Hd) as H. by destruct (apply_loop migs [] w1).
    - split; [congruence|]. exists [], (pending (db w0) migs). split_and!; done. }
  pose proof (Hrun w Ht) as H1. destruct (sqlite_applyMigrations w) as [r w'].
  destruct H1 as (Ht' & now & later & Hp & Hdb & Hr). split; [done|]. exists now, later. split; [done|]. split; [done|].
  destruct r as [names|]; [|done]. destruct Hr as [-> ->]. split; [done|]. split; [done|].
  assert (Hnone : pending (db w') migs = []).
  { unfold pending. rewrite app_nil_r in Hp.
    destruct (List.filter _ migs) as [|m l] eqn:E; [done|]. exfalso.
    assert (Hm : In m (m :: l)) by (by left). rewrite <- E in Hm. apply List.filter_In in Hm as [Hm Hnot].
    bool_prop. apply Hnot. rewrite Hdb, names_applied, elem_of_app.
    destruct (decide (mg_name m ∈ names_in (db w))); [by left|right]. apply list_elem_of_fmap. exists m. split; [done|].
    rewrite <- Hp. apply list_elem_of_In, List.filter_In. split; [done|]. by rewrite bool_decide_false. }
  pose proof (Hrun w' Ht') as H2. destruct (sqlite_applyMigrations w') as [r2 w2].
  destruct H2 as (_ & now2 & later2 & Hp2 & Hdb2 & Hr2). rewrite Hnone in Hp2. symmetry in Hp2. apply app_eq_nil in Hp2 as [-> ->].
  split; [done|]. intros names2 ->. by destruct Hr2 as [_ ->].
Qed.
End Applied.

(** ** The replay table *)

(** [INSERT ... ON CONFLICT DO NOTHING] and [DELETE ... WHERE expires_at <= ?]
    with the number of rows each wrote; PostgreSQL may give none for the
    second. *)
Class JtiTable (W : Type) : Type := {
  jti_insert : jsstr -> jsnum -> prog W Z;
  jti_delete : jsnum -> prog W (option Z)
}.

Section JtiTable.
Context {W : Type} {JT : JtiTable W}.

Definition sql_recordJtiUse (jti : jsstr) (expSec : jsnum) : prog W bool :=
  let* changes := jti_insert jti expSec in ret (changes =? 1).
Definition sql_pruneExpired (nowSec : jsnum) : prog W Z :=
  let* removed := jti_delete nowSec in ret (given_or removed 0).

#[local] Instance sql_ledger : JtiLedger W := {| recordJtiUse := sql_recordJtiUse; pruneExpired := sql_pruneExpired |}.

(** The statements act on a table of rows as SQL has them. *)
Class JtiTableLaws : Type := {
  jti_rows : W -> MemoryJtiLedger;
  jti_insert_law : forall jti e w, exists w', jti_insert jti e w = (Ok (if map_has (jti_rows w) jti then 0 else 1), w')
    /\ jti_rows w' = if map_has (jti_rows w) jti then jti_rows w else map_set (jti_rows w) jti e;
  jti_delete_law : forall now w, exists w', jti_delete now w
    = (Ok (Some (Z.of_nat (List.length (List.filter (fun row => num_leb row.2 now) (jti_rows w))))), w')
    /\ jti_rows w' = List.filter (fun row => negb (num_leb row.2 now)) (jti_rows w)
}.

(** First uses and replays are told apart as the memory ledger does. *)
Lemma sql_ledger_records {JL : JtiTableLaws} jti e w :
  exists w', sql_recordJtiUse jti e w = ((mem_recordJtiUse jti e (jti_rows w)).1, w')
             /\ jti_rows w' = (mem_recordJtiUse jti e (jti_rows w)).2.
Proof.
  destruct (jti_insert_law jti e w) as (w' & Hi & Hr). exists w'. unfold sql_recordJtiUse, bind, mem_recordJtiUse.
  rewrite Hi, Hr. by destruct (map_has (jti_rows w) jti).
Qed.
End JtiTable.
