(* ===== verification/Sql.v ===== *)
(** * Sql: the statements the SQL adapters send

    The part of SQL that [src/typescript/src/storage/sqlite/adapter.ts] and
    [.../postgres/adapter.ts] write, as a syntax with placeholders, its
    binding to parameters, and what a bound statement asks of a database that
    enforces a schema. The engine is the environment's; its laws say that it
    answers as asked or fails and leaves the data alone. *)

From S2P Require Import Prelude Errors JsNum Text Json Types Id Storage Cursor SqlErrors.
From stdpp Require Import strings.
#[local] Open Scope Z_scope.

(** ** Data *)

(** A cell: SQL's NULL, a number, a text, and the values of PostgreSQL's
    [boolean], [jsonb], [timestamptz] (microseconds since 1970) and [text[]]. *)
Inductive SqlVal : Type :=
| SNull
| SInt (z : Z)
| SText (s : jsstr)
| SBool (b : bool)
| SJson (v : jsval)
| STime (us : Z)
| STexts (l : list jsstr).

(** A row of a table, by column; the tables of a database, by name. *)
Abbreviation Row := (list (string * SqlVal)).
Abbreviation Db := (list (string * list Row)).

Fixpoint cell (r : Row) (c : string) : SqlVal :=
  match r with
  | [] => SNull
  | (c', v) :: r' => if String.eqb c' c then v else cell r' c
  end.

Definition table (db : Db) (t : string) : list Row := given_or (map_get db t) [].

(** Comparisons are true only between values of one type; with NULL never. *)
Definition sql_eq (a b : SqlVal) : bool :=
  match a, b with
  | SInt x, SInt y => x =? y
  | SText x, SText y => str_eqb x y
  | SBool x, SBool y => Bool.eqb x y
  | STime x, STime y => x =? y
  | _, _ => false
  end.

(** Text orders by its UTF-8 bytes. *)
Definition sql_lt (a b : SqlVal) : bool :=
  match a, b with
  | SInt x, SInt y => x <? y
  | SText x, SText y => str_ltb (utf8_encode x) (utf8_encode y)
  | STime x, STime y => x <? y
  | _, _ => false
  end.

Definition sql_le (a b : SqlVal) : bool := sql_lt a b || sql_eq a b.

(** [v = ANY(l)] *)
Definition sql_any (v l : SqlVal) : bool :=
  match v, l with SText s, STexts ts => existsb (str_eqb s) ts | _, _ => false end.

Definition is_null (v : SqlVal) : bool := match v with SNull => true | _ => false end.

(** ** Statements

    [P] is a placeholder: nothing for SQLite's [?], a number for
    PostgreSQL's [$n], the value itself once bound. *)

(** A column, by the alias of its table ([""] for none) and its name. *)
Abbreviation Col := (string * string)%type.
Abbreviation col c := (""%string, c%string) (only parsing).

Section Syntax.
Variable P : Type.

Inductive Cond : Type :=
| CTrue                                      (** [1=1] *)
| CIsNull (c : Col)
| CEq (c : Col) (p : P)
| CGe (c : Col) (p : P)
| CLt (c : Col) (p : P)
| CIn (c : Col) (ps : list P)                (** [c IN (?,?)] *)
| CAny (c : Col) (p : P)                     (** [c = ANY($n)] *)
| CIs (c : Col) (values : list string)       (** [c IN ('a','b')], [c = 'a'] *)
| CBefore (c1 c2 : Col) (p1 p2 : P).         (** [(c1, c2) < (?, ?)] *)

(** A table, a table with an alias, or [t a INNER JOIN t' b ON b.c' = a.c]. *)
Inductive Source : Type :=
| From (t : string)
| FromAs (t a : string)
| InnerJoin (t a t' b c' c : string).

(** [*], [a.*], or a list of columns. *)
Inductive What : Type := Star | StarOf (a : string) | Columns (cs : list Col).

(** The value of an assignment: a placeholder or [now()]. *)
Inductive SetTo : Type := SetParam (p : P) | SetNow.

Inductive Stmt : Type :=
| Select (what : What) (src : Source) (conds : list Cond) (order : list Col) (limit : option Z)
| SelectForUpdate (t : string) (c : string) (p : P)
| InsertInto (t : string) (cols : list (string * P)) (returning : bool)
| UpdateSet (t : string) (sets : list (string * SetTo)) (c : string) (p : P) (returning : bool)
| DeleteFrom (t : string) (c : string) (p : P)
| Begin | Commit | Rollback
| Pragma (name value : string).
End Syntax.

Arguments CTrue {P}. Arguments CIsNull {P} c. Arguments CEq {P} c p. Arguments CGe {P} c p.
Arguments CLt {P} c p. Arguments CIn {P} c ps. Arguments CAny {P} c p. Arguments CIs {P} c values.
Arguments CBefore {P} c1 c2 p1 p2. Arguments SetParam {P} p. Arguments SetNow {P}.
Arguments Select {P} what src conds order limit. Arguments SelectForUpdate {P} t c p.
Arguments InsertInto {P} t cols returning. Arguments UpdateSet {P} t sets c p returning.
Arguments DeleteFrom {P} t c p. Arguments Begin {P}. Arguments Commit {P}. Arguments Rollback {P}.
Arguments Pragma {P} name value.

(** ** Binding

    [take column p s] is the value the placeholder [p] stands for where a
    value of [column] is meant, out of the parameters [s]. Placeholders are
    met in the order of the text. *)
Section Bind.
Context {P S : Type}.
Variable take : string -> P -> S -> option (SqlVal * S).

Fixpoint bind_each (c : string) (ps : list P) (s : S) : option (list SqlVal * S) :=
  match ps with
  | [] => Some ([], s)
  | p :: ps' => '(v, s) ← take c p s; '(vs, s) ← bind_each c ps' s; Some (v :: vs, s)
  end.

Definition bind_cond (c : Cond P) (s : S) : option (Cond SqlVal * S) :=
  match c with
  | CTrue => Some (CTrue, s)
  | CIsNull c => Some (CIsNull c, s)
  | CEq c p => '(v, s) ← take c.2 p s; Some (CEq c v, s)
  | CGe c p => '(v, s) ← take c.2 p s; Some (CGe c v, s)
  | CLt c p => '(v, s) ← take c.2 p s; Some (CLt c v, s)
  | CIn c ps => '(vs, s) ← bind_each c.2 ps s; Some (CIn c vs, s)
  | CAny c p => '(v, s) ← take c.2 p s; Some (CAny c v, s)
  | CIs c values => Some (CIs c values, s)
  | CBefore c1 c2 p1 p2 => '(v1, s) ← take c1.2 p1 s; '(v2, s) ← take c2.2 p2 s; Some (CBefore c1 c2 v1 v2, s)
  end.

Fixpoint bind_conds (cs : list (Cond P)) (s : S) : option (list (Cond SqlVal) * S) :=
  match cs with
  | [] => Some ([], s)
  | c :: cs' => '(c, s) ← bind_cond c s; '(cs, s) ← bind_conds cs' s; Some (c :: cs, s)
  end.

Fixpoint bind_cols (cols : list (string * P)) (s : S) : option (list (string * SqlVal) * S) :=
  match cols with
  | [] => Some ([], s)
  | (c, p) :: cols' => '(v, s) ← take c p s; '(vs, s) ← bind_cols cols' s; Some ((c, v) :: vs, s)
  end.

Fixpoint bind_sets (sets : list (string * SetTo P)) (s : S) : option (list (string * SetTo SqlVal) * S) :=
  match sets with
  | [] => Some ([], s)
  | (c, SetParam p) :: sets' => '(v, s) ← take c p s; '(vs, s) ← bind_sets sets' s; Some ((c, SetParam v) :: vs, s)
  | (c, SetNow) :: sets' => '(vs, s) ← bind_sets sets' s; Some ((c, SetNow) :: vs, s)
  end.

Definition bind_stmt (st : Stmt P) (s : S) : option (Stmt SqlVal * S) :=
  match st with
  | Select what src conds order limit => '(cs, s) ← bind_conds conds s; Some (Select what src cs order limit, s)
  | SelectForUpdate t c p => '(v, s) ← take c p s; Some (SelectForUpdate t c v, s)
  | InsertInto t cols ret => '(vs, s) ← bind_cols cols s; Some (InsertInto t vs ret, s)
  | UpdateSet t sets c p ret => '(sets, s) ← bind_sets sets s; '(v, s) ← take c p s; Some (UpdateSet t sets c v ret, s)
  | DeleteFrom t c p => '(v, s) ← take c p s; Some (DeleteFrom t c v, s)
  | Begin => Some (Begin, s)
  | Commit => Some (Commit, s)
  | Rollback => Some (Rollback, s)
  | Pragma n v => Some (Pragma n v, s)
  end.
End Bind.

(** How a driver binds parameters; [None] is refused. *)
Class Driver (P : Type) : Type := { bind_params : Stmt P -> list SqlVal -> option (Stmt SqlVal) }.

(** [?]: the next parameter; none may be left over. *)
Definition take_next (c : string) (p : unit) (s : list SqlVal) : option (SqlVal * list SqlVal) :=
  match s with v :: s' => Some (v, s') | [] => None end.

#[global] Instance question_marks : Driver unit := {|
  bind_params := fun st ps =>
    match bind_stmt take_next st ps with Some (st, []) => Some st | _ => None end
|}.

(** [$n]: the [n]-th parameter, read as a value of the column's type; every
    parameter must be used, since the server infers its type from its use. *)
Definition take_numbered (fit : string -> SqlVal -> option SqlVal) (ps : list SqlVal)
    (c : string) (n : nat) (used : list nat) : option (SqlVal * list nat) :=
  match n with
  | O => None
  | S i => v ← ps !! i; v ← fit c v; Some (v, n :: used)
  end.

Definition dollars (fit : string -> SqlVal -> option SqlVal) : Driver nat := {|
  bind_params := fun st ps =>
    match bind_stmt (take_numbered fit ps) st [] with
    | Some (st, used) => if forallb (fun n => bool_decide (n ∈ used)) (seq 1 (List.length ps)) then Some st else None
    | None => None
    end
|}.

(** ** Queries *)

(** A row of a source: a row per alias. *)
Abbreviation Env := (list (string * Row)).

Fixpoint env_row (e : Env) (a : string) : Row :=
  match e with [] => [] | (a', r) :: e' => if String.eqb a' a then r else env_row e' a end.

Definition read (e : Env) (c : Col) : SqlVal := cell (env_row e c.1) c.2.

Definition source_rows (db : Db) (src : Source) : list Env :=
  match src with
  | From t => map (fun r => [(""%string, r)]) (table db t)
  | FromAs t a => map (fun r => [(a, r)]) (table db t)
  | InnerJoin t a t' b c' c =>
      flat_map (fun r => map (fun r' => [(a, r); (b, r')])
                           (List.filter (fun r' => sql_eq (cell r' c') (cell r c)) (table db t'))) (table db t)
  end.

Definition cond_holds (e : Env) (c : Cond SqlVal) : bool :=
  match c with
  | CTrue => true
  | CIsNull c => is_null (read e c)
  | CEq c v => sql_eq (read e c) v
  | CGe c v => sql_le v (read e c)
  | CLt c v => sql_lt (read e c) v
  | CIn c vs => existsb (sql_eq (read e c)) vs
  | CAny c v => sql_any (read e c) v
  | CIs c values => existsb (fun s => sql_eq (read e c) (SText (js s))) values
  | CBefore c1 c2 v1 v2 => sql_lt (read e c1) v1 || sql_eq (read e c1) v1 && sql_lt (read e c2) v2
  end.

Definition where_holds (cs : list (Cond SqlVal)) (e : Env) : bool := forallb (cond_holds e) cs.

(** The order rows sort in: NULL first, then by type, then by value. *)
Definition type_rank (v : SqlVal) : Z :=
  match v with SNull => 0 | SBool _ => 1 | SInt _ => 2 | STime _ => 3 | SText _ => 4 | _ => 5 end.
Definition sorts_before (a b : SqlVal) : bool :=
  (type_rank a <? type_rank b)
  || match a, b with SBool x, SBool y => negb x && y | _, _ => sql_lt a b end.

(** Before in an ascending order by [cs]; the adapters order by [DESC]. *)
Fixpoint rank_lt (cs : list Col) (a b : Env) : bool :=
  match cs with
  | [] => false
  | c :: cs' =>
      sorts_before (read a c) (read b c) || negb (sorts_before (read b c) (read a c)) && rank_lt cs' a b
  end.
Definition order_le (cs : list Col) (a b : Env) : Prop := rank_lt cs a b = false.
#[global] Instance order_le_dec cs a b : Decision (order_le cs a b).
Proof. unfold order_le. apply _. Defined.

Definition project (what : What) (e : Env) : Row :=
  match what with
  | Star => match e with (_, r) :: _ => r | [] => [] end
  | StarOf a => env_row e a
  | Columns cs => map (fun c => (c.2, read e c)) cs
  end.

Definition limited_to {A} (limit : option Z) (l : list A) : list A :=
  match limit with Some n => take (Z.to_nat n) l | None => l end.

(** What a query may answer: the rows that match, in an order the statement
    allows, up to the limit. *)
Definition selects (db : Db) (what : What) (src : Source) (conds : list (Cond SqlVal)) (order : list Col)
    (limit : option Z) (answer : list Row) : Prop :=
  exists envs, envs ≡ₚ List.filter (where_holds conds) (source_rows db src)
    /\ StronglySorted (order_le order) envs
    /\ answer = map (project what) (limited_to limit envs).

(** ** Schemas *)

(** A unique index, over the rows it covers. *)
Record Unique : Type := mkUnique { uq_index : UniqueIndex; uq_covers : Row -> bool }.

(** What a column holds when an insert leaves it out. *)
Inductive Default : Type := NoDefault | DefaultTo (v : SqlVal) | DefaultNow.

Record TableSchema : Type := mkTable {
  ts_name : string;
  ts_columns : list (string * Default);
  ts_required : list string;                   (** [NOT NULL] *)
  ts_checks : list (Row -> bool);
  ts_uniques : list Unique;                    (** the primary key [id] apart *)
  ts_references : list (string * string);      (** column, table whose [id] it holds *)
  ts_append_only : bool                        (** triggers refuse changes *)
}.

Fixpoint pairwise {A} (p : A -> A -> bool) (l : list A) : bool :=
  match l with [] => true | x :: l' => forallb (p x) l' && pairwise p l' end.

(** Rows with equal, non-null values in all of [cols] clash. *)
Definition same_key (cols : list string) (r r' : Row) : bool :=
  forallb (fun c => sql_eq (cell r c) (cell r' c)) cols.

Definition unique_ok (cols : list string) (rows : list Row) : bool :=
  pairwise (fun r r' => negb (same_key cols r r')) rows.

Definition col_names (ix : UniqueIndex) : list string :=
  map (fun c => String.string_of_list_ascii (map (fun z => Ascii.ascii_of_nat (Z.to_nat z)) c)) (ix_columns ix).

Definition row_ok (db : Db) (ts : TableSchema) (r : Row) : bool :=
  forallb (fun c => negb (is_null (cell r c))) (ts_required ts)
  && forallb (fun check => check r) (ts_checks ts)
  && forallb (fun ref => is_null (cell r ref.1)
                         || existsb (fun r' => sql_eq (cell r' "id"%string) (cell r ref.1)) (table db ref.2))
       (ts_references ts).

Definition uniques_ok (ts : TableSchema) (rows : list Row) : bool :=
  unique_ok ["id"%string] rows
  && forallb (fun u => unique_ok (col_names (uq_index u)) (List.filter (uq_covers u) rows)) (ts_uniques ts).

(** A table fits its schema. *)
Definition table_ok (db : Db) (ts : TableSchema) : bool :=
  forallb (row_ok db ts) (table db (ts_name ts)) && uniques_ok ts (table db (ts_name ts)).

Definition Schema : Type := list TableSchema.
Definition schema_of (sc : Schema) (t : string) : option TableSchema :=
  List.find (fun ts => String.eqb (ts_name ts) t) sc.

(** ** Writes *)

Definition default_value (now : SqlVal) (d : Default) : SqlVal :=
  match d with NoDefault => SNull | DefaultTo v => v | DefaultNow => now end.

Fixpoint given (vs : list (string * SqlVal)) (c : string) : option SqlVal :=
  match vs with [] => None | (c', v) :: vs' => if String.eqb c' c then Some v else given vs' c end.

Definition new_row (ts : TableSchema) (now : SqlVal) (vs : list (string * SqlVal)) : Row :=
  map (fun cd => (cd.1, given_or (given vs cd.1) (default_value now cd.2))) (ts_columns ts).

Definition set_value (now : SqlVal) (v : SetTo SqlVal) : SqlVal :=
  match v with SetParam v => v | SetNow => now end.

Definition set_cells (now : SqlVal) (sets : list (string * SetTo SqlVal)) (r : Row) : Row :=
  map (fun cv => (cv.1, given_or (given (map (fun s => (s.1, set_value now s.2)) sets) cv.1) cv.2)) r.

Definition hits (c : string) (v : SqlVal) (r : Row) : bool := sql_eq (cell r c) v.

(** What a bound statement asks of a database with schema [sc], [now] the
    time of the transaction: its answer and the database after it. *)
Inductive asks (sc : Schema) (now : SqlVal) (db : Db) : Stmt SqlVal -> list Row -> Db -> Prop :=
| asks_select what src conds order limit answer :
    selects db what src conds order limit answer ->
    asks sc now db (Select what src conds order limit) answer db
| asks_lock t c v answer :
    selects db (Columns [col "id"]) (From t) [CEq (""%string, c) v] [] None answer ->
    asks sc now db (SelectForUpdate t c v) answer db
| asks_insert t ts vs ret db' :
    schema_of sc t = Some ts ->
    db' = map_set db t (table db t ++ [new_row ts now vs]) -> table_ok db' ts = true ->
    asks sc now db (InsertInto t vs ret) (if ret then [new_row ts now vs] else []) db'
| asks_update t ts sets c v ret db' :
    schema_of sc t = Some ts ->
    (ts_append_only ts = true -> List.filter (hits c v) (table db t) = []) ->
    db' = map_set db t (map (fun r => if hits c v r then set_cells now sets r else r) (table db t)) ->
    table_ok db' ts = true ->
    asks sc now db (UpdateSet t sets c v ret)
      (if ret then map (set_cells now sets) (List.filter (hits c v) (table db t)) else []) db'
| asks_delete t ts c v db' :
    schema_of sc t = Some ts ->
    (ts_append_only ts = true -> List.filter (hits c v) (table db t) = []) ->
    db' = map_set db t (List.filter (fun r => negb (hits c v r)) (table db t)) ->
    (forall ts', ts' ∈ sc -> table_ok db' ts' = true) ->
    asks sc now db (DeleteFrom t c v) [] db'
| asks_pragma n v answer : asks sc now db (Pragma n v) answer db.

(** ** Building queries

    [where.push(...)] and [params.push(...)], the placeholder of the [n]-th
    parameter being [ph n]. *)
Abbreviation Query P := (list (Cond P) * list SqlVal)%type.

Section Builder.
Context {P : Type} (ph : nat -> P).

Definition q_and (c : Cond P) (q : Query P) : Query P := (q.1 ++ [c], q.2).

(** One condition on a column, with one parameter. *)
Definition q_with (c : P -> Cond P) (v : SqlVal) (q : Query P) : Query P :=
  let params := q.2 ++ [v] in (q.1 ++ [c (ph (List.length params))], params).

(** [if (f !== undefined) ...] *)
Definition q_opt (c : P -> Cond P) (f : option SqlVal) (q : Query P) : Query P :=
  match f with None => q | Some v => q_with c v q end.

(** [if (f !== undefined) { if (f === null) ... else ... }] *)
Definition q_nullable (c : Col) (f : option (option jsstr)) (q : Query P) : Query P :=
  match f with
  | None => q
  | Some None => q_and (CIsNull c) q
  | Some (Some s) => q_with (CEq c) (SText s) q
  end.

(** [c IN (...)], a placeholder per value. *)
Definition q_in (c : Col) (vs : list SqlVal) (q : Query P) : Query P :=
  (q.1 ++ [CIn c (map (fun i => ph (List.length q.2 + S i)%nat) (seq 0 (List.length vs)))], q.2 ++ vs).

(** [buildPagination]: the clamped limit, and the condition behind the
    cursor, numbered after [q]'s parameters. *)
Definition page_limit (page : PageRequest) : Z := Z.max 1 (Z.min (pr_limit page) 500).

Definition q_cursor (c1 c2 : Col) (page : PageRequest) (q : Query P) : Query P :=
  match decodeCursor (pr_cursor page) with
  | None => q
  | Some cursor =>
      let n := List.length q.2 in
      (q.1 ++ [CBefore c1 c2 (ph (n + 1)%nat) (ph (n + 2)%nat)], q.2 ++ [SText (cu_createdAt cursor); SText (cu_id cursor)])
  end.
End Builder.

(** [buildPage]: the rows up to the limit, and a cursor when there was one
    more. *)
Definition buildPage {T} (key : T -> CursorTuple) (rows : list T) (limit : Z) : Page T :=
  let hasMore := limit <? Z.of_nat (List.length rows) in
  let items := if hasMore then take (Z.to_nat limit) rows else rows in
  mkPage items
    (match hasMore, last items with true, Some r => Some (encodeCursor (key r)) | _, _ => None end).

(** ** Engines *)

(** [db.query(sql).all(...params)], [pool.query(sql, params)]. *)
Class SqlEngine (W P : Type) : Type := { sql_query : Stmt P -> list SqlVal -> M Thrown W (list Row) }.

(** What binds without loss: well-formed text and safe integers. *)
Definition bindable (v : SqlVal) : bool :=
  match v with
  | SText s => well_formed16 s
  | STexts l => forallb well_formed16 l
  | SInt z => Z.abs z <=? 2 ^ 53 - 1
  | _ => true
  end.

Definition is_tx {P} (st : Stmt P) : bool :=
  match st with Begin | Commit | Rollback => true | _ => false end.

(** The engine answers what a statement asks, or throws and changes nothing.
    It refuses what does not bind. Between [BEGIN] and [COMMIT] the old
    content is kept for [ROLLBACK]; a transaction cannot begin inside
    another. Clock and entropy are apart from the data. *)
Class SqlLaws (W P : Type) {HC : HasClock W} {HE : HasEntropy W} {DR : Driver P} {EN : SqlEngine W P}
    (sc : Schema) : Type := {
  db_of : W -> Db;
  saved : W -> option Db;
  query_law : forall st ps w, is_tx st = false -> forallb bindable ps = true ->
    match sql_query st ps w with
    | (Ok answer, w') => saved w' = saved w
        /\ exists bound now, bind_params st ps = Some bound /\ asks sc now (db_of w) bound answer (db_of w')
    | (Throw _, w') => saved w' = saved w /\ db_of w' = db_of w
    end;
  begin_law : forall w,
    match sql_query Begin [] w with
    | (Ok _, w') => saved w = None /\ saved w' = Some (db_of w) /\ db_of w' = db_of w
    | (Throw _, w') => saved w' = saved w /\ db_of w' = db_of w
    end;
  commit_law : forall w,
    match sql_query Commit [] w with
    | (Ok _, w') => saved w' = None /\ db_of w' = db_of w
    | (Throw _, w') => saved w' = saved w /\ db_of w' = db_of w
    end;
  rollback_law : forall w d, saved w = Some d ->
    exists answer w', sql_query Rollback [] w = (Ok answer, w') /\ saved w' = None /\ db_of w' = d;
  clock_law : forall w, saved (nowMs w).2 = saved w /\ db_of (nowMs w).2 = db_of w;
  entropy_law : forall n w, exists bytes w', randomFill n w = (Ok bytes, w') /\ List.length bytes = n
    /\ Forall is_byte bytes /\ saved w' = saved w /\ db_of w' = db_of w
}.

(** * An engine that answers what a statement asks

    Statements executed on a database in memory: what shows that the laws
    can hold, and what runs the examples. *)

(** ** The order of rows *)

(** What a cell sorts by. *)
Definition sort_key (v : SqlVal) : list Z :=
  type_rank v :: match v with
                 | SBool b => [Z.b2z b] | SInt z | STime z => [z] | SText s => utf8_encode s | _ => []
                 end.

Lemma str_ltb_one x y : str_ltb [x] [y] = (x <? y).
Proof. cbn. destruct (Z.eqb_spec x y) as [->|]; [by rewrite Z.ltb_irrefl|done]. Qed.

Lemma sorts_before_key a b : sorts_before a b = str_ltb (sort_key a) (sort_key b).
Proof.
  destruct a as [|x|x|x|x|x|x], b as [|y|y|y|y|y|y]; try reflexivity; unfold sorts_before, sort_key; cbn [type_rank sql_lt].
  - rewrite Z.ltb_irrefl. change (str_ltb [2; x] [2; y]) with (str_ltb [x] [y]). by rewrite str_ltb_one.
  - rewrite Z.ltb_irrefl. by destruct x, y.
  - rewrite Z.ltb_irrefl. change (str_ltb [3; x] [3; y]) with (str_ltb [x] [y]). by rewrite str_ltb_one.
Qed.

Lemma str_ltb_split a b c : str_ltb a c = true -> str_ltb a b = true \/ str_ltb b c = true.
Proof.
  intros H. destruct (str_ltb a b) eqn:E1; [by left|]. right. destruct (str_ltb b a) eqn:E2.
  - by eapply str_ltb_trans.
  - by rewrite <- (str_ltb_total a b).
Qed.

Lemma rank_lt_split cs a b c : rank_lt cs a c = true -> rank_lt cs a b = true \/ rank_lt cs b c = true.
Proof.
  induction cs as [|k cs IH]; [done|]. cbn [rank_lt]. rewrite !sorts_before_key.
  generalize (sort_key (read a k)) (sort_key (read b k)) (sort_key (read c k)). intros x y z H.
  rewrite !orb_true_iff, !andb_true_iff, !negb_true_iff in *.
  destruct (str_ltb x y) eqn:E1; [tauto|]. destruct (str_ltb y z) eqn:E2; [tauto|].
  destruct H as [H|[H1 H2]]; [by destruct (str_ltb_split x y z H); congruence|].
  assert (str_ltb z x = false -> str_ltb y x = false /\ str_ltb z y = false) as Hb.
  { intros Hzx. split; apply not_true_iff_false; intros Hc.
    - destruct (str_ltb_split y z x Hc); congruence.
    - destruct (str_ltb_split z x y Hc); congruence. }
  destruct (Hb H1). destruct (IH H2); tauto.
Qed.

Lemma rank_lt_asym cs a b : rank_lt cs a b = true -> rank_lt cs b a = false.
Proof.
  induction cs as [|k cs IH]; [done|]. cbn [rank_lt]. rewrite !sorts_before_key.
  generalize (sort_key (read a k)) (sort_key (read b k)). intros x y.
  rewrite orb_true_iff, orb_false_iff, andb_true_iff, andb_false_iff, negb_true_iff, negb_false_iff.
  intros [H|[H1 H2]].
  - rewrite H. split; [by apply str_ltb_asym|by left].
  - rewrite H1. split; [done|]. right. by apply IH.
Qed.

#[export] Instance order_le_trans cs : Transitive (order_le cs).
Proof.
  intros a b c. unfold order_le. intros H1 H2. apply not_true_iff_false. intros H.
  destruct (rank_lt_split cs a b c H); congruence.
Qed.

#[export] Instance order_le_total cs : Total (order_le cs).
Proof.
  intros a b. unfold order_le. destruct (rank_lt cs a b) eqn:E; [|by left]. right. by apply rank_lt_asym.
Qed.

(** ** Execution *)

Section Exec.
Variables (sc : Schema) (failure : UniqueIndex -> Thrown) (now : SqlVal).

Definition answer (db : Db) (what : What) (src : Source) (conds : list (Cond SqlVal)) (order : list Col) (limit : option Z)
  : list Row :=
  map (project what) (limited_to limit (merge_sort (order_le order) (List.filter (where_holds conds) (source_rows db src)))).

(** The first index of the table its rows break. *)
Definition broken_index (ts : TableSchema) (rows : list Row) : option Unique :=
  List.find (fun u => negb (unique_ok (col_names (uq_index u)) (List.filter (uq_covers u) rows))) (ts_uniques ts).

Definition checked_table (db : Db) (ts : TableSchema) : result Thrown unit :=
  match broken_index ts (table db (ts_name ts)) with
  | Some u => Throw (failure (uq_index u))
  | None => if table_ok db ts then Ok tt else Throw OtherThrown
  end.

Definition in_schema (t : string) : result Thrown TableSchema :=
  match schema_of sc t with Some ts => Ok ts | None => Throw OtherThrown end.

(** The triggers of an append-only table refuse a statement that changes a row. *)
Definition trigger (ts : TableSchema) (changed : list Row) : result Thrown unit :=
  match ts_append_only ts, changed with
  | true, _ :: _ => Throw (DriverError None None None (js "ImmutableAuditLog: audit rows are append-only"))
  | _, _ => Ok tt
  end.

Definition exec (st : Stmt SqlVal) (db : Db) : result Thrown (list Row * Db) :=
  match st with
  | Select what src conds order limit => Ok (answer db what src conds order limit, db)
  | SelectForUpdate t c v => Ok (answer db (Columns [col "id"]) (From t) [CEq (""%string, c) v] [] None, db)
  | InsertInto t vs ret =>
      let? ts := in_schema t in
      let row := new_row ts now vs in
      let db' := map_set db t (table db t ++ [row]) in
      let? _ := checked_table db' ts in
      Ok (if ret then [row] else [], db')
  | UpdateSet t sets c v ret =>
      let? ts := in_schema t in
      let hit := List.filter (hits c v) (table db t) in
      let? _ := trigger ts hit in
      let db' := map_set db t (map (fun r => if hits c v r then set_cells now sets r else r) (table db t)) in
      let? _ := checked_table db' ts in
      Ok (if ret then map (set_cells now sets) hit else [], db')
  | DeleteFrom t c v =>
      let? ts := in_schema t in
      let? _ := trigger ts (List.filter (hits c v) (table db t)) in
      let db' := map_set db t (List.filter (fun r => negb (hits c v r)) (table db t)) in
      if forallb (table_ok db') sc then Ok ([], db') else Throw OtherThrown
  | Pragma _ _ => Ok ([], db)
  | Begin | Commit | Rollback => Throw OtherThrown
  end.

Lemma answer_selects db what src conds order limit :
  selects db what src conds order limit (answer db what src conds order limit).
Proof.
  eexists. split; [apply (merge_sort_Permutation (order_le order))|]. split; [|reflexivity]. apply (StronglySorted_merge_sort (order_le order)).
Qed.

Lemma checked_ok db ts : checked_table db ts = Ok tt -> table_ok db ts = true.
Proof. unfold checked_table. destruct (broken_index _ _); [done|]. by destruct (table_ok db ts). Qed.

Lemma trigger_ok ts changed : trigger ts changed = Ok tt -> ts_append_only ts = true -> changed = [].
Proof. unfold trigger. intros H E. rewrite E in H. by destruct changed. Qed.

Lemma exec_asks st db rows db' : exec st db = Ok (rows, db') -> asks sc now db st rows db'.
Proof.
  destruct st; cbn [exec]; intros H; try discriminate H.
  - injection H as <- <-. constructor. apply answer_selects.
  - injection H as <- <-. constructor. apply answer_selects.
  - unfold in_schema in H. destruct (schema_of sc t) as [ts|] eqn:E; [|discriminate H]. cbn [rbind] in H.
    destruct (checked_table _ ts) as [[]|] eqn:Ec; [|discriminate H]. cbn [rbind] in H. injection H as <- <-.
    eapply asks_insert; [done..|]. by apply checked_ok.
  - unfold in_schema in H. destruct (schema_of sc t) as [ts|] eqn:E; [|discriminate H]. cbn [rbind] in H.
    destruct (trigger ts _) as [[]|] eqn:Et; [|discriminate H]. cbn [rbind] in H.
    destruct (checked_table _ ts) as [[]|] eqn:Ec; [|discriminate H]. cbn [rbind] in H. injection H as <- <-.
    eapply asks_update; [done| |done|by apply checked_ok]. by apply trigger_ok.
  - unfold in_schema in H. destruct (schema_of sc t) as [ts|] eqn:E; [|discriminate H]. cbn [rbind] in H.
    destruct (trigger ts _) as [[]|] eqn:Et; [|discriminate H]. cbn [rbind] in H.
    destruct (forallb _ sc) eqn:Ec; [|discriminate H]. injection H as <- <-.
    eapply asks_delete; [done| |done|]; [by apply trigger_ok|]. intros ts' Hin. rewrite forallb_Forall, Forall_forall in Ec. auto.
  - injection H as <- <-. constructor.
Qed.
End Exec.

(** ** The engine *)

(** A database, the one a transaction goes back to, whether the running code
    holds the transaction's adapter, the time of the transaction, and the
    process's clock and entropy. *)
Record SqlWorld : Type := mkSqlWorld {
  sw_db : Db;
  sw_saved : option Db;
  sw_tx : bool;
  sw_now : SqlVal;
  sw_clock : Clock;
  sw_entropy : nat -> Z
}.

Definition with_dbs (db : Db) (old : option Db) (w : SqlWorld) : SqlWorld :=
  mkSqlWorld db old (sw_tx w) (sw_now w) (sw_clock w) (sw_entropy w).

#[global] Instance sql_clock : HasClock SqlWorld := {|
  nowMs := fun w => let '(ms, c) := clock_nowMs (sw_clock w) in
    (Ok ms, mkSqlWorld (sw_db w) (sw_saved w) (sw_tx w) (sw_now w) c (sw_entropy w));
  nowIso := fun w => let '(r, c) := clock_nowIso (sw_clock w) in
    (r, mkSqlWorld (sw_db w) (sw_saved w) (sw_tx w) (sw_now w) c (sw_entropy w))
|}.

#[global] Instance sql_entropy : HasEntropy SqlWorld := {|
  randomFill := fun n w =>
    (Ok (map (fun i => sw_entropy w i mod 256) (seq 0 n)),
     mkSqlWorld (sw_db w) (sw_saved w) (sw_tx w) (sw_now w) (sw_clock w) (fun i => sw_entropy w (n + i)%nat))
|}.

Section Engine.
Context {P : Type} {DR : Driver P}.
Variables (sc : Schema) (failure : UniqueIndex -> Thrown).

Definition ref_query (st : Stmt P) (ps : list SqlVal) : M Thrown SqlWorld (list Row) := fun w =>
  match st, sw_saved w with
  | Begin, None => (Ok [], with_dbs (sw_db w) (Some (sw_db w)) w)
  | Commit, Some _ => (Ok [], with_dbs (sw_db w) None w)
  | Rollback, Some d => (Ok [], with_dbs d None w)
  | Begin, Some _ | Commit, None | Rollback, None => (Throw OtherThrown, w)
  | _, _ =>
      match bind_params st ps with
      | None => (Throw OtherThrown, w)
      | Some bound =>
          match exec sc failure (sw_now w) bound (sw_db w) with
          | Ok (rows, db) => (Ok rows, with_dbs db (sw_saved w) w)
          | Throw e => (Throw e, w)
          end
      end
  end.

Definition ref_engine : SqlEngine SqlWorld P := {| sql_query := ref_query |}.

Lemma ref_query_law st ps w : is_tx st = false ->
  match ref_query st ps w with
  | (Ok rows, w') => sw_saved w' = sw_saved w
      /\ exists bound now, bind_params st ps = Some bound /\ asks sc now (sw_db w) bound rows (sw_db w')
  | (Throw _, w') => sw_saved w' = sw_saved w /\ sw_db w' = sw_db w
  end.
Proof.
  intros H.
  assert (E : ref_query st ps w = match bind_params st ps with
      | None => (Throw OtherThrown, w)
      | Some bound =>
          match exec sc failure (sw_now w) bound (sw_db w) with
          | Ok (rows, db) => (Ok rows, with_dbs db (sw_saved w) w)
          | Throw e => (Throw e, w)
          end
      end) by (destruct st; try discriminate H; reflexivity).
  rewrite E. destruct (bind_params st ps) as [bound|]; [|done].
  destruct (exec sc failure (sw_now w) bound (sw_db w)) as [[rows db]|e] eqn:X; [|done].
  split; [done|]. exists bound, (sw_now w). split; [done|]. by eapply exec_asks.
Qed.

Lemma clock_keeps_dbs w : sw_saved (nowMs w).2 = sw_saved w /\ sw_db (nowMs w).2 = sw_db w.
Proof. unfold nowMs, sql_clock. by destruct (clock_nowMs (sw_clock w)). Qed.

(** The laws hold of it. *)
#[refine] Definition ref_laws : SqlLaws SqlWorld P (EN := ref_engine) sc := {| db_of := sw_db; saved := sw_saved |}.
Proof.
  - intros st ps w Hst _. by apply ref_query_law.
  - intros w. cbn. unfold ref_query. destruct (sw_saved w) eqn:E; cbn; rewrite ?E; done.
  - intros w. cbn. unfold ref_query. destruct (sw_saved w) eqn:E; cbn; rewrite ?E; done.
  - intros w d Hd. cbn. unfold ref_query. rewrite Hd. eexists _, _. done.
  - exact clock_keeps_dbs.
  - intros n w. eexists _, _. split; [reflexivity|]. split; [by rewrite length_map, length_seq|]. split; [|done].
    apply Forall_fmap, Forall_true. intros i. unfold is_byte. simpl. zdiv.
Defined.
End Engine.
