(* ===== verification/Sqlite.v ===== *)
(** * Sqlite: the SQLite adapter

    [src/typescript/src/storage/sqlite/adapter.ts], one definition per method
    and helper, and the schema of [src/typescript/migrations/sqlite/]. A
    statement is sent with the parameters bound to its [?]; a driver's error
    goes through [mapSqliteError] where the source catches. *)

From S2P Require Import Prelude Errors JsNum Text Json Types Id Cursor Storage JsonLib Http Stringify Stats SqlErrors Sql.
From stdpp Require Import strings.
#[local] Open Scope Z_scope.

(** ** The schema

    [0001_initial.sql] to [0005], columns in their order. *)

Section Checks.
Local Open Scope string_scope.

(** [CHECK (length(c) <= n)]: characters, not code units. *)
Definition chars (s : jsstr) : Z := Z.of_nat (List.length (List.filter (fun c => negb (is_low c)) s)).
Definition at_most (c : string) (n : Z) (r : Row) : bool :=
  match cell r c with SText s => (chars s <=? n)%Z | _ => true end.
Definition exactly (c : string) (n : Z) (r : Row) : bool :=
  match cell r c with SText s => (chars s =? n)%Z | _ => true end.
Definition one_of (c : string) (names : list string) (r : Row) : bool :=
  match cell r c with SText s => existsb (fun n => str_eqb s (js n)) names | _ => true end.
Definition no_less (c : string) (n : Z) (r : Row) : bool :=
  match cell r c with SInt z => (n <=? z)%Z | _ => true end.
(** [c IS NULL OR c' IS NULL OR c > c'] *)
Definition later (c c' : string) (r : Row) : bool :=
  is_null (cell r c) || is_null (cell r c') || sql_lt (cell r c') (cell r c).

Definition not_null (c : string) (r : Row) : bool := negb (is_null (cell r c)).
Definition is_value (c v : string) (r : Row) : bool := sql_eq (cell r c) (SText (js v)).
Definition always (r : Row) : bool := true.

Definition unique_ix (name table : string) (columns : list string) (covers : Row -> bool) : Unique :=
  mkUnique (index name table columns) covers.

Definition required_col (c : string) : string * Default := (c, NoDefault).
Definition empty_json (c : string) : string * Default := (c, DefaultTo (SText (js "{}"))).

Definition scopes_table : TableSchema := mkTable "license_scopes"
  [required_col "id"; required_col "slug"; required_col "name"; empty_json "meta";
   required_col "created_at"; required_col "updated_at"]
  ["id"; "slug"; "name"; "meta"; "created_at"; "updated_at"]
  [at_most "slug" 64; at_most "name" 128]
  [unique_ix "license_scopes_slug_key" "license_scopes" ["slug"] always] [] false.

Definition templates_table : TableSchema := mkTable "license_templates"
  [required_col "id"; required_col "scope_id"; required_col "name"; required_col "max_usages";
   required_col "trial_duration_sec"; required_col "grace_duration_sec"; required_col "force_online_after_sec";
   empty_json "entitlements"; empty_json "meta"; required_col "created_at"; required_col "updated_at";
   required_col "parent_id"; required_col "trial_cooldown_sec"]
  ["id"; "name"; "max_usages"; "trial_duration_sec"; "grace_duration_sec"; "entitlements"; "meta"; "created_at"; "updated_at"]
  [at_most "name" 128; no_less "max_usages" 1; no_less "trial_duration_sec" 0; no_less "grace_duration_sec" 0;
   no_less "force_online_after_sec" 0]
  [unique_ix "license_templates_scope_name_key" "license_templates" ["scope_id"; "name"] (not_null "scope_id");
   unique_ix "license_templates_global_name_key" "license_templates" ["name"] (fun r => is_null (cell r "scope_id"))]
  [("scope_id", "license_scopes"); ("parent_id", "license_templates")] false.

Definition licenses_table : TableSchema := mkTable "licenses"
  [required_col "id"; required_col "scope_id"; required_col "template_id"; required_col "licensable_type";
   required_col "licensable_id"; required_col "license_key"; required_col "status"; required_col "max_usages";
   required_col "activated_at"; required_col "expires_at"; required_col "grace_until"; empty_json "meta";
   required_col "created_at"; required_col "updated_at"; ("is_trial", DefaultTo (SInt 0))]
  ["id"; "licensable_type"; "licensable_id"; "license_key"; "status"; "max_usages"; "meta"; "created_at"; "updated_at"; "is_trial"]
  [at_most "licensable_type" 128; at_most "licensable_id" 128;
   one_of "status" ["pending"; "active"; "grace"; "expired"; "suspended"; "revoked"];
   no_less "max_usages" 1; later "grace_until" "expires_at"]
  [unique_ix "licenses_license_key_key" "licenses" ["license_key"] always;
   unique_ix "licenses_scoped_triple_key" "licenses" ["licensable_type"; "licensable_id"; "scope_id"] (not_null "scope_id");
   unique_ix "licenses_global_pair_key" "licenses" ["licensable_type"; "licensable_id"] (fun r => is_null (cell r "scope_id"))]
  [("scope_id", "license_scopes"); ("template_id", "license_templates")] false.

Definition usages_table : TableSchema := mkTable "license_usages"
  [required_col "id"; required_col "license_id"; required_col "fingerprint"; required_col "status";
   required_col "registered_at"; required_col "revoked_at"; empty_json "client_meta"; required_col "created_at";
   required_col "updated_at"; required_col "last_seen_at"]
  ["id"; "license_id"; "fingerprint"; "status"; "registered_at"; "client_meta"; "created_at"; "updated_at"]
  [exactly "fingerprint" 64; one_of "status" ["active"; "revoked"]]
  [unique_ix "license_usages_active_fp_key" "license_usages" ["license_id"; "fingerprint"] (is_value "status" "active")]
  [("license_id", "licenses")] false.

Definition active_signing_row (r : Row) : bool := is_value "state" "active" r && is_value "role" "signing" r.

Definition keys_table : TableSchema := mkTable "license_keys"
  [required_col "id"; required_col "scope_id"; required_col "kid"; required_col "alg"; required_col "role";
   required_col "state"; required_col "public_pem"; required_col "private_pem_enc"; required_col "rotated_from";
   required_col "rotated_at"; required_col "not_before"; required_col "not_after"; empty_json "meta";
   required_col "created_at"; required_col "updated_at"]
  ["id"; "kid"; "alg"; "role"; "state"; "public_pem"; "not_before"; "meta"; "created_at"; "updated_at"]
  [at_most "kid" 64; one_of "alg" ["ed25519"; "rs256-pss"; "hs256"]; one_of "role" ["root"; "signing"];
   one_of "state" ["active"; "retiring"]; later "not_after" "not_before"]
  [unique_ix "license_keys_kid_key" "license_keys" ["kid"] always;
   unique_ix "license_keys_active_signing_scoped_key" "license_keys" ["scope_id"]
     (fun r => active_signing_row r && not_null "scope_id" r);
   unique_ix "license_keys_active_signing_global_key" "license_keys" ["role"]
     (fun r => active_signing_row r && is_null (cell r "scope_id"))]
  [("scope_id", "license_scopes"); ("rotated_from", "license_keys")] false.

Definition audit_table : TableSchema := mkTable "audit_logs"
  [required_col "id"; required_col "license_id"; required_col "scope_id"; required_col "actor"; required_col "event";
   required_col "prior_state"; required_col "new_state"; required_col "occurred_at"; required_col "actor_kind";
   required_col "actor_id"]
  ["id"; "actor"; "event"; "occurred_at"]
  [at_most "actor" 256; at_most "event" 128] []
  [("license_id", "licenses"); ("scope_id", "license_scopes")] true.

Definition trials_table : TableSchema := mkTable "trial_issuances"
  [required_col "id"; required_col "template_id"; required_col "fingerprint_hash"; required_col "issued_at"]
  ["id"; "fingerprint_hash"; "issued_at"]
  [exactly "fingerprint_hash" 64]
  [unique_ix "trial_issuances_template_fp_key" "trial_issuances" ["template_id"; "fingerprint_hash"] (not_null "template_id");
   unique_ix "trial_issuances_global_fp_key" "trial_issuances" ["fingerprint_hash"] (fun r => is_null (cell r "template_id"))]
  [("template_id", "license_templates")] false.

Definition sqlite_schema : Schema :=
  [scopes_table; templates_table; licenses_table; usages_table; keys_table; audit_table; trials_table].
End Checks.

(** ** Mapping helpers *)

(** A cast: the value if it has the type; the schema rules the rest out. *)
Definition as_text (v : SqlVal) : res jsstr := match v with SText s => Ok s | _ => Throw PlainError end.
Definition as_int (v : SqlVal) : res Z := match v with SInt z => Ok z | _ => Throw PlainError end.
(** [(v as string | null) ?? null] *)
Definition as_text_or_null (v : SqlVal) : res (option jsstr) :=
  match v with SNull => Ok None | SText s => Ok (Some s) | _ => Throw PlainError end.
Definition as_int_or_null (v : SqlVal) : res (option Z) :=
  match v with SNull => Ok None | SInt z => Ok (Some z) | _ => Throw PlainError end.
(** A cast to an enumeration. *)
Definition as_enum {A} (name : A -> jsstr) (all : list A) (v : SqlVal) : res A :=
  let? s := as_text v in
  match List.find (fun a => str_eqb (name a) s) all with Some a => Ok a | None => Throw PlainError end.

Definition all_statuses : list LicenseStatus := [pending; active; grace; expired; suspended; revoked].
Definition as_status : SqlVal -> res LicenseStatus := as_enum status_str all_statuses.
Definition as_usage_status : SqlVal -> res UsageStatus := as_enum usage_status_str [u_active; u_revoked].
Definition as_alg : SqlVal -> res KeyAlg := as_enum alg_str all_algs.
Definition as_role : SqlVal -> res KeyRole := as_enum role_str [root; signing].
Definition as_key_state : SqlVal -> res KeyState := as_enum key_state_str [k_active; k_retiring].
Definition as_actor_kind : SqlVal -> res ActorKind :=
  as_enum actor_kind_str [actor_system; actor_admin; actor_client; actor_unknown].

Definition nullable_text (o : option jsstr) : SqlVal := match o with Some s => SText s | None => SNull end.
Definition nullable_num (o : option Z) : SqlVal := match o with Some z => SInt z | None => SNull end.

(** A row's type is its table's. *)
Definition parseJson (v : SqlVal) : res jsval :=
  match v with
  | SNull | SText [] => Ok (plain [])
  | SText s => json_parse s
  | _ => Throw PlainError
  end.

Definition parseJsonNullable (v : SqlVal) : res (option jsval) :=
  match v with
  | SNull => Ok None
  | SText s => let? j := json_parse s in Ok (Some j)
  | _ => Throw PlainError
  end.

Section Text.
Context {NT : NumberText} {JH : JsonHost}.

(** [undefined] binds as NULL. *)
Definition toJson (v : jsval) : res SqlVal := let? t := stringify v in Ok (nullable_text t).
Definition toJsonNullable (v : option jsval) : res SqlVal :=
  match v with None => Ok SNull | Some v => toJson v end.
End Text.

Section Rows.
Local Open Scope string_scope.

(** [is_trial] is stored as 0 or 1. *)
Definition is_one (v : SqlVal) : bool :=
  match v with SBool b => b | SInt z => (z =? 1)%Z | _ => false end.

Definition mapLicense (r : Row) : res License :=
  let? id := as_text (cell r "id") in
  let? scope_id := as_text_or_null (cell r "scope_id") in
  let? template_id := as_text_or_null (cell r "template_id") in
  let? licensable_type := as_text (cell r "licensable_type") in
  let? licensable_id := as_text (cell r "licensable_id") in
  let? license_key := as_text (cell r "license_key") in
  let? status := as_status (cell r "status") in
  let? max_usages := as_int (cell r "max_usages") in
  let? activated_at := as_text_or_null (cell r "activated_at") in
  let? expires_at := as_text_or_null (cell r "expires_at") in
  let? grace_until := as_text_or_null (cell r "grace_until") in
  let? meta := parseJson (cell r "meta") in
  let? created_at := as_text (cell r "created_at") in
  let? updated_at := as_text (cell r "updated_at") in
  Ok (mkLicense id scope_id template_id licensable_type licensable_id license_key status max_usages
        (is_one (cell r "is_trial")) activated_at expires_at grace_until meta created_at updated_at).

Definition mapScope (r : Row) : res LicenseScope :=
  let? id := as_text (cell r "id") in
  let? slug := as_text (cell r "slug") in
  let? name := as_text (cell r "name") in
  let? meta := parseJson (cell r "meta") in
  let? created_at := as_text (cell r "created_at") in
  let? updated_at := as_text (cell r "updated_at") in
  Ok (mkScope id slug name meta created_at updated_at).

Definition mapTemplate (r : Row) : res LicenseTemplate :=
  let? id := as_text (cell r "id") in
  let? scope_id := as_text_or_null (cell r "scope_id") in
  let? parent_id := as_text_or_null (cell r "parent_id") in
  let? name := as_text (cell r "name") in
  let? max_usages := as_int (cell r "max_usages") in
  let? trial_duration_sec := as_int (cell r "trial_duration_sec") in
  let? trial_cooldown_sec := as_int_or_null (cell r "trial_cooldown_sec") in
  let? grace_duration_sec := as_int (cell r "grace_duration_sec") in
  let? force_online_after_sec := as_int_or_null (cell r "force_online_after_sec") in
  let? entitlements := parseJson (cell r "entitlements") in
  let? meta := parseJson (cell r "meta") in
  let? created_at := as_text (cell r "created_at") in
  let? updated_at := as_text (cell r "updated_at") in
  Ok (mkTemplate id scope_id parent_id name max_usages trial_duration_sec trial_cooldown_sec grace_duration_sec
        force_online_after_sec entitlements meta created_at updated_at).

Definition mapUsage (r : Row) : res LicenseUsage :=
  let? id := as_text (cell r "id") in
  let? license_id := as_text (cell r "license_id") in
  let? fingerprint := as_text (cell r "fingerprint") in
  let? status := as_usage_status (cell r "status") in
  let? registered_at := as_text (cell r "registered_at") in
  let? revoked_at := as_text_or_null (cell r "revoked_at") in
  let? last_seen_at := as_text_or_null (cell r "last_seen_at") in
  let? client_meta := parseJson (cell r "client_meta") in
  let? created_at := as_text (cell r "created_at") in
  let? updated_at := as_text (cell r "updated_at") in
  Ok (mkUsage id license_id fingerprint status registered_at revoked_at (given_or last_seen_at registered_at)
        client_meta created_at updated_at).

Definition mapKey (r : Row) : res LicenseKey :=
  let? id := as_text (cell r "id") in
  let? scope_id := as_text_or_null (cell r "scope_id") in
  let? kid := as_text (cell r "kid") in
  let? alg := as_alg (cell r "alg") in
  let? role := as_role (cell r "role") in
  let? state := as_key_state (cell r "state") in
  let? public_pem := as_text (cell r "public_pem") in
  let? private_pem_enc := as_text_or_null (cell r "private_pem_enc") in
  let? rotated_from := as_text_or_null (cell r "rotated_from") in
  let? rotated_at := as_text_or_null (cell r "rotated_at") in
  let? not_before := as_text (cell r "not_before") in
  let? not_after := as_text_or_null (cell r "not_after") in
  let? meta := parseJson (cell r "meta") in
  let? created_at := as_text (cell r "created_at") in
  let? updated_at := as_text (cell r "updated_at") in
  Ok (mkKey id scope_id kid alg role state public_pem private_pem_enc rotated_from rotated_at not_before not_after
        meta created_at updated_at).

(** A row without a kind is classified by its label. *)
Definition kind_of (v : SqlVal) (actor : jsstr) : res ActorKind :=
  match v with SNull => Ok (deriveActorKind actor) | v => as_actor_kind v end.

Definition mapAudit (r : Row) : res AuditLogEntry :=
  let? id := as_text (cell r "id") in
  let? license_id := as_text_or_null (cell r "license_id") in
  let? scope_id := as_text_or_null (cell r "scope_id") in
  let? actor := as_text (cell r "actor") in
  let? actor_kind := kind_of (cell r "actor_kind") actor in
  let? actor_id := as_text_or_null (cell r "actor_id") in
  let? event := as_text (cell r "event") in
  let? prior_state := parseJsonNullable (cell r "prior_state") in
  let? new_state := parseJsonNullable (cell r "new_state") in
  let? occurred_at := as_text (cell r "occurred_at") in
  Ok (mkAudit id license_id scope_id actor actor_kind actor_id event prior_state new_state occurred_at).

Definition mapTrialIssuance (r : Row) : res TrialIssuance :=
  let? id := as_text (cell r "id") in
  let? template_id := as_text_or_null (cell r "template_id") in
  let? fingerprint_hash := as_text (cell r "fingerprint_hash") in
  let? issued_at := as_text (cell r "issued_at") in
  Ok (mkTrial id template_id fingerprint_hash issued_at).

(** [rows.map(mapX)] *)
Fixpoint map_rows {A} (f : Row -> res A) (rows : list Row) : res (list A) :=
  match rows with
  | [] => Ok []
  | r :: rows' => let? a := f r in let? l := map_rows f rows' in Ok (a :: l)
  end.
End Rows.

(** ** The adapter *)

(** The running code holds the adapter itself or, inside a transaction, the
    one made for it. *)
Class TxObject (W : Type) : Type := { inTransaction : W -> bool; as_tx : bool -> W -> W }.

(** [`?`] *)
Definition question (n : nat) : unit := tt.

(** Either the library's error or the driver's. *)
Section Errors.
Context {W A : Type}.

Definition of_driver (c : M Thrown W A) : M mapped W A := fun w =>
  match c w with (Ok a, w') => (Ok a, w') | (Throw t, w') => (Throw (inr t), w') end.
Definition of_lib (c : prog W A) : M mapped W A := fun w =>
  match c w with (Ok a, w') => (Ok a, w') | (Throw e, w') => (Throw (inl e), w') end.

(** Leaving the adapter: a driver's error is nothing the callers know. *)
Definition uncaught (c : M mapped W A) : prog W A := fun w =>
  match c w with
  | (Ok a, w') => (Ok a, w')
  | (Throw (inl e), w') => (Throw e, w')
  | (Throw (inr _), w') => (Throw PlainError, w')
  end.

(** [try { c } catch (e) { mapX(e) }]. The library's own errors reach the
    mapping too and leave it as they are: none has a code or a message it
    looks for, unless a caller's id spells one. *)
Definition caught (map : Thrown -> mapped) (c : M mapped W A) : prog W A :=
  uncaught (try_catch c (fun e => throw match e with inl e => inl e | inr t => map t end)).
End Errors.

(** Columns of the audit table and of its join. *)
Abbreviation acol c := ("a"%string, c%string) (only parsing).
Abbreviation lcol c := ("l"%string, c%string) (only parsing).

Section Adapter.
Context {NT : NumberText} {JH : JsonHost} {W : Type} {HC : HasClock W} {HE : HasEntropy W} {EN : SqlEngine W unit}.
Local Open Scope string_scope.

(** [.query(sql).all(...)], [.get(...)] and [.run(...)]. *)
Definition sq_all (st : Stmt unit) (ps : list SqlVal) : M mapped W (list Row) := of_driver (sql_query st ps).
Definition sq_get (st : Stmt unit) (ps : list SqlVal) : M mapped W (option Row) :=
  let* rows := sq_all st ps in ret (head rows).
Definition sq_run (st : Stmt unit) (ps : list SqlVal) : M mapped W unit := do* sq_all st ps; ret tt.

Definition try_sqlite {A} (c : M mapped W A) : prog W A := caught mapSqliteError c.

(** [#now()] *)
Definition sqlite_now : prog W Instant := let* ms := nowMs in lift (isoFromMs ms).

(** [INSERT INTO t (...) VALUES (?,...)] *)
Definition insert_into (t : string) (columns : list string) : Stmt unit :=
  InsertInto t (map (fun c => (c, tt)) columns) false.
(** [SELECT * FROM t WHERE c = ?] *)
Definition select_by (t c : string) : Stmt unit := Select Star (From t) [CEq (col c) tt] [] None.

(** The row read back after a write; a missing one is cast away. *)
Definition read_back {A} (t : string) (f : Row -> res A) (missing : exn) (id : UUIDv7) : M mapped W A :=
  let* row := sq_get (select_by t "id") [SText id] in
  match row with
  | None => of_lib (throw missing)
  | Some r => of_lib (lift (f r))
  end.

Definition sqlite_find {A} (t c : string) (f : Row -> res A) (v : jsstr) : prog W (option A) :=
  uncaught (
    let* row := sq_get (select_by t c) [SText v] in
    match row with
    | None => ret None
    | Some r => of_lib (let* a := lift (f r) in ret (Some a))
    end).

(** [SELECT * FROM t WHERE ... ORDER BY created_at DESC, id DESC LIMIT n] *)
Definition newest_first : list Col := [col "created_at"; col "id"].

Definition sqlite_page {A} (t : string) (f : Row -> res A) (key : A -> CursorTuple) (q : Query unit) (page : PageRequest)
  : prog W (Page A) :=
  let q := q_cursor question (col "created_at") (col "id") page q in
  let limit := page_limit page in
  uncaught (
    let* rows := sq_all (Select Star (From t) q.1 newest_first (Some (limit + 1))) q.2 in
    let* items := of_lib (lift (map_rows f rows)) in
    ret (buildPage key items limit)).

(** *** Updates *)

(** What a patch can hold under a key that is present. *)
Inductive Field : Type := FText (s : jsstr) | FNull | FInt (z : Z) | FJson (v : jsval).

Definition nullable_text_field (o : option jsstr) : Field := match o with Some s => FText s | None => FNull end.
Definition nullable_int_field (o : option Z) : Field := match o with Some z => FInt z | None => FNull end.

(** The entries of a patch that are not [undefined]. *)
Fixpoint present_entries (entries : list (string * option Field)) : list (string * Field) :=
  match entries with
  | [] => []
  | (k, Some v) :: l => (k, v) :: present_entries l
  | (_, None) :: l => present_entries l
  end.

(** An object is stored as its JSON text. *)
Definition serialised (v : Field) : res SqlVal :=
  match v with
  | FText s => Ok (SText s)
  | FNull => Ok SNull
  | FInt z => Ok (SInt z)
  | FJson v => toJson v
  end.

Fixpoint serialise_all (l : list (string * Field)) : res (list SqlVal) :=
  match l with
  | [] => Ok []
  | (_, v) :: l' => let? x := serialised v in let? xs := serialise_all l' in Ok (x :: xs)
  end.

(** [buildUpdateSet]: the assignments and their values. *)
Definition sqlite_buildUpdateSet (entries : list (string * option Field)) : res (list (string * SetTo unit) * list SqlVal) :=
  let sets := present_entries entries in
  let? values := serialise_all sets in
  Ok (map (fun kv => (kv.1, SetParam tt)) sets, values).

Definition set_updated_at (sets : list (string * SetTo unit)) : list (string * SetTo unit) :=
  sets ++ [("updated_at", SetParam tt)].

(** [UPDATE t SET ..., updated_at = ? WHERE id = ?] and the row after it. *)
Definition sqlite_write_patch {A} (t : string) (f : Row -> res A) (missing : exn) (now : Instant) (id : UUIDv7)
    (set : list (string * SetTo unit) * list SqlVal) : M mapped W A :=
  do* (match set with
       | ([], _) => sq_run (UpdateSet t [("updated_at", SetParam tt)] "id" tt false) [SText now; SText id]
       | (sets, values) => sq_run (UpdateSet t (set_updated_at sets) "id" tt false) (values ++ [SText now; SText id])
       end);
  read_back t f missing id.

Definition sqlite_update {A} (t : string) (f : Row -> res A) (missing : exn) (id : UUIDv7)
    (entries : list (string * option Field)) : prog W A :=
  let* set := lift (sqlite_buildUpdateSet entries) in
  let* now := sqlite_now in
  try_sqlite (sqlite_write_patch t f missing now id set).

(** *** Licenses *)

Definition license_keyed (l : License) : CursorTuple := mkCursor (l_created_at l) (l_id l).

Definition sqlite_createLicense (input : LicenseInput) : prog W License :=
  let* id := freshUuid in
  let* now := sqlite_now in
  try_sqlite (
    let* meta := of_lib (lift (toJson (li_meta input))) in
    do* sq_run (insert_into "licenses"
          ["id"; "scope_id"; "template_id"; "licensable_type"; "licensable_id"; "license_key"; "status"; "max_usages";
           "activated_at"; "expires_at"; "grace_until"; "meta"; "created_at"; "updated_at"])
        [SText id; nullable_text (li_scope_id input); nullable_text (li_template_id input);
         SText (li_licensable_type input); SText (li_licensable_id input); SText (li_license_key input);
         SText (status_str (li_status input)); SInt (li_max_usages input); nullable_text (li_activated_at input);
         nullable_text (li_expires_at input); nullable_text (li_grace_until input); meta; SText now; SText now];
    read_back "licenses" mapLicense (errors.licenseNotFound id) id).

Definition sqlite_getLicense (id : UUIDv7) : prog W (option License) := sqlite_find "licenses" "id" mapLicense id.
Definition sqlite_getLicenseByKey (licenseKey : jsstr) : prog W (option License) :=
  sqlite_find "licenses" "license_key" mapLicense licenseKey.

(** [if (f && f.length > 0)] *)
Definition sqlite_q_in (c : Col) (f : option (list jsstr)) (q : Query unit) : Query unit :=
  match f with
  | Some ((_ :: _) as l) => q_in question c (map SText l) q
  | _ => q
  end.

Definition buildLicenseWhere (filter : LicenseFilter) : Query unit :=
  let q := ([CTrue], []) in
  let q := q_nullable question (col "scope_id") (lf_scope_id filter) q in
  let q := sqlite_q_in (col "status") (map status_str <$> lf_status filter) q in
  let q := q_opt question (CEq (col "licensable_type")) (SText <$> lf_licensable_type filter) q in
  let q := q_opt question (CEq (col "licensable_id")) (SText <$> lf_licensable_id filter) q in
  q_nullable question (col "template_id") (lf_template_id filter) q.

Definition sqlite_listLicenses (filter : LicenseFilter) (page : PageRequest) : prog W (Page License) :=
  sqlite_page "licenses" mapLicense license_keyed (buildLicenseWhere filter) page.

Definition sqlite_findLicensesByLicensable (query : FindByLicensableQuery) : prog W (list License) :=
  let q := ([CEq (col "licensable_type") tt; CEq (col "licensable_id") tt], [SText (fq_type query); SText (fq_id query)]) in
  let q := q_nullable question (col "scope_id") (fq_scope_id query) q in
  uncaught (
    let* rows := sq_all (Select Star (From "licenses") q.1 newest_first None) q.2 in
    of_lib (lift (map_rows mapLicense rows))).

Definition license_entries (p : LicensePatch) : list (string * option Field) :=
  [("status", (fun s => FText (status_str s)) <$> lp_status p); ("max_usages", FInt <$> lp_max_usages p);
   ("activated_at", nullable_text_field <$> lp_activated_at p); ("expires_at", nullable_text_field <$> lp_expires_at p);
   ("grace_until", nullable_text_field <$> lp_grace_until p); ("meta", FJson <$> lp_meta p);
   ("scope_id", nullable_text_field <$> lp_scope_id p); ("template_id", nullable_text_field <$> lp_template_id p);
   ("license_key", FText <$> lp_license_key p)].

Definition sqlite_updateLicense (id : UUIDv7) (patch : LicensePatch) : prog W License :=
  sqlite_update "licenses" mapLicense (errors.licenseNotFound id) id (license_entries patch).

(** *** Scopes *)

Definition not_there (id : UUIDv7) : exn := errors.uniqueConstraintViolation (js "pk") id.

Definition sqlite_createScope (input : LicenseScopeInput) : prog W LicenseScope :=
  let* id := freshUuid in
  let* now := sqlite_now in
  try_sqlite (
    let* meta := of_lib (lift (toJson (sci_meta input))) in
    do* sq_run (insert_into "license_scopes" ["id"; "slug"; "name"; "meta"; "created_at"; "updated_at"])
        [SText id; SText (sci_slug input); SText (sci_name input); meta; SText now; SText now];
    read_back "license_scopes" mapScope PlainError id).

Definition sqlite_getScope (id : UUIDv7) : prog W (option LicenseScope) := sqlite_find "license_scopes" "id" mapScope id.
Definition sqlite_getScopeBySlug (slug : jsstr) : prog W (option LicenseScope) :=
  sqlite_find "license_scopes" "slug" mapScope slug.

Definition scope_where (filter : LicenseScopeFilter) : Query unit :=
  q_opt question (CEq (col "slug")) (SText <$> scf_slug filter) ([CTrue], []).

Definition sqlite_listScopes (filter : LicenseScopeFilter) (page : PageRequest) : prog W (Page LicenseScope) :=
  sqlite_page "license_scopes" mapScope (fun s => mkCursor (sc_created_at s) (sc_id s)) (scope_where filter) page.

Definition scope_entries (p : LicenseScopePatch) : list (string * option Field) :=
  [("name", FText <$> scp_name p); ("meta", FJson <$> scp_meta p)].

Definition sqlite_updateScope (id : UUIDv7) (patch : LicenseScopePatch) : prog W LicenseScope :=
  sqlite_update "license_scopes" mapScope (not_there id) id (scope_entries patch).

(** *** Templates *)

Definition sqlite_createTemplate (input : LicenseTemplateInput) : prog W LicenseTemplate :=
  let* id := freshUuid in
  let* now := sqlite_now in
  try_sqlite (
    let* entitlements := of_lib (lift (toJson (tpi_entitlements input))) in
    let* meta := of_lib (lift (toJson (tpi_meta input))) in
    do* sq_run (insert_into "license_templates"
          ["id"; "scope_id"; "parent_id"; "name"; "max_usages"; "trial_duration_sec"; "trial_cooldown_sec";
           "grace_duration_sec"; "force_online_after_sec"; "entitlements"; "meta"; "created_at"; "updated_at"])
        [SText id; nullable_text (tpi_scope_id input); nullable_text (tpi_parent_id input); SText (tpi_name input);
         SInt (tpi_max_usages input); SInt (tpi_trial_duration_sec input); nullable_num (tpi_trial_cooldown_sec input);
         SInt (tpi_grace_duration_sec input); nullable_num (tpi_force_online_after_sec input); entitlements; meta;
         SText now; SText now];
    read_back "license_templates" mapTemplate PlainError id).

Definition sqlite_getTemplate (id : UUIDv7) : prog W (option LicenseTemplate) :=
  sqlite_find "license_templates" "id" mapTemplate id.

Definition template_where (filter : LicenseTemplateFilter) : Query unit :=
  let q := ([CTrue], []) in
  let q := q_nullable question (col "scope_id") (tf_scope_id filter) q in
  let q := q_opt question (CEq (col "name")) (SText <$> tf_name filter) q in
  q_nullable question (col "parent_id") (tf_parent_id filter) q.

Definition sqlite_listTemplates (filter : LicenseTemplateFilter) (page : PageRequest) : prog W (Page LicenseTemplate) :=
  sqlite_page "license_templates" mapTemplate (fun t => mkCursor (t_created_at t) (t_id t)) (template_where filter) page.

(** The loop of [walkSqliteParentChain], [hops] left. *)
Fixpoint walk_sqlite (hops : nat) (visited : list UUIDv7) (cursor : option UUIDv7) (forbidden : UUIDv7)
  : M mapped W (option (list UUIDv7)) :=
  match hops, cursor with
  | S hops', Some c =>
      let visited := (visited ++ [c])%list in
      if str_eqb c forbidden then ret (Some visited)
      else
        let* row := sq_get (Select (Columns [col "parent_id"]) (From "license_templates") [CEq (col "id") tt] [] None) [SText c] in
        match row with
        | None => ret None
        | Some r =>
            let* parent := of_lib (lift (as_text_or_null (cell r "parent_id"))) in
            walk_sqlite hops' visited parent forbidden
        end
  | _, _ => ret None
  end.

Definition walkSqliteParentChain (startParent forbidden : UUIDv7) : M mapped W (option (list UUIDv7)) :=
  walk_sqlite 64 [] (Some startParent) forbidden.

Definition template_entries (p : LicenseTemplatePatch) : list (string * option Field) :=
  [("name", FText <$> tp_name p); ("parent_id", nullable_text_field <$> tp_parent_id p); ("max_usages", FInt <$> tp_max_usages p);
   ("trial_duration_sec", FInt <$> tp_trial_duration_sec p);
   ("trial_cooldown_sec", nullable_int_field <$> tp_trial_cooldown_sec p);
   ("grace_duration_sec", FInt <$> tp_grace_duration_sec p);
   ("force_online_after_sec", nullable_int_field <$> tp_force_online_after_sec p);
   ("entitlements", FJson <$> tp_entitlements p); ("meta", FJson <$> tp_meta p)].

Definition sqlite_updateTemplate (id : UUIDv7) (patch : LicenseTemplatePatch) : prog W LicenseTemplate :=
  let* now := sqlite_now in
  try_sqlite (
    do* (match tp_parent_id patch with
         | Some (Some parent) =>
             let* cycle := walkSqliteParentChain parent id in
             match cycle with
             | Some chain => of_lib (throw (errors.templateCycle id chain))
             | None => ret tt
             end
         | _ => ret tt
         end);
    let* set := of_lib (lift (sqlite_buildUpdateSet (template_entries patch))) in
    sqlite_write_patch "license_templates" mapTemplate (not_there id) now id set).

(** *** Usages *)

Definition sqlite_createUsage (input : LicenseUsageInput) : prog W LicenseUsage :=
  let* id := freshUuid in
  let* now := sqlite_now in
  try_sqlite (
    let* client_meta := of_lib (lift (toJson (ui_client_meta input))) in
    do* sq_run (insert_into "license_usages"
          ["id"; "license_id"; "fingerprint"; "status"; "registered_at"; "revoked_at"; "client_meta"; "created_at";
           "updated_at"; "last_seen_at"])
        [SText id; SText (ui_license_id input); SText (ui_fingerprint input); SText (usage_status_str (ui_status input));
         SText (ui_registered_at input); nullable_text (ui_revoked_at input); client_meta; SText now; SText now;
         SText (ui_registered_at input)];
    read_back "license_usages" mapUsage PlainError id).

Definition sqlite_getUsage (id : UUIDv7) : prog W (option LicenseUsage) := sqlite_find "license_usages" "id" mapUsage id.

Definition usage_where (filter : LicenseUsageFilter) : Query unit :=
  let q := ([CTrue], []) in
  let q := q_opt question (CEq (col "license_id")) (SText <$> uf_license_id filter) q in
  let q := q_opt question (CEq (col "fingerprint")) (SText <$> uf_fingerprint filter) q in
  sqlite_q_in (col "status") (map usage_status_str <$> uf_status filter) q.

Definition sqlite_listUsages (filter : LicenseUsageFilter) (page : PageRequest) : prog W (Page LicenseUsage) :=
  sqlite_page "license_usages" mapUsage usage_key_of (usage_where filter) page.

Definition usage_entries (p : LicenseUsagePatch) : list (string * option Field) :=
  [("status", (fun s => FText (usage_status_str s)) <$> up_status p); ("revoked_at", nullable_text_field <$> up_revoked_at p);
   ("last_seen_at", FText <$> up_last_seen_at p); ("client_meta", FJson <$> up_client_meta p)].

Definition sqlite_updateUsage (id : UUIDv7) (patch : LicenseUsagePatch) : prog W LicenseUsage :=
  sqlite_update "license_usages" mapUsage (not_there id) id (usage_entries patch).

(** *** Keys *)

Definition sqlite_createKey (input : LicenseKeyInput) : prog W LicenseKey :=
  let* id := freshUuid in
  let* now := sqlite_now in
  try_sqlite (
    let* meta := of_lib (lift (toJson (ki_meta input))) in
    do* sq_run (insert_into "license_keys"
          ["id"; "scope_id"; "kid"; "alg"; "role"; "state"; "public_pem"; "private_pem_enc"; "rotated_from"; "rotated_at";
           "not_before"; "not_after"; "meta"; "created_at"; "updated_at"])
        [SText id; nullable_text (ki_scope_id input); SText (ki_kid input); SText (alg_str (ki_alg input));
         SText (role_str (ki_role input)); SText (key_state_str (ki_state input)); SText (ki_public_pem input);
         nullable_text (ki_private_pem_enc input); nullable_text (ki_rotated_from input);
         nullable_text (ki_rotated_at input); SText (ki_not_before input); nullable_text (ki_not_after input); meta;
         SText now; SText now];
    read_back "license_keys" mapKey PlainError id).

Definition sqlite_getKey (id : UUIDv7) : prog W (option LicenseKey) := sqlite_find "license_keys" "id" mapKey id.
Definition sqlite_getKeyByKid (kid : jsstr) : prog W (option LicenseKey) := sqlite_find "license_keys" "kid" mapKey kid.

Definition key_where (filter : LicenseKeyFilter) : Query unit :=
  let q := ([CTrue], []) in
  let q := q_nullable question (col "scope_id") (kf_scope_id filter) q in
  let q := q_opt question (CEq (col "kid")) (SText <$> kf_kid filter) q in
  let q := q_opt question (CEq (col "alg")) ((fun a => SText (alg_str a)) <$> kf_alg filter) q in
  let q := q_opt question (CEq (col "role")) ((fun r => SText (role_str r)) <$> kf_role filter) q in
  q_opt question (CEq (col "state")) ((fun s => SText (key_state_str s)) <$> kf_state filter) q.

Definition sqlite_listKeys (filter : LicenseKeyFilter) (page : PageRequest) : prog W (Page LicenseKey) :=
  sqlite_page "license_keys" mapKey (fun k => mkCursor (k_created_at k) (k_id k)) (key_where filter) page.

Definition key_entries (p : LicenseKeyPatch) : list (string * option Field) :=
  [("state", (fun s => FText (key_state_str s)) <$> kp_state p); ("rotated_from", nullable_text_field <$> kp_rotated_from p);
   ("rotated_at", nullable_text_field <$> kp_rotated_at p); ("not_after", nullable_text_field <$> kp_not_after p);
   ("meta", FJson <$> kp_meta p)].

Definition sqlite_updateKey (id : UUIDv7) (patch : LicenseKeyPatch) : prog W LicenseKey :=
  sqlite_update "license_keys" mapKey (not_there id) id (key_entries patch).

(** *** Audit log *)

Definition sqlite_appendAudit (input : AuditLogInput) : prog W AuditLogEntry :=
  let* id := freshUuid in
  try_sqlite (
    let* prior_state := of_lib (lift (toJsonNullable (ai_prior_state input))) in
    let* new_state := of_lib (lift (toJsonNullable (ai_new_state input))) in
    do* sq_run (insert_into "audit_logs"
          ["id"; "license_id"; "scope_id"; "actor"; "event"; "prior_state"; "new_state"; "occurred_at"; "actor_kind";
           "actor_id"])
        [SText id; nullable_text (ai_license_id input); nullable_text (ai_scope_id input); SText (ai_actor input);
         SText (ai_event input); prior_state; new_state; SText (ai_occurred_at input);
         SText (actor_kind_str (resolveActorKind input)); nullable_text (ai_actor_id input)];
    read_back "audit_logs" mapAudit PlainError id).

Definition sqlite_getAudit (id : UUIDv7) : prog W (option AuditLogEntry) := sqlite_find "audit_logs" "id" mapAudit id.

(** The conditions on the audit row, then those on its license. *)
Definition sqlite_audit_where (filter : AuditLogFilter) : Query unit :=
  let q := ([CTrue], []) in
  let q := q_nullable question (acol "license_id") (af_license_id filter) q in
  let q := q_nullable question (acol "scope_id") (af_scope_id filter) q in
  let q := match af_event filter with Some events => q_in question (acol "event") (map SText events) q | None => q end in
  let q := q_opt question (CEq (acol "actor")) (SText <$> af_actor filter) q in
  let q := q_opt question (CGe (acol "occurred_at")) (SText <$> af_since filter) q in
  let q := q_opt question (CLt (acol "occurred_at")) (SText <$> af_until filter) q in
  let q := q_opt question (CEq (lcol "licensable_type")) (SText <$> af_licensable_type filter) q in
  q_opt question (CEq (lcol "licensable_id")) (SText <$> af_licensable_id filter) q.

Definition audit_source (filter : AuditLogFilter) : Source :=
  match af_licensable_type filter, af_licensable_id filter with
  | None, None => FromAs "audit_logs" "a"
  | _, _ => InnerJoin "audit_logs" "a" "licenses" "l" "id" "license_id"
  end.

Definition audit_keyed (e : AuditLogEntry) : CursorTuple := mkCursor (a_occurred_at e) (a_id e).

Definition sqlite_listAudit (filter : AuditLogFilter) (page : PageRequest) : prog W (Page AuditLogEntry) :=
  match af_event filter with
  | Some [] => ret (mkPage [] None)
  | _ =>
      let limit := page_limit page in
      let q := q_cursor question (acol "occurred_at") (acol "id") page (sqlite_audit_where filter) in
      uncaught (
        let* rows := sq_all (Select (StarOf "a") (audit_source filter) q.1 [acol "occurred_at"; acol "id"] (Some (limit + 1))) q.2 in
        let* items := of_lib (lift (map_rows mapAudit (take (Z.to_nat limit) rows))) in
        let hasMore := (limit <? Z.of_nat (List.length rows))%Z in
        ret (mkPage items
               (match hasMore, last items with true, Some e => Some (encodeCursor (audit_keyed e)) | _, _ => None end)))
  end.

(** *** Trials *)

Definition sqlite_recordTrialIssuance (input : TrialIssuanceInput) : prog W TrialIssuance :=
  let* id := freshUuid in
  let* now := sqlite_now in
  try_sqlite (
    do* sq_run (insert_into "trial_issuances" ["id"; "template_id"; "fingerprint_hash"; "issued_at"])
        [SText id; nullable_text (tri_template_id input); SText (tri_fingerprint_hash input); SText now];
    read_back "trial_issuances" mapTrialIssuance PlainError id).

Definition sqlite_findTrialIssuance (query : TrialIssuanceLookup) : prog W (option TrialIssuance) :=
  let '(conds, args) :=
    match tl_template_id query with
    | None => ([CIsNull (col "template_id"); CEq (col "fingerprint_hash") tt], [SText (tl_fingerprint_hash query)])
    | Some t => ([CEq (col "template_id") tt; CEq (col "fingerprint_hash") tt], [SText t; SText (tl_fingerprint_hash query)])
    end in
  uncaught (
    let* row := sq_get (Select Star (From "trial_issuances") conds [col "issued_at"] (Some 1)) args in
    match row with
    | None => ret None
    | Some r => of_lib (let* t := lift (mapTrialIssuance r) in ret (Some t))
    end).

Definition sqlite_deleteTrialIssuance (id : UUIDv7) : prog W unit :=
  uncaught (sq_run (DeleteFrom "trial_issuances" "id" tt) [SText id]).

(** *** Aggregates *)

(** [#scopeWhere]: the condition on a scope column, for a query of its own
    and at the end of another. *)
Definition scope_and (c : Col) (scopeFilter : LicenseStatsFilter) (q : Query unit) : Query unit :=
  q_nullable question c scopeFilter q.

(** The columns a roll-up reads; it reads no other field of a license. *)
Definition stats_row (r : Row) : res License :=
  let? id := as_text (cell r "id") in
  let? scope_id := as_text_or_null (cell r "scope_id") in
  let? template_id := as_text_or_null (cell r "template_id") in
  let? status := as_status (cell r "status") in
  let? max_usages := as_int (cell r "max_usages") in
  let? expires_at := as_text_or_null (cell r "expires_at") in
  let? license_key := as_text (cell r "license_key") in
  Ok (mkLicense id scope_id template_id [] [] license_key status max_usages false None expires_at None JUndefined [] []).

Definition stats_columns : list Col :=
  [col "id"; col "scope_id"; col "template_id"; col "status"; col "max_usages"; col "expires_at"; col "license_key"].

Definition delta_events : list string :=
  ["license.created"; "license.activated"; "license.revoked"; "license.expired"; "license.suspended"].

Definition sqlite_getLicenseStats (filter : LicenseStatsFilter) : prog W LicenseStats :=
  uncaught (
    let q := scope_and (col "scope_id") filter ([], []) in
    let* licenseRows := sq_all (Select (Columns stats_columns) (From "licenses") q.1 [] None) q.2 in
    let q := scope_and (lcol "scope_id") filter ([CIs ("u", "status") ["active"]], []) in
    let* usageRows := sq_all (Select (Columns [("u", "license_id")]) (InnerJoin "license_usages" "u" "licenses" "l" "id" "license_id")
                                q.1 [] None) q.2 in
    let* ms := of_lib nowMs in
    let* sinceIso := of_lib (lift (isoFromMs (ms - 30 * 24 * 60 * 60 * 1000))) in
    let q := scope_and (col "scope_id") filter ([CIs (col "event") delta_events; CGe (col "occurred_at") tt], [SText sinceIso]) in
    let* auditRows := sq_all (Select (Columns [col "event"]) (From "audit_logs") q.1 [] None) q.2 in
    of_lib (lift (
      let? licenses := map_rows stats_row licenseRows in
      let? used := map_rows (fun r => as_text (cell r "license_id")) usageRows in
      let? events := map_rows (fun r => as_text (cell r "event")) auditRows in
      computeLicenseStats (mkStatsInput licenses used events ms)))).

(** *** Transactions *)

Context {TO : TxObject W}.

(** The constructor, run without [tx]. *)
Definition newSqliteStorage (skipWalPragma : bool) : prog W unit :=
  do* (if skipWalPragma then ret tt
       else uncaught (try_catch (sq_run (Pragma "journal_mode" "WAL") []) (fun _ => ret tt)));
  uncaught (sq_run (Pragma "foreign_keys" "ON") []).

(** The body runs on an adapter of its own, over the same database. *)
Definition on_tx_adapter {T} (c : prog W T) : prog W T := fun w =>
  let '(r, w') := c (as_tx true w) in (r, as_tx (inTransaction w) w').

Definition sqlite_withTransaction {T} (fn : prog W T) : prog W T := fun w =>
  if inTransaction w then (Throw PlainError, w)
  else
    (do* uncaught (sq_run Begin []);
     try_catch (let* result := on_tx_adapter fn in do* uncaught (sq_run Commit []); ret result)
               (fun err => do* uncaught (sq_run Rollback []); throw err)) w.
End Adapter.

#[global] Instance SqliteStorage {NT : NumberText} {JH : JsonHost} {W : Type} {HC : HasClock W} {HE : HasEntropy W}
    {EN : SqlEngine W unit} {TO : TxObject W} : Storage W := {|
  createLicense := sqlite_createLicense;
  getLicense := sqlite_getLicense;
  getLicenseByKey := sqlite_getLicenseByKey;
  listLicenses := sqlite_listLicenses;
  findLicensesByLicensable := sqlite_findLicensesByLicensable;
  updateLicense := sqlite_updateLicense;
  createScope := sqlite_createScope;
  getScope := sqlite_getScope;
  getScopeBySlug := sqlite_getScopeBySlug;
  listScopes := sqlite_listScopes;
  updateScope := sqlite_updateScope;
  createTemplate := sqlite_createTemplate;
  getTemplate := sqlite_getTemplate;
  listTemplates := sqlite_listTemplates;
  updateTemplate := sqlite_updateTemplate;
  createUsage := sqlite_createUsage;
  getUsage := sqlite_getUsage;
  listUsages := sqlite_listUsages;
  updateUsage := sqlite_updateUsage;
  createKey := sqlite_createKey;
  getKey := sqlite_getKey;
  getKeyByKid := sqlite_getKeyByKid;
  listKeys := sqlite_listKeys;
  updateKey := sqlite_updateKey;
  appendAudit := sqlite_appendAudit;
  getAudit := sqlite_getAudit;
  listAudit := sqlite_listAudit;
  recordTrialIssuance := sqlite_recordTrialIssuance;
  findTrialIssuance := sqlite_findTrialIssuance;
  deleteTrialIssuance := sqlite_deleteTrialIssuance;
  withTransaction := @sqlite_withTransaction _ _ _
|}.
