(* ===== verification/SqlProps.v ===== *)
(** * SqlProps: facts about statements the adapters' theorems share

    Rows that read as entities, query builders that bind, and the theorem
    that a keyset query answers with the page the memory adapter cuts. *)

From S2P Require Import Prelude Errors JsNum Text Json Types Id Cursor Storage Memory MemoryLaws SqlErrors Sql Sqlite.
From stdpp Require Import strings.
#[local] Open Scope Z_scope.

(** ** Rows that read as entities *)

Section Reading.
Context {A : Type} (f : Row -> res A).

(** Rows paired with what they read as. *)
Definition reading (ps : list (Row * A)) : Prop := Forall (fun p => f p.1 = Ok p.2) ps.

Lemma map_rows_reading ps : reading ps -> map_rows f (map fst ps) = Ok (map snd ps).
Proof. induction 1 as [|[r a] ps H _ IH]; [done|]. cbn in *. by rewrite H, IH. Qed.

Lemma map_rows_inv rows l : map_rows f rows = Ok l -> exists ps, reading ps /\ rows = map fst ps /\ l = map snd ps.
Proof.
  revert l. induction rows as [|r rows IH]; intros l H; [injection H as <-; exists []; by split; [constructor|]|].
  cbn in H. destruct (f r) as [a|] eqn:E; [|done]. cbn in H. destruct (map_rows f rows) as [l'|]; [|done].
  injection H as <-. destruct (IH l' eq_refl) as (ps & Hp & -> & ->). exists ((r, a) :: ps). by split; [constructor|].
Qed.

Lemma map_rows_take n rows l : map_rows f rows = Ok l ->
  map_rows f (take n rows) = Ok (take n l) /\ List.length rows = List.length l.
Proof.
  intros H. destruct (map_rows_inv rows l H) as (ps & Hp & -> & ->). rewrite !length_map. split; [|done].
  rewrite !firstn_map. by apply map_rows_reading, Forall_take.
Qed.

Lemma reading_filter ps (p : Row -> bool) (q : A -> bool) :
  reading ps -> (forall r a, (r, a) ∈ ps -> f r = Ok a -> p r = q a) ->
  List.filter p (map fst ps) = map fst (List.filter (fun x => q x.2) ps)
  /\ List.filter q (map snd ps) = map snd (List.filter (fun x => q x.2) ps).
Proof.
  intros Hr Hq. induction Hr as [|[r a] ps H _ IH]; [done|]. cbn in H.
  destruct IH as [IH1 IH2]; [intros; apply Hq; [by right|done]|].
  cbn. rewrite (Hq r a), IH1, IH2; [by destruct (q a)|left|done].
Qed.

Lemma reading_perm ps ps' : ps ≡ₚ ps' -> reading ps -> reading ps'.
Proof. unfold reading. intros Hp. by rewrite Hp. Qed.

Lemma reading_sub ps (q : Row * A -> bool) : reading ps -> reading (List.filter q ps).
Proof. unfold reading. rewrite !Forall_forall. intros H x Hx. apply Prelude.elem_filter in Hx as [Hx _]. auto. Qed.

Lemma reading_take n ps : reading ps -> reading (take n ps).
Proof. apply Forall_take. Qed.
End Reading.

Lemma perm_fst {X Y} (l : list X) (ps : list (X * Y)) :
  l ≡ₚ map fst ps -> exists ps', l = map fst ps' /\ ps' ≡ₚ ps.
Proof. intros H. destruct (Permutation_map_inv _ _ H) as (ps' & -> & Hp). by exists ps'. Qed.

Lemma perm_eq {X} (l l' : list X) : l = l' -> l ≡ₚ l'.
Proof. by intros ->. Qed.

Lemma filter_perm {X} (p : X -> bool) l l' : l ≡ₚ l' -> List.filter p l ≡ₚ List.filter p l'.
Proof.
  induction 1 as [|x l l' _ IH|x y l|]; [done| | |by etransitivity]; cbn.
  - destruct (p x); [by constructor|done].
  - destruct (p x), (p y); try done. constructor.
Qed.

(** ** Sorting *)

Lemma sorted_map {X Y} (R : Y -> Y -> Prop) (S : X -> X -> Prop) (g : X -> Y) l :
  (forall x y, x ∈ l -> y ∈ l -> R (g x) (g y) -> S x y) -> StronglySorted R (map g l) -> StronglySorted S l.
Proof.
  induction l as [|x l IH]; intros H Hs; [constructor|]. cbn in Hs. apply StronglySorted_inv in Hs as [Hs Hx]. constructor.
  - apply IH; [|done]. intros y z Hy Hz. apply H; by right.
  - rewrite Forall_forall in Hx. apply Forall_forall. intros y Hy. apply H; [left|by right|]. apply Hx, list_elem_of_fmap. eauto.
Qed.

Lemma sorted_out {X Y} (R : Y -> Y -> Prop) (S : X -> X -> Prop) (g : X -> Y) l :
  (forall x y, x ∈ l -> y ∈ l -> S x y -> R (g x) (g y)) -> StronglySorted S l -> StronglySorted R (map g l).
Proof.
  induction l as [|x l IH]; intros H Hs; [constructor|]. cbn. apply StronglySorted_inv in Hs as [Hs Hx]. constructor.
  - apply IH; [|done]. intros y z Hy Hz. apply H; by right.
  - rewrite Forall_forall in Hx. apply Forall_forall. intros y (z & -> & Hz)%list_elem_of_fmap. apply H; [left|by right|auto].
Qed.

(** ** Pages *)

Section Keyset.
Context {T : Type} (key : T -> CursorTuple).

Definition behind (page : PageRequest) (x : T) : bool :=
  match decodeCursor (pr_cursor page) with None => true | Some c => isAfter (key x) c end.

(** A list sorted newest first is determined by its rows. *)
Lemma keyset_unique (l l' : list T) :
  NoDup (key <$> l) -> StronglySorted (desc_le key) l -> StronglySorted (desc_le key) l' -> l' ≡ₚ l -> l' = l.
Proof.
  intros Hn Hs Hs' Hp. eapply (StronglySorted_unique_strong (desc_le key)); [|done..]. intros x y Hx Hy H1 H2.
  rewrite Hp in Hx. apply desc_le_after in H1, H2. pose proof (isAfter_total _ _ H1 H2) as He.
  apply list_elem_of_lookup in Hx as [i Hi], Hy as [j Hj].
  assert (i = j) as ->; [|congruence]. eapply (NoDup_lookup (key <$> l)); [done|by rewrite list_lookup_fmap, Hi|].
  by rewrite list_lookup_fmap, Hj, He.
Qed.

Lemma NoDup_map_filter (p : T -> bool) l : NoDup (key <$> l) -> NoDup (key <$> List.filter p l).
Proof.
  induction l as [|x l IH]; [done|]. intros [Hx Hl]%NoDup_cons. cbn. destruct (p x); [|auto]. apply NoDup_cons.
  split; [|auto]. intros (y & Hy & Hin)%list_elem_of_fmap. apply Prelude.elem_filter in Hin as [Hin _].
  apply Hx. rewrite Hy. by apply list_elem_of_fmap_2.
Qed.

Lemma NoDup_perm_filter (p : T -> bool) l sel : sel ≡ₚ List.filter p l -> NoDup (key <$> l) -> NoDup (key <$> sel).
Proof. intros Hp Hn. rewrite Hp. by apply NoDup_map_filter. Qed.

Lemma sorted_filter (p : T -> bool) (R : T -> T -> Prop) l : StronglySorted R l -> StronglySorted R (List.filter p l).
Proof.
  induction 1 as [|x l Hs IH Hx]; [constructor|]. cbn. destruct (p x); [|done]. constructor; [done|].
  rewrite Forall_forall in Hx. apply Forall_forall. intros y Hy. apply Prelude.elem_filter in Hy as [Hy _]. auto.
Qed.

(** The rows behind the cursor, up to one more than the limit, make the page
    the memory adapter cuts out of all of them. *)
Lemma paginate_buildPage items page sel :
  NoDup (key <$> items) -> StronglySorted (desc_le key) sel -> sel ≡ₚ List.filter (behind page) items ->
  buildPage key (take (Z.to_nat (page_limit page + 1)) sel) (page_limit page) = paginate key items page.
Proof.
  intros Hn Hs Hp. set (sorted := merge_sort (desc_le key) items).
  assert (Hss : StronglySorted (desc_le key) sorted) by apply (StronglySorted_merge_sort (desc_le key)).
  assert (Hsp : sorted ≡ₚ items) by apply (merge_sort_Permutation (desc_le key)).
  assert (Hsel : sel = List.filter (behind page) sorted).
  { apply keyset_unique; [|by apply sorted_filter|done|by rewrite Hp; apply filter_perm]. apply NoDup_map_filter. by rewrite Hsp. }
  subst sel. unfold paginate, buildPage. fold (page_limit page) sorted.
  assert (Hlim : 1 <= page_limit page <= 500) by (unfold page_limit; lia).
  set (limit := page_limit page) in *. clearbody limit.
  assert (Hcut : match (match decodeCursor (pr_cursor page) with
                        | None => Some O | Some c => findIndex (fun r => isAfter (key r) c) sorted end) with
                 | None => List.filter (behind page) sorted = []
                 | Some n => List.filter (behind page) sorted = drop n sorted
                 end).
  { unfold behind. destruct (decodeCursor (pr_cursor page)) as [c|]; [exact (findIndex_after key sorted c Hss)|]. by rewrite filter_keep. }
  destruct (match decodeCursor (pr_cursor page) with None => _ | Some c => _ end) as [n|]; rewrite Hcut; cycle 1.
  { rewrite take_nil. cbn [List.length]. destruct (Z.ltb_spec limit (Z.of_nat 0)); [lia|done]. }
  rewrite length_take, length_drop, length_take, length_drop.
  destruct (Z.ltb_spec limit (Z.of_nat (Z.to_nat (limit + 1) `min` (List.length sorted - n)))) as [Hl|Hl];
    destruct (Nat.ltb_spec (n + Z.to_nat limit `min` (List.length sorted - n)) (List.length sorted)) as [Hl'|Hl']; try lia.
  - rewrite take_take. replace (Z.to_nat limit `min` Z.to_nat (limit + 1))%nat with (Z.to_nat limit) by lia. done.
  - rewrite !take_ge by (rewrite length_drop; lia). done.
Qed.
End Keyset.

(** ** Builders bind *)

Lemma bind_conds_app {P S} (take : string -> P -> S -> option (SqlVal * S)) l1 l2 s :
  bind_conds take (l1 ++ l2) s
  = '(c1, s) ← bind_conds take l1 s; '(c2, s) ← bind_conds take l2 s; Some (c1 ++ c2, s).
Proof.
  revert s. induction l1 as [|c l1 IH]; intros s; cbn.
  - by destruct (bind_conds take l2 s) as [[c2 s']|].
  - destruct (bind_cond take c s) as [[c' s']|]; [|done]. cbn. rewrite IH.
    destruct (bind_conds take l1 s') as [[c1 s1]|]; [|done]. cbn. by destruct (bind_conds take l2 s1) as [[c2 s2]|].
Qed.

(** A query of [?]s stands for bound conditions, whatever is bound after. *)
Definition binds (q : Query unit) (cs : list (Cond SqlVal)) : Prop :=
  forall rest, bind_conds take_next q.1 (q.2 ++ rest) = Some (cs, rest).

Lemma binds_start : binds ([CTrue], []) [CTrue].
Proof. done. Qed.

Lemma binds_and q cs c c' : binds q cs -> (forall s, bind_cond take_next c s = Some (c', s)) -> binds (q_and c q) (cs ++ [c']).
Proof.
  intros H Hc rest. unfold q_and. cbn [fst snd]. rewrite bind_conds_app, H. cbn. by rewrite Hc.
Qed.

(** The conditions on one column that take one parameter. *)
Inductive one_param : (unit -> Cond unit) -> (SqlVal -> Cond SqlVal) -> Prop :=
| one_eq c : one_param (CEq c) (CEq c)
| one_ge c : one_param (CGe c) (CGe c)
| one_lt c : one_param (CLt c) (CLt c).

Lemma binds_with q cs k k' v : binds q cs -> one_param k k' -> binds (q_with question k v q) (cs ++ [k' v]).
Proof.
  intros H Hk rest. unfold q_with. cbn [fst snd]. rewrite <- app_assoc, bind_conds_app, H. by destruct Hk.
Qed.

Lemma binds_opt q cs k k' f : binds q cs -> one_param k k' ->
  binds (q_opt question k f q) (cs ++ match f with None => [] | Some v => [k' v] end).
Proof. intros H Hk. destruct f as [v|]; [by apply binds_with|by rewrite app_nil_r]. Qed.

Lemma binds_nullable q cs c f : binds q cs ->
  binds (q_nullable question c f q)
    (cs ++ match f with None => [] | Some None => [CIsNull c] | Some (Some s) => [CEq c (SText s)] end).
Proof.
  intros H. destruct f as [[s|]|]; [by apply binds_with; [|constructor]|by apply binds_and|by rewrite app_nil_r].
Qed.

Lemma bind_each_next c (ps : list unit) vs rest :
  List.length ps = List.length vs -> bind_each take_next c ps (vs ++ rest) = Some (vs, rest).
Proof.
  revert vs. induction ps as [|p ps IH]; intros [|v vs] H; try discriminate H; [done|]. cbn. by rewrite IH by (by injection H).
Qed.

Lemma binds_in q cs c vs : binds q cs -> binds (q_in question c vs q) (cs ++ [CIn c vs]).
Proof.
  intros H rest. unfold q_in. cbn [fst snd]. rewrite <- app_assoc, bind_conds_app, H. cbn.
  by rewrite bind_each_next by (by rewrite length_map, length_seq).
Qed.

Definition cursor_conds (c1 c2 : Col) (page : PageRequest) : list (Cond SqlVal) :=
  match decodeCursor (pr_cursor page) with
  | None => []
  | Some cursor => [CBefore c1 c2 (SText (cu_createdAt cursor)) (SText (cu_id cursor))]
  end.

Lemma binds_cursor q cs c1 c2 page : binds q cs -> binds (q_cursor question c1 c2 page q) (cs ++ cursor_conds c1 c2 page).
Proof.
  intros H. unfold q_cursor, cursor_conds. destruct (decodeCursor (pr_cursor page)) as [c|]; [|by rewrite app_nil_r].
  intros rest. cbn [fst snd]. rewrite <- app_assoc, bind_conds_app, H. done.
Qed.

Lemma binds_select q cs what src order limit : binds q cs ->
  bind_params (Select what src q.1 order limit) q.2 = Some (Select what src cs order limit).
Proof. intros H. specialize (H []). rewrite app_nil_r in H. cbn. by rewrite H. Qed.

Lemma where_app cs cs' e : where_holds (cs ++ cs') e = where_holds cs e && where_holds cs' e.
Proof. apply forallb_app. Qed.

(** ** Queries in the order of the listings *)

Lemma filter_map {X Y} (g : X -> Y) (p : Y -> bool) l : List.filter p (map g l) = map g (List.filter (fun x => p (g x)) l).
Proof. induction l as [|x l IH]; [done|]. cbn. rewrite IH. by destruct (p (g x)). Qed.

Lemma limited_map {X Y} (g : X -> Y) limit l : limited_to limit (map g l) = map g (limited_to limit l).
Proof. destruct limit; [|done]. cbn. by rewrite firstn_map. Qed.

Lemma sorts_before_ascii x y : forallb is_ascii x = true -> forallb is_ascii y = true ->
  sorts_before (SText x) (SText y) = str_ltb x y.
Proof. intros Hx Hy. rewrite sorts_before_key. cbn. by rewrite !utf8_encode_ascii. Qed.

Section Listing.
Context {A : Type} (f : Row -> res A) (key : A -> CursorTuple) (what : What) (c1 c2 : Col).

(** A row of a source that projects to [x], with the key of [x], in ASCII,
    in the columns [c1] and [c2]. *)
Record shows (e : Env) (x : A) : Prop := {
  sh_reads : f (project what e) = Ok x;
  sh_time : read e c1 = SText (cu_createdAt (key x));
  sh_id : read e c2 = SText (cu_id (key x));
  sh_ascii : ascii_cursor (key x) = true
}.

Lemma rank_keys e x e' x' : shows e x -> shows e' x' -> rank_lt [c1; c2] e e' = isAfter (key x) (key x').
Proof.
  intros [_ H1 H2 Hx] [_ H3 H4 Hx']. unfold ascii_cursor in *. apply andb_prop in Hx as [Hx1 Hx2], Hx' as [Hy1 Hy2].
  cbn [rank_lt]. rewrite H1, H2, H3, H4, !sorts_before_ascii by done.
  unfold isAfter, str_eqb. destruct (str_ltb (cu_createdAt (key x)) (cu_createdAt (key x'))) eqn:E.
  - rewrite bool_decide_false; [done|]. intros He. rewrite He, str_ltb_irrefl in E. done.
  - cbn [orb]. destruct (str_ltb (cu_createdAt (key x')) (cu_createdAt (key x))) eqn:E'; cbn [negb andb].
    + rewrite bool_decide_false; [done|]. intros He. rewrite He, str_ltb_irrefl in E'. done.
    + rewrite bool_decide_true by (by apply str_ltb_total). cbn [negb]. by rewrite andb_false_r, orb_false_r.
Qed.

(** What a sorted query answers: rows that read as the entities that match,
    in the order of the listings, up to the limit. *)
Lemma selects_reading db src cs limit (ps : list (Env * A)) (q : A -> bool) rows :
  source_rows db src = map fst ps -> Forall (fun p => shows p.1 p.2) ps ->
  (forall e x, (e, x) ∈ ps -> where_holds cs e = q x) ->
  selects db what src cs [c1; c2] limit rows ->
  exists sel, map_rows f rows = Ok (limited_to limit sel) /\ sel ≡ₚ List.filter q (map snd ps)
    /\ StronglySorted (desc_le key) sel /\ List.length rows = List.length (limited_to limit sel).
Proof.
  intros Hsrc Hsh Hq (envs & Hp & Hs & ->). rewrite Hsrc, filter_map in Hp.
  rewrite Forall_forall in Hsh.
  destruct (Permutation_map_inv _ _ Hp) as (ps' & -> & Hp').
  assert (Hin : forall p, p ∈ ps' -> p ∈ ps).
  { intros p. rewrite <- Hp'. intros Hx. by apply Prelude.elem_filter in Hx as [Hx _]. }
  exists (map snd ps'). rewrite !limited_map, map_map, !length_map. split; [|split; [|split; [|done]]].
  - rewrite <- map_map with (f := fst) (g := project what).
    assert (Ht : forall p, p ∈ limited_to limit ps' -> shows p.1 p.2).
    { intros p Hx. apply Hsh, Hin. destruct limit; [|exact Hx]. cbn in Hx.
      eapply list_elem_of_lookup in Hx as [i Hi]. apply lookup_take_Some in Hi as [Hi _]. by eapply list_elem_of_lookup_2. }
    induction (limited_to limit ps') as [|p l IH]; [done|]. cbn. rewrite (sh_reads _ _ (Ht p ltac:(left))). cbn.
    rewrite IH; [done|]. intros p' Hx. apply Ht. by right.
  - rewrite filter_map, <- Hp'. apply Permutation_map, perm_eq. symmetry. apply List.filter_ext_in.
    intros [e x] Hx. symmetry. apply Hq. by apply list_elem_of_In.
  - eapply (sorted_out _ (fun p p' => order_le [c1; c2] p.1 p'.1)); [|by eapply sorted_map; [|exact Hs]].
    intros [e x] [e' x'] Hx Hx' Ho. cbn [fst snd] in *. apply desc_le_after. unfold order_le in Ho.
    cbn [fst snd] in *. by rewrite (rank_keys e x e' x' (Hsh _ (Hin _ Hx)) (Hsh _ (Hin _ Hx'))) in Ho.
Qed.

(** The condition behind a cursor. *)
Definition page_ok (page : PageRequest) : Prop :=
  match decodeCursor (pr_cursor page) with Some c => ascii_cursor c = true | None => True end.

Lemma cursor_behind e x page : shows e x -> page_ok page -> where_holds (cursor_conds c1 c2 page) e = behind key page x.
Proof.
  intros [_ H1 H2 Hx] Hp. unfold page_ok, cursor_conds, behind in *. destruct (decodeCursor _) as [c|]; [|done].
  unfold where_holds. cbn [forallb cond_holds]. rewrite H1, H2, andb_true_r. unfold ascii_cursor in *.
  apply andb_prop in Hx as [Hx1 Hx2], Hp as [Hc1 Hc2]. cbn [sql_lt sql_eq]. rewrite !utf8_encode_ascii by done.
  unfold isAfter, str_eqb. case_bool_decide as E; cbn [negb andb]; [by rewrite E, str_ltb_irrefl|by rewrite orb_false_r].
Qed.

(** So a keyset query makes the page the memory adapter cuts. *)
Lemma keyset_query db src cs page (ps : list (Env * A)) (q : A -> bool) rows :
  source_rows db src = map fst ps -> Forall (fun p => shows p.1 p.2) ps -> NoDup (key <$> map snd ps) ->
  page_ok page -> (forall e x, (e, x) ∈ ps -> where_holds cs e = q x) ->
  selects db what src (cs ++ cursor_conds c1 c2 page) [c1; c2] (Some (page_limit page + 1)) rows ->
  exists items, map_rows f rows = Ok items
    /\ buildPage key items (page_limit page) = paginate key (List.filter q (map snd ps)) page.
Proof.
  intros Hsrc Hsh Hn Hpg Hq Hsel.
  destruct (selects_reading db src (cs ++ cursor_conds c1 c2 page) (Some (page_limit page + 1)) ps (fun x => q x && behind key page x) rows Hsrc Hsh) as (sel & Hr & Hp & Hs & _);
    [|exact Hsel|].
  { intros e x Hx. rewrite where_app. f_equal; [by apply Hq|]. apply cursor_behind; [|done].
    rewrite Forall_forall in Hsh. exact (Hsh _ Hx). }
  exists (take (Z.to_nat (page_limit page + 1)) sel). split; [exact Hr|].
  apply paginate_buildPage; [by apply NoDup_map_filter|done|]. rewrite Hp.
  apply perm_eq. clear. induction (map snd ps) as [|x l IH]; [done|]. cbn. rewrite IH.
  destruct (q x); [|done]. cbn. by destruct (behind key page x).
Qed.
End Listing.

(** ** One table *)

Definition env_of (a : string) (r : Row) : Env := [(a, r)].

Lemma read_env a r c : read (env_of a r) (a, c) = cell r c.
Proof. unfold read, env_of. cbn. by rewrite String.eqb_refl. Qed.

(** ** A row found by its id *)

Lemma pairwise_alone (rows : list Row) r id :
  unique_ok ["id"%string] rows = true -> r ∈ rows -> cell r "id" = SText id ->
  List.filter (fun r' => sql_eq (cell r' "id") (SText id)) rows = [r].
Proof.
  unfold unique_ok. intros Hu Hin Hid. induction rows as [|x rows IH]; [by apply not_elem_of_nil in Hin|].
  cbn [pairwise] in Hu. apply andb_prop in Hu as [Hx Hu]. rewrite forallb_Forall, Forall_forall in Hx.
  assert (Hself : sql_eq (cell r "id") (SText id) = true) by (rewrite Hid; cbn; unfold str_eqb; by apply bool_decide_eq_true).
  apply elem_of_cons in Hin as [->|Hin].
  - cbn [List.filter]. rewrite Hself. f_equal. apply filter_drop. intros y Hy. specialize (Hx y Hy).
    apply negb_true_iff in Hx. unfold same_key in Hx. cbn [forallb] in Hx. rewrite andb_true_r in Hx.
    apply not_true_iff_false. intros E. apply not_true_iff_false in Hx. apply Hx. rewrite Hid.
    destruct (cell y "id"); try discriminate E. cbn in *. unfold str_eqb in *. bool_prop. by apply bool_decide_eq_true.
  - cbn [List.filter]. rewrite (IH Hu Hin). specialize (Hx r Hin). apply negb_true_iff in Hx.
    unfold same_key in Hx. cbn [forallb] in Hx. rewrite andb_true_r, Hid in Hx. by rewrite Hx.
Qed.

(** ** Transactions *)

Section Transactions.
Context {W P : Type} {HC : HasClock W} {HE : HasEntropy W} {DR : Driver P} {EN : SqlEngine W P} {sc : Schema}
  {SL : SqlLaws W P sc} {TO : TxObject W}.

(** Handing the transaction's adapter to the body touches no table. *)
Class TxLaws : Prop := {
  tx_data : forall b (w : W), saved (as_tx b w) = saved w /\ db_of (as_tx b w) = db_of w;
  tx_flag : forall b (w : W), inTransaction (as_tx b w) = b
}.
Context {TL : TxLaws}.

(** A body that leaves a transaction over the data of [w] open. *)
Definition keeps_open {T} (fn : prog W T) (w : W) : Prop := forall w1, db_of w1 = db_of w -> saved (fn w1).2 = saved w1.

(** A statement without parameters, leaving the adapter. *)
Definition send (st : Stmt P) : prog W unit := uncaught (let* _ := of_driver (sql_query st []) in ret tt).

(** What both adapters do between [BEGIN] and the end. *)
Definition tx_core {T} (fn : prog W T) : prog W T :=
  do* send Begin;
  try_catch (let* result := on_tx_adapter fn in do* send Commit; ret result) (fun err => do* send Rollback; throw err).

Lemma rolled_back {T} (w w1 : W) (e : exn) : saved w = None -> saved w1 = Some (db_of w) ->
  exists e' w2, (do* send Rollback; @throw exn W T e) w1 = (Throw e', w2) /\ saved w2 = saved w /\ db_of w2 = db_of w.
Proof.
  intros Hn Hs. unfold bind, send, uncaught, bind, of_driver. destruct (rollback_law w1 _ Hs) as (ans & w2 & -> & H1 & H2).
  exists e, w2. cbn. by rewrite Hn.
Qed.

Lemma tx_core_law {T} (fn : prog W T) (w : W) : keeps_open fn w ->
  match tx_core fn w with
  | (Ok x, w') => saved w = None /\ saved w' = None
      /\ exists w1 w2, db_of w1 = db_of w /\ fn w1 = (Ok x, w2) /\ db_of w' = db_of w2
  | (Throw _, w') => saved w' = saved w /\ db_of w' = db_of w
  end.
Proof.
  intros Hfn. unfold tx_core. unfold bind at 1, send at 1, uncaught, bind at 1, of_driver. pose proof (begin_law w) as Hb.
  destruct (sql_query Begin [] w) as [[rows|t] w1]; [|exact Hb]. destruct Hb as (Hnone & Hs & Hd). cbn [ret].
  pose proof (tx_data true w1) as [Ht1 Ht2]. pose proof (Hfn (as_tx true w1) (eq_trans Ht2 Hd)) as Hopen.
  assert (Hback : forall w4 e, saved w4 = Some (db_of w) -> match (do* send Rollback; @throw exn W T e) w4 with
    | (Ok x, w') => False | (Throw _, w') => saved w' = saved w /\ db_of w' = db_of w end).
  { intros w4 e H4. destruct (rolled_back (T := T) w w4 e Hnone H4) as (e' & w5 & -> & H5). exact H5. }
  unfold try_catch. unfold bind at 1, on_tx_adapter. destruct (fn (as_tx true w1)) as [r w2] eqn:Ef. cbn [snd] in Hopen.
  set (w3 := as_tx (inTransaction w1) w2). pose proof (tx_data (inTransaction w1) w2) as [H31 H32]. fold w3 in H31, H32.
  assert (H3 : saved w3 = Some (db_of w)) by congruence.
  destruct r as [x|e].
  - unfold bind at 1, send at 1, uncaught, bind at 1, of_driver. pose proof (commit_law w3) as Hc.
    destruct (sql_query Commit [] w3) as [[ans|t] w4]; cbn [ret].
    + destruct Hc as [H4 H5]. split; [done|]. split; [done|]. exists (as_tx true w1), w2. split; [congruence|]. split; [done|congruence].
    + destruct Hc as [H4 H5]. specialize (Hback w4 PlainError ltac:(congruence)).
      destruct ((do* send Rollback; throw PlainError) w4) as [[?|?] ?]; [done|exact Hback].
  - specialize (Hback w3 e H3). destruct ((do* send Rollback; throw e) w3) as [[?|?] ?]; [done|exact Hback].
Qed.
End Transactions.
Arguments TxLaws W {P HC HE DR EN sc SL TO}.
