(* ===== verification/SqliteProps.v ===== *)
(** * SqliteProps: what the SQLite adapter guarantees

    Over any engine that keeps the laws of [Sql.SqlLaws]: its listings are the
    pages the memory adapter cuts, what it writes it reads back, and a
    transaction happens whole or not at all. *)

From S2P Require Import Prelude Errors JsNum Text Json Types Id Cursor Storage JsonLib Http Stringify Memory MemoryLaws SqlErrors Sql Sqlite SqlProps.
From stdpp Require Import strings.
#[local] Open Scope Z_scope.

(** * What the rows read as

    A row reads as an entity exactly when its cells hold the entity's fields. *)

(** ** Casts *)

Lemma as_text_ok v s : as_text v = Ok s <-> v = SText s.
Proof. destruct v; cbn; split; intros H; try discriminate H; by injection H as ->. Qed.
Lemma as_int_ok v z : as_int v = Ok z <-> v = SInt z.
Proof. destruct v; cbn; split; intros H; try discriminate H; by injection H as ->. Qed.
Lemma as_text_or_null_ok v o : as_text_or_null v = Ok o <-> v = nullable_text o.
Proof. destruct v, o; cbn; split; intros H; try discriminate H; try done; by injection H as ->. Qed.
Lemma as_int_or_null_ok v o : as_int_or_null v = Ok o <-> v = nullable_num o.
Proof. destruct v, o; cbn; split; intros H; try discriminate H; try done; by injection H as ->. Qed.

Lemma as_enum_ok {A} (name : A -> jsstr) all v a :
  (forall x y, name x = name y -> x = y) -> (forall x, x ∈ all) -> as_enum name all v = Ok a <-> v = SText (name a).
Proof.
  intros Hinj Hall. unfold as_enum. split.
  - destruct (as_text v) as [s|] eqn:E; [|done]. apply as_text_ok in E as ->. cbn [rbind].
    destruct (List.find _ all) as [x|] eqn:F; [|done]. intros [= <-]. apply find_some in F as [_ F].
    unfold str_eqb in F. bool_prop. by f_equal.
  - intros ->. cbn. destruct (List.find (fun x => str_eqb (name x) (name a)) all) as [x|] eqn:F.
    + apply find_some in F as [_ F]. unfold str_eqb in F. bool_prop. by rewrite (Hinj x a).
    + pose proof (find_none _ _ F a (proj1 (list_elem_of_In _ _) (Hall a))) as H. unfold str_eqb in H.
      by rewrite bool_decide_true in H.
Qed.

Lemma as_status_ok v s : as_status v = Ok s <-> v = SText (status_str s).
Proof. apply as_enum_ok; [by intros [] []|]. intros []; repeat constructor. Qed.
Lemma as_usage_status_ok v s : as_usage_status v = Ok s <-> v = SText (usage_status_str s).
Proof. apply as_enum_ok; [by intros [] []|]. intros []; repeat constructor. Qed.
Lemma as_alg_ok v s : as_alg v = Ok s <-> v = SText (alg_str s).
Proof. apply as_enum_ok; [by intros [] []|]. intros []; repeat constructor. Qed.
Lemma as_role_ok v s : as_role v = Ok s <-> v = SText (role_str s).
Proof. apply as_enum_ok; [by intros [] []|]. intros []; repeat constructor. Qed.
Lemma as_key_state_ok v s : as_key_state v = Ok s <-> v = SText (key_state_str s).
Proof. apply as_enum_ok; [by intros [] []|]. intros []; repeat constructor. Qed.
Lemma as_actor_kind_ok v s : as_actor_kind v = Ok s <-> v = SText (actor_kind_str s).
Proof. apply as_enum_ok; [by intros [] []|]. intros []; repeat constructor. Qed.

(** One step of a mapping: a cast that returned, and the rest. *)
Lemma rbind_ok_iff {A B} (r : res A) (k : A -> res B) b : rbind r k = Ok b <-> exists a, r = Ok a /\ k a = Ok b.
Proof. split; [apply rbind_ok_inv|]. intros (a & -> & H). exact H. Qed.

(** A mapping that returned, cast by cast. *)
Ltac uncast :=
  repeat match goal with
  | E : rbind _ _ = Ok _ |- _ => apply rbind_ok_inv in E; destruct E as (? & ? & E)
  | E : as_text _ = Ok _ |- _ => apply as_text_ok in E
  | E : as_int _ = Ok _ |- _ => apply as_int_ok in E
  | E : as_text_or_null _ = Ok _ |- _ => apply as_text_or_null_ok in E
  | E : as_int_or_null _ = Ok _ |- _ => apply as_int_or_null_ok in E
  | E : as_status _ = Ok _ |- _ => apply as_status_ok in E
  | E : as_usage_status _ = Ok _ |- _ => apply as_usage_status_ok in E
  | E : as_alg _ = Ok _ |- _ => apply as_alg_ok in E
  | E : as_role _ = Ok _ |- _ => apply as_role_ok in E
  | E : as_key_state _ = Ok _ |- _ => apply as_key_state_ok in E
  end.

(** A mapping whose casts all find their cell. *)
Ltac recast :=
  repeat (apply rbind_ok_iff; eexists; split;
    [first [ apply as_text_ok; eassumption | apply as_int_ok; eassumption | apply as_text_or_null_ok; eassumption
           | apply as_int_or_null_ok; eassumption | apply as_status_ok; eassumption | apply as_usage_status_ok; eassumption
           | apply as_alg_ok; eassumption | apply as_role_ok; eassumption | apply as_key_state_ok; eassumption
           | eassumption ]|]).

Section Cells.
Local Open Scope string_scope.

(** The cells of a license. *)
Record license_cells (r : Row) (l : License) : Prop := {
  lc_id : cell r "id" = SText (l_id l);
  lc_scope_id : cell r "scope_id" = nullable_text (l_scope_id l);
  lc_template_id : cell r "template_id" = nullable_text (l_template_id l);
  lc_licensable_type : cell r "licensable_type" = SText (l_licensable_type l);
  lc_licensable_id : cell r "licensable_id" = SText (l_licensable_id l);
  lc_license_key : cell r "license_key" = SText (l_license_key l);
  lc_status : cell r "status" = SText (status_str (l_status l));
  lc_max_usages : cell r "max_usages" = SInt (l_max_usages l);
  lc_is_trial : is_one (cell r "is_trial") = l_is_trial l;
  lc_activated_at : cell r "activated_at" = nullable_text (l_activated_at l);
  lc_expires_at : cell r "expires_at" = nullable_text (l_expires_at l);
  lc_grace_until : cell r "grace_until" = nullable_text (l_grace_until l);
  lc_meta : parseJson (cell r "meta") = Ok (l_meta l);
  lc_created_at : cell r "created_at" = SText (l_created_at l);
  lc_updated_at : cell r "updated_at" = SText (l_updated_at l)
}.

Lemma mapLicense_ok r l : mapLicense r = Ok l <-> license_cells r l.
Proof.
  unfold mapLicense. split.
  - intros H. uncast. injection H as <-. by constructor.
  - intros []. recast. f_equal. destruct l. cbn in *. by f_equal.
Qed.

Record scope_cells (r : Row) (x : LicenseScope) : Prop := {
  sc_c_id : cell r "id" = SText (sc_id x);
  sc_c_slug : cell r "slug" = SText (sc_slug x);
  sc_c_name : cell r "name" = SText (sc_name x);
  sc_c_meta : parseJson (cell r "meta") = Ok (sc_meta x);
  sc_c_created_at : cell r "created_at" = SText (sc_created_at x);
  sc_c_updated_at : cell r "updated_at" = SText (sc_updated_at x)
}.

Lemma mapScope_ok r x : mapScope r = Ok x <-> scope_cells r x.
Proof.
  unfold mapScope. split.
  - intros H. uncast. injection H as <-. by constructor.
  - intros []. recast. by destruct x.
Qed.

Record template_cells (r : Row) (t : LicenseTemplate) : Prop := {
  tc_id : cell r "id" = SText (t_id t);
  tc_scope_id : cell r "scope_id" = nullable_text (t_scope_id t);
  tc_parent_id : cell r "parent_id" = nullable_text (t_parent_id t);
  tc_name : cell r "name" = SText (t_name t);
  tc_max_usages : cell r "max_usages" = SInt (t_max_usages t);
  tc_trial_duration_sec : cell r "trial_duration_sec" = SInt (t_trial_duration_sec t);
  tc_trial_cooldown_sec : cell r "trial_cooldown_sec" = nullable_num (t_trial_cooldown_sec t);
  tc_grace_duration_sec : cell r "grace_duration_sec" = SInt (t_grace_duration_sec t);
  tc_force_online_after_sec : cell r "force_online_after_sec" = nullable_num (t_force_online_after_sec t);
  tc_entitlements : parseJson (cell r "entitlements") = Ok (t_entitlements t);
  tc_meta : parseJson (cell r "meta") = Ok (t_meta t);
  tc_created_at : cell r "created_at" = SText (t_created_at t);
  tc_updated_at : cell r "updated_at" = SText (t_updated_at t)
}.

Lemma mapTemplate_ok r t : mapTemplate r = Ok t <-> template_cells r t.
Proof.
  unfold mapTemplate. split.
  - intros H. uncast. injection H as <-. by constructor.
  - intros []. recast. by destruct t.
Qed.

(** A seat's last sign of life may be missing. *)
Record usage_cells (r : Row) (u : LicenseUsage) : Prop := {
  uc_id : cell r "id" = SText (u_id u);
  uc_license_id : cell r "license_id" = SText (u_license_id u);
  uc_fingerprint : cell r "fingerprint" = SText (u_fingerprint u);
  uc_status : cell r "status" = SText (usage_status_str (u_status u));
  uc_registered_at : cell r "registered_at" = SText (u_registered_at u);
  uc_revoked_at : cell r "revoked_at" = nullable_text (u_revoked_at u);
  uc_last_seen_at : exists o, cell r "last_seen_at" = nullable_text o /\ u_last_seen_at u = given_or o (u_registered_at u);
  uc_client_meta : parseJson (cell r "client_meta") = Ok (u_client_meta u);
  uc_created_at : cell r "created_at" = SText (u_created_at u);
  uc_updated_at : cell r "updated_at" = SText (u_updated_at u)
}.

Lemma mapUsage_ok r u : mapUsage r = Ok u <-> usage_cells r u.
Proof.
  unfold mapUsage. split.
  - intros H. uncast. injection H as <-. constructor; eauto.
  - intros [H1 H2 H3 H4 H5 H6 (o & Ho & Hs) H7 H8 H9]. recast. destruct u. cbn in *. by subst.
Qed.

Record key_cells (r : Row) (k : LicenseKey) : Prop := {
  kc_id : cell r "id" = SText (k_id k);
  kc_scope_id : cell r "scope_id" = nullable_text (k_scope_id k);
  kc_kid : cell r "kid" = SText (k_kid k);
  kc_alg : cell r "alg" = SText (alg_str (k_alg k));
  kc_role : cell r "role" = SText (role_str (k_role k));
  kc_state : cell r "state" = SText (key_state_str (k_state k));
  kc_public_pem : cell r "public_pem" = SText (k_public_pem k);
  kc_private_pem_enc : cell r "private_pem_enc" = nullable_text (k_private_pem_enc k);
  kc_rotated_from : cell r "rotated_from" = nullable_text (k_rotated_from k);
  kc_rotated_at : cell r "rotated_at" = nullable_text (k_rotated_at k);
  kc_not_before : cell r "not_before" = SText (k_not_before k);
  kc_not_after : cell r "not_after" = nullable_text (k_not_after k);
  kc_meta : parseJson (cell r "meta") = Ok (k_meta k);
  kc_created_at : cell r "created_at" = SText (k_created_at k);
  kc_updated_at : cell r "updated_at" = SText (k_updated_at k)
}.

Lemma mapKey_ok r k : mapKey r = Ok k <-> key_cells r k.
Proof.
  unfold mapKey. split.
  - intros H. uncast. injection H as <-. by constructor.
  - intros []. recast. by destruct k.
Qed.

(** An entry without a kind is classified by its label. *)
Record audit_cells (r : Row) (e : AuditLogEntry) : Prop := {
  ac_id : cell r "id" = SText (a_id e);
  ac_license_id : cell r "license_id" = nullable_text (a_license_id e);
  ac_scope_id : cell r "scope_id" = nullable_text (a_scope_id e);
  ac_actor : cell r "actor" = SText (a_actor e);
  ac_actor_kind : cell r "actor_kind" = SText (actor_kind_str (a_actor_kind e))
                  \/ cell r "actor_kind" = SNull /\ a_actor_kind e = deriveActorKind (a_actor e);
  ac_actor_id : cell r "actor_id" = nullable_text (a_actor_id e);
  ac_event : cell r "event" = SText (a_event e);
  ac_prior_state : parseJsonNullable (cell r "prior_state") = Ok (a_prior_state e);
  ac_new_state : parseJsonNullable (cell r "new_state") = Ok (a_new_state e);
  ac_occurred_at : cell r "occurred_at" = SText (a_occurred_at e)
}.

Lemma kind_of_ok v actor k :
  kind_of v actor = Ok k <-> v = SText (actor_kind_str k) \/ v = SNull /\ k = deriveActorKind actor.
Proof.
  split.
  - intros H. destruct v; try (left; apply as_actor_kind_ok; exact H). right. by injection H.
  - intros [->|[-> ->]]; [|done]. by apply as_actor_kind_ok.
Qed.

Lemma mapAudit_ok r e : mapAudit r = Ok e <-> audit_cells r e.
Proof.
  unfold mapAudit. split.
  - intros H. uncast. injection H as <-.
    match goal with E : kind_of _ _ = _ |- _ => apply kind_of_ok in E end. by constructor.
  - intros [H1 H2 H3 H4 Hk H5 H6 H7 H8 H9]. apply kind_of_ok in Hk. recast. by destruct e.
Qed.

Record trial_cells (r : Row) (t : TrialIssuance) : Prop := {
  tr_id : cell r "id" = SText (ti_id t);
  tr_template_id : cell r "template_id" = nullable_text (ti_template_id t);
  tr_fingerprint_hash : cell r "fingerprint_hash" = SText (ti_fingerprint_hash t);
  tr_issued_at : cell r "issued_at" = SText (ti_issued_at t)
}.

Lemma mapTrialIssuance_ok r t : mapTrialIssuance r = Ok t <-> trial_cells r t.
Proof.
  unfold mapTrialIssuance. split.
  - intros H. uncast. injection H as <-. by constructor.
  - intros []. recast. by destruct t.
Qed.
End Cells.

(** * The statements and listings of the adapter *)

Section Sqlite.
Context {NT : NumberText} {JH : JsonHost} {W : Type} {HC : HasClock W} {HE : HasEntropy W} {EN : SqlEngine W unit}
  {SL : SqlLaws W unit sqlite_schema}.

(** The data and the open transaction are as before. *)
Definition same_data (w w' : W) : Prop := saved w' = saved w /\ db_of w' = db_of w.

(** ** Statements *)

Lemma sq_all_law st ps (w : W) : is_tx st = false -> forallb bindable ps = true ->
  match sq_all st ps w with
  | (Ok rows, w') => saved w' = saved w
      /\ exists bound now, bind_params st ps = Some bound /\ asks sqlite_schema now (db_of w) bound rows (db_of w')
  | (Throw e, w') => (exists t, e = inr t) /\ same_data w w'
  end.
Proof.
  intros Ht Hb. pose proof (query_law st ps w Ht Hb) as H. unfold sq_all, of_driver.
  destruct (sql_query st ps w) as [[rows|t] w']; [exact H|]. split; [by exists t|exact H].
Qed.

Lemma sq_select what src q cs order limit (w : W) : binds q cs -> forallb bindable q.2 = true ->
  match sq_all (Select what src q.1 order limit) q.2 w with
  | (Ok rows, w') => same_data w w' /\ selects (db_of w) what src cs order limit rows
  | (Throw e, w') => (exists t, e = inr t) /\ same_data w w'
  end.
Proof.
  intros Hq Hb. pose proof (sq_all_law (Select what src q.1 order limit) q.2 w eq_refl Hb) as H.
  destruct (sq_all _ _ w) as [[rows|e] w']; [|exact H]. destruct H as (Hs & bound & now & Hbind & Ha).
  rewrite (binds_select _ _ _ _ _ _ Hq) in Hbind. injection Hbind as <-. inversion Ha; subst. done.
Qed.

(** ** Listings *)

(** A listing answers as the memory adapter does from the same tables, or the
    engine failed; either way nothing changed. *)
Definition answers {A} (c : prog W A) (w : W) (a : A) : Prop :=
  same_data w (c w).2 /\ match (c w).1 with Ok x => x = a | Throw _ => True end.

Lemma cursor_bindable q c1 c2 page :
  page_ok page -> forallb bindable q.2 = true -> forallb bindable (q_cursor question c1 c2 page q).2 = true.
Proof.
  intros Hp Hq. unfold page_ok, q_cursor in *. destruct (decodeCursor _) as [c|]; [|done]. cbn [snd].
  unfold ascii_cursor in Hp. apply andb_prop in Hp as [H1 H2]. rewrite forallb_app, Hq. cbn.
  by rewrite (proj2 (ascii_text _ H1)), (proj2 (ascii_text _ H2)).
Qed.

(** The rows of a table, each alone in its environment. *)
Definition as_envs {A} (a : string) (ps : list (Row * A)) : list (Env * A) := map (fun p => (env_of a p.1, p.2)) ps.

Lemma as_envs_fst {A} a (ps : list (Row * A)) : map fst (as_envs a ps) = map (env_of a) (map fst ps).
Proof. unfold as_envs. by rewrite !map_map. Qed.
Lemma as_envs_snd {A} a (ps : list (Row * A)) : map snd (as_envs a ps) = map snd ps.
Proof. unfold as_envs. by rewrite map_map. Qed.

Lemma sqlite_page_answers {A} t (f : Row -> res A) key q cs page (p : A -> bool) ps (w : W) :
  binds q cs -> forallb bindable q.2 = true -> page_ok page ->
  table (db_of w) t = map fst ps ->
  Forall (fun rx => shows f key Star (col "created_at") (col "id") (env_of "" rx.1) rx.2) ps ->
  NoDup (key <$> map snd ps) ->
  (forall r x, (r, x) ∈ ps -> where_holds cs (env_of "" r) = p x) ->
  answers (sqlite_page t f key q page) w (paginate key (List.filter p (map snd ps)) page).
Proof.
  intros Hq Hb Hp Ht Hsh Hn Hw. unfold answers, sqlite_page, uncaught, bind.
  pose proof (sq_select Star (From t) _ _ newest_first (Some (page_limit page + 1)) w
    (binds_cursor q cs (col "created_at") (col "id") page Hq) (cursor_bindable q _ _ page Hp Hb)) as H.
  destruct (sq_all _ _ w) as [[rows|e] w']; [|by destruct H as [[t' ->] H]].
  destruct H as [Hs Hsel].
  destruct (keyset_query f key Star (col "created_at") (col "id") (db_of w) (From t) cs page (as_envs "" ps) p rows)
    as (items & Hr & Hpage).
  - cbn [source_rows]. by rewrite Ht, as_envs_fst.
  - unfold as_envs. by rewrite Forall_fmap.
  - by rewrite as_envs_snd.
  - done.
  - intros e x ([r y] & [= -> ->] & Hin)%list_elem_of_fmap. by apply Hw.
  - exact Hsel.
  - rewrite as_envs_snd in Hpage. unfold of_lib, lift. rewrite Hr. by split.
Qed.
(** ** Filters *)

Section Filters.
Variables (e : Env) (k : Col).

Lemma cell_read a r c v : cell r c = v -> read (env_of a r) (a, c) = v.
Proof. intros <-. apply read_env. Qed.

Lemma holds_nullable f o : read e k = nullable_text o ->
  where_holds (match f with None => [] | Some None => [CIsNull k] | Some (Some s) => [CEq k (SText s)] end) e = matches f o.
Proof.
  intros H. destruct f as [[s|]|]; [..|done]; unfold where_holds; cbn [forallb cond_holds]; rewrite H, andb_true_r;
    destruct o as [s'|]; cbn; try done.
  - unfold str_eqb. apply bool_decide_ext. split; congruence.
Qed.

Lemma holds_eq {B} `{EqDecision B} (name : B -> jsstr) (f : option B) v :
  (forall x y, name x = name y -> x = y) -> read e k = SText (name v) ->
  where_holds (match (fun b => SText (name b)) <$> f with None => [] | Some v => [CEq k v] end) e = matches f v.
Proof.
  intros Hi H. destruct f as [x|]; [|done]. unfold where_holds. cbn [fmap option_fmap option_map forallb cond_holds].
  rewrite H, andb_true_r. cbn. unfold str_eqb. apply bool_decide_ext. split; [apply Hi|congruence].
Qed.

Lemma holds_text f s : read e k = SText s ->
  where_holds (match SText <$> f with None => [] | Some v => [CEq k v] end) e = matches f s.
Proof. intros H. exact (holds_eq (fun x => x) f s (fun x y E => E) H). Qed.

(** Bounds on an ASCII text. *)
Lemma holds_since f s : read e k = SText s -> forallb is_ascii s = true ->
  match f with Some t => forallb is_ascii t = true | None => True end ->
  where_holds (match SText <$> f with None => [] | Some v => [CGe k v] end) e
  = match f with Some t => negb (str_ltb s t) | None => true end.
Proof.
  intros H Hs Ht. destruct f as [t|]; [|done]. unfold where_holds. cbn [fmap option_fmap option_map forallb cond_holds].
  rewrite H, andb_true_r. unfold sql_le. cbn [sql_lt sql_eq]. rewrite !utf8_encode_ascii by done. unfold str_eqb.
  destruct (str_ltb s t) eqn:E; cbn [negb].
  - rewrite (str_ltb_asym _ _ E), bool_decide_false; [done|]. intros <-. by rewrite str_ltb_irrefl in E.
  - destruct (str_ltb t s) eqn:E'; [done|]. rewrite bool_decide_true; [done|]. by apply str_ltb_total.
Qed.

Lemma holds_until f s : read e k = SText s -> forallb is_ascii s = true ->
  match f with Some t => forallb is_ascii t = true | None => True end ->
  where_holds (match SText <$> f with None => [] | Some v => [CLt k v] end) e
  = match f with Some t => str_ltb s t | None => true end.
Proof.
  intros H Hs Ht. destruct f as [t|]; [|done]. unfold where_holds. cbn [fmap option_fmap option_map forallb cond_holds].
  rewrite H, andb_true_r. cbn [sql_lt]. by rewrite !utf8_encode_ascii.
Qed.

Lemma existsb_text (l : list jsstr) s : existsb (sql_eq (SText s)) (map SText l) = bool_decide (s ∈ l).
Proof.
  induction l as [|x l IH]; [done|]. cbn. rewrite IH. unfold str_eqb. rewrite <- bool_decide_or.
  apply bool_decide_ext. by rewrite elem_of_cons.
Qed.

Lemma holds_in {B} `{EqDecision B} (name : B -> jsstr) (f : option (list B)) v :
  (forall x y, name x = name y -> x = y) -> f <> Some [] -> read e k = SText (name v) ->
  where_holds (match map name <$> f with Some ((_ :: _) as l) => [CIn k (map SText l)] | _ => [] end) e
  = match f with Some l => bool_decide (v ∈ l) | None => true end.
Proof.
  intros Hi Hne H. destruct f as [[|x l]|]; [done| |done]. unfold where_holds.
  cbn [fmap option_fmap option_map map forallb cond_holds]. rewrite H, andb_true_r.
  change (SText (name x) :: map SText (map name l)) with (map SText (map name (x :: l))). rewrite existsb_text.
  apply bool_decide_ext. split.
  - intros (y & Hy & Hin)%list_elem_of_fmap. by rewrite (Hi _ _ Hy).
  - intros Hin. by apply list_elem_of_fmap_2.
Qed.
End Filters.

Lemma binds_q_in q cs c f : binds q cs ->
  binds (sqlite_q_in c f q) (cs ++ match f with Some ((_ :: _) as l) => [CIn c (map SText l)] | _ => [] end).
Proof. intros H. destruct f as [[|x l]|]; [by rewrite app_nil_r|by apply binds_in|by rewrite app_nil_r]. Qed.

(** ** The tables of a state *)

(** The rows of the database read as the entities of [s], table by table. *)
Record holds_state (db : Db) (s : State) : Prop := {
  hs_licenses : map_rows mapLicense (table db "licenses") = Ok (rows (s_licenses s));
  hs_scopes : map_rows mapScope (table db "license_scopes") = Ok (rows (s_scopes s));
  hs_templates : map_rows mapTemplate (table db "license_templates") = Ok (rows (s_templates s));
  hs_usages : map_rows mapUsage (table db "license_usages") = Ok (rows (s_usages s));
  hs_keys : map_rows mapKey (table db "license_keys") = Ok (rows (s_keys s));
  hs_audit : map_rows mapAudit (table db "audit_logs") = Ok (rows (s_audit s));
  hs_trials : map_rows mapTrialIssuance (table db "trial_issuances") = Ok (rows (s_trialIssuances s))
}.

(** Rows under their own ids, with the ASCII keys listings sort by. *)
Definition listed {A} (id_of : A -> UUIDv7) (key : A -> CursorTuple) (m : list (UUIDv7 * A)) : Prop :=
  keyed id_of m /\ Forall (fun x => cu_id (key x) = id_of x /\ ascii_cursor (key x) = true) (rows m).

Definition scope_keyed (x : LicenseScope) : CursorTuple := mkCursor (sc_created_at x) (sc_id x).
Definition template_keyed (t : LicenseTemplate) : CursorTuple := mkCursor (t_created_at t) (t_id t).

Record listing_ok (s : State) : Prop := {
  lo_licenses : listed l_id license_key_of (s_licenses s);
  lo_scopes : listed sc_id scope_keyed (s_scopes s);
  lo_templates : listed t_id template_keyed (s_templates s);
  lo_usages : listed u_id usage_key_of (s_usages s);
  lo_keys : listed k_id key_key_of (s_keys s);
  lo_audit : listed a_id audit_keyed (s_audit s)
}.

Lemma listed_ids {A} id_of key (m : list (UUIDv7 * A)) : listed id_of key m -> NoDup (id_of <$> rows m).
Proof.
  intros [[Hd Hk] _]. assert (E : id_of <$> rows m = m.*1); [|by rewrite E]. unfold rows. clear Hd.
  induction m as [|[i x] m IH]; [done|]. apply Forall_cons in Hk as [H1 Hk]. cbn in *. f_equal; [done|by apply IH].
Qed.

Lemma listed_keys {A} id_of key (m : list (UUIDv7 * A)) : listed id_of key m -> NoDup (key <$> rows m).
Proof.
  intros H. apply (NoDup_fmap_1 cu_id). rewrite <- list_fmap_compose.
  assert (E : (cu_id ∘ key) <$> rows m = id_of <$> rows m); [|rewrite E; by eapply listed_ids].
  destruct H as [_ Hl]. induction Hl as [|x l [H _] _ IH]; [done|]. cbn. by rewrite H, IH.
Qed.

(** A listing of one table, given what its filter means. *)
Lemma listing_answers {A} t (f : Row -> res A) (cells : Row -> A -> Prop) id_of key m q cs page (p : A -> bool) (w : W) :
  (forall r x, f r = Ok x <-> cells r x) ->
  (forall r x, cells r x -> cell r "created_at" = SText (cu_createdAt (key x)) /\ cell r "id" = SText (cu_id (key x))) ->
  binds q cs -> forallb bindable q.2 = true -> page_ok page ->
  map_rows f (table (db_of w) t) = Ok (rows m) -> listed id_of key m ->
  (forall r x, cells r x -> where_holds cs (env_of "" r) = p x) ->
  answers (sqlite_page t f key q page) w (paginate key (List.filter p (rows m)) page).
Proof.
  intros Hf Hc Hq Hb Hp Hm Hl Hw. pose proof (listed_keys _ _ _ Hl) as Hn. destruct Hl as [_ Hl].
  apply map_rows_inv in Hm as (ps & Hr & Ht & Hm). rewrite Hm in *.
  assert (Hcells : forall r x, (r, x) ∈ ps -> cells r x /\ ascii_cursor (key x) = true).
  { intros r x Hin. unfold reading in Hr. rewrite Forall_forall in Hr. rewrite Forall_forall in Hl. split; [apply Hf; exact (Hr _ Hin)|].
    apply Hl. by apply (list_elem_of_fmap_2 snd _ (r, x)). }
  eapply sqlite_page_answers; [exact Hq|done..| |done|].
  - apply Forall_forall. intros [r x] Hin. destruct (Hcells r x Hin) as [H1 H2], (Hc r x (proj1 (Hcells r x Hin))) as [H3 H4].
    split; [by apply Hf|by rewrite read_env..|done].
  - intros r x Hin. by apply Hw, Hcells.
Qed.

(** ** The listings of the adapter *)

(** Bind a query condition by condition. *)
Ltac binds_query :=
  repeat first [ apply binds_nullable | apply binds_q_in | apply binds_opt; [|constructor] | apply binds_start ].

Lemma status_str_inj a b : status_str a = status_str b -> a = b.
Proof. by destruct a, b. Qed.
Lemma usage_status_str_inj a b : usage_status_str a = usage_status_str b -> a = b.
Proof. by destruct a, b. Qed.
Lemma role_str_inj a b : role_str a = role_str b -> a = b.
Proof. by destruct a, b. Qed.
Lemma key_state_str_inj a b : key_state_str a = key_state_str b -> a = b.
Proof. by destruct a, b. Qed.

Lemma sqlite_licenses_answer filter page s (w : W) :
  holds_state (db_of w) s -> listing_ok s -> page_ok page -> lf_status filter <> Some [] ->
  forallb bindable (buildLicenseWhere filter).2 = true ->
  answers (sqlite_listLicenses filter page) w
    (paginate license_key_of (List.filter (license_matches filter) (rows (s_licenses s))) page).
Proof.
  intros Hs Hl Hp Hne Hb. unfold sqlite_listLicenses.
  eapply (listing_answers "licenses" mapLicense license_cells l_id license_key_of);
    [apply mapLicense_ok| | |exact Hb|exact Hp|apply Hs|apply Hl|].
  - intros r x H. split; apply H.
  - unfold buildLicenseWhere. binds_query.
  - intros r x H. unfold license_matches. rewrite !where_app.
    rewrite (holds_nullable _ (col "scope_id") _ _ (cell_read "" _ _ _ (lc_scope_id _ _ H))), (holds_in _ (col "status") _ _ _ status_str_inj Hne (cell_read "" _ _ _ (lc_status _ _ H))),
      (holds_text _ (col "licensable_type") _ _ (cell_read "" _ _ _ (lc_licensable_type _ _ H))), (holds_text _ (col "licensable_id") _ _ (cell_read "" _ _ _ (lc_licensable_id _ _ H))),
      (holds_nullable _ (col "template_id") _ _ (cell_read "" _ _ _ (lc_template_id _ _ H))). done.
Qed.

Lemma sqlite_scopes_answer filter page s (w : W) :
  holds_state (db_of w) s -> listing_ok s -> page_ok page -> forallb bindable (scope_where filter).2 = true ->
  answers (sqlite_listScopes filter page) w
    (paginate scope_keyed (List.filter (fun r => matches (scf_slug filter) (sc_slug r)) (rows (s_scopes s))) page).
Proof.
  intros Hs Hl Hp Hb. unfold sqlite_listScopes.
  eapply (listing_answers "license_scopes" mapScope scope_cells sc_id scope_keyed);
    [apply mapScope_ok| | |exact Hb|exact Hp|apply Hs|apply Hl|].
  - intros r x H. split; apply H.
  - binds_query.
  - intros r x H. rewrite where_app, (holds_text _ (col "slug") _ _ (cell_read "" _ _ _ (sc_c_slug _ _ H))). done.
Qed.

Lemma sqlite_templates_answer filter page s (w : W) :
  holds_state (db_of w) s -> listing_ok s -> page_ok page -> forallb bindable (template_where filter).2 = true ->
  answers (sqlite_listTemplates filter page) w
    (paginate template_keyed
       (List.filter (fun r => matches (tf_scope_id filter) (t_scope_id r) && matches (tf_name filter) (t_name r)
                              && matches (tf_parent_id filter) (t_parent_id r)) (rows (s_templates s))) page).
Proof.
  intros Hs Hl Hp Hb. unfold sqlite_listTemplates.
  eapply (listing_answers "license_templates" mapTemplate template_cells t_id template_keyed);
    [apply mapTemplate_ok| | |exact Hb|exact Hp|apply Hs|apply Hl|].
  - intros r x H. split; apply H.
  - binds_query.
  - intros r x H. rewrite !where_app, (holds_nullable _ (col "scope_id") _ _ (cell_read "" _ _ _ (tc_scope_id _ _ H))),
      (holds_text _ (col "name") _ _ (cell_read "" _ _ _ (tc_name _ _ H))), (holds_nullable _ (col "parent_id") _ _ (cell_read "" _ _ _ (tc_parent_id _ _ H))). done.
Qed.

Lemma sqlite_usages_answer filter page s (w : W) :
  holds_state (db_of w) s -> listing_ok s -> page_ok page -> uf_status filter <> Some [] ->
  forallb bindable (usage_where filter).2 = true ->
  answers (sqlite_listUsages filter page) w (paginate usage_key_of (List.filter (usage_matches filter) (rows (s_usages s))) page).
Proof.
  intros Hs Hl Hp Hne Hb. unfold sqlite_listUsages.
  eapply (listing_answers "license_usages" mapUsage usage_cells u_id usage_key_of);
    [apply mapUsage_ok| | |exact Hb|exact Hp|apply Hs|apply Hl|].
  - intros r x H. split; apply H.
  - binds_query.
  - intros r x H. unfold usage_matches. rewrite !where_app, (holds_text _ (col "license_id") _ _ (cell_read "" _ _ _ (uc_license_id _ _ H))),
      (holds_text _ (col "fingerprint") _ _ (cell_read "" _ _ _ (uc_fingerprint _ _ H))),
      (holds_in _ (col "status") _ _ _ usage_status_str_inj Hne (cell_read "" _ _ _ (uc_status _ _ H))). done.
Qed.

Lemma sqlite_keys_answer filter page s (w : W) :
  holds_state (db_of w) s -> listing_ok s -> page_ok page -> forallb bindable (key_where filter).2 = true ->
  answers (sqlite_listKeys filter page) w (paginate key_key_of (List.filter (key_matches filter) (rows (s_keys s))) page).
Proof.
  intros Hs Hl Hp Hb. unfold sqlite_listKeys.
  eapply (listing_answers "license_keys" mapKey key_cells k_id key_key_of);
    [apply mapKey_ok| | |exact Hb|exact Hp|apply Hs|apply Hl|].
  - intros r x H. split; apply H.
  - binds_query.
  - intros r x H. unfold key_matches. rewrite !where_app, (holds_nullable _ (col "scope_id") _ _ (cell_read "" _ _ _ (kc_scope_id _ _ H))),
      (holds_text _ (col "kid") _ _ (cell_read "" _ _ _ (kc_kid _ _ H))), (holds_eq _ (col "alg") alg_str _ _ alg_str_inj (cell_read "" _ _ _ (kc_alg _ _ H))),
      (holds_eq _ (col "role") role_str _ _ role_str_inj (cell_read "" _ _ _ (kc_role _ _ H))),
      (holds_eq _ (col "state") key_state_str _ _ key_state_str_inj (cell_read "" _ _ _ (kc_state _ _ H))). done.
Qed.

(** The lookup by licensable, all rows in the order of the listings. *)
Lemma sqlite_licensable_answer query s (w : W) :
  holds_state (db_of w) s -> listing_ok s -> well_formed16 (fq_type query) = true -> well_formed16 (fq_id query) = true ->
  match fq_scope_id query with Some (Some x) => well_formed16 x = true | _ => True end ->
  answers (sqlite_findLicensesByLicensable query) w
    (merge_sort (desc_le license_key_of) (List.filter (fun r =>
       str_eqb (l_licensable_type r) (fq_type query) && str_eqb (l_licensable_id r) (fq_id query)
       && matches (fq_scope_id query) (l_scope_id r)) (rows (s_licenses s)))).
Proof.
  intros Hs Hl Ht Hi Hsc. pose proof (listed_keys _ _ _ (lo_licenses _ Hl)) as Hn. destruct (lo_licenses _ Hl) as [_ Ha].
  destruct (map_rows_inv _ _ _ (hs_licenses _ _ Hs)) as (ps & Hr & Hrows & Hls). rewrite Hls in *.
  assert (Hcells : forall r x, (r, x) ∈ ps -> license_cells r x /\ ascii_cursor (license_key_of x) = true).
  { intros r x Hin. unfold reading in Hr. rewrite Forall_forall in Hr. rewrite Forall_forall in Ha.
    split; [apply mapLicense_ok; exact (Hr _ Hin)|]. apply Ha. by apply (list_elem_of_fmap_2 snd _ (r, x)). }
  unfold answers, sqlite_findLicensesByLicensable, uncaught, bind. cbv zeta.
  set (start := ([CEq (col "licensable_type") tt; CEq (col "licensable_id") tt], [SText (fq_type query); SText (fq_id query)])).
  assert (Hq : binds start [CEq (col "licensable_type") (SText (fq_type query)); CEq (col "licensable_id") (SText (fq_id query))]) by done.
  pose proof (binds_nullable _ _ (col "scope_id") (fq_scope_id query) Hq) as Hq'.
  pose proof (sq_select Star (From "licenses") _ _ newest_first None w Hq') as H.
  destruct (sq_all _ _ w) as [[rows|e] w'].
  2: { destruct H as [[t' ->] H]; [|done]. destruct (fq_scope_id query) as [[x|]|]; cbn; rewrite ?Ht, ?Hi, ?Hsc; done. }
  destruct H as [Hd Hsel]; [destruct (fq_scope_id query) as [[x|]|]; cbn; rewrite ?Ht, ?Hi, ?Hsc; done|].
  eapply (selects_reading mapLicense license_key_of Star (col "created_at") (col "id") _ _ _ _ (as_envs "" ps)
    (fun r => str_eqb (l_licensable_type r) (fq_type query) && str_eqb (l_licensable_id r) (fq_id query)
              && matches (fq_scope_id query) (l_scope_id r))) in Hsel as (sel & Hm & Hp & Hsort & _).
  - unfold of_lib, lift. rewrite Hm. split; [exact Hd|]. cbn. rewrite as_envs_snd in Hp.
    symmetry. apply (keyset_unique license_key_of); [|done|apply (StronglySorted_merge_sort (desc_le license_key_of))|].
    + apply (NoDup_perm_filter license_key_of _ _ _ Hp). exact Hn.
    + by rewrite (merge_sort_Permutation (desc_le license_key_of)).
  - cbn [source_rows]. by rewrite Hrows, as_envs_fst.
  - unfold as_envs. rewrite Forall_fmap. apply Forall_forall. intros [r x] Hin. destruct (Hcells r x Hin) as [H1 H2].
    split; [by apply mapLicense_ok|apply cell_read, H1..|done].
  - intros e x ([r y] & [= -> ->] & Hin)%list_elem_of_fmap. destruct (Hcells _ _ Hin) as [H _]. cbn [fst].
    change [?a; ?b] with ([a] ++ [b]) at 1. rewrite !where_app.
    rewrite (holds_nullable _ (col "scope_id") _ _ (cell_read "" _ _ _ (lc_scope_id _ _ H))). f_equal.
    unfold where_holds. cbn [forallb cond_holds]. rewrite !andb_true_r.
    by rewrite (cell_read "" _ _ _ (lc_licensable_type _ _ H)), (cell_read "" _ _ _ (lc_licensable_id _ _ H)).
Qed.

(** ** The audit listing *)

Definition owner_is (x : AuditLogEntry) (l : License) : bool := bool_decide (a_license_id x = Some (l_id l)).

(** An entry joined to the license it is about. *)
Definition joined (ps : list (Row * AuditLogEntry)) (ls : list (Row * License)) : list (Env * (AuditLogEntry * License)) :=
  flat_map (fun p => map (fun p' => ([("a", p.1); ("l", p'.1)]%string, (p.2, p'.2)))
                       (List.filter (fun p' => owner_is p.2 p'.2) ls)) ps.

Lemma joined_rows ps ls :
  Forall (fun p => audit_cells p.1 p.2) ps -> Forall (fun p => license_cells p.1 p.2) ls ->
  flat_map (fun r => map (fun r' => [("a", r); ("l", r')]%string)
              (List.filter (fun r' => sql_eq (cell r' "id"%string) (cell r "license_id"%string)) (map fst ls))) (map fst ps)
  = map fst (joined ps ls).
Proof.
  intros Hp Hl. induction Hp as [|[r x] ps H _ IH]; [done|]. unfold joined in *. cbn [map flat_map fst snd] in *.
  rewrite map_app, IH. f_equal. rewrite map_map, (ac_license_id _ _ H). clear IH. induction Hl as [|[r' l] ls Hc _ IH]; [done|].
  cbn [map List.filter fst snd] in *. rewrite (lc_id _ _ Hc). unfold owner_is at 1.
  assert (E : sql_eq (SText (l_id l)) (nullable_text (a_license_id x)) = bool_decide (a_license_id x = Some (l_id l))).
  { destruct (a_license_id x) as [i|]; [|done]. cbn. unfold str_eqb. apply bool_decide_ext. split; congruence. }
  rewrite E. case_bool_decide; cbn [map fst]; rewrite IH; done.
Qed.

Definition has_owner (ls : list License) (x : AuditLogEntry) : bool := existsb (owner_is x) ls.

(** Ids being unique, an entry joins at most once. *)
Lemma joined_entries ps ls : NoDup (l_id <$> map snd ls) ->
  map (fun p => p.2.1) (joined ps ls) = List.filter (has_owner (map snd ls)) (map snd ps).
Proof.
  intros Hn. induction ps as [|[r x] ps IH]; [done|]. unfold joined in *. cbn [flat_map map List.filter fst snd].
  rewrite map_app, IH, map_map. cbn [fst snd].
  assert (E : map (fun _ => x) (List.filter (fun p' : Row * License => owner_is x p'.2) ls)
              = if has_owner (map snd ls) x then [x] else []); [|rewrite E; by destruct (has_owner _ x)].
  clear IH. unfold has_owner. induction ls as [|[r' l] ls IH]; [done|]. cbn [map fmap list_fmap] in Hn.
  apply NoDup_cons in Hn as [Hx Hn]. cbn [List.filter map existsb fst snd]. specialize (IH Hn).
  destruct (owner_is x l) eqn:E; [|exact IH]. cbn [map]. rewrite IH.
  assert (existsb (owner_is x) (map snd ls) = false) as ->; [|done]. apply not_true_iff_false. intros (l' & Hin & Ho)%existsb_exists.
  unfold owner_is in *. bool_prop. apply Hx. apply list_elem_of_fmap. exists l'. split; [cbn [snd]; congruence|by apply list_elem_of_In].
Qed.

(** The conditions on the entry. *)
Definition audit_conds (filter : AuditLogFilter) : list (Cond SqlVal) :=
  [CTrue]
  ++ match af_license_id filter with None => [] | Some None => [CIsNull (acol "license_id")] | Some (Some s) => [CEq (acol "license_id") (SText s)] end
  ++ match af_scope_id filter with None => [] | Some None => [CIsNull (acol "scope_id")] | Some (Some s) => [CEq (acol "scope_id") (SText s)] end
  ++ match af_event filter with None => [] | Some l => [CIn (acol "event") (map SText l)] end
  ++ match SText <$> af_actor filter with None => [] | Some v => [CEq (acol "actor") v] end
  ++ match SText <$> af_since filter with None => [] | Some v => [CGe (acol "occurred_at") v] end
  ++ match SText <$> af_until filter with None => [] | Some v => [CLt (acol "occurred_at") v] end.

(** Those on its license. *)
Definition owner_conds (filter : AuditLogFilter) : list (Cond SqlVal) :=
  match SText <$> af_licensable_type filter with None => [] | Some v => [CEq (lcol "licensable_type") v] end
  ++ match SText <$> af_licensable_id filter with None => [] | Some v => [CEq (lcol "licensable_id") v] end.

Lemma binds_audit filter : binds (sqlite_audit_where filter) (audit_conds filter ++ owner_conds filter).
Proof.
  unfold sqlite_audit_where, audit_conds, owner_conds. rewrite !app_assoc.
  do 2 (apply binds_opt; [|constructor]). do 3 (apply binds_opt; [|constructor]).
  assert (H : binds (q_nullable question (acol "scope_id") (af_scope_id filter)
                (q_nullable question (acol "license_id") (af_license_id filter) ([CTrue], [])))
              (([CTrue] ++ match af_license_id filter with None => [] | Some None => [CIsNull (acol "license_id")]
                           | Some (Some s) => [CEq (acol "license_id") (SText s)] end)
               ++ match af_scope_id filter with None => [] | Some None => [CIsNull (acol "scope_id")]
                  | Some (Some s) => [CEq (acol "scope_id") (SText s)] end)).
  { do 2 apply binds_nullable. apply binds_start. }
  destruct (af_event filter) as [l|]; [by apply binds_in|by rewrite app_nil_r].
Qed.

Definition bounds_ok (filter : AuditLogFilter) : Prop :=
  match af_since filter with Some t => forallb is_ascii t = true | None => True end
  /\ match af_until filter with Some t => forallb is_ascii t = true | None => True end.

Lemma audit_conds_hold filter (e : Env) r x : env_row e "a" = r -> audit_cells r x -> ascii_cursor (audit_keyed x) = true ->
  bounds_ok filter -> where_holds (audit_conds filter) e = audit_matches filter None x.
Proof.
  intros He H Hx [Hb1 Hb2]. unfold ascii_cursor in Hx. apply andb_prop in Hx as [Hx _].
  assert (Hread : forall c v, cell r c = v -> read e (acol c) = v) by (intros c v <-; unfold read; by rewrite <- He).
  unfold audit_conds, audit_matches. rewrite !where_app.
  rewrite (holds_nullable e _ _ _ (Hread _ _ (ac_license_id _ _ H))), (holds_nullable e _ _ _ (Hread _ _ (ac_scope_id _ _ H))),
    (holds_text e _ _ _ (Hread _ _ (ac_actor _ _ H))), (holds_since e _ _ _ (Hread _ _ (ac_occurred_at _ _ H)) Hx Hb1),
    (holds_until e _ _ _ (Hread _ _ (ac_occurred_at _ _ H)) Hx Hb2).
  assert (Hev : where_holds match af_event filter with None => [] | Some l => [CIn (acol "event") (map SText l)] end e
                = match af_event filter with Some es => bool_decide (a_event x ∈ es) | None => true end).
  { destruct (af_event filter) as [l|]; [|done]. unfold where_holds. cbn [forallb cond_holds].
    by rewrite (Hread _ _ (ac_event _ _ H)), andb_true_r, existsb_text. }
  rewrite Hev. cbn [where_holds forallb cond_holds]. rewrite !andb_true_r, !andb_assoc. done.
Qed.

(** The page of the rows a query over the log answers. *)
Lemma audit_query_answers filter page src (ps : list (Env * AuditLogEntry)) (q : AuditLogEntry -> bool) (w : W) :
  af_event filter <> Some [] -> audit_source filter = src -> source_rows (db_of w) src = map fst ps ->
  Forall (fun p => shows mapAudit audit_keyed (StarOf "a") (acol "occurred_at") (acol "id") p.1 p.2) ps ->
  NoDup (audit_keyed <$> map snd ps) -> page_ok page -> forallb bindable (sqlite_audit_where filter).2 = true ->
  (forall e x, (e, x) ∈ ps -> where_holds (audit_conds filter ++ owner_conds filter) e = q x) ->
  answers (sqlite_listAudit filter page) w (paginate audit_keyed (List.filter q (map snd ps)) page).
Proof.
  intros Hne Hsrc Hrows Hsh Hn Hp Hb Hq.
  assert (E : sqlite_listAudit filter page = uncaught (
        let* rows := sq_all (Select (StarOf "a") src (q_cursor question (acol "occurred_at") (acol "id") page (sqlite_audit_where filter)).1
                               [acol "occurred_at"; acol "id"] (Some (page_limit page + 1)))
                       (q_cursor question (acol "occurred_at") (acol "id") page (sqlite_audit_where filter)).2 in
        let* items := of_lib (lift (map_rows mapAudit (take (Z.to_nat (page_limit page)) rows))) in
        ret (mkPage items
               (match page_limit page <? Z.of_nat (List.length rows), last items with
                | true, Some e => Some (encodeCursor (audit_keyed e)) | _, _ => None end)))).
  { unfold sqlite_listAudit. rewrite <- Hsrc. by destruct (af_event filter) as [[|ev l]|]. }
  rewrite E. clear E. unfold answers, uncaught, bind.
  pose proof (sq_select (StarOf "a") src _ _ [acol "occurred_at"; acol "id"] (Some (page_limit page + 1)) w
    (binds_cursor _ _ (acol "occurred_at") (acol "id") page (binds_audit filter)) (cursor_bindable _ _ _ page Hp Hb)) as H.
  destruct (sq_all _ _ w) as [[rows|e] w']; [|by destruct H as [[t' ->] H]]. destruct H as [Hd Hsel].
  destruct (keyset_query mapAudit audit_keyed (StarOf "a") (acol "occurred_at") (acol "id") (db_of w) src _ page ps q rows
    Hrows Hsh Hn Hp Hq Hsel) as (items & Hr & <-).
  destruct (map_rows_take mapAudit (Z.to_nat (page_limit page)) rows items Hr) as [Ht Hlen].
  unfold of_lib, lift. rewrite Ht, Hlen. split; [exact Hd|]. cbn [ret fst]. unfold buildPage.
  assert (1 <= page_limit page) by (unfold page_limit; lia).
  destruct (Z.ltb_spec (page_limit page) (Z.of_nat (List.length items))); [done|]. by rewrite take_ge by lia.
Qed.

Lemma paginate_nil {T} (key : T -> CursorTuple) page : paginate key [] page = mkPage [] None.
Proof. unfold paginate. cbn. destruct (decodeCursor _); [done|]. by destruct (Z.to_nat _). Qed.

(** Whose license a filter selects. *)
Definition owner_matches (filter : AuditLogFilter) (l : License) : bool :=
  matches (af_licensable_type filter) (l_licensable_type l) && matches (af_licensable_id filter) (l_licensable_id l).

Lemma licensable_ids_some filter ls : (af_licensable_type filter <> None \/ af_licensable_id filter <> None) ->
  licensable_ids filter ls = Some (map l_id (List.filter (owner_matches filter) ls)).
Proof.
  intros H. unfold licensable_ids, owner_matches. destruct (af_licensable_type filter), (af_licensable_id filter); try done.
  by destruct H.
Qed.

Lemma audit_matches_some filter ids x :
  audit_matches filter (Some ids) x
  = audit_matches filter None x && match a_license_id x with Some i => bool_decide (i ∈ ids) | None => false end.
Proof. unfold audit_matches. by rewrite andb_true_r. Qed.

Lemma NoDup_id_eq {A} (id_of : A -> UUIDv7) l x y : NoDup (id_of <$> l) -> x ∈ l -> y ∈ l -> id_of x = id_of y -> x = y.
Proof.
  intros Hn [i Hi]%list_elem_of_lookup [j Hj]%list_elem_of_lookup E.
  assert (i = j) as ->; [|congruence]. eapply (NoDup_lookup (id_of <$> l)); [done|by rewrite list_lookup_fmap, Hi|].
  rewrite list_lookup_fmap, Hj. cbn. by rewrite E.
Qed.

Lemma owner_selected filter ls l : NoDup (l_id <$> ls) -> l ∈ ls ->
  bool_decide (l_id l ∈ map l_id (List.filter (owner_matches filter) ls)) = owner_matches filter l.
Proof.
  intros Hn Hl. destruct (owner_matches filter l) eqn:E.
  - apply bool_decide_eq_true. apply list_elem_of_fmap. exists l. split; [done|]. by apply Prelude.elem_filter.
  - apply bool_decide_eq_false. intros (l' & Hid & Hin)%list_elem_of_fmap. apply Prelude.elem_filter in Hin as [Hin Hm].
    rewrite (NoDup_id_eq l_id ls l l' Hn Hl Hin Hid) in E. congruence.
Qed.

Lemma owner_conds_hold filter (e : Env) r l : env_row e "l" = r -> license_cells r l ->
  where_holds (owner_conds filter) e = owner_matches filter l.
Proof.
  intros He H. assert (Hread : forall c v, cell r c = v -> read e (lcol c) = v) by (intros c v <-; unfold read; by rewrite <- He).
  unfold owner_conds, owner_matches. rewrite where_app.
  by rewrite (holds_text e _ _ _ (Hread _ _ (lc_licensable_type _ _ H))), (holds_text e _ _ _ (Hread _ _ (lc_licensable_id _ _ H))).
Qed.

Lemma filter_implied {A} (p q : A -> bool) l : (forall x, q x = true -> p x = true) -> List.filter q (List.filter p l) = List.filter q l.
Proof.
  intros H. induction l as [|x l IH]; [done|]. cbn. destruct (p x) eqn:E; cbn; rewrite IH; [done|].
  destruct (q x) eqn:E'; [|done]. by rewrite H in E.
Qed.

Lemma matching_has_owner filter ls x : (af_licensable_type filter <> None \/ af_licensable_id filter <> None) ->
  audit_matches filter (licensable_ids filter ls) x = true -> has_owner ls x = true.
Proof.
  intros Hf. rewrite licensable_ids_some by done. rewrite audit_matches_some. intros [_ H]%andb_prop.
  destruct (a_license_id x) as [i|] eqn:E; [|done]. bool_prop. apply list_elem_of_fmap in H as (l & -> & Hin).
  apply Prelude.elem_filter in Hin as [Hin _]. apply existsb_exists. exists l. split; [by apply list_elem_of_In|].
  unfold owner_is. by apply bool_decide_eq_true.
Qed.

(** The entries with their license, given what both tables read as. *)
Lemma joined_answers filter page ps ls (w : W) :
  af_event filter <> Some [] -> (af_licensable_type filter <> None \/ af_licensable_id filter <> None) ->
  table (db_of w) "audit_logs" = map fst ps -> table (db_of w) "licenses" = map fst ls ->
  Forall (fun p => audit_cells p.1 p.2) ps -> Forall (fun p => license_cells p.1 p.2) ls ->
  Forall (fun x => ascii_cursor (audit_keyed x) = true) (map snd ps) ->
  NoDup (audit_keyed <$> map snd ps) -> NoDup (l_id <$> map snd ls) ->
  page_ok page -> bounds_ok filter -> forallb bindable (sqlite_audit_where filter).2 = true ->
  answers (sqlite_listAudit filter page) w
    (paginate audit_keyed (List.filter (audit_matches filter (licensable_ids filter (map snd ls))) (map snd ps)) page).
Proof.
  intros Hne Hf Hrows Hlrows Hps Hls Ha Hn Hnl Hp Hbd Hb.
  assert (Hsrc : audit_source filter = InnerJoin "audit_logs" "a" "licenses" "l" "id" "license_id").
  { unfold audit_source. destruct (af_licensable_type filter), (af_licensable_id filter); try done. by destruct Hf. }
  set (jps := map (fun p => (p.1, p.2.1)) (joined ps ls)).
  assert (Hsnd : map snd jps = List.filter (has_owner (map snd ls)) (map snd ps)).
  { unfold jps. rewrite map_map. by apply joined_entries. }
  rewrite Forall_forall in Ha. rewrite Forall_forall in Hps. rewrite Forall_forall in Hls.
  assert (Hin : forall e x, (e, x) ∈ jps -> exists r r' l, e = [("a", r); ("l", r')]%string /\ audit_cells r x
                  /\ ascii_cursor (audit_keyed x) = true /\ license_cells r' l /\ l ∈ map snd ls /\ a_license_id x = Some (l_id l)).
  { intros e x ([e' [x' l]] & [= -> ->] & Hj)%list_elem_of_fmap. unfold joined in Hj.
    apply list_elem_of_In, in_flat_map in Hj as ([r y] & Hy & Hj).
    apply in_map_iff in Hj as ([r' l'] & [= <- <- <-] & Hfl). apply filter_In in Hfl as [Hfl Ho]. unfold owner_is in Ho.
    apply list_elem_of_In in Hy. apply list_elem_of_In in Hfl. bool_prop. exists r, r', l'. split; [done|].
    split; [exact (Hps _ Hy)|]. split; [apply Ha; exact (list_elem_of_fmap_2 snd _ _ Hy)|]. split; [exact (Hls _ Hfl)|].
    split; [exact (list_elem_of_fmap_2 snd _ _ Hfl)|done]. }
  rewrite <- (filter_implied (has_owner (map snd ls))) by (intros x; by apply matching_has_owner). rewrite <- Hsnd.
  eapply audit_query_answers; [done|exact Hsrc| | | |done|done|].
  - cbn [source_rows]. rewrite Hrows, Hlrows. unfold jps. rewrite map_map.
    apply joined_rows; apply Forall_forall; auto.
  - apply Forall_forall. intros [e x] He. destruct (Hin e x He) as (r & r' & l & -> & Hc & Hx & _).
    split; [by apply mapAudit_ok|exact (ac_occurred_at _ _ Hc)|exact (ac_id _ _ Hc)|done].
  - rewrite Hsnd. by apply NoDup_map_filter.
  - intros e x He. destruct (Hin e x He) as (r & r' & l & -> & Hc & Hx & Hlc & Hl & Hid).
    rewrite where_app, (audit_conds_hold filter [("a", r); ("l", r')]%string r x eq_refl Hc Hx Hbd), (owner_conds_hold filter [("a", r); ("l", r')]%string r' l eq_refl Hlc).
    rewrite licensable_ids_some, audit_matches_some, Hid by done. by rewrite owner_selected.
Qed.

Lemma sqlite_audit_answer filter page s (w : W) :
  holds_state (db_of w) s -> listing_ok s -> page_ok page -> bounds_ok filter ->
  forallb bindable (sqlite_audit_where filter).2 = true ->
  answers (sqlite_listAudit filter page) w
    (paginate audit_keyed (List.filter (audit_matches filter (licensable_ids filter (rows (s_licenses s)))) (rows (s_audit s))) page).
Proof.
  intros Hs Hl Hp Hbd Hb.
  destruct (decide (af_event filter = Some [])) as [Hev|Hne].
  { unfold answers, sqlite_listAudit. rewrite Hev. split; [done|]. cbn.
    rewrite filter_drop; [by rewrite paginate_nil|]. intros x _. unfold audit_matches. rewrite Hev.
    rewrite (bool_decide_false (_ ∈ [])) by (apply not_elem_of_nil). by rewrite !andb_false_r. }
  pose proof (listed_keys _ _ _ (lo_audit _ Hl)) as Hn. destruct (lo_audit _ Hl) as [_ Ha].
  destruct (map_rows_inv _ _ _ (hs_audit _ _ Hs)) as (ps & Hr & Hrows & Hps). rewrite Hps in *.
  assert (Hcells : forall r x, (r, x) ∈ ps -> audit_cells r x /\ ascii_cursor (audit_keyed x) = true).
  { intros r x Hin. unfold reading in Hr. rewrite Forall_forall in Hr. rewrite Forall_forall in Ha.
    split; [apply mapAudit_ok; exact (Hr _ Hin)|]. apply Ha. by apply (list_elem_of_fmap_2 snd _ (r, x)). }
  destruct (decide (af_licensable_type filter = None /\ af_licensable_id filter = None)) as [[H1 H2]|Hlic].
  - assert (Hsrc : audit_source filter = FromAs "audit_logs" "a") by (unfold audit_source; by rewrite H1, H2).
    assert (Hids : licensable_ids filter (rows (s_licenses s)) = None) by (unfold licensable_ids; by rewrite H1, H2).
    rewrite Hids, <- (as_envs_snd "a" ps). eapply audit_query_answers; [done|exact Hsrc| | |by rewrite as_envs_snd|done|done|].
    + cbn [source_rows]. by rewrite Hrows, as_envs_fst.
    + unfold as_envs. rewrite Forall_fmap. apply Forall_forall. intros [r x] Hin. destruct (Hcells r x Hin) as [Hc Hx].
      split; [by apply mapAudit_ok|exact (cell_read "a" _ _ _ (ac_occurred_at _ _ Hc))|exact (cell_read "a" _ _ _ (ac_id _ _ Hc))|done].
    + intros e x ([r y] & [= -> ->] & Hin)%list_elem_of_fmap. destruct (Hcells _ _ Hin) as [Hc Hx]. cbn [fst snd].
      rewrite where_app, (audit_conds_hold filter (env_of "a" r) r _ eq_refl Hc Hx Hbd). unfold owner_conds. rewrite H1, H2. cbn. by rewrite andb_true_r.
  - destruct (map_rows_inv _ _ _ (hs_licenses _ _ Hs)) as (ls & Hlr & Hlrows & Hls). rewrite Hls.
    assert (Hf : af_licensable_type filter <> None \/ af_licensable_id filter <> None).
    { destruct (af_licensable_type filter); [by left|]. right. intros H. by apply Hlic. }
    apply joined_answers; try done.
    + eapply Forall_impl; [exact Hr|]. intros p. apply mapAudit_ok.
    + eapply Forall_impl; [exact Hlr|]. intros p. apply mapLicense_ok.
    + eapply Forall_impl; [exact Ha|]. by intros x [_ ?].
    + rewrite <- Hls. by apply (listed_ids l_id license_key_of), Hl.
Qed.

(** One adapter answers as the other, or its engine failed; neither changes
    anything. *)
Definition as_memory {A} (c : prog W A) (w : W) (c' : prog World A) (m : World) : Prop :=
  same_data w (c w).2 /\ (c' m).2 = m /\ match (c w).1 with Ok x => (c' m).1 = Ok x | Throw _ => True end.

Lemma answers_memory {A} (c : prog W A) w (c' : prog World A) m a :
  answers c w a -> c' m = (Ok a, m) -> as_memory c w c' m.
Proof. intros [H1 H2] E. unfold as_memory. rewrite E. split; [done|]. split; [done|]. destruct (c w).1; [by subst|done]. Qed.
End Sqlite.
