(* ===== verification/SqliteWrites.v ===== *)
(** * SqliteWrites: what the SQLite adapter's writes do to its tables

    Each write of the storage contract, run on tables that read as a state,
    leaves tables that read as the state the contract asks for; when it
    throws it has done that or nothing. *)

From S2P Require Import Prelude Errors JsNum Text Json Types Id Cursor Storage JsonLib Http Stringify Memory MemoryLaws SqlErrors Sql Sqlite SqlProps SqliteProps.
From stdpp Require Import strings.
#[local] Open Scope Z_scope.

(** ** Cells of written rows *)

Lemma given_map {X} (l : list (string * X)) (g : X -> SqlVal) c :
  given (map (fun s => (s.1, g s.2)) l) c = g <$> (fix at_ l := match l with [] => None | (c', v) :: l' => if String.eqb c' c then Some v else at_ l' end) l.
Proof. induction l as [|[c' v] l IH]; [done|]. cbn. destruct (String.eqb c' c); [done|]. exact IH. Qed.

Lemma cell_set_cells now sets r c : c ∈ r.*1 ->
  cell (set_cells now sets r) c = given_or (given (map (fun s => (s.1, set_value now s.2)) sets) c) (cell r c).
Proof.
  induction r as [|[c' v] r IH]; [by intros ?%not_elem_of_nil|]. cbn [set_cells map fmap list_fmap cell fst snd]. intros Hin.
  destruct (String.eqb_spec c' c) as [->|Hne]; [done|]. apply IH. apply elem_of_cons in Hin as [->|Hin]; [done|exact Hin].
Qed.

Lemma set_cells_columns now sets r : (set_cells now sets r).*1 = r.*1.
Proof. unfold set_cells. induction r as [|[c v] r IH]; [done|]. cbn. by f_equal. Qed.

Lemma new_row_columns ts now vs : (new_row ts now vs).*1 = (ts_columns ts).*1.
Proof. unfold new_row. induction (ts_columns ts) as [|[c d] l IH]; [done|]. cbn. by f_equal. Qed.

Section Writes.
Context {NT : NumberText} {JH : JsonHost} {W : Type} {HC : HasClock W} {HE : HasEntropy W} {EN : SqlEngine W unit}
  {SL : SqlLaws W unit sqlite_schema}.

Lemma toJson_ok v : wire_data v = true ->
  exists t, toJson v = Ok (SText t) /\ parseJson (SText t) = Ok v /\ json_parse t = Ok v /\ well_formed16 t = true.
Proof.
  intros H. destruct (stringify_holds v H) as (t & Ht & Hh). exists t. unfold toJson. rewrite Ht.
  pose proof (holds_parse t v Hh) as Hp. destruct Hh as [(c & r & -> & _) Ha _]. split; [done|]. split; [exact Hp|]. split; [exact Hp|].
  apply ascii_text. rewrite forallb_Forall in *. eapply Forall_impl; [exact Ha|]. intros x Hx. by apply andb_prop in Hx as [? _].
Qed.

(** [SELECT * FROM t WHERE id = ?] finds the one row with the id. *)
Lemma read_back_law {A} t (f : Row -> res A) missing id (w : W) :
  well_formed16 id = true ->
  match read_back t f missing id w with
  | (Ok x, w') => same_data w w' /\ exists r, r ∈ table (db_of w) t /\ sql_eq (cell r "id") (SText id) = true /\ f r = Ok x
  | (Throw _, w') => same_data w w'
  end.
Proof.
  intros Hid. unfold read_back, sq_get, bind.
  pose proof (sq_select Star (From t) ([CEq (col "id") tt], [SText id]) [CEq (col "id") (SText id)] [] None w
    ltac:(done) ltac:(cbn; by rewrite Hid)) as H.
  cbn [fst snd] in H. change (Select Star (From t) [CEq (col "id") tt] [] None) with (select_by t "id") in H.
  destruct (sq_all _ _ w) as [[rows|e] w']; [|apply H]. destruct H as [Hd (envs & Hp & _ & ->)].
  cbn [source_rows limited_to] in *. unfold ret. destruct envs as [|e envs]; cbn [map head].
  - unfold of_lib, throw. exact Hd.
  - assert (He : e ∈ List.filter (where_holds [CEq (col "id") (SText id)]) (map (fun r => [(""%string, r)]) (table (db_of w) t)))
      by (rewrite <- Hp; left).
    apply Prelude.elem_filter in He as [He Hw]. apply list_elem_of_fmap in He as (r & -> & Hr).
    unfold of_lib, lift. cbn [project]. destruct (f r) as [x|] eqn:E; [|exact Hd]. split; [exact Hd|].
    exists r. split; [done|]. split; [|done]. unfold where_holds in Hw. cbn [forallb cond_holds] in Hw.
    apply andb_prop in Hw as [Hw _]. exact Hw.
Qed.

Lemma sq_run_law st ps (w : W) : is_tx st = false -> forallb bindable ps = true ->
  match sq_run st ps w with
  | (Ok _, w') => saved w' = saved w
      /\ exists bound now rows, bind_params st ps = Some bound /\ asks sqlite_schema now (db_of w) bound rows (db_of w')
  | (Throw _, w') => same_data w w'
  end.
Proof.
  intros Ht Hb. pose proof (sq_all_law st ps w Ht Hb) as H. unfold sq_run, bind.
  destruct (sq_all st ps w) as [[rows|e] w']; [|apply H]. destruct H as (Hs & bound & now & H1 & H2).
  split; [done|]. exists bound, now, rows. done.
Qed.

(** No column of the schema defaults to the time. *)
Lemma no_now t ts : schema_of sqlite_schema t = Some ts -> Forall (fun cd => cd.2 <> DefaultNow) (ts_columns ts) /\ ts_name ts = t.
Proof.
  unfold schema_of. intros H. apply find_some in H as [Hin Hn]. apply String.eqb_eq in Hn. split; [|done].
  repeat (destruct Hin as [<-|Hin]; [repeat constructor; discriminate|]). destruct Hin.
Qed.

Lemma new_row_now ts now now' vs : Forall (fun cd => cd.2 <> DefaultNow) (ts_columns ts) -> new_row ts now vs = new_row ts now' vs.
Proof.
  intros H. unfold new_row. apply map_ext_in. intros [c d] Hin. rewrite Forall_forall in H.
  specialize (H _ (proj2 (list_elem_of_In _ _) Hin)). cbn in *. by destruct d.
Qed.

Lemma bind_cols_zip cols vals rest : List.length cols = List.length vals ->
  bind_cols take_next (map (fun c => (c, tt)) cols) (vals ++ rest) = Some (zip cols vals, rest).
Proof.
  revert vals. induction cols as [|c cols IH]; intros [|v vals] H; try discriminate H; [done|]. cbn.
  by rewrite IH by (by injection H).
Qed.

Lemma bind_insert t cols vals : List.length cols = List.length vals ->
  bind_params (insert_into t cols) vals = Some (InsertInto t (zip cols vals) false).
Proof.
  intros H. cbn. rewrite <- (app_nil_r vals) at 1. by rewrite bind_cols_zip.
Qed.

(** ** Inserts *)

(** An insert and its reading back. *)
Lemma create_run {A} t ts cols vals (f : Row -> res A) missing id (w : W) :
  schema_of sqlite_schema t = Some ts -> List.length cols = List.length vals -> forallb bindable vals = true ->
  well_formed16 id = true -> cell (new_row ts SNull (zip cols vals)) "id" = SText id ->
  let row := new_row ts SNull (zip cols vals) in
  let db' := map_set (db_of w) t (table (db_of w) t ++ [row]) in
  match (do* sq_run (insert_into t cols) vals; read_back t f missing id) w with
  | (Ok x, w') => saved w' = saved w /\ db_of w' = db' /\ table_ok db' ts = true /\ f row = Ok x
  | (Throw _, w') => saved w' = saved w /\ (db_of w' = db_of w \/ db_of w' = db' /\ table_ok db' ts = true)
  end.
Proof.
  intros Hts Hlen Hb Hid Hrow row db'.
  pose proof (sq_run_law (insert_into t cols) vals w eq_refl Hb) as H. unfold bind.
  destruct (sq_run _ _ w) as [[u|e] w1]; [|destruct H as [H1 H2]; split; [done|by left]].
  destruct H as (Hs & bound & now & ans & Hbind & Ha). rewrite bind_insert in Hbind by done. injection Hbind as <-.
  inversion Ha as [| |? ts' ? ? db1 Hts' Hdb Hok| | |]; subst. rewrite Hts in Hts'. injection Hts' as <-.
  destruct (no_now t ts Hts) as [Hnow Hname].
  rewrite (new_row_now ts now SNull) in * by done. fold row in Hdb. fold db' in Hdb. rewrite Hdb in Hok.
  pose proof (read_back_law t f missing id w1 Hid) as Hr. destruct (read_back t f missing id w1) as [[x|e] w2].
  - destruct Hr as [[Hs2 Hd2] (r & Hin & Hhit & Hf)]. rewrite Hs2, Hd2. split; [done|]. split; [done|]. split; [done|].
    assert (r = row) as ->; [|done].
    pose proof Hok as Hu. unfold table_ok, uniques_ok in Hu. rewrite Hname in Hu. apply andb_prop in Hu as [_ Hu]. apply andb_prop in Hu as [Hu _].
    rewrite Hdb in Hin. unfold db', table in Hu, Hin. rewrite map_get_set_eq in Hu, Hin. cbn [given_or] in Hu, Hin.
    assert (Hrin : row ∈ (given_or (map_get (db_of w) t) [] ++ [row])) by (apply elem_of_app; right; left).
    pose proof (pairwise_alone _ row id Hu Hrin Hrow) as Hal.
    assert (Hx : r ∈ List.filter (fun r' => sql_eq (cell r' "id") (SText id)) (given_or (map_get (db_of w) t) [] ++ [row]))
      by (by apply Prelude.elem_filter).
    rewrite Hal in Hx. by apply list_elem_of_singleton in Hx.
  - destruct Hr as [Hs2 Hd2]. rewrite Hs2, Hd2. split; [done|]. right. by split.
Qed.

(** ** Patches *)

Definition bound_sets (fields : list (string * Field)) (values : list SqlVal) (now : Instant) : list (string * SetTo SqlVal) :=
  zip_with (fun kv v => (kv.1, SetParam v)) fields values ++ [("updated_at", SetParam (SText now))]%string.

Lemma bind_fields fields values now rest : List.length fields = List.length values ->
  bind_sets take_next (set_updated_at (map (fun kv : string * Field => (kv.1, SetParam tt)) fields)) (values ++ SText now :: rest)
  = Some (bound_sets fields values now, rest).
Proof.
  unfold set_updated_at, bound_sets. revert values. induction fields as [|[c v] fields IH]; intros [|x values] H; try discriminate H; [done|].
  cbn [map app bind_sets take_next fst snd zip_with]. cbn. rewrite (IH values) by (by injection H). done.
Qed.

Lemma serialise_length l vs : serialise_all l = Ok vs -> List.length l = List.length vs.
Proof.
  revert vs. induction l as [|[c v] l IH]; intros vs H; [by injection H as <-|]. cbn in H.
  destruct (serialised v); [|done]. cbn in H. destruct (serialise_all l) as [vs'|]; [|done]. injection H as <-. cbn. f_equal. by apply IH.
Qed.

(** An update and its reading back. *)
Lemma update_run {A} t ts fields values (f : Row -> res A) missing now id (w : W) :
  schema_of sqlite_schema t = Some ts -> List.length fields = List.length values -> forallb bindable values = true ->
  well_formed16 now = true -> well_formed16 id = true -> forallb (fun kv : string * Field => negb (String.eqb kv.1 "id")) fields = true ->
  let upd := set_cells SNull (bound_sets fields values now) in
  let db' := map_set (db_of w) t (map (fun r => if hits "id" (SText id) r then upd r else r) (table (db_of w) t)) in
  match sqlite_write_patch t f missing now id (map (fun kv => (kv.1, SetParam tt)) fields, values) w with
  | (Ok x, w') => saved w' = saved w /\ db_of w' = db' /\ table_ok db' ts = true
      /\ exists r, r ∈ table (db_of w) t /\ hits "id" (SText id) r = true /\ f (upd r) = Ok x
  | (Throw _, w') => saved w' = saved w /\ (db_of w' = db_of w \/ db_of w' = db' /\ table_ok db' ts = true)
  end.
Proof.
  intros Hts Hlen Hb Hnow Hid Hkeys upd db'.
  assert (E : sqlite_write_patch t f missing now id (map (fun kv => (kv.1, SetParam tt)) fields, values)
    = (do* sq_run (UpdateSet t (set_updated_at (map (fun kv : string * Field => (kv.1, SetParam tt)) fields)) "id" tt false)
             (values ++ [SText now; SText id]); read_back t f missing id)).
  { destruct fields, values; try discriminate Hlen; done. }
  rewrite E. clear E. unfold bind.
  assert (Hb' : forallb bindable (values ++ [SText now; SText id]) = true) by (rewrite forallb_app, Hb; cbn; by rewrite Hnow, Hid).
  pose proof (sq_run_law (UpdateSet t (set_updated_at (map (fun kv : string * Field => (kv.1, SetParam tt)) fields)) "id" tt false)
    _ w eq_refl Hb') as H.
  destruct (sq_run _ _ w) as [[u|e] w1]; [|destruct H as [H1 H2]; split; [done|by left]].
  destruct H as (Hs & bound & tnow & ans & Hbind & Ha). cbn [bind_params question_marks bind_stmt] in Hbind.
  rewrite bind_fields in Hbind by done. cbn in Hbind. injection Hbind as <-.
  inversion Ha as [| | |? ts' ? ? ? ? db1 Hts' _ Hdb Hok| |]; subst. rewrite Hts in Hts'. injection Hts' as <-.
  assert (Hupd : forall r, set_cells tnow (bound_sets fields values now) r = upd r).
  { intros r. unfold upd, set_cells. apply map_ext. intros cv. f_equal. f_equal. f_equal. apply map_ext_in. intros [c [v|]] Hin; [done|].
    exfalso. unfold bound_sets in Hin. apply in_app_or in Hin as [Hin|[Hin|[]]]; [|done].
    clear -Hin. revert values Hin. induction fields as [|[c' v'] fields IH]; intros [|x values] Hin; try done.
    destruct Hin as [Hin|Hin]; [done|by eapply IH]. }
  assert (Hdb' : db_of w1 = db').
  { rewrite Hdb. unfold db'. f_equal. apply map_ext. intros r. by rewrite Hupd. }
  rewrite Hdb' in Hok. pose proof (read_back_law t f missing id w1 Hid) as Hr.
  destruct (read_back t f missing id w1) as [[x|e] w2].
  - destruct Hr as [[Hs2 Hd2] (r & Hin & Hhit & Hf)]. rewrite Hs2, Hd2. split; [done|]. split; [done|]. split; [done|].
    rewrite Hdb' in Hin. unfold db', table in Hin. rewrite map_get_set_eq in Hin. cbn [given_or] in Hin.
    apply list_elem_of_fmap in Hin as (r0 & -> & Hin). exists r0. split; [exact Hin|].
    destruct (hits "id" (SText id) r0) eqn:Eh; [by split|]. unfold hits in Eh. congruence.
  - destruct Hr as [Hs2 Hd2]. rewrite Hs2, Hd2. split; [done|]. right. by split.
Qed.
End Writes.

(** ** Fields of a patch *)

(** The field under a key; every key occurs once. *)
Fixpoint entry_at (entries : list (string * option Field)) (c : string) : option Field :=
  match entries with [] => None | (k, v) :: l => if String.eqb k c then v else entry_at l c end.

Section Fields.
Context {NT : NumberText} {JH : JsonHost}.

Lemma present_without entries c : c ∉ entries.*1 -> c ∉ (present_entries entries).*1.
Proof.
  induction entries as [|[k [v|]] l IH]; cbn; intros H; [done| |].
  - apply not_elem_of_cons in H as [H1 H2]. apply not_elem_of_cons. by split; [|apply IH].
  - apply not_elem_of_cons in H as [_ H]. by apply IH.
Qed.

Lemma given_without l vs c now : c ∉ l.*1 ->
  given (map (fun s => (s.1, set_value SNull s.2)) (zip_with (fun (kv : string * Field) v => (kv.1, SetParam v)) l vs ++ [(("updated_at")%string, SetParam now)])) c
  = if String.eqb "updated_at" c then Some now else None.
Proof.
  revert vs. induction l as [|[k v] l IH]; intros vs H; [done|]. cbn in H. apply not_elem_of_cons in H as [Hne H].
  destruct vs as [|x vs]; cbn [zip_with app map given fst snd]; [done|].
  destruct (String.eqb_spec k c) as [->|]; [done|]. by apply IH.
Qed.

(** What the bound assignments give for a column. *)
Lemma given_entry entries vs now c : NoDup entries.*1 -> serialise_all (present_entries entries) = Ok vs -> c <> "updated_at"%string ->
  match entry_at entries c with
  | None => given (map (fun s => (s.1, set_value SNull s.2)) (bound_sets (present_entries entries) vs now)) c = None
  | Some v => exists x, serialised v = Ok x
      /\ given (map (fun s => (s.1, set_value SNull s.2)) (bound_sets (present_entries entries) vs now)) c = Some x
  end.
Proof.
  intros Hn Hs Hc. unfold bound_sets. revert vs Hs. induction entries as [|[k [v|]] l IH]; intros vs Hs.
  - injection Hs as <-. cbn [present_entries zip_with app map given entry_at fst snd set_value]. destruct (String.eqb_spec "updated_at" c); [congruence|done].
  - cbn [present_entries serialise_all] in Hs. destruct (serialised v) as [x|] eqn:Ev; [|done]. cbn in Hs.
    destruct (serialise_all (present_entries l)) as [vs'|]; [|done]. injection Hs as <-. cbn in Hn. apply NoDup_cons in Hn as [Hk Hn].
    cbn [entry_at present_entries zip_with app map given fst snd set_value]. destruct (String.eqb_spec k c) as [->|]; [by exists x|]. by apply IH.
  - cbn [present_entries] in Hs |- *. cbn in Hn. apply NoDup_cons in Hn as [Hk Hn]. cbn [entry_at].
    destruct (String.eqb_spec k c) as [->|]; [|by apply IH]. rewrite given_without by (by apply present_without).
    destruct (String.eqb_spec "updated_at" c); [congruence|done].
Qed.

Lemma given_updated entries vs now : "updated_at"%string ∉ entries.*1 ->
  given (map (fun s => (s.1, set_value SNull s.2)) (bound_sets (present_entries entries) vs now)) "updated_at" = Some (SText now).
Proof. intros H. unfold bound_sets. rewrite given_without by (by apply present_without). done. Qed.
End Fields.

(** ** Tables that read as a map of entities *)

Section Holding.
Context {A : Type} (f : Row -> res A) (cells : Row -> A -> Prop) (id_of : A -> UUIDv7) (columns : list string).
Hypothesis f_ok : forall r x, f r = Ok x <-> cells r x.
Hypothesis cells_id : forall r x, cells r x -> cell r "id" = SText (id_of x).

(** The rows, with the columns of the table, read as the entities of [m]. *)
Definition holds_rows (l : list Row) (m : list (UUIDv7 * A)) : Prop :=
  map_rows f l = Ok (rows m) /\ Forall (fun r => r.*1 = columns) l /\ keyed id_of m.

Lemma map_rows_app l1 l2 a1 a2 : map_rows f l1 = Ok a1 -> map_rows f l2 = Ok a2 -> map_rows f (l1 ++ l2) = Ok (a1 ++ a2).
Proof.
  revert a1. induction l1 as [|r l1 IH]; intros a1 H1 H2; cbn in *; [by injection H1 as <-|].
  destruct (f r) as [x|]; [|done]. cbn in *. destruct (map_rows f l1) as [a|]; [|done]. injection H1 as <-.
  by rewrite (IH a eq_refl H2).
Qed.

Lemma hits_id r x id : cells r x -> hits "id" (SText id) r = bool_decide (id_of x = id).
Proof. intros H. unfold hits. by rewrite (cells_id r x H). Qed.

(** A new row, under an id no row has. *)
Lemma holds_insert l m r x :
  holds_rows l m -> cells r x -> r.*1 = columns -> unique_ok ["id"%string] (l ++ [r]) = true ->
  map_get m (id_of x) = None /\ holds_rows (l ++ [r]) (map_set m (id_of x) x).
Proof.
  intros (Hm & Hc & Hk) Hx Hr Hu.
  assert (Hnone : map_get m (id_of x) = None).
  { destruct (map_get m (id_of x)) as [y|] eqn:E; [|done]. exfalso.
    pose proof (keyed_get _ _ _ _ Hk E) as Hid. apply map_get_rows in E.
    destruct (map_rows_inv _ _ _ Hm) as (ps & Hp & -> & Hps). rewrite Hps in E.
    apply list_elem_of_fmap in E as ([r' y'] & -> & Hin). cbn [snd] in Hid. unfold reading in Hp. rewrite Forall_forall in Hp.
    pose proof (Hp _ Hin) as Hy. cbn in Hy. apply f_ok in Hy.
    pose proof (pairwise_alone _ r (id_of x) Hu ltac:(apply elem_of_app; right; left) (cells_id _ _ Hx)) as Hal.
    rewrite List.filter_app in Hal. cbn [List.filter] in Hal. fold (hits "id" (SText (id_of x)) r) in Hal.
    rewrite (hits_id r x _ Hx), bool_decide_true in Hal by done.
    apply (f_equal (@List.length Row)) in Hal. rewrite length_app in Hal. cbn in Hal.
    assert (Hin' : r' ∈ List.filter (fun r0 => sql_eq (cell r0 "id") (SText (id_of x))) (map fst ps)).
    { apply Prelude.elem_filter. split; [exact (list_elem_of_fmap_2 fst _ _ Hin)|].
      change (hits "id" (SText (id_of x)) r' = true). rewrite (hits_id r' y' _ Hy). by apply bool_decide_eq_true. }
    destruct (List.filter _ (map fst ps)); [by apply not_elem_of_nil in Hin'|]. cbn in Hal. lia. }
  split; [done|]. split; [|split].
  - rewrite map_set_new by done. unfold rows. rewrite fmap_app. apply map_rows_app; [exact Hm|]. cbn.
    by rewrite (proj2 (f_ok r x) Hx).
  - apply Forall_app. split; [done|]. by repeat constructor.
  - by apply keyed_set.
Qed.

Lemma rows_replace m id (next : A -> A) cur : keyed id_of m -> map_get m id = Some cur ->
  map (fun x => if bool_decide (id_of x = id) then next x else x) (rows m) = rows (map_set m id (next cur)).
Proof.
  intros [Hd Hk] Hg. induction m as [|[i x] m IH]; [done|]. apply Forall_cons in Hk as [Hi Hk]. cbn in Hi, Hd.
  apply NoDup_cons in Hd as [Hx Hd]. cbn in Hg |- *. rewrite Hi. destruct (decide (i = id)) as [->|Hne].
  - rewrite bool_decide_true by done. rewrite !decide_True in * by done. injection Hg as ->. cbn. f_equal. rewrite <- (map_id m.*2) at 2.
    apply map_ext_in. intros y Hy. rewrite bool_decide_false; [done|]. intros Hid. apply Hx.
    apply list_elem_of_In in Hy. apply list_elem_of_fmap in Hy as ([j y'] & -> & Hin). rewrite Forall_forall in Hk.
    pose proof (Hk _ Hin) as Hj. cbn in *. rewrite <- Hid, Hj. exact (list_elem_of_fmap_2 fst _ _ Hin).
  - rewrite bool_decide_false by done. rewrite !decide_False in * by congruence. cbn. f_equal. by apply IH.
Qed.

Lemma rows_unchanged m id (next : A -> A) : keyed id_of m -> map_get m id = None ->
  map (fun x => if bool_decide (id_of x = id) then next x else x) (rows m) = rows m.
Proof.
  intros Hk Hg. rewrite <- map_id. apply map_ext_in. intros x Hx. rewrite bool_decide_false; [done|]. intros <-.
  apply list_elem_of_In in Hx. by rewrite (rows_map_get id_of m x Hk Hx) in Hg.
Qed.

Lemma map_rows_upd (upd : Row -> Row) (next : A -> A) id l xs :
  map_rows f l = Ok xs -> Forall (fun r => r.*1 = columns) l ->
  (forall r x, cells r x -> r.*1 = columns -> cells (upd r) (next x)) ->
  map_rows f (map (fun r => if hits "id" (SText id) r then upd r else r) l)
  = Ok (map (fun x => if bool_decide (id_of x = id) then next x else x) xs).
Proof.
  intros Hm Hc Hu. revert xs Hm. induction Hc as [|r l Hr Hc IH]; intros xs Hm; [by injection Hm as <-|]. cbn in Hm |- *.
  destruct (f r) as [x|] eqn:E; [|done]. cbn in Hm. destruct (map_rows f l) as [ys|]; [|done]. injection Hm as <-.
  pose proof (proj1 (f_ok _ _) E) as Hx. rewrite (hits_id r x id Hx). cbn [map].
  destruct (bool_decide (id_of x = id)); [rewrite (proj2 (f_ok _ _) (Hu _ _ Hx Hr))|rewrite E]; cbn; by rewrite (IH ys eq_refl).
Qed.

(** The rows with an id rewritten. *)
Lemma holds_patch l m upd (next : A -> A) id :
  holds_rows l m -> (forall r x, cells r x -> r.*1 = columns -> cells (upd r) (next x)) ->
  (forall r, (upd r).*1 = r.*1) -> (forall x, id_of (next x) = id_of x) ->
  holds_rows (map (fun r => if hits "id" (SText id) r then upd r else r) l)
    (match map_get m id with Some cur => map_set m id (next cur) | None => m end).
Proof.
  intros (Hm & Hc & Hk) Hu Hcols Hid. split; [|split].
  - rewrite (map_rows_upd upd next id l _ Hm Hc Hu). destruct (map_get m id) as [cur|] eqn:E.
    + by rewrite (rows_replace m id next cur).
    + by rewrite rows_unchanged.
  - apply Forall_fmap. eapply Forall_impl; [exact Hc|]. intros r Hr. cbn. destruct (hits _ _ r); [by rewrite Hcols|done].
  - destruct (map_get m id) as [cur|] eqn:E; [|done]. apply keyed_set; [done|]. rewrite Hid. by eapply keyed_get.
Qed.

(** The rows with an id removed. *)
Lemma holds_delete l m id : holds_rows l m ->
  holds_rows (List.filter (fun r => negb (hits "id" (SText id) r)) l) (map_delete m id).
Proof.
  intros (Hm & Hc & Hk). split; [|split].
  - assert (rows (map_delete m id) = List.filter (fun x => negb (bool_decide (id_of x = id))) (rows m)) as ->.
    { destruct Hk as [_ Hk]. unfold map_delete. clear Hm Hc. induction Hk as [|[k x] m Hx _ IH]; [done|]. cbn in Hx |- *.
      rewrite Hx. destruct (decide (k <> id)) as [Hne|He]; unfold rows in *; cbn.
      - rewrite bool_decide_false by done. cbn. by f_equal.
      - rewrite bool_decide_true by (by destruct (decide (k = id))). done. }
    clear Hk. revert Hm. generalize (rows m) as xs. clear Hc. induction l as [|r l IH]; intros xs Hm; [by injection Hm as <-|].
    cbn in Hm. destruct (f r) as [x|] eqn:E; [|done]. cbn in Hm. destruct (map_rows f l) as [ys|]; [|done]. injection Hm as <-.
    pose proof (proj1 (f_ok _ _) E) as Hx. cbn [List.filter]. rewrite (hits_id r x id Hx).
    destruct (bool_decide (id_of x = id)); cbn; [by apply IH|]. rewrite E. cbn. by rewrite (IH ys eq_refl).
  - rewrite Forall_forall in *. intros r Hr. apply Prelude.elem_filter in Hr as [Hr _]. by apply Hc.
  - by apply keyed_delete.
Qed.

(** The row with an id reads as the entity with the id. *)
Lemma holds_hit l m r id : holds_rows l m -> r ∈ l -> hits "id" (SText id) r = true ->
  exists x, map_get m id = Some x /\ cells r x /\ r.*1 = columns.
Proof.
  intros (Hm & Hc & Hk) Hr Hh. destruct (map_rows_inv _ _ _ Hm) as (ps & Hp & -> & Hps).
  apply list_elem_of_fmap in Hr as ([r' x] & -> & Hin). unfold reading in Hp. rewrite Forall_forall in Hp.
  pose proof (proj1 (f_ok _ _) (Hp _ Hin)) as Hx. cbn [fst snd] in *. exists x. split; [|split; [done|]].
  - rewrite (hits_id _ _ _ Hx) in Hh. bool_prop. rewrite <- Hh. apply rows_map_get; [done|]. rewrite Hps.
    exact (list_elem_of_fmap_2 snd _ _ Hin).
  - rewrite Forall_forall in Hc. apply Hc. exact (list_elem_of_fmap_2 fst _ _ Hin).
Qed.
End Holding.

(** ** The state a database reads as *)

Abbreviation holds_table ts f id_of db m := (holds_rows f id_of (ts_columns ts).*1 (table db (ts_name ts)) m).

(** A template's parent is a text that binds. *)
Definition parent_ok (t : LicenseTemplate) : Prop :=
  match t_parent_id t with Some p => well_formed16 p = true | None => True end.

Record reads_as (db : Db) (s : State) : Prop := {
  ra_licenses : holds_table licenses_table mapLicense l_id db (s_licenses s);
  ra_scopes : holds_table scopes_table mapScope sc_id db (s_scopes s);
  ra_templates : holds_table templates_table mapTemplate t_id db (s_templates s);
  ra_usages : holds_table usages_table mapUsage u_id db (s_usages s);
  ra_keys : holds_table keys_table mapKey k_id db (s_keys s);
  ra_audit : holds_table audit_table mapAudit a_id db (s_audit s);
  ra_trials : holds_table trials_table mapTrialIssuance ti_id db (s_trialIssuances s);
  ra_parents : Forall parent_ok (rows (s_templates s))
}.

Lemma reads_holds db s : reads_as db s -> holds_state db s.
Proof. intros []. split; by match goal with H : holds_rows _ _ _ _ ?m |- _ = Ok (rows ?m) => apply H end. Qed.

(** ** What a write asks of the tables

    The contract of [createX], [updateX], [appendAudit] and the rest, on the
    state; ids, times and the trial flag are the adapter's. *)
Definition effect (op : WriteOp) (s s' : State) : Prop :=
  match op with
  | WCreateLicense i => exists id now trial, map_get (s_licenses s) id = None
      /\ s' = set_licenses (map_set (s_licenses s) id
           (mkLicense id (li_scope_id i) (li_template_id i) (li_licensable_type i) (li_licensable_id i) (li_license_key i)
              (li_status i) (li_max_usages i) trial (li_activated_at i) (li_expires_at i) (li_grace_until i) (li_meta i) now now)) s
  | WUpdateLicense id p => exists cur now, map_get (s_licenses s) id = Some cur
      /\ s' = set_licenses (map_set (s_licenses s) id (patch_license cur p now)) s
  | WCreateScope i => exists id now, map_get (s_scopes s) id = None
      /\ s' = set_scopes (map_set (s_scopes s) id (mkScope id (sci_slug i) (sci_name i) (sci_meta i) now now)) s
  | WUpdateScope id p => exists cur now, map_get (s_scopes s) id = Some cur
      /\ s' = set_scopes (map_set (s_scopes s) id (patch_scope cur p now)) s
  | WCreateTemplate i => exists id now, map_get (s_templates s) id = None
      /\ s' = set_templates (map_set (s_templates s) id
           (mkTemplate id (tpi_scope_id i) (tpi_parent_id i) (tpi_name i) (tpi_max_usages i) (tpi_trial_duration_sec i)
              (tpi_trial_cooldown_sec i) (tpi_grace_duration_sec i) (tpi_force_online_after_sec i) (tpi_entitlements i)
              (tpi_meta i) now now)) s
  | WUpdateTemplate id p => exists cur now, map_get (s_templates s) id = Some cur
      /\ s' = set_templates (map_set (s_templates s) id (patch_template cur p now)) s
  | WCreateUsage i => exists id now, map_get (s_usages s) id = None
      /\ s' = set_usages (map_set (s_usages s) id
           (mkUsage id (ui_license_id i) (ui_fingerprint i) (ui_status i) (ui_registered_at i) (ui_revoked_at i)
              (ui_registered_at i) (ui_client_meta i) now now)) s
  | WUpdateUsage id p => exists cur now, map_get (s_usages s) id = Some cur
      /\ s' = set_usages (map_set (s_usages s) id (patch_usage cur p now)) s
  | WCreateKey i => exists id now, map_get (s_keys s) id = None
      /\ s' = set_keys (map_set (s_keys s) id
           (mkKey id (ki_scope_id i) (ki_kid i) (ki_alg i) (ki_role i) (ki_state i) (ki_public_pem i) (ki_private_pem_enc i)
              (ki_rotated_from i) (ki_rotated_at i) (ki_not_before i) (ki_not_after i) (ki_meta i) now now)) s
  | WUpdateKey id p => exists cur now, map_get (s_keys s) id = Some cur
      /\ s' = set_keys (map_set (s_keys s) id (patch_key cur p now)) s
  | WAppendAudit i => exists id, map_get (s_audit s) id = None /\ s' = set_audit (map_set (s_audit s) id (audit_row id i)) s
  | WRecordTrial i => exists id now, map_get (s_trialIssuances s) id = None
      /\ s' = set_trials (map_set (s_trialIssuances s) id (mkTrial id (tri_template_id i) (tri_fingerprint_hash i) now)) s
  | WDeleteTrial id => s' = set_trials (map_delete (s_trialIssuances s) id) s
  end.

(** ** What can be stored without loss *)

Definition field_ok (f : Field) : bool :=
  match f with
  | FText s => well_formed16 s | FNull => true | FInt z => bindable (SInt z)
  | FJson v => wire_data v
  end.
Definition entries_ok (entries : list (string * option Field)) : bool :=
  forallb (fun kv : string * option Field => match kv.2 with Some f => field_ok f | None => true end) entries.

(** The fields an operation stores. *)
Definition op_fields (op : WriteOp) : list Field :=
  match op with
  | WCreateLicense i =>
      [nullable_text_field (li_scope_id i); nullable_text_field (li_template_id i); FText (li_licensable_type i); FText (li_licensable_id i);
       FText (li_license_key i); FInt (li_max_usages i); nullable_text_field (li_activated_at i); nullable_text_field (li_expires_at i);
       nullable_text_field (li_grace_until i); FJson (li_meta i)]
  | WCreateScope i => [FText (sci_slug i); FText (sci_name i); FJson (sci_meta i)]
  | WCreateTemplate i =>
      [nullable_text_field (tpi_scope_id i); nullable_text_field (tpi_parent_id i); FText (tpi_name i); FInt (tpi_max_usages i);
       FInt (tpi_trial_duration_sec i); nullable_int_field (tpi_trial_cooldown_sec i); FInt (tpi_grace_duration_sec i);
       nullable_int_field (tpi_force_online_after_sec i); FJson (tpi_entitlements i); FJson (tpi_meta i)]
  | WCreateUsage i =>
      [FText (ui_license_id i); FText (ui_fingerprint i); FText (ui_registered_at i); nullable_text_field (ui_revoked_at i);
       FJson (ui_client_meta i)]
  | WCreateKey i =>
      [nullable_text_field (ki_scope_id i); FText (ki_kid i); FText (ki_public_pem i); nullable_text_field (ki_private_pem_enc i);
       nullable_text_field (ki_rotated_from i); nullable_text_field (ki_rotated_at i); FText (ki_not_before i);
       nullable_text_field (ki_not_after i); FJson (ki_meta i)]
  | WAppendAudit i =>
      [nullable_text_field (ai_license_id i); nullable_text_field (ai_scope_id i); FText (ai_actor i); FText (ai_event i);
       match ai_prior_state i with Some v => FJson v | None => FNull end;
       match ai_new_state i with Some v => FJson v | None => FNull end; FText (ai_occurred_at i); nullable_text_field (ai_actor_id i)]
  | WRecordTrial i => [nullable_text_field (tri_template_id i); FText (tri_fingerprint_hash i)]
  | WDeleteTrial id => [FText id]
  | WUpdateLicense id p => FText id :: map snd (present_entries (license_entries p))
  | WUpdateScope id p => FText id :: map snd (present_entries (scope_entries p))
  | WUpdateTemplate id p => FText id :: map snd (present_entries (template_entries p))
  | WUpdateUsage id p => FText id :: map snd (present_entries (usage_entries p))
  | WUpdateKey id p => FText id :: map snd (present_entries (key_entries p))
  end.

Definition storable (op : WriteOp) : bool := forallb field_ok (op_fields op).

(** ** Binding *)

Lemma nullable_bindable o : field_ok (nullable_text_field o) = true -> bindable (nullable_text o) = true.
Proof. by destruct o. Qed.
Lemma nullable_int_bindable o : field_ok (nullable_int_field o) = true -> bindable (nullable_num o) = true.
Proof. by destruct o. Qed.

Lemma ascii_bindable t : forallb is_ascii t = true -> bindable (SText t) = true.
Proof. exact (fun H => proj2 (ascii_text t H)). Qed.

(** The parameters of an insert bind: ids and times are ASCII, the rest is
    the operation's, which can be stored. *)
Ltac split_ok H := unfold storable in H; cbn in H; rewrite !andb_true_iff in H; destruct_and? H.
Ltac bindables :=
  cbn [forallb]; rewrite ?andb_true_iff; repeat split;
  try first [ assumption | by apply nullable_bindable | by apply nullable_int_bindable
            | apply ascii_bindable; assumption ].

Ltac by_decision := apply (bool_decide_unpack _); vm_compute; exact I.

(** The keys of a patch. *)
Ltac nodup := split; [|split]; by_decision.

Section Operations.
Context {NT : NumberText} {JH : JsonHost} {W : Type} {HC : HasClock W} {HE : HasEntropy W} {EN : SqlEngine W unit}
  {SL : SqlLaws W unit sqlite_schema}.

Lemma same_data_trans (w1 w2 w3 : W) : same_data w1 w2 -> same_data w2 w3 -> same_data w1 w3.
Proof. unfold same_data. intros [H1 H2] [H3 H4]. split; congruence. Qed.

Lemma nowMs_same (w : W) : same_data w (nowMs w).2.
Proof. exact (clock_law w). Qed.

Lemma sqlite_now_law (w : W) :
  match sqlite_now w with (Ok now, w') => same_data w w' /\ forallb is_ascii now = true | (Throw _, w') => same_data w w' end.
Proof.
  unfold sqlite_now, bind, lift. pose proof (nowMs_same w) as H. destruct (nowMs w) as [[ms|e] w']; [|exact H]. cbn in H.
  destruct (isoFromMs ms) eqn:E; [|exact H]. split; [exact H|]. by eapply isoFromMs_ascii.
Qed.

Lemma freshUuid_law (w : W) :
  match freshUuid w with (Ok id, w') => same_data w w' /\ forallb is_ascii id = true | (Throw _, w') => same_data w w' end.
Proof.
  unfold freshUuid, bind, lift. pose proof (nowMs_same w) as H. destruct (nowMs w) as [[ms|e] w1]; [|exact H]. cbn in H.
  destruct (_ || _); [exact H|]. destruct (entropy_law 10 w1) as (bytes & w2 & -> & Hl & Hb & Hs & Hd).
  assert (Hsame : same_data w w2) by (eapply same_data_trans; [exact H|by split]).
  destruct (newUuidV7 ms bytes) eqn:E; [|exact Hsame]. split; [exact Hsame|]. by eapply newUuidV7_ascii.
Qed.

Lemma caught_law {A} map (c : M mapped W A) (w : W) :
  match caught map c w with
  | (Ok x, w') => c w = (Ok x, w')
  | (Throw _, w') => exists e, c w = (Throw e, w')
  end.
Proof.
  unfold caught, uncaught, try_catch, throw. destruct (c w) as [[x|[e|t]] w']; [done|by eexists|].
  destruct (map t); by eexists.
Qed.

(** What running a write came to. *)
Definition outcome {A} (op : WriteOp) (s : State) (c : prog W A) (w : W) : Prop :=
  saved (c w).2 = saved w /\ exists s', reads_as (db_of (c w).2) s' /\ (s' = s \/ effect op s s')
    /\ match (c w).1 with Ok _ => effect op s s' | Throw _ => True end.

Lemma outcome_same {A} op s (c : prog W A) (w w1 : W) e :
  reads_as (db_of w) s -> same_data w w1 -> c w = (Throw e, w1) -> outcome op s c w.
Proof.
  intros Hr [Hs Hd] Hc. unfold outcome. rewrite Hc. cbn. split; [done|]. exists s. rewrite Hd. auto.
Qed.

(** Only the data count in what a write starts from. *)
Lemma outcome_step {A B} op s (c : prog W A) (k : A -> prog W B) (w : W) :
  reads_as (db_of w) s -> same_data w (c w).2 ->
  (forall a w1, c w = (Ok a, w1) -> reads_as (db_of w1) s -> outcome op s (k a) w1) -> outcome op s (bind c k) w.
Proof.
  intros Hr Hsame Hk. unfold outcome, bind. destruct (c w) as [[a|e] w1]; destruct Hsame as [Hs Hd]; cbn in Hs, Hd.
  - rewrite <- Hs. apply Hk; [done|by rewrite Hd].
  - cbn. split; [done|]. exists s. rewrite Hd. auto.
Qed.

Lemma outcome_now {B} op s (k : Instant -> prog W B) (w : W) :
  reads_as (db_of w) s ->
  (forall now w1, forallb is_ascii now = true -> reads_as (db_of w1) s -> outcome op s (k now) w1) ->
  outcome op s (bind sqlite_now k) w.
Proof.
  intros Hr Hk. pose proof (sqlite_now_law w) as H. apply outcome_step; [done| |].
  - by destruct (sqlite_now w) as [[now|e] w1]; [destruct H|].
  - intros now w1 E. rewrite E in H. destruct H as [_ H]. by apply Hk.
Qed.

Lemma outcome_uuid {B} op s (k : UUIDv7 -> prog W B) (w : W) :
  reads_as (db_of w) s ->
  (forall id w1, forallb is_ascii id = true -> reads_as (db_of w1) s -> outcome op s (k id) w1) ->
  outcome op s (bind freshUuid k) w.
Proof.
  intros Hr Hk. pose proof (freshUuid_law w) as H. apply outcome_step; [done| |].
  - by destruct (freshUuid w) as [[now|e] w1]; [destruct H|].
  - intros now w1 E. rewrite E in H. destruct H as [_ H]. by apply Hk.
Qed.

(** A statement on one table that took its rows to [l], or did nothing. *)
Lemma outcome_table {A} op s t (l : list Row) (c : prog W A) s' (w : W) :
  reads_as (db_of w) s -> effect op s s' ->
  (saved (c w).2 = saved w /\ (db_of (c w).2 = map_set (db_of w) t l
     \/ (exists e, (c w).1 = Throw e) /\ db_of (c w).2 = db_of w)) ->
  reads_as (map_set (db_of w) t l) s' -> outcome op s c w.
Proof.
  intros Hr He [Hs [Hd|[[e Ht] Hd]]] Hr'; split; try exact Hs; rewrite Hd.
  - exists s'. split; [done|]. split; [by right|]. by destruct (c w).1.
  - exists s. split; [done|]. split; [by left|]. by rewrite Ht.
Qed.

(** ** Creating *)

Lemma outcome_ext {A} op s (c c' : prog W A) (w : W) : c w = c' w -> outcome op s c' w -> outcome op s c w.
Proof. unfold outcome. intros E. by rewrite E. Qed.

(** An insert that fits its table adds the entity its row reads as. *)
Lemma outcome_insert {A} op s t ts cols vals (f : Row -> res A) missing id cells id_of m x (c : M mapped W A) (w : W) :
  schema_of sqlite_schema t = Some ts -> List.length cols = List.length vals -> forallb bindable vals = true ->
  forallb is_ascii id = true ->
  (forall r x, f r = Ok x <-> cells r x) -> (forall r x, cells r x -> cell r "id" = SText (id_of x)) ->
  reads_as (db_of w) s -> holds_rows f id_of (ts_columns ts).*1 (table (db_of w) t) m ->
  cells (new_row ts SNull (zip cols vals)) x -> id_of x = id ->
  (forall l, map_get m id = None -> holds_rows f id_of (ts_columns ts).*1 l (map_set m id x) ->
     exists s', effect op s s' /\ reads_as (map_set (db_of w) t l) s') ->
  c w = (do* sq_run (insert_into t cols) vals; read_back t f missing id) w ->
  outcome op s (try_sqlite c) w.
Proof.
  intros Hts Hlen Hb Hid Hf Hcid Hr Hh Hx Hidx Hk Hc.
  pose proof (create_run t ts cols vals f missing id w Hts Hlen Hb (proj2 (ascii_text _ Hid))
    ltac:(by rewrite (Hcid _ _ Hx), Hidx)) as H. cbn zeta in H. rewrite <- Hc in H.
  set (row := new_row ts SNull (zip cols vals)) in *.
  assert (Hnew : table_ok (map_set (db_of w) t (table (db_of w) t ++ [row])) ts = true ->
    exists s', effect op s s' /\ reads_as (map_set (db_of w) t (table (db_of w) t ++ [row])) s').
  { intros Hok. destruct (no_now t ts Hts) as [_ Hname]. unfold table_ok, uniques_ok in Hok. rewrite Hname in Hok.
    apply andb_prop in Hok as [_ Hu]. apply andb_prop in Hu as [Hu _]. unfold table at 1 in Hu. rewrite map_get_set_eq in Hu.
    cbn [given_or] in Hu.
    destruct (holds_insert f cells id_of _ Hf Hcid _ _ _ _ Hh Hx (new_row_columns _ _ _) Hu) as [Hnone Hh'].
    rewrite Hidx in *. by apply Hk. }
  pose proof (caught_law mapSqliteError c w) as Hcl. unfold try_sqlite, outcome.
  destruct (caught mapSqliteError c w) as [[y|e] w']; cbn [fst snd].
  - rewrite Hcl in H. destruct H as (Hs & Hd & Hok & _). split; [done|]. destruct (Hnew Hok) as (s' & He & Hr').
    exists s'. rewrite Hd. auto.
  - destruct Hcl as [e' Hcl]. rewrite Hcl in H. destruct H as (Hs & [Hd|[Hd Hok]]); (split; [done|]).
    + exists s. rewrite Hd. auto.
    + destruct (Hnew Hok) as (s' & He & Hr'). exists s'. rewrite Hd. auto.
Qed.

(** One table of a state replaced. *)
Ltac replace_table :=
  match goal with Hr : reads_as _ _ |- reads_as _ _ =>
    destruct Hr; constructor; unfold table in *; rewrite ?map_get_set_eq, ?map_get_set_ne by done; assumption
  end.

(** An insert: the table, the mapping with its cells, the entity. *)
Ltac inserts t ts f id cells id_of f_ok x :=
  eapply (outcome_insert _ _ t ts _ _ f _ id cells id_of _ x); cycle -1;
  [ reflexivity | reflexivity | reflexivity | | done | exact f_ok | by intros ?? [] | eassumption
  | match goal with Hr : reads_as _ _ |- _ => apply Hr end | | done | ].

Lemma createScope_outcome i s (w : W) :
  reads_as (db_of w) s -> storable (WCreateScope i) = true -> outcome (WCreateScope i) s (sqlite_createScope i) w.
Proof.
  intros Hr Hok. unfold sqlite_createScope. apply outcome_uuid; [done|]. clear w Hr. intros id w Hid Hr.
  apply outcome_now; [done|]. clear w Hr. intros now w Hnow Hr. split_ok Hok.
  destruct (toJson_ok (sci_meta i) ltac:(done)) as (t & -> & Hp & _ & Hw).
  inserts "license_scopes"%string scopes_table mapScope id scope_cells sc_id mapScope_ok
    (mkScope id (sci_slug i) (sci_name i) (sci_meta i) now now).
  - bindables.
  - by split.
  - intros l Hn Hl. eexists. split; [exists id, now; split; [exact Hn|reflexivity]|]. replace_table.
Qed.

Lemma createLicense_outcome i s (w : W) :
  reads_as (db_of w) s -> storable (WCreateLicense i) = true -> outcome (WCreateLicense i) s (sqlite_createLicense i) w.
Proof.
  intros Hr Hok. unfold sqlite_createLicense. apply outcome_uuid; [done|]. clear w Hr. intros id w Hid Hr.
  apply outcome_now; [done|]. clear w Hr. intros now w Hnow Hr. split_ok Hok.
  destruct (toJson_ok (li_meta i) ltac:(done)) as (t & -> & Hp & _ & Hw).
  inserts "licenses"%string licenses_table mapLicense id license_cells l_id mapLicense_ok
    (mkLicense id (li_scope_id i) (li_template_id i) (li_licensable_type i) (li_licensable_id i) (li_license_key i)
       (li_status i) (li_max_usages i) false (li_activated_at i) (li_expires_at i) (li_grace_until i) (li_meta i) now now).
  - bindables. by destruct (li_status i).
  - by split.
  - intros l Hn Hl. eexists. split; [exists id, now, false; split; [exact Hn|reflexivity]|]. replace_table.
Qed.

Lemma createTemplate_outcome i s (w : W) :
  reads_as (db_of w) s -> storable (WCreateTemplate i) = true -> outcome (WCreateTemplate i) s (sqlite_createTemplate i) w.
Proof.
  intros Hr Hok. unfold sqlite_createTemplate. apply outcome_uuid; [done|]. clear w Hr. intros id w Hid Hr.
  apply outcome_now; [done|]. clear w Hr. intros now w Hnow Hr. split_ok Hok.
  destruct (toJson_ok (tpi_entitlements i) ltac:(done)) as (t & -> & Hp & _ & Hw).
  destruct (toJson_ok (tpi_meta i) ltac:(done)) as (t' & -> & Hp' & _ & Hw').
  inserts "license_templates"%string templates_table mapTemplate id template_cells t_id mapTemplate_ok
    (mkTemplate id (tpi_scope_id i) (tpi_parent_id i) (tpi_name i) (tpi_max_usages i) (tpi_trial_duration_sec i)
       (tpi_trial_cooldown_sec i) (tpi_grace_duration_sec i) (tpi_force_online_after_sec i) (tpi_entitlements i)
       (tpi_meta i) now now).
  - bindables.
  - by split.
  - intros l Hn Hl. eexists. split; [exists id, now; split; [exact Hn|reflexivity]|].
    pose proof (ra_parents _ _ Hr) as Hpar.
    assert (parent_ok (mkTemplate id (tpi_scope_id i) (tpi_parent_id i) (tpi_name i) (tpi_max_usages i) (tpi_trial_duration_sec i)
       (tpi_trial_cooldown_sec i) (tpi_grace_duration_sec i) (tpi_force_online_after_sec i) (tpi_entitlements i)
       (tpi_meta i) now now)) as Hnew by (unfold parent_ok; cbn; destruct (tpi_parent_id i); done).
    pose proof (Forall_rows_set parent_ok _ id _ Hpar Hnew). replace_table.
Qed.

Lemma createUsage_outcome i s (w : W) :
  reads_as (db_of w) s -> storable (WCreateUsage i) = true -> outcome (WCreateUsage i) s (sqlite_createUsage i) w.
Proof.
  intros Hr Hok. unfold sqlite_createUsage. apply outcome_uuid; [done|]. clear w Hr. intros id w Hid Hr.
  apply outcome_now; [done|]. clear w Hr. intros now w Hnow Hr. split_ok Hok.
  destruct (toJson_ok (ui_client_meta i) ltac:(done)) as (t & -> & Hp & _ & Hw).
  inserts "license_usages"%string usages_table mapUsage id usage_cells u_id mapUsage_ok
    (mkUsage id (ui_license_id i) (ui_fingerprint i) (ui_status i) (ui_registered_at i) (ui_revoked_at i)
       (ui_registered_at i) (ui_client_meta i) now now).
  - bindables. by destruct (ui_status i).
  - split; try done. by exists (Some (ui_registered_at i)).
  - intros l Hn Hl. eexists. split; [exists id, now; split; [exact Hn|reflexivity]|]. replace_table.
Qed.

Lemma createKey_outcome i s (w : W) :
  reads_as (db_of w) s -> storable (WCreateKey i) = true -> outcome (WCreateKey i) s (sqlite_createKey i) w.
Proof.
  intros Hr Hok. unfold sqlite_createKey. apply outcome_uuid; [done|]. clear w Hr. intros id w Hid Hr.
  apply outcome_now; [done|]. clear w Hr. intros now w Hnow Hr. split_ok Hok.
  destruct (toJson_ok (ki_meta i) ltac:(done)) as (t & -> & Hp & _ & Hw).
  inserts "license_keys"%string keys_table mapKey id key_cells k_id mapKey_ok
    (mkKey id (ki_scope_id i) (ki_kid i) (ki_alg i) (ki_role i) (ki_state i) (ki_public_pem i) (ki_private_pem_enc i)
       (ki_rotated_from i) (ki_rotated_at i) (ki_not_before i) (ki_not_after i) (ki_meta i) now now).
  - bindables; [by destruct (ki_alg i)|by destruct (ki_role i)|by destruct (ki_state i)].
  - by split.
  - intros l Hn Hl. eexists. split; [exists id, now; split; [exact Hn|reflexivity]|]. replace_table.
Qed.

Lemma toJsonNullable_ok o : field_ok (match o with Some v => FJson v | None => FNull end) = true ->
  exists c, toJsonNullable o = Ok c /\ bindable c = true /\ parseJsonNullable c = Ok o.
Proof.
  destruct o as [v|]; intros H; [|by exists SNull]. destruct (toJson_ok v H) as (t & Ht & _ & Hp & Hw).
  exists (SText t). split; [done|]. split; [done|]. cbn. by rewrite Hp.
Qed.

Lemma appendAudit_outcome i s (w : W) :
  reads_as (db_of w) s -> storable (WAppendAudit i) = true -> outcome (WAppendAudit i) s (sqlite_appendAudit i) w.
Proof.
  intros Hr Hok. unfold sqlite_appendAudit. apply outcome_uuid; [done|]. clear w Hr. intros id w Hid Hr. split_ok Hok.
  destruct (toJsonNullable_ok (ai_prior_state i) ltac:(done)) as (c & -> & Hb & Hp).
  destruct (toJsonNullable_ok (ai_new_state i) ltac:(done)) as (c' & -> & Hb' & Hp').
  inserts "audit_logs"%string audit_table mapAudit id audit_cells a_id mapAudit_ok (audit_row id i).
  - bindables. by destruct (resolveActorKind i).
  - split; try done. by left.
  - intros l Hn Hl. eexists. split; [exists id; split; [exact Hn|reflexivity]|]. replace_table.
Qed.

Lemma recordTrial_outcome i s (w : W) :
  reads_as (db_of w) s -> storable (WRecordTrial i) = true -> outcome (WRecordTrial i) s (sqlite_recordTrialIssuance i) w.
Proof.
  intros Hr Hok. unfold sqlite_recordTrialIssuance. apply outcome_uuid; [done|]. clear w Hr. intros id w Hid Hr.
  apply outcome_now; [done|]. clear w Hr. intros now w Hnow Hr. split_ok Hok.
  inserts "trial_issuances"%string trials_table mapTrialIssuance id trial_cells ti_id mapTrialIssuance_ok
    (mkTrial id (tri_template_id i) (tri_fingerprint_hash i) now).
  - bindables.
  - by split.
  - intros l Hn Hl. eexists. split; [exists id, now; split; [exact Hn|reflexivity]|]. replace_table.
Qed.

(** ** Updating *)

(** Every field of a patch is stored, by a parameter that binds. *)
Lemma serialise_ok l : forallb field_ok (map snd l) = true ->
  exists vs, serialise_all l = Ok vs /\ forallb bindable vs = true.
Proof.
  induction l as [|[c v] l IH]; intros H; [by exists []|]. cbn in H. apply andb_prop in H as [Hv H].
  destruct (IH H) as (vs & Hs & Hb). assert (exists x, serialised v = Ok x /\ bindable x = true) as (x & Hx & Hbx).
  { destruct v as [t| |z|j]; cbn in Hv |- *; eauto. destruct (toJson_ok j Hv) as (t & -> & _ & _ & Hw). eauto. }
  exists (x :: vs). cbn. rewrite Hx, Hs. cbn. by rewrite Hbx, Hb.
Qed.

Lemma present_keys entries c : c ∈ (present_entries entries).*1 -> c ∈ entries.*1.
Proof.
  intros Hin. destruct (decide (c ∈ entries.*1)) as [|H]; [done|]. by apply present_without in H.
Qed.

(** What the keys of a patch may be. *)
Definition patch_keys (entries : list (string * option Field)) : Prop :=
  NoDup entries.*1 /\ ("updated_at"%string ∉ entries.*1) /\ ("id"%string ∉ entries.*1).

Section Patching.
Context {A : Type} (op : WriteOp) (s : State) (t : string) (ts : TableSchema) (entries : list (string * option Field))
  (f : Row -> res A) (missing : exn) (id : UUIDv7) (cells : Row -> A -> Prop) (id_of : A -> UUIDv7)
  (m : list (UUIDv7 * A)) (next : Instant -> A -> A).
Abbreviation columns := (ts_columns ts).*1 (only parsing).
Hypothesis Hts : schema_of sqlite_schema t = Some ts.
Hypothesis keys_ok : patch_keys entries.
Hypothesis fields_ok : forallb field_ok (map snd (present_entries entries)) = true.
Hypothesis id_ok : well_formed16 id = true.
Hypothesis f_ok : forall r x, f r = Ok x <-> cells r x.
Hypothesis cells_id : forall r x, cells r x -> cell r "id" = SText (id_of x).
Hypothesis holds : forall db, reads_as db s -> holds_rows f id_of columns (table db t) m.
Hypothesis next_cells : forall now vs r x, serialise_all (present_entries entries) = Ok vs -> cells r x -> r.*1 = columns ->
  cells (set_cells SNull (bound_sets (present_entries entries) vs now) r) (next now x).
Hypothesis next_id : forall now x, id_of (next now x) = id_of x.
Hypothesis same_rows : forall db l, reads_as db s -> holds_rows f id_of columns l m -> reads_as (map_set db t l) s.
Hypothesis new_rows : forall db now cur l, reads_as db s -> map_get m id = Some cur ->
  holds_rows f id_of columns l (map_set m id (next now cur)) -> exists s', effect op s s' /\ reads_as (map_set db t l) s'.

(** The statement and its reading back, behind a prefix [c] that only reads. *)
Lemma outcome_statement vs now (c : M mapped W A) (w w1 : W) :
  serialise_all (present_entries entries) = Ok vs -> forallb bindable vs = true -> forallb is_ascii now = true ->
  reads_as (db_of w) s -> same_data w w1 ->
  c w = sqlite_write_patch t f missing now id (map (fun kv => (kv.1, SetParam tt)) (present_entries entries), vs) w1 ->
  outcome op s (try_sqlite c) w.
Proof.
  intros Hvs Hb Hnow Hr [Hs1 Hd1] Hc. rewrite <- Hd1 in Hr. destruct keys_ok as (_ & _ & Hi).
  pose proof (update_run t ts (present_entries entries) vs f missing now id w1 Hts (serialise_length _ _ Hvs) Hb
    (proj2 (ascii_text _ Hnow)) id_ok) as H. cbn zeta in H. rewrite <- Hc in H.
  set (upd := set_cells SNull (bound_sets (present_entries entries) vs now)) in *.
  set (db' := map_set (db_of w1) t _) in H.
  assert (Hkeys : forallb (fun kv : string * Field => negb (String.eqb kv.1 "id")) (present_entries entries) = true).
  { rewrite forallb_Forall, Forall_forall. intros kv Hin. apply negb_true_iff, String.eqb_neq. intros E. apply Hi.
    rewrite <- E. apply present_keys. exact (list_elem_of_fmap_2 fst _ _ Hin). }
  specialize (H Hkeys).
  pose proof (holds_patch f cells id_of _ f_ok cells_id _ _ upd (next now) id (holds _ Hr)
    (fun r x Hx Hcols => next_cells now vs r x Hvs Hx Hcols) (fun r => set_cells_columns _ _ r) (next_id now)) as Hp.
  assert (Hdb : map_get m id = None /\ reads_as db' s \/ exists s', effect op s s' /\ reads_as db' s').
  { destruct (map_get m id) as [cur|] eqn:E; [right; by eapply new_rows|left]. split; [done|]. by apply same_rows. }
  pose proof (caught_law mapSqliteError c w) as Hcl. unfold try_sqlite, outcome.
  destruct (caught mapSqliteError c w) as [[y|e] w']; cbn [fst snd].
  - rewrite Hcl in H. destruct H as (Hs & Hd & _ & r & Hin & Hhit & _). split; [congruence|].
    destruct (holds_hit f cells id_of _ f_ok cells_id _ _ _ _ (holds _ Hr) Hin Hhit) as (cur & Hcur & _).
    destruct Hdb as [[Hnone _]|(s' & He & Hr')]; [congruence|]. exists s'. rewrite Hd. auto.
  - destruct Hcl as [e' Hcl]. rewrite Hcl in H. destruct H as (Hs & [Hd|[Hd Hok']]); (split; [congruence|]).
    + exists s. rewrite Hd. auto.
    + destruct Hdb as [[_ Hr']|(s' & He & Hr')]; [exists s|exists s']; rewrite Hd; auto.
Qed.

Lemma outcome_patch (w : W) : reads_as (db_of w) s -> outcome op s (sqlite_update t f missing id entries) w.
Proof.
  intros Hr. destruct (serialise_ok _ fields_ok) as (vs & Hvs & Hb). unfold sqlite_update.
  apply (outcome_ext _ _ _ (let* now := sqlite_now in try_sqlite (sqlite_write_patch t f missing now id
    (map (fun kv : string * Field => (kv.1, SetParam tt)) (present_entries entries), vs)))).
  { unfold bind at 1, lift, sqlite_buildUpdateSet. by rewrite Hvs. }
  apply outcome_now; [done|]. clear w Hr. intros now w Hnow Hr. by eapply (outcome_statement vs now _ w w).
Qed.
End Patching.

Lemma entry_ok entries c v :
  forallb field_ok (map snd (present_entries entries)) = true -> entry_at entries c = Some v -> field_ok v = true.
Proof.
  induction entries as [|[k [x|]] l IH]; cbn; intros H E; [done| |].
  - apply andb_prop in H as [Hx H]. destruct (String.eqb k c); [by injection E as <-|by apply IH].
  - destruct (String.eqb k c); [done|by apply IH].
Qed.

(** What a patch makes of a cell. *)
Section Patched.
Variables (entries : list (string * option Field)) (vs : list SqlVal) (now : Instant) (r : Row).
Hypothesis keys_ok : patch_keys entries.
Hypothesis fields_ok : forallb field_ok (map snd (present_entries entries)) = true.
Hypothesis serialised_ok : serialise_all (present_entries entries) = Ok vs.
Let upd := set_cells SNull (bound_sets (present_entries entries) vs now) r.

Lemma cell_updated : "updated_at"%string ∈ r.*1 -> cell upd "updated_at" = SText now.
Proof. intros H. unfold upd. rewrite cell_set_cells by done. rewrite given_updated; [done|]. apply keys_ok. Qed.

Lemma cell_kept c v : c ∈ r.*1 -> c <> "updated_at"%string -> entry_at entries c = None -> cell r c = v -> cell upd c = v.
Proof.
  intros Hc Hne He <-. unfold upd. rewrite cell_set_cells by done.
  pose proof (given_entry entries vs now c (proj1 keys_ok) serialised_ok Hne) as H. rewrite He in H. by rewrite H.
Qed.

Lemma cell_patched c field : c ∈ r.*1 -> c <> "updated_at"%string -> entry_at entries c = Some field ->
  serialised field = Ok (cell upd c).
Proof.
  intros Hc Hne He. unfold upd. rewrite cell_set_cells by done.
  pose proof (given_entry entries vs now c (proj1 keys_ok) serialised_ok Hne) as H. rewrite He in H.
  destruct H as (x & -> & ->). done.
Qed.

(** A field stored as it is, through [store]. *)
Lemma cell_field {B} (p : option B) (store : B -> SqlVal) (as_field : B -> Field) c old :
  c ∈ r.*1 -> c <> "updated_at"%string -> entry_at entries c = as_field <$> p ->
  (forall b, serialised (as_field b) = Ok (store b)) -> cell r c = store old -> cell upd c = store (patched p old).
Proof.
  intros Hc Hne He Hs Hold. destruct p as [b|]; cbn in He |- *; [|by apply cell_kept].
  pose proof (cell_patched c _ Hc Hne He) as H. rewrite Hs in H. by injection H.
Qed.

Lemma cell_json p c old :
  c ∈ r.*1 -> c <> "updated_at"%string -> entry_at entries c = FJson <$> p ->
  parseJson (cell r c) = Ok old -> parseJson (cell upd c) = Ok (patched p old).
Proof.
  intros Hc Hne He Hold. destruct p as [b|]; cbn in He |- *; [|by rewrite (cell_kept c (cell r c))].
  pose proof (cell_patched c _ Hc Hne He) as H. cbn in H.
  destruct (toJson_ok b (entry_ok entries c (FJson b) fields_ok He)) as (t & Ht & Hparse & _).
  rewrite Ht in H. by injection H as <-.
Qed.
End Patched.

(** The cells of a patched row, one by one. *)
Ltac column := match goal with Hc : _.*1 = _ |- _ ∈ _.*1 => rewrite Hc; by_decision end.
Ltac patched_cells Hk Hv Hs :=
  first
  [ eapply (cell_updated _ _ _ _ Hk); column
  | eapply (cell_json _ _ _ _ Hk Hv Hs); [column|done|reflexivity|assumption]
  | eapply (cell_field _ _ _ _ Hk Hs _ (fun o => nullable_text o) nullable_text_field); [column|done|reflexivity|by intros []|assumption]
  | eapply (cell_field _ _ _ _ Hk Hs _ nullable_num nullable_int_field); [column|done|reflexivity|by intros []|assumption]
  | eapply (cell_field _ _ _ _ Hk Hs _ SText FText); [column|done|reflexivity|done|assumption]
  | eapply (cell_field _ _ _ _ Hk Hs _ SInt FInt); [column|done|reflexivity|done|assumption]
  | eapply (cell_kept _ _ _ _ Hk Hs); [column|done|reflexivity|assumption] ].


Ltac patches Hok Hr entries ts cells id_of m next f_ok :=
  unfold storable in Hok; cbn [op_fields forallb] in Hok; apply andb_prop in Hok; destruct Hok as [Hid Hok];
  assert (Hk : patch_keys entries) by nodup;
  eapply (outcome_patch _ _ _ ts _ _ _ _ cells id_of m next);
  [ done | done | done | done | exact f_ok | by intros ?? [] | by intros ? [] | | done
  | clear Hr; intros db l Hr Hl; replace_table | clear Hr; intros db now cur l Hr Hcur Hl | done ].

Lemma updateScope_outcome id p s (w : W) :
  reads_as (db_of w) s -> storable (WUpdateScope id p) = true -> outcome (WUpdateScope id p) s (sqlite_updateScope id p) w.
Proof.
  intros Hr Hok. patches Hok Hr (scope_entries p) scopes_table scope_cells sc_id (s_scopes s) (fun now x => patch_scope x p now) mapScope_ok.
  - intros now vs r x Hs [] Hc. constructor; patched_cells Hk Hok Hs.
  - eexists. split; [exists cur, now; split; [exact Hcur|reflexivity]|]. replace_table.
Qed.

Lemma updateLicense_outcome id p s (w : W) :
  reads_as (db_of w) s -> storable (WUpdateLicense id p) = true -> outcome (WUpdateLicense id p) s (sqlite_updateLicense id p) w.
Proof.
  intros Hr Hok. patches Hok Hr (license_entries p) licenses_table license_cells l_id (s_licenses s)
    (fun now x => patch_license x p now) mapLicense_ok.
  - intros now vs r x Hs [] Hc. constructor.
    9: { cbn [patch_license l_is_trial]. rewrite (cell_kept _ _ now _ Hk Hs _ (cell r "is_trial")); [done|column|done|done|done]. }
    7: { eapply (cell_field _ _ _ _ Hk Hs _ (fun x => SText (status_str x)) (fun x => FText (status_str x)));
         [column|done|reflexivity|done|assumption]. }
    all: patched_cells Hk Hok Hs.
  - eexists. split; [exists cur, now; split; [exact Hcur|reflexivity]|]. replace_table.
Qed.

Lemma updateUsage_outcome id p s (w : W) :
  reads_as (db_of w) s -> storable (WUpdateUsage id p) = true -> outcome (WUpdateUsage id p) s (sqlite_updateUsage id p) w.
Proof.
  intros Hr Hok. patches Hok Hr (usage_entries p) usages_table usage_cells u_id (s_usages s)
    (fun now x => patch_usage x p now) mapUsage_ok.
  - intros now vs r x Hs [H1 H2 H3 H4 H5 H6 (o & Ho & Hseen) H8 H9 H10] Hc. constructor.
    7: { cbn [patch_usage u_last_seen_at u_registered_at]. destruct (up_last_seen_at p) as [t|] eqn:E.
      - exists (Some t). split; [|done]. change (nullable_text (Some t)) with (SText t).
        change t with (patched (Some t) t) at 1.
        pose proof (cell_patched (usage_entries p) vs now r Hk Hs "last_seen_at" (FText t) ltac:(column) ltac:(done)) as Hx.
        cbn [entry_at usage_entries] in Hx. rewrite E in Hx. specialize (Hx eq_refl). by injection Hx.
      - exists o. split; [|done]. apply (cell_kept _ _ now _ Hk Hs); [column|done| |done]. cbn. by rewrite E. }
    4: { eapply (cell_field _ _ _ _ Hk Hs _ (fun x => SText (usage_status_str x)) (fun x => FText (usage_status_str x)));
         [column|done|reflexivity|done|assumption]. }
    all: patched_cells Hk Hok Hs.
  - eexists. split; [exists cur, now; split; [exact Hcur|reflexivity]|]. replace_table.
Qed.

Lemma updateKey_outcome id p s (w : W) :
  reads_as (db_of w) s -> storable (WUpdateKey id p) = true -> outcome (WUpdateKey id p) s (sqlite_updateKey id p) w.
Proof.
  intros Hr Hok. patches Hok Hr (key_entries p) keys_table key_cells k_id (s_keys s)
    (fun now x => patch_key x p now) mapKey_ok.
  - intros now vs r x Hs [] Hc. constructor.
    6: { eapply (cell_field _ _ _ _ Hk Hs _ (fun x => SText (key_state_str x)) (fun x => FText (key_state_str x)));
         [column|done|reflexivity|done|assumption]. }
    all: patched_cells Hk Hok Hs.
  - eexists. split; [exists cur, now; split; [exact Hcur|reflexivity]|]. replace_table.
Qed.

(** *** The parent chain *)

Lemma of_lib_data {A} (r : res A) (w : W) : same_data w (of_lib (lift r) w).2.
Proof. unfold of_lib, lift. by destruct r. Qed.

Lemma sq_get_data what src q cs (w : W) : binds q cs -> forallb bindable q.2 = true ->
  same_data w (sq_get (Select what src q.1 [] None) q.2 w).2.
Proof.
  intros Hq Hb. unfold sq_get, bind. pose proof (sq_select what src q cs [] None w Hq Hb) as H.
  destruct (sq_all _ _ w) as [[rows|e] w']; destruct H as [H1 H2]; [exact H1|exact H2].
Qed.

Lemma same_data_refl (w : W) : same_data w w.
Proof. done. Qed.

(** One hop answers a row of the table. *)
Lemma parent_row c (w : W) : well_formed16 c = true ->
  let '(r, w') := sq_get (Select (Columns [col "parent_id"]) (From "license_templates") [CEq (col "id") tt] [] None) [SText c] w in
  same_data w w' /\ match r with
    | Ok (Some r) => exists r', r' ∈ table (db_of w) "license_templates" /\ cell r "parent_id" = cell r' "parent_id"
    | _ => True
    end.
Proof.
  intros Hc. unfold sq_get, bind.
  pose proof (sq_select (Columns [col "parent_id"]) (From "license_templates") ([CEq (col "id") tt], [SText c])
    [CEq (col "id") (SText c)] [] None w ltac:(done) ltac:(cbn; by rewrite Hc)) as H. cbn [fst snd] in H.
  destruct (sq_all _ _ w) as [[rs|e] w']; cbn; [|by destruct H]. destruct H as [Hs (envs & Hp & _ & ->)]. split; [done|].
  cbn [limited_to source_rows] in *. destruct envs as [|e envs]; [done|]. cbn [map head].
  assert (He : e ∈ List.filter (where_holds [CEq (col "id") (SText c)]) (map (fun r => [(""%string, r)]) (table (db_of w) "license_templates")))
    by (rewrite <- Hp; left).
  apply Prelude.elem_filter in He as [He _]. apply list_elem_of_fmap in He as (r & -> & Hr). by exists r.
Qed.

(** The walk only reads. *)
Lemma walk_data hops visited cursor forbidden s (w : W) :
  reads_as (db_of w) s -> match cursor with Some c => well_formed16 c = true | None => True end ->
  same_data w (walk_sqlite hops visited cursor forbidden w).2.
Proof.
  revert visited cursor w. induction hops as [|hops IH]; intros visited cursor w Hr Hc; [apply same_data_refl|].
  destruct cursor as [c|]; [|apply same_data_refl]. cbn [walk_sqlite].
  destruct (str_eqb c forbidden); [apply same_data_refl|]. unfold bind at 1.
  pose proof (parent_row c w Hc) as H. destruct (sq_get _ _ w) as [[[r|]|e] w1]; destruct H as [Hs H]; [|exact Hs..].
  destruct H as (r' & Hin & Hcell). unfold bind, of_lib, lift. rewrite Hcell.
  pose proof (ra_templates _ _ Hr) as (Hm & _). destruct (map_rows_inv _ _ _ Hm) as (ps & Hp & Hps & Hxs).
  cbn in Hps. rewrite Hps in Hin. apply list_elem_of_fmap in Hin as ([r0 x] & -> & Hin).
  unfold reading in Hp. rewrite Forall_forall in Hp. pose proof (Hp _ Hin) as Hx. apply mapTemplate_ok in Hx.
  cbn [fst snd] in *. rewrite (proj2 (as_text_or_null_ok _ _) (tc_parent_id _ _ Hx)).
  eapply same_data_trans; [exact Hs|]. apply IH.
  - by rewrite (proj2 Hs).
  - pose proof (ra_parents _ _ Hr) as Hpar. rewrite Forall_forall in Hpar. apply (Hpar x). rewrite Hxs.
    exact (list_elem_of_fmap_2 snd _ _ Hin).
Qed.

Lemma outcome_thrown {A} op s (c : M mapped W A) (w w1 : W) e :
  reads_as (db_of w) s -> same_data w w1 -> c w = (Throw e, w1) -> outcome op s (try_sqlite c) w.
Proof.
  intros Hr [H1 H2] Hc. pose proof (caught_law mapSqliteError c w) as H. unfold try_sqlite, outcome.
  destruct (caught mapSqliteError c w) as [[y|e'] w']; cbn [fst snd]; [congruence|]. destruct H as [e'' H].
  rewrite Hc in H. injection H as _ <-. split; [done|]. exists s. rewrite H2. auto.
Qed.

Lemma updateTemplate_outcome id p s (w : W) :
  reads_as (db_of w) s -> storable (WUpdateTemplate id p) = true -> outcome (WUpdateTemplate id p) s (sqlite_updateTemplate id p) w.
Proof.
  intros Hr Hok. unfold sqlite_updateTemplate. apply outcome_now; [done|]. clear w Hr. intros now w Hnow Hr.
  unfold storable in Hok. cbn [op_fields forallb] in Hok. apply andb_prop in Hok as [Hid Hok].
  assert (Hk : patch_keys (template_entries p)) by nodup.
  assert (Hparent : forall q, tp_parent_id p = Some (Some q) -> well_formed16 q = true).
  { intros q E. pose proof (entry_ok (template_entries p) "parent_id" (FText q) Hok) as H. apply H. cbn. by rewrite E. }
  destruct (serialise_ok _ Hok) as (vs & Hvs & Hb).
  set (walk := match tp_parent_id p with Some (Some parent) => _ | _ => _ end).
  assert (Hwalk : same_data w (walk w).2).
  { unfold walk. destruct (tp_parent_id p) as [[q|]|]; [|apply same_data_refl..]. unfold bind, walkSqliteParentChain.
    pose proof (walk_data 64 [] (Some q) id s w Hr (Hparent q eq_refl)) as H.
    destruct (walk_sqlite _ _ _ _ w) as [[[chain|]|e] w1]; exact H. }
  destruct (walk w) as [[u|e] w1] eqn:Ew; cbn [snd] in Hwalk.
  - eapply (outcome_statement _ _ "license_templates" templates_table (template_entries p) _ _ id template_cells t_id (s_templates s)
      (fun now x => patch_template x p now)) with (vs := vs) (now := now) (w1 := w1);
      [ done | done | done | exact mapTemplate_ok | by intros ?? [] | by intros ? [] | | done | | | done | done | done | done | done | ].
    + intros now' vs' r x Hs [] Hc. constructor; patched_cells Hk Hok Hs.
    + clear Hr. intros db l Hr Hl. replace_table.
    + clear Hr. intros db now' cur l Hr Hcur Hl. eexists. split; [exists cur, now'; split; [exact Hcur|reflexivity]|].
      pose proof (ra_parents _ _ Hr) as Hpar.
      assert (Forall parent_ok (rows (map_set (s_templates s) id (patch_template cur p now')))).
      { apply Forall_rows_set; [done|]. rewrite Forall_forall in Hpar. pose proof (Hpar cur (map_get_rows _ _ _ Hcur)) as Hq.
        unfold parent_ok in *. cbn. destruct (tp_parent_id p) as [[q|]|]; [by apply Hparent|done|exact Hq]. }
      replace_table.
    + unfold bind at 1. rewrite Ew. unfold bind, of_lib, lift, sqlite_buildUpdateSet. by rewrite Hvs.
  - eapply (outcome_thrown _ _ _ w w1 e); [done|done|]. unfold bind at 1. by rewrite Ew.
Qed.

Lemma deleteTrial_outcome id s (w : W) :
  reads_as (db_of w) s -> storable (WDeleteTrial id) = true -> outcome (WDeleteTrial id) s (sqlite_deleteTrialIssuance id) w.
Proof.
  intros Hr Hok. unfold storable in Hok. cbn in Hok. rewrite andb_true_r in Hok.
  pose proof (sq_run_law (DeleteFrom "trial_issuances" "id" tt) [SText id] w eq_refl ltac:(cbn; by rewrite Hok)) as H.
  unfold sqlite_deleteTrialIssuance, outcome, uncaught. destruct (sq_run _ _ w) as [[u|e] w']; cbn.
  - destruct H as (Hs & bound & now & ans & Hb & Ha). cbn in Hb. injection Hb as <-. split; [done|].
    inversion Ha as [| | | |? ts ? ? db' Hts _ Hdb _|]; subst. injection Hts as <-.
    exists (set_trials (map_delete (s_trialIssuances s) id) s). rewrite Hdb. split; [|by split; [right|]].
    pose proof (holds_delete mapTrialIssuance trial_cells ti_id _ mapTrialIssuance_ok ltac:(by intros ?? []) _ _ id (ra_trials _ _ Hr)).
    replace_table.
  - destruct H as [H1 H2]. destruct e; cbn; (split; [done|]); exists s; rewrite H2; auto.
Qed.

(** ** Every write *)

Lemma outcome_through {A} op s (c : prog W A) (w : W) : outcome op s c w -> outcome op s (do* c; ret tt) w.
Proof. unfold outcome, bind. destruct (c w) as [[a|e] w']; exact (fun H => H). Qed.

Lemma sqlite_write_outcome {TO : TxObject W} op s (w : W) :
  reads_as (db_of w) s -> storable op = true -> outcome op s (exec_write op) w.
Proof.
  intros Hr Hok. destruct op; try (apply outcome_through).
  - by apply createLicense_outcome.
  - by apply updateLicense_outcome.
  - by apply createScope_outcome.
  - by apply updateScope_outcome.
  - by apply createTemplate_outcome.
  - by apply updateTemplate_outcome.
  - by apply createUsage_outcome.
  - by apply updateUsage_outcome.
  - by apply createKey_outcome.
  - by apply updateKey_outcome.
  - by apply appendAudit_outcome.
  - by apply recordTrial_outcome.
  - by apply deleteTrial_outcome.
Qed.
End Operations.
