(* ===== verification/SqliteContract.v ===== *)
(** * SqliteContract: the SQLite adapter as a storage

    Over any engine that keeps the laws of [Sql.SqlLaws], the adapter of
    [src/typescript/src/storage/sqlite/adapter.ts] reads its tables as the
    memory adapter reads its maps, does what the contract asks of a write, and
    runs a transaction whole or not at all. *)

From S2P Require Import Prelude Errors JsNum Text Json Types Id Cursor Storage JsonLib Http Stringify Memory MemoryLaws SqlErrors Sql Sqlite SqlProps SqliteProps SqliteWrites.
From stdpp Require Import strings.
#[local] Open Scope Z_scope.

(** ** The reading calls of the interface *)

Inductive ReadOp : Type -> Type :=
| RLicense (id : UUIDv7) : ReadOp (option License)
| RLicenseByKey (k : jsstr) : ReadOp (option License)
| RLicenses (f : LicenseFilter) (page : PageRequest) : ReadOp (Page License)
| RByLicensable (q : FindByLicensableQuery) : ReadOp (list License)
| RScope (id : UUIDv7) : ReadOp (option LicenseScope)
| RScopeBySlug (slug : jsstr) : ReadOp (option LicenseScope)
| RScopes (f : LicenseScopeFilter) (page : PageRequest) : ReadOp (Page LicenseScope)
| RTemplate (id : UUIDv7) : ReadOp (option LicenseTemplate)
| RTemplates (f : LicenseTemplateFilter) (page : PageRequest) : ReadOp (Page LicenseTemplate)
| RUsage (id : UUIDv7) : ReadOp (option LicenseUsage)
| RUsages (f : LicenseUsageFilter) (page : PageRequest) : ReadOp (Page LicenseUsage)
| RKey (id : UUIDv7) : ReadOp (option LicenseKey)
| RKeyByKid (kid : jsstr) : ReadOp (option LicenseKey)
| RKeys (f : LicenseKeyFilter) (page : PageRequest) : ReadOp (Page LicenseKey)
| RAudit (id : UUIDv7) : ReadOp (option AuditLogEntry)
| RAuditLog (f : AuditLogFilter) (page : PageRequest) : ReadOp (Page AuditLogEntry)
| RTrial (q : TrialIssuanceLookup) : ReadOp (option TrialIssuance).

Definition exec_read {W} `{Storage W} {A} (op : ReadOp A) : prog W A :=
  match op with
  | RLicense id => getLicense id
  | RLicenseByKey k => getLicenseByKey k
  | RLicenses f page => listLicenses f page
  | RByLicensable q => findLicensesByLicensable q
  | RScope id => getScope id
  | RScopeBySlug slug => getScopeBySlug slug
  | RScopes f page => listScopes f page
  | RTemplate id => getTemplate id
  | RTemplates f page => listTemplates f page
  | RUsage id => getUsage id
  | RUsages f page => listUsages f page
  | RKey id => getKey id
  | RKeyByKid kid => getKeyByKid kid
  | RKeys f page => listKeys f page
  | RAudit id => getAudit id
  | RAuditLog f page => listAudit f page
  | RTrial q => findTrialIssuance q
  end.

(** What a read may ask for: texts that bind; a status filter that is not
    empty, which this adapter takes for no filter; time bounds in ASCII. *)
Definition readable {A} (op : ReadOp A) : Prop :=
  match op with
  | RLicense s | RLicenseByKey s | RScope s | RScopeBySlug s | RTemplate s | RUsage s | RKey s | RKeyByKid s | RAudit s =>
      well_formed16 s = true
  | RLicenses f page => page_ok page /\ lf_status f <> Some [] /\ forallb bindable (buildLicenseWhere f).2 = true
  | RByLicensable q => well_formed16 (fq_type q) = true /\ well_formed16 (fq_id q) = true
      /\ match fq_scope_id q with Some (Some x) => well_formed16 x = true | _ => True end
  | RScopes f page => page_ok page /\ forallb bindable (scope_where f).2 = true
  | RTemplates f page => page_ok page /\ forallb bindable (template_where f).2 = true
  | RUsages f page => page_ok page /\ uf_status f <> Some [] /\ forallb bindable (usage_where f).2 = true
  | RKeys f page => page_ok page /\ forallb bindable (key_where f).2 = true
  | RAuditLog f page => page_ok page /\ bounds_ok f /\ forallb bindable (sqlite_audit_where f).2 = true
  | RTrial q => well_formed16 (tl_fingerprint_hash q) = true
      /\ match tl_template_id q with Some t => well_formed16 t = true | None => True end
  end.

Section Reads.
Context {NT : NumberText} {JH : JsonHost} {W : Type} {HC : HasClock W} {HE : HasEntropy W} {EN : SqlEngine W unit}
  {SL : SqlLaws W unit sqlite_schema}.

(** ** Lookups *)

(** One row of a table that matches, if there is one. *)
Lemma get_one {A} t (f : Row -> res A) (cells : Row -> A -> Prop) id_of columns m q cs order limit (p : A -> bool) (w : W) :
  (forall r x, f r = Ok x <-> cells r x) -> holds_rows f id_of columns (table (db_of w) t) m ->
  binds q cs -> forallb bindable q.2 = true -> limit = None \/ limit = Some 1 ->
  (forall r x, cells r x -> where_holds cs (env_of "" r) = p x) ->
  let '(r, w') := sq_get (Select Star (From t) q.1 order limit) q.2 w in
  same_data w w' /\ match r with
    | Ok None => forall x, x ∈ rows m -> p x = false
    | Ok (Some r) => exists x, f r = Ok x /\ x ∈ rows m /\ p x = true
    | Throw e => exists t, e = inr t
    end.
Proof.
  intros Hf (Hm & _ & _) Hq Hb Hl Hw. unfold sq_get, bind.
  pose proof (sq_select Star (From t) q cs order limit w Hq Hb) as H.
  destruct (sq_all _ _ w) as [[rs|e] w']; [|by destruct H as [[t' ->] H]; split; [|exists t']].
  destruct H as [Hs (envs & Hp & _ & ->)]. unfold ret. split; [exact Hs|]. cbn [source_rows] in Hp.
  destruct (map_rows_inv _ _ _ Hm) as (ps & Hr & Ht & Hxs). unfold reading in Hr. rewrite Forall_forall in Hr. rewrite Ht in Hp.
  assert (Hhead : head (map (project Star) (limited_to limit envs)) = project Star <$> head envs).
  { destruct Hl as [->| ->]; cbn [limited_to]; destruct envs as [|e envs]; try done. }
  rewrite Hhead. destruct envs as [|e envs]; cbn.
  - intros x Hx. rewrite Hxs in Hx. apply list_elem_of_fmap in Hx as ([r y] & -> & Hin). cbn.
    rewrite <- (Hw r y) by (apply Hf; exact (Hr _ Hin)). apply not_true_iff_false. intros E.
    assert (Hbad : env_of "" r ∈ List.filter (where_holds cs) (map (fun r => [(""%string, r)]) (map fst ps))); [|by rewrite <- Hp in Hbad; apply not_elem_of_nil in Hbad].
    apply Prelude.elem_filter. split; [|exact E]. change (env_of "" r) with ((fun r => [(""%string, r)]) r). apply list_elem_of_fmap_2.
    exact (list_elem_of_fmap_2 fst _ _ Hin).
  - assert (He : e ∈ List.filter (where_holds cs) (map (fun r => [(""%string, r)]) (map fst ps))) by (rewrite <- Hp; left).
    apply Prelude.elem_filter in He as [He Hc]. apply list_elem_of_fmap in He as (r & -> & Hin).
    apply list_elem_of_fmap in Hin as ([r' x] & -> & Hin). exists x. cbn. split; [exact (Hr _ Hin)|].
    split; [rewrite Hxs; exact (list_elem_of_fmap_2 snd _ _ Hin)|]. rewrite <- (Hw r' x); [exact Hc|]. apply Hf. exact (Hr _ Hin).
Qed.

(** Two rows with the same value of a unique key are one row. *)
Definition at_most_one {A} (p : A -> bool) (l : list A) : Prop := forall x y, x ∈ l -> y ∈ l -> p x = true -> p y = true -> x = y.

Lemma find_the_one {A} (p : A -> bool) l x : at_most_one p l -> x ∈ l -> p x = true -> List.find p l = Some x.
Proof.
  intros Hu Hx Hp. destruct (List.find p l) as [y|] eqn:E.
  - apply find_some in E as [Hy Hpy]. f_equal. apply Hu; try done. by apply list_elem_of_In.
  - pose proof (find_none _ _ E x (proj1 (list_elem_of_In _ _) Hx)). congruence.
Qed.

Lemma find_no_one {A} (p : A -> bool) l : (forall x, x ∈ l -> p x = false) -> List.find p l = None.
Proof.
  intros H. destruct (List.find p l) as [y|] eqn:E; [|done]. apply find_some in E as [Hy Hpy].
  rewrite H in Hpy; [done|]. by apply list_elem_of_In.
Qed.

Lemma unique_one {A} id_of (key : A -> jsstr) m v : keyed id_of m -> unique_on (fun x => Some (key x)) m ->
  at_most_one (fun x => str_eqb (key x) v) (rows m).
Proof.
  intros Hk Hu x y Hx Hy Hpx Hpy. unfold str_eqb in *. bool_prop. pose proof (rows_map_get id_of m x Hk Hx) as Gx.
  pose proof (rows_map_get id_of m y Hk Hy) as Gy. rewrite (Hu _ _ _ _ v Gx Gy) in Gx; congruence.
Qed.

Lemma id_one {A} id_of (m : list (UUIDv7 * A)) v : keyed id_of m -> at_most_one (fun x => str_eqb (id_of x) v) (rows m).
Proof.
  intros Hk x y Hx Hy Hpx Hpy. unfold str_eqb in *. bool_prop. pose proof (rows_map_get id_of m x Hk Hx) as Gx.
  pose proof (rows_map_get id_of m y Hk Hy) as Gy. congruence.
Qed.

Lemma find_by_id {A} id_of (m : list (UUIDv7 * A)) v : keyed id_of m -> List.find (fun x => str_eqb (id_of x) v) (rows m) = map_get m v.
Proof.
  intros Hk. destruct (map_get m v) as [x|] eqn:E.
  - apply find_the_one; [by apply id_one|by eapply map_get_rows|]. apply bool_decide_eq_true. by eapply keyed_get.
  - apply find_no_one. intros x Hx. apply bool_decide_eq_false. intros <-. by rewrite (rows_map_get id_of m x Hk Hx) in E.
Qed.

Lemma find_answers {A} t c (f : Row -> res A) (cells : Row -> A -> Prop) id_of columns m (key : A -> jsstr) v (w : W) :
  (forall r x, f r = Ok x <-> cells r x) -> holds_rows f id_of columns (table (db_of w) t) m ->
  (forall r x, cells r x -> cell r c = SText (key x)) -> well_formed16 v = true ->
  at_most_one (fun x => str_eqb (key x) v) (rows m) ->
  answers (sqlite_find t c f v) w (List.find (fun x => str_eqb (key x) v) (rows m)).
Proof.
  intros Hf Hh Hc Hv Hu. unfold answers, sqlite_find, uncaught, bind.
  pose proof (get_one t f cells id_of columns m ([CEq (col c) tt], [SText v]) [CEq (col c) (SText v)] [] None
    (fun x => str_eqb (key x) v) w Hf Hh ltac:(done) ltac:(cbn; by rewrite Hv) ltac:(by left)) as H.
  cbn [fst snd] in H. change (Select Star (From t) [CEq (col c) tt] [] None) with (select_by t c) in H.
  destruct (sq_get (select_by t c) [SText v] w) as [[[r|]|e] w'].
  - destruct H as [Hs (x & Hx & Hin & Hp)].
    { intros r0 x0 Hx0. unfold where_holds. cbn. by rewrite (Hc _ _ Hx0), andb_true_r. }
    unfold of_lib, lift, ret. rewrite Hx. split; [done|]. symmetry. f_equal. by apply find_the_one.
  - destruct H as [Hs Hnone]. { intros r0 x0 Hx0. unfold where_holds. cbn. by rewrite (Hc _ _ Hx0), andb_true_r. }
    split; [done|]. symmetry. by apply find_no_one.
  - destruct H as [Hs [t' ->]]; [|done]. intros r0 x0 Hx0. unfold where_holds. cbn. by rewrite (Hc _ _ Hx0), andb_true_r.
Qed.

Definition trial_match (q : TrialIssuanceLookup) (t : TrialIssuance) : bool :=
  bool_decide (ti_template_id t = tl_template_id q) && str_eqb (ti_fingerprint_hash t) (tl_fingerprint_hash q).

Lemma trial_answers q columns m (w : W) :
  holds_rows mapTrialIssuance ti_id columns (table (db_of w) "trial_issuances") m -> readable (RTrial q) ->
  at_most_one (trial_match q) (rows m) -> answers (sqlite_findTrialIssuance q) w (List.find (trial_match q) (rows m)).
Proof.
  intros Hh [Hv Ht] Hu. unfold answers, sqlite_findTrialIssuance.
  set (q' := match tl_template_id q with
    | None => ([CIsNull (col "template_id"); CEq (col "fingerprint_hash") tt], [SText (tl_fingerprint_hash q)])
    | Some t => ([CEq (col "template_id") tt; CEq (col "fingerprint_hash") tt], [SText t; SText (tl_fingerprint_hash q)])
    end).
  set (cs := match tl_template_id q with None => [CIsNull (col "template_id")] | Some t => [CEq (col "template_id") (SText t)] end
               ++ [CEq (col "fingerprint_hash") (SText (tl_fingerprint_hash q))]).
  pose proof (get_one "trial_issuances" mapTrialIssuance trial_cells ti_id columns m q' cs [col "issued_at"] (Some 1) (trial_match q) w
    mapTrialIssuance_ok Hh) as H.
  assert (binds q' cs /\ forallb bindable q'.2 = true) as [Hq Hb].
  { unfold q', cs. destruct (tl_template_id q) as [t|]; cbn; [by rewrite Ht, Hv|by rewrite Hv]. }
  specialize (H Hq Hb ltac:(by right)).
  assert (Hw : forall r x, trial_cells r x -> where_holds cs (env_of "" r) = trial_match q x).
  { intros r x []. unfold where_holds, cs, trial_match. rewrite forallb_app. cbn [forallb cond_holds].
    rewrite !(read_env ""), tr_fingerprint_hash, andb_true_r. cbn [sql_eq]. f_equal. clear Hv Ht Hu Hh H Hq Hb q' cs.
    destruct (tl_template_id q) as [t|]; cbn [forallb cond_holds]; rewrite (read_env ""), tr_template_id, andb_true_r;
      destruct (ti_template_id x) as [t'|]; cbn; try done. unfold str_eqb. apply bool_decide_ext. split; congruence. }
  specialize (H Hw). destruct q' as [conds args]. unfold uncaught, bind. cbn [fst snd] in H.
  destruct (sq_get _ args w) as [[[r|]|e] w'].
  - destruct H as [Hs (x & Hx & Hin & Hp)]. unfold lift, of_lib, ret. rewrite Hx. split; [done|]. symmetry. f_equal. by apply find_the_one.
  - destruct H as [Hs Hnone]. split; [done|]. symmetry. by apply find_no_one.
  - by destruct H as [Hs [t' ->]].
Qed.

Context {TO : TxObject W}.

(** ** Reading, writing, transactions *)

(** What the tables hold and the library keeps true of them. *)
Record stored (db : Db) (s : State) : Prop := {
  st_reads : reads_as db s;
  st_ok : state_ok s;
  st_listing : listing_ok s
}.

Lemma read_as_memory {A} (op : ReadOp A) (w : W) (m : World) :
  stored (db_of w) (w_state m) -> readable op -> as_memory (exec_read op) w (exec_read (W := World) op) m.
Proof.
  intros [Hr Hok Hl] Hop. pose proof (reads_holds _ _ Hr) as Hs.
  destruct op; cbn [readable] in Hop; eapply answers_memory; try reflexivity.
  - rewrite <- (find_by_id l_id) by apply Hok. eapply find_answers; [exact mapLicense_ok|apply Hr|by intros ?? []|done|by apply id_one, Hok].
  - eapply find_answers; [exact mapLicense_ok|apply Hr|by intros ?? []|done|by eapply unique_one; apply Hok].
  - destruct Hop as (H1 & H2 & H3). by apply sqlite_licenses_answer.
  - destruct Hop as (H1 & H2 & H3). by apply sqlite_licensable_answer.
  - rewrite <- (find_by_id sc_id) by apply Hok. eapply find_answers; [exact mapScope_ok|apply Hr|by intros ?? []|done|by apply id_one, Hok].
  - eapply find_answers; [exact mapScope_ok|apply Hr|by intros ?? []|done|by eapply unique_one; apply Hok].
  - destruct Hop as (H1 & H2). by apply sqlite_scopes_answer.
  - rewrite <- (find_by_id t_id) by apply Hok. eapply find_answers; [exact mapTemplate_ok|apply Hr|by intros ?? []|done|by apply id_one, Hok].
  - destruct Hop as (H1 & H2). by apply sqlite_templates_answer.
  - rewrite <- (find_by_id u_id) by apply Hok. eapply find_answers; [exact mapUsage_ok|apply Hr|by intros ?? []|done|by apply id_one, Hok].
  - destruct Hop as (H1 & H2 & H3). by apply sqlite_usages_answer.
  - rewrite <- (find_by_id k_id) by apply Hok. eapply find_answers; [exact mapKey_ok|apply Hr|by intros ?? []|done|by apply id_one, Hok].
  - eapply find_answers; [exact mapKey_ok|apply Hr|by intros ?? []|done|by eapply unique_one; apply Hok].
  - destruct Hop as (H1 & H2). by apply sqlite_keys_answer.
  - rewrite <- (find_by_id a_id) by apply Hok. eapply find_answers; [exact mapAudit_ok|apply Hr|by intros ?? []|done|by apply id_one, Hok].
  - destruct Hop as (H1 & H2 & H3). by apply sqlite_audit_answer.
  - eapply trial_answers; [apply Hr|done|]. intros x y Hx Hy Hpx Hpy. unfold trial_match, str_eqb in *. 
    apply andb_prop in Hpx as [H1%bool_decide_eq_true H2%bool_decide_eq_true].
    apply andb_prop in Hpy as [H3%bool_decide_eq_true H4%bool_decide_eq_true].
    pose proof (rows_map_get ti_id _ x (ok_trials _ Hok) Hx) as Gx. pose proof (rows_map_get ti_id _ y (ok_trials _ Hok) Hy) as Gy.
    rewrite (ok_trial _ Hok _ _ _ _ (tl_template_id q, tl_fingerprint_hash q) Gx Gy) in Gx; congruence.
Qed.

(** *** Transactions *)

Context {TL : TxLaws W}.

Lemma transaction_law {T} (fn : prog W T) (w : W) : keeps_open fn w ->
  match sqlite_withTransaction fn w with
  | (Ok x, w') => saved w = None /\ saved w' = None
      /\ exists w1 w2, db_of w1 = db_of w /\ fn w1 = (Ok x, w2) /\ db_of w' = db_of w2
  | (Throw _, w') => same_data w w'
  end.
Proof. intros Hfn. unfold sqlite_withTransaction. destruct (inTransaction w); [apply same_data_refl|]. by apply tx_core_law. Qed.

(** Writes in a row. *)
Fixpoint run_writes (ops : list WriteOp) : prog W unit :=
  match ops with
  | [] => ret tt
  | op :: ops' => do* exec_write op; run_writes ops'
  end.

Fixpoint effects (ops : list WriteOp) (s s' : State) : Prop :=
  match ops with
  | [] => s' = s
  | op :: ops' => exists s1, effect op s s1 /\ effects ops' s1 s'
  end.

Lemma run_writes_law ops s (w : W) : reads_as (db_of w) s -> forallb storable ops = true ->
  saved (run_writes ops w).2 = saved w
  /\ match run_writes ops w with
     | (Ok _, w') => exists s', effects ops s s' /\ reads_as (db_of w') s'
     | (Throw _, _) => True
     end.
Proof.
  revert s w. induction ops as [|op ops IH]; intros s w Hr Hok; [split; [done|by exists s]|].
  cbn in Hok. apply andb_prop in Hok as [H1 H2]. cbn [run_writes]. unfold bind.
  pose proof (sqlite_write_outcome op s w Hr H1) as (Hs & s' & Hr' & _ & He).
  destruct (exec_write op w) as [[u|e] w1]; cbn [fst snd] in *; [|by split].
  destruct (IH s' w1 Hr' H2) as [Hs2 H]. split; [congruence|].
  destruct (run_writes ops w1) as [[v|e] w2]; [|done]. destruct H as (s2 & He2 & Hr2). exists s2. split; [by exists s'|done].
Qed.
End Reads.

(** ** The theorems *)

Section Theorems.
Context {NT : NumberText} {JH : JsonHost} {W : Type} {HC : HasClock W} {HE : HasEntropy W} {EN : SqlEngine W unit}
  {SL : SqlLaws W unit sqlite_schema} {TO : TxObject W}.



(** C28: Writes in a transaction happen together or not at all: when
    [withTransaction] returns, the tables hold the state after all of them and
    the transaction is closed; when it throws, whichever statement failed, the
    commit included, the tables are what they were. *)
Theorem sqlite_transaction_atomic {TL : TxLaws W} (ops : list WriteOp) (s : State) (w : W) :
  reads_as (db_of w) s -> forallb storable ops = true ->
  match withTransaction (run_writes ops) w with
  | (Ok _, w') => saved w' = None /\ exists s', effects ops s s' /\ reads_as (db_of w') s'
  | (Throw _, w') => saved w' = saved w /\ db_of w' = db_of w
  end.
Proof.
  intros Hr Hok. cbn [withTransaction SqliteStorage].
  pose proof (transaction_law (run_writes ops) w) as H.
  destruct (sqlite_withTransaction (run_writes ops) w) as [[u|e] w'].
  - destruct H as (_ & Hs & w1 & w2 & Hd & Hrun & Hd').
    { intros w1 Hd. rewrite <- Hd in Hr. by apply (run_writes_law ops s). }
    split; [done|]. rewrite <- Hd in Hr. pose proof (run_writes_law ops s w1 Hr Hok) as [_ H]. rewrite Hrun in H. by rewrite Hd'.
  - apply H. intros w1 Hd. rewrite <- Hd in Hr. by apply (run_writes_law ops s).
Qed.
End Theorems.

(** ** A run on the reference engine *)

Section Witnesses.
#[local] Instance no_numbers : NumberText := {| other_number_text := fun _ => [] |}.
#[local] Instance no_host : JsonHost := {| other_json := Throw PlainError |}.
#[local] Instance engine : SqlEngine SqlWorld unit := ref_engine sqlite_schema sqlite_failure.
#[local] Instance engine_laws : SqlLaws SqlWorld unit sqlite_schema := ref_laws sqlite_schema sqlite_failure.
#[local] Instance tx_object : TxObject SqlWorld := {|
  inTransaction := sw_tx;
  as_tx := fun b w => mkSqlWorld (sw_db w) (sw_saved w) b (sw_now w) (sw_clock w) (sw_entropy w)
|}.
#[local] Instance tx_object_laws : TxLaws SqlWorld.
Proof. by split. Qed.

Definition empty_sql : SqlWorld :=
  mkSqlWorld [] None false SNull (advancingClock 1700000000000 1) (fun n => Z.of_nat n).
Definition a_license (key id : string) : LicenseInput :=
  mkLicenseInput None None (js "user") (js id) (js key) pending 3 None None None (plain [(js "a", JStr (js "b"))]) None.

Definition two_licenses : list WriteOp := [WCreateLicense (a_license "K1" "1"); WCreateLicense (a_license "K2" "2")].
Definition clashing : list WriteOp := [WCreateLicense (a_license "K1" "1"); WCreateLicense (a_license "K1" "2")].

Lemma empty_reads : reads_as (db_of empty_sql) emptyState.
Proof. constructor; first [by constructor | split; [done|split; [constructor|split; constructor]]]. Qed.

(** The tables after one license, and the state they hold. *)
Definition one_license : SqlWorld := (exec_write (WCreateLicense (a_license "K1" "1")) empty_sql).2.
Definition the_license : License :=
  match map_rows mapLicense (table (sw_db one_license) "licenses") with
  | Ok (l :: _) => l
  | _ => mkLicense [] None None [] [] [] pending 0 false None None None JUndefined [] []
  end.
Definition one_world : World :=
  mkWorld (set_licenses [(l_id the_license, the_license)] emptyState) 0 (advancingClock 0 1) Z.of_nat.

Lemma one_license_stored : stored (db_of one_license) (w_state one_world).
Proof.
  split.
  - constructor; [|split; [vm_compute; reflexivity|split; [vm_compute; constructor|split; constructor]]..|by constructor].
    split; [vm_compute; reflexivity|]. split; [|by apply keyed_singleton].
    vm_compute. by repeat constructor.
  - destruct emptyState_ok. split; try assumption; [by apply keyed_singleton|apply unique_singleton].
  - constructor; [|split; [split; constructor|constructor]..]. split; [by apply keyed_singleton|].
    apply Forall_singleton. by vm_compute.
Qed.

Definition all_licenses : ReadOp (Page License) :=
  RLicenses (mkLicenseFilter None (Some [pending]) None None None) (mkPageRequest 10 None).



Lemma sqlite_transaction_atomic_witness :
  (withTransaction (run_writes clashing) empty_sql).1 = Throw (errors.licenseKeyConflict (js "unknown"))
  /\ db_of (withTransaction (run_writes clashing) empty_sql).2 = db_of empty_sql
  /\ (withTransaction (run_writes two_licenses) empty_sql).1 = Ok tt
  /\ exists s', effects two_licenses emptyState s' /\ reads_as (db_of (withTransaction (run_writes two_licenses) empty_sql).2) s'.
Proof.
  pose proof (sqlite_transaction_atomic clashing emptyState empty_sql empty_reads eq_refl) as H1.
  pose proof (sqlite_transaction_atomic two_licenses emptyState empty_sql empty_reads eq_refl) as H2.
  assert (E1 : (withTransaction (run_writes clashing) empty_sql).1 = Throw (errors.licenseKeyConflict (js "unknown")))
    by (vm_compute; reflexivity).
  assert (E2 : (withTransaction (run_writes two_licenses) empty_sql).1 = Ok tt) by (vm_compute; reflexivity).
  split; [exact E1|]. destruct (withTransaction (run_writes clashing) empty_sql) as [r1 w1].
  destruct (withTransaction (run_writes two_licenses) empty_sql) as [r2 w2]. cbn [fst snd] in *. subst r1 r2.
  split; [apply H1|]. split; [done|apply H2].
Defined.
End Witnesses.
