(* ===== verification/SchemaView.v ===== *)
(** * SchemaView: the schema the adapters report

    [describeSchema] of the three adapters, [schema.ts] under
    [src/typescript/src/storage/memory/], [.../sqlite/] and [.../postgres/]:
    one and the same description, and how it stands to the tables of the
    SQLite migrations. *)

From S2P Require Import Prelude Errors Text Types Storage SqlErrors Sql Sqlite.
From stdpp Require Import strings.

(** ** [SchemaColumn], [SchemaEntity], [SchemaDescription] *)

Inductive ColumnType : Type := T_uuid | T_string | T_int | T_timestamp | T_json | T_enum | T_text | T_bool.
#[global] Instance ColumnType_eq_dec : EqDecision ColumnType.
Proof. solve_decision. Defined.

Record SchemaColumn : Type := mkColumn {
  c_name : string;
  c_type : ColumnType;
  c_nullable : bool;
  c_unique : list string
}.

Inductive EntityName : Type :=
| E_License | E_LicenseScope | E_LicenseTemplate | E_LicenseUsage | E_LicenseKey | E_AuditLog | E_TrialIssuance.

Record SchemaEntity : Type := mkEntity { e_name : EntityName; e_columns : list SchemaColumn }.

Definition SchemaDescription : Type := list SchemaEntity.

Section Descriptions.
Local Open Scope string_scope.

Definition MEMORY_SCHEMA : SchemaDescription := [
   mkEntity E_License [
     mkColumn "id" T_uuid false ["pk"];
     mkColumn "scope_id" T_uuid true ["licensable_scope"];
     mkColumn "template_id" T_uuid true [];
     mkColumn "licensable_type" T_string false ["licensable_scope"];
     mkColumn "licensable_id" T_string false ["licensable_scope"];
     mkColumn "license_key" T_string false ["license_key"];
     mkColumn "status" T_enum false [];
     mkColumn "max_usages" T_int false [];
     mkColumn "is_trial" T_bool false [];
     mkColumn "activated_at" T_timestamp true [];
     mkColumn "expires_at" T_timestamp true [];
     mkColumn "grace_until" T_timestamp true [];
     mkColumn "meta" T_json false [];
     mkColumn "created_at" T_timestamp false [];
     mkColumn "updated_at" T_timestamp false []];
   mkEntity E_LicenseScope [
     mkColumn "id" T_uuid false ["pk"];
     mkColumn "slug" T_string false ["slug"];
     mkColumn "name" T_string false [];
     mkColumn "meta" T_json false [];
     mkColumn "created_at" T_timestamp false [];
     mkColumn "updated_at" T_timestamp false []];
   mkEntity E_LicenseTemplate [
     mkColumn "id" T_uuid false ["pk"];
     mkColumn "scope_id" T_uuid true ["scope_name"];
     mkColumn "parent_id" T_uuid true [];
     mkColumn "name" T_string false ["scope_name"];
     mkColumn "max_usages" T_int false [];
     mkColumn "trial_duration_sec" T_int false [];
     mkColumn "trial_cooldown_sec" T_int true [];
     mkColumn "grace_duration_sec" T_int false [];
     mkColumn "force_online_after_sec" T_int true [];
     mkColumn "entitlements" T_json false [];
     mkColumn "meta" T_json false [];
     mkColumn "created_at" T_timestamp false [];
     mkColumn "updated_at" T_timestamp false []];
   mkEntity E_LicenseUsage [
     mkColumn "id" T_uuid false ["pk"];
     mkColumn "license_id" T_uuid false ["license_fingerprint_active"];
     mkColumn "fingerprint" T_string false ["license_fingerprint_active"];
     mkColumn "status" T_enum false [];
     mkColumn "registered_at" T_timestamp false [];
     mkColumn "revoked_at" T_timestamp true [];
     mkColumn "client_meta" T_json false [];
     mkColumn "created_at" T_timestamp false [];
     mkColumn "updated_at" T_timestamp false []];
   mkEntity E_LicenseKey [
     mkColumn "id" T_uuid false ["pk"];
     mkColumn "scope_id" T_uuid true ["scope_active_signing"];
     mkColumn "kid" T_string false ["kid"];
     mkColumn "alg" T_enum false [];
     mkColumn "role" T_enum false ["scope_active_signing"];
     mkColumn "state" T_enum false [];
     mkColumn "public_pem" T_text false [];
     mkColumn "private_pem_enc" T_text true [];
     mkColumn "rotated_from" T_uuid true [];
     mkColumn "rotated_at" T_timestamp true [];
     mkColumn "not_before" T_timestamp false [];
     mkColumn "not_after" T_timestamp true [];
     mkColumn "meta" T_json false [];
     mkColumn "created_at" T_timestamp false [];
     mkColumn "updated_at" T_timestamp false []];
   mkEntity E_AuditLog [
     mkColumn "id" T_uuid false ["pk"];
     mkColumn "license_id" T_uuid true [];
     mkColumn "scope_id" T_uuid true [];
     mkColumn "actor" T_string false [];
     mkColumn "event" T_string false [];
     mkColumn "prior_state" T_json true [];
     mkColumn "new_state" T_json true [];
     mkColumn "occurred_at" T_timestamp false []];
   mkEntity E_TrialIssuance [
     mkColumn "id" T_uuid false ["pk"];
     mkColumn "template_id" T_uuid true ["template_fingerprint"];
     mkColumn "fingerprint_hash" T_string false ["template_fingerprint"];
     mkColumn "issued_at" T_timestamp false []]].

Definition SQLITE_SCHEMA : SchemaDescription := [
   mkEntity E_License [
     mkColumn "id" T_uuid false ["pk"];
     mkColumn "scope_id" T_uuid true ["licensable_scope"];
     mkColumn "template_id" T_uuid true [];
     mkColumn "licensable_type" T_string false ["licensable_scope"];
     mkColumn "licensable_id" T_string false ["licensable_scope"];
     mkColumn "license_key" T_string false ["license_key"];
     mkColumn "status" T_enum false [];
     mkColumn "max_usages" T_int false [];
     mkColumn "is_trial" T_bool false [];
     mkColumn "activated_at" T_timestamp true [];
     mkColumn "expires_at" T_timestamp true [];
     mkColumn "grace_until" T_timestamp true [];
     mkColumn "meta" T_json false [];
     mkColumn "created_at" T_timestamp false [];
     mkColumn "updated_at" T_timestamp false []];
   mkEntity E_LicenseScope [
     mkColumn "id" T_uuid false ["pk"];
     mkColumn "slug" T_string false ["slug"];
     mkColumn "name" T_string false [];
     mkColumn "meta" T_json false [];
     mkColumn "created_at" T_timestamp false [];
     mkColumn "updated_at" T_timestamp false []];
   mkEntity E_LicenseTemplate [
     mkColumn "id" T_uuid false ["pk"];
     mkColumn "scope_id" T_uuid true ["scope_name"];
     mkColumn "parent_id" T_uuid true [];
     mkColumn "name" T_string false ["scope_name"];
     mkColumn "max_usages" T_int false [];
     mkColumn "trial_duration_sec" T_int false [];
     mkColumn "trial_cooldown_sec" T_int true [];
     mkColumn "grace_duration_sec" T_int false [];
     mkColumn "force_online_after_sec" T_int true [];
     mkColumn "entitlements" T_json false [];
     mkColumn "meta" T_json false [];
     mkColumn "created_at" T_timestamp false [];
     mkColumn "updated_at" T_timestamp false []];
   mkEntity E_LicenseUsage [
     mkColumn "id" T_uuid false ["pk"];
     mkColumn "license_id" T_uuid false ["license_fingerprint_active"];
     mkColumn "fingerprint" T_string false ["license_fingerprint_active"];
     mkColumn "status" T_enum false [];
     mkColumn "registered_at" T_timestamp false [];
     mkColumn "revoked_at" T_timestamp true [];
     mkColumn "client_meta" T_json false [];
     mkColumn "created_at" T_timestamp false [];
     mkColumn "updated_at" T_timestamp false []];
   mkEntity E_LicenseKey [
     mkColumn "id" T_uuid false ["pk"];
     mkColumn "scope_id" T_uuid true ["scope_active_signing"];
     mkColumn "kid" T_string false ["kid"];
     mkColumn "alg" T_enum false [];
     mkColumn "role" T_enum false ["scope_active_signing"];
     mkColumn "state" T_enum false [];
     mkColumn "public_pem" T_text false [];
     mkColumn "private_pem_enc" T_text true [];
     mkColumn "rotated_from" T_uuid true [];
     mkColumn "rotated_at" T_timestamp true [];
     mkColumn "not_before" T_timestamp false [];
     mkColumn "not_after" T_timestamp true [];
     mkColumn "meta" T_json false [];
     mkColumn "created_at" T_timestamp false [];
     mkColumn "updated_at" T_timestamp false []];
   mkEntity E_AuditLog [
     mkColumn "id" T_uuid false ["pk"];
     mkColumn "license_id" T_uuid true [];
     mkColumn "scope_id" T_uuid true [];
     mkColumn "actor" T_string false [];
     mkColumn "event" T_string false [];
     mkColumn "prior_state" T_json true [];
     mkColumn "new_state" T_json true [];
     mkColumn "occurred_at" T_timestamp false []];
   mkEntity E_TrialIssuance [
     mkColumn "id" T_uuid false ["pk"];
     mkColumn "template_id" T_uuid true ["template_fingerprint"];
     mkColumn "fingerprint_hash" T_string false ["template_fingerprint"];
     mkColumn "issued_at" T_timestamp false []]].

Definition POSTGRES_SCHEMA : SchemaDescription := [
   mkEntity E_License [
     mkColumn "id" T_uuid false ["pk"];
     mkColumn "scope_id" T_uuid true ["licensable_scope"];
     mkColumn "template_id" T_uuid true [];
     mkColumn "licensable_type" T_string false ["licensable_scope"];
     mkColumn "licensable_id" T_string false ["licensable_scope"];
     mkColumn "license_key" T_string false ["license_key"];
     mkColumn "status" T_enum false [];
     mkColumn "max_usages" T_int false [];
     mkColumn "is_trial" T_bool false [];
     mkColumn "activated_at" T_timestamp true [];
     mkColumn "expires_at" T_timestamp true [];
     mkColumn "grace_until" T_timestamp true [];
     mkColumn "meta" T_json false [];
     mkColumn "created_at" T_timestamp false [];
     mkColumn "updated_at" T_timestamp false []];
   mkEntity E_LicenseScope [
     mkColumn "id" T_uuid false ["pk"];
     mkColumn "slug" T_string false ["slug"];
     mkColumn "name" T_string false [];
     mkColumn "meta" T_json false [];
     mkColumn "created_at" T_timestamp false [];
     mkColumn "updated_at" T_timestamp false []];
   mkEntity E_LicenseTemplate [
     mkColumn "id" T_uuid false ["pk"];
     mkColumn "scope_id" T_uuid true ["scope_name"];
     mkColumn "parent_id" T_uuid true [];
     mkColumn "name" T_string false ["scope_name"];
     mkColumn "max_usages" T_int false [];
     mkColumn "trial_duration_sec" T_int false [];
     mkColumn "trial_cooldown_sec" T_int true [];
     mkColumn "grace_duration_sec" T_int false [];
     mkColumn "force_online_after_sec" T_int true [];
     mkColumn "entitlements" T_json false [];
     mkColumn "meta" T_json false [];
     mkColumn "created_at" T_timestamp false [];
     mkColumn "updated_at" T_timestamp false []];
   mkEntity E_LicenseUsage [
     mkColumn "id" T_uuid false ["pk"];
     mkColumn "license_id" T_uuid false ["license_fingerprint_active"];
     mkColumn "fingerprint" T_string false ["license_fingerprint_active"];
     mkColumn "status" T_enum false [];
     mkColumn "registered_at" T_timestamp false [];
     mkColumn "revoked_at" T_timestamp true [];
     mkColumn "client_meta" T_json false [];
     mkColumn "created_at" T_timestamp false [];
     mkColumn "updated_at" T_timestamp false []];
   mkEntity E_LicenseKey [
     mkColumn "id" T_uuid false ["pk"];
     mkColumn "scope_id" T_uuid true ["scope_active_signing"];
     mkColumn "kid" T_string false ["kid"];
     mkColumn "alg" T_enum false [];
     mkColumn "role" T_enum false ["scope_active_signing"];
     mkColumn "state" T_enum false [];
     mkColumn "public_pem" T_text false [];
     mkColumn "private_pem_enc" T_text true [];
     mkColumn "rotated_from" T_uuid true [];
     mkColumn "rotated_at" T_timestamp true [];
     mkColumn "not_before" T_timestamp false [];
     mkColumn "not_after" T_timestamp true [];
     mkColumn "meta" T_json false [];
     mkColumn "created_at" T_timestamp false [];
     mkColumn "updated_at" T_timestamp false []];
   mkEntity E_AuditLog [
     mkColumn "id" T_uuid false ["pk"];
     mkColumn "license_id" T_uuid true [];
     mkColumn "scope_id" T_uuid true [];
     mkColumn "actor" T_string false [];
     mkColumn "event" T_string false [];
     mkColumn "prior_state" T_json true [];
     mkColumn "new_state" T_json true [];
     mkColumn "occurred_at" T_timestamp false []];
   mkEntity E_TrialIssuance [
     mkColumn "id" T_uuid false ["pk"];
     mkColumn "template_id" T_uuid true ["template_fingerprint"];
     mkColumn "fingerprint_hash" T_string false ["template_fingerprint"];
     mkColumn "issued_at" T_timestamp false []]].
End Descriptions.

(** The three adapters report one schema, as their headers promise. *)
Lemma one_description : SQLITE_SCHEMA = MEMORY_SCHEMA /\ POSTGRES_SCHEMA = MEMORY_SCHEMA.
Proof. done. Qed.

(** ** Against the tables *)

(** The table an entity is kept in. *)
Definition table_of (e : EntityName) : TableSchema :=
  match e with
  | E_License => licenses_table
  | E_LicenseScope => scopes_table
  | E_LicenseTemplate => templates_table
  | E_LicenseUsage => usages_table
  | E_LicenseKey => keys_table
  | E_AuditLog => audit_table
  | E_TrialIssuance => trials_table
  end.

(** A described column is a column of the table, and is nullable when the
    table says so. *)
Definition column_fits (ts : TableSchema) (c : SchemaColumn) : bool :=
  bool_decide (c_name c ∈ (ts_columns ts).*1) && Bool.eqb (c_nullable c) (negb (bool_decide (c_name c ∈ ts_required ts))).

Definition described (e : SchemaEntity) : bool := forallb (column_fits (table_of (e_name e))) (e_columns e).

(** The columns under a constraint's name, and those of the indexes whose
    violation the adapter reports under it. *)
Definition under_name (e : SchemaEntity) (name : string) : list string :=
  map c_name (List.filter (fun c => bool_decide (name ∈ c_unique c)) (e_columns e)).

Definition reported_as (ts : TableSchema) (name : jsstr) : list string :=
  flat_map (fun u => match violated (mapSqliteError (sqlite_failure (uq_index u))) with
                     | Some (_, Some n) => if bool_decide (n = name) then col_names (uq_index u) else []
                     | _ => []
                     end) (ts_uniques ts).

Definition undescribed (e : SchemaEntity) : list string :=
  List.filter (fun c => negb (bool_decide (c ∈ map c_name (e_columns e)))) (ts_columns (table_of (e_name e))).*1.

(** Every described column is there, with its nullability. *)
Lemma described_columns_fit e c : e ∈ SQLITE_SCHEMA -> c ∈ e_columns e ->
  c_name c ∈ (ts_columns (table_of (e_name e))).*1
  /\ (c_nullable c = false <-> c_name c ∈ ts_required (table_of (e_name e))).
Proof.
  intros He Hc. assert (H : forallb described SQLITE_SCHEMA = true) by (vm_compute; reflexivity).
  rewrite forallb_Forall, Forall_forall in H. specialize (H e He). unfold described in H.
  rewrite forallb_Forall, Forall_forall in H. specialize (H c Hc). unfold column_fits in H.
  apply andb_prop in H as [H1 H2]. apply bool_decide_eq_true in H1. split; [done|]. apply Bool.eqb_prop in H2. rewrite H2.
  rewrite negb_false_iff. apply bool_decide_eq_true.
Qed.

(** What the description leaves out: the columns of migrations 0004 and 0005. *)
Example undescribed_columns :
  map undescribed SQLITE_SCHEMA = [[]; []; []; ["last_seen_at"]; []; ["actor_kind"; "actor_id"]; []]%string.
Proof. vm_compute. reflexivity. Qed.

(** A duplicate slug, active seat or kid is reported under the name and the
    columns described. *)
Example reported_constraints :
  forallb (fun e => forallb (fun name => bool_decide (under_name e name = reported_as (table_of (e_name e)) (js name)))
                      ["slug"; "license_fingerprint_active"; "kid"]%string) SQLITE_SCHEMA = true.
Proof. vm_compute. reflexivity. Qed.
