(* ===== verification/Postgres.v ===== *)
(** * Postgres: the PostgreSQL adapter

    [src/typescript/src/storage/postgres/adapter.ts], one definition per method
    and helper. A statement goes to the connection with its parameters; [$n]
    is the [n]-th. The pool hands out the connection a transaction runs on.
    Behind the definitions: a row it returns, it reads back, and a transaction
    happens whole or not at all. *)

From S2P Require Import Prelude Errors JsNum Text Json Types Crypto TokenCodec Id Cursor Storage JsonLib Http Stringify Stats SqlErrors SqlSetup Sql Sqlite SqlProps.
From stdpp Require Import strings.
#[local] Open Scope Z_scope.

(** ** Mapping helpers *)

(** A [timestamptz] arrives as a [Date], which has milliseconds. *)
Definition date_ms (us : Z) : Z := us / 1000.

Definition toIso (v : SqlVal) : res (option Instant) :=
  match v with
  | SNull => Ok None
  | SText s => Ok (Some s)
  | STime us => let? s := isoFromMs (date_ms us) in Ok (Some s)
  | _ => Throw PlainError
  end.

(** [toIso(v as Date) as string] of a column that is not nullable. *)
Definition required_iso (v : SqlVal) : res Instant :=
  let? o := toIso v in match o with Some s => Ok s | None => Throw PlainError end.

(** A [jsonb] arrives parsed. *)
Definition toJsonRecord (v : SqlVal) : res jsval :=
  match v with SNull => Ok (plain []) | SJson j => Ok j | _ => Throw PlainError end.
Definition toJsonRecordNullable (v : SqlVal) : res (option jsval) :=
  match v with SNull => Ok None | SJson j => Ok (Some j) | _ => Throw PlainError end.

(** [(r.is_trial as boolean | undefined) ?? false] *)
Definition as_bool_or_false (v : SqlVal) : res bool :=
  match v with SNull => Ok false | SBool b => Ok b | _ => Throw PlainError end.

Section Rows.
Local Open Scope string_scope.

Definition pg_mapLicense (r : Row) : res License :=
  let? id := as_text (cell r "id") in
  let? scope_id := as_text_or_null (cell r "scope_id") in
  let? template_id := as_text_or_null (cell r "template_id") in
  let? licensable_type := as_text (cell r "licensable_type") in
  let? licensable_id := as_text (cell r "licensable_id") in
  let? license_key := as_text (cell r "license_key") in
  let? status := as_status (cell r "status") in
  let? max_usages := as_int (cell r "max_usages") in
  let? is_trial := as_bool_or_false (cell r "is_trial") in
  let? activated_at := toIso (cell r "activated_at") in
  let? expires_at := toIso (cell r "expires_at") in
  let? grace_until := toIso (cell r "grace_until") in
  let? meta := toJsonRecord (cell r "meta") in
  let? created_at := required_iso (cell r "created_at") in
  let? updated_at := required_iso (cell r "updated_at") in
  Ok (mkLicense id scope_id template_id licensable_type licensable_id license_key status max_usages is_trial
        activated_at expires_at grace_until meta created_at updated_at).

Definition pg_mapScope (r : Row) : res LicenseScope :=
  let? id := as_text (cell r "id") in
  let? slug := as_text (cell r "slug") in
  let? name := as_text (cell r "name") in
  let? meta := toJsonRecord (cell r "meta") in
  let? created_at := required_iso (cell r "created_at") in
  let? updated_at := required_iso (cell r "updated_at") in
  Ok (mkScope id slug name meta created_at updated_at).

Definition pg_mapTemplate (r : Row) : res LicenseTemplate :=
  let? id := as_text (cell r "id") in
  let? scope_id := as_text_or_null (cell r "scope_id") in
  let? parent_id := as_text_or_null (cell r "parent_id") in
  let? name := as_text (cell r "name") in
  let? max_usages := as_int (cell r "max_usages") in
  let? trial_duration_sec := as_int (cell r "trial_duration_sec") in
  let? trial_cooldown_sec := as_int_or_null (cell r "trial_cooldown_sec") in
  let? grace_duration_sec := as_int (cell r "grace_duration_sec") in
  let? force_online_after_sec := as_int_or_null (cell r "force_online_after_sec") in
  let? entitlements := toJsonRecord (cell r "entitlements") in
  let? meta := toJsonRecord (cell r "meta") in
  let? created_at := required_iso (cell r "created_at") in
  let? updated_at := required_iso (cell r "updated_at") in
  Ok (mkTemplate id scope_id parent_id name max_usages trial_duration_sec trial_cooldown_sec grace_duration_sec
        force_online_after_sec entitlements meta created_at updated_at).

Definition pg_mapUsage (r : Row) : res LicenseUsage :=
  let? id := as_text (cell r "id") in
  let? license_id := as_text (cell r "license_id") in
  let? fingerprint := as_text (cell r "fingerprint") in
  let? status := as_usage_status (cell r "status") in
  let? registered_at := required_iso (cell r "registered_at") in
  let? revoked_at := toIso (cell r "revoked_at") in
  let? last_seen_at := toIso (cell r "last_seen_at") in
  let? client_meta := toJsonRecord (cell r "client_meta") in
  let? created_at := required_iso (cell r "created_at") in
  let? updated_at := required_iso (cell r "updated_at") in
  Ok (mkUsage id license_id fingerprint status registered_at revoked_at (given_or last_seen_at registered_at)
        client_meta created_at updated_at).

Definition pg_mapKey (r : Row) : res LicenseKey :=
  let? id := as_text (cell r "id") in
  let? scope_id := as_text_or_null (cell r "scope_id") in
  let? kid := as_text (cell r "kid") in
  let? alg := as_alg (cell r "alg") in
  let? role := as_role (cell r "role") in
  let? state := as_key_state (cell r "state") in
  let? public_pem := as_text (cell r "public_pem") in
  let? private_pem_enc := as_text_or_null (cell r "private_pem_enc") in
  let? rotated_from := as_text_or_null (cell r "rotated_from") in
  let? rotated_at := toIso (cell r "rotated_at") in
  let? not_before := required_iso (cell r "not_before") in
  let? not_after := toIso (cell r "not_after") in
  let? meta := toJsonRecord (cell r "meta") in
  let? created_at := required_iso (cell r "created_at") in
  let? updated_at := required_iso (cell r "updated_at") in
  Ok (mkKey id scope_id kid alg role state public_pem private_pem_enc rotated_from rotated_at not_before not_after
        meta created_at updated_at).

Definition pg_mapTrialIssuance (r : Row) : res TrialIssuance :=
  let? id := as_text (cell r "id") in
  let? template_id := as_text_or_null (cell r "template_id") in
  let? fingerprint_hash := as_text (cell r "fingerprint_hash") in
  let? issued_at := required_iso (cell r "issued_at") in
  Ok (mkTrial id template_id fingerprint_hash issued_at).

Definition pg_mapAudit (r : Row) : res AuditLogEntry :=
  let? id := as_text (cell r "id") in
  let? license_id := as_text_or_null (cell r "license_id") in
  let? scope_id := as_text_or_null (cell r "scope_id") in
  let? actor := as_text (cell r "actor") in
  let? actor_kind := kind_of (cell r "actor_kind") actor in
  let? actor_id := as_text_or_null (cell r "actor_id") in
  let? event := as_text (cell r "event") in
  let? prior_state := toJsonRecordNullable (cell r "prior_state") in
  let? new_state := toJsonRecordNullable (cell r "new_state") in
  let? occurred_at := required_iso (cell r "occurred_at") in
  Ok (mkAudit id license_id scope_id actor actor_kind actor_id event prior_state new_state occurred_at).
End Rows.

(** ** The adapter *)

(** [`$${n}`] *)
Definition dollar (n : nat) : nat := n.

(** An object is a parameter of its own, which the driver serialises. *)
Definition pg_param (f : Field) : SqlVal :=
  match f with FText s => SText s | FNull => SNull | FInt z => SInt z | FJson v => SJson v end.
Definition nullable_json_param (o : option jsval) : SqlVal := match o with Some v => SJson v | None => SNull end.

Section Adapter.
Context {W : Type} {HC : HasClock W} {HE : HasEntropy W} {EN : SqlEngine W nat} {TO : TxObject W}.
Local Open Scope string_scope.

(** [this.#q.query(sql, params)] *)
Definition pg_query (st : Stmt nat) (ps : list SqlVal) : M mapped W (list Row) := of_driver (sql_query st ps).
Definition try_pg {A} (c : M mapped W A) : prog W A := caught mapPgError c.

(** [INSERT INTO t (...) VALUES ($1,...) RETURNING *] and [map(res.rows[0])]. *)
Definition pg_insert_into (t : string) (columns : list string) : Stmt nat :=
  InsertInto t (zip columns (map dollar (seq 1 (List.length columns)))) true.

Definition first_row {A} (f : Row -> res A) (missing : exn) (rows : list Row) : M mapped W A :=
  match rows with [] => of_lib (throw missing) | r :: _ => of_lib (lift (f r)) end.

Definition pg_insert {A} (t : string) (columns : list string) (f : Row -> res A) (params : list SqlVal) : prog W A :=
  try_pg (let* rows := pg_query (pg_insert_into t columns) params in first_row f PlainError rows).

(** [SELECT * FROM t WHERE c = $1] *)
Definition pg_find {A} (t c : string) (f : Row -> res A) (v : jsstr) : prog W (option A) :=
  uncaught (
    let* rows := pg_query (Select Star (From t) [CEq (col c) (dollar 1)] [] None) [SText v] in
    match rows with
    | [] => ret None
    | r :: _ => of_lib (let* a := lift (f r) in ret (Some a))
    end).

Definition pg_page {A} (t : string) (f : Row -> res A) (key : A -> CursorTuple) (q : Query nat) (page : PageRequest)
  : prog W (Page A) :=
  let q := q_cursor dollar (col "created_at") (col "id") page q in
  let limit := page_limit page in
  uncaught (
    let* rows := pg_query (Select Star (From t) q.1 newest_first (Some (limit + 1))) q.2 in
    let* items := of_lib (lift (map_rows f rows)) in
    ret (buildPage key items limit)).

(** *** Updates *)

Fixpoint number_sets (n : nat) (l : list (string * Field)) : list (string * SetTo nat) :=
  match l with [] => [] | (k, _) :: l' => (k, SetParam (dollar n)) :: number_sets (S n) l' end.

(** [buildUpdateSet]: the assignments and their values. *)
Definition pg_buildUpdateSet (entries : list (string * option Field)) : list (string * SetTo nat) * list SqlVal :=
  let sets := present_entries entries in (number_sets 1 sets, map (fun kv => pg_param kv.2) sets).

(** [UPDATE t SET ..., updated_at = now() WHERE id = $n RETURNING *] *)
Definition pg_update_stmt (t : string) (sets : list (string * SetTo nat)) (n : nat) : Stmt nat :=
  UpdateSet t (sets ++ [("updated_at", SetNow)]) "id" (dollar (n + 1)) true.

Definition pg_write_patch {A} (t : string) (f : Row -> res A) (missing : exn) (id : UUIDv7)
    (set : list (string * SetTo nat) * list SqlVal) : M mapped W A :=
  let* rows := pg_query (pg_update_stmt t set.1 (List.length set.2)) (set.2 ++ [SText id]) in
  first_row f missing rows.

Definition pg_update {A} (t : string) (f : Row -> res A) (missing : exn) (id : UUIDv7)
    (entries : list (string * option Field)) : prog W A :=
  try_pg (pg_write_patch t f missing id (pg_buildUpdateSet entries)).

(** *** Licenses *)

Definition pg_createLicense (input : LicenseInput) : prog W License :=
  let* id := freshUuid in
  pg_insert "licenses"
    ["id"; "scope_id"; "template_id"; "licensable_type"; "licensable_id"; "license_key"; "status"; "max_usages";
     "activated_at"; "expires_at"; "grace_until"; "meta"] pg_mapLicense
    [SText id; nullable_text (li_scope_id input); nullable_text (li_template_id input);
     SText (li_licensable_type input); SText (li_licensable_id input); SText (li_license_key input);
     SText (status_str (li_status input)); SInt (li_max_usages input); nullable_text (li_activated_at input);
     nullable_text (li_expires_at input); nullable_text (li_grace_until input); SJson (li_meta input)].

Definition pg_getLicense (id : UUIDv7) : prog W (option License) := pg_find "licenses" "id" pg_mapLicense id.
Definition pg_getLicenseByKey (licenseKey : jsstr) : prog W (option License) :=
  pg_find "licenses" "license_key" pg_mapLicense licenseKey.

(** [if (f && f.length > 0)]: [c = ANY($n)] *)
Definition pg_q_any (c : Col) (f : option (list jsstr)) (q : Query nat) : Query nat :=
  match f with
  | Some ((_ :: _) as l) => q_with dollar (CAny c) (STexts l) q
  | _ => q
  end.

Definition pg_buildLicenseWhere (filter : LicenseFilter) : Query nat :=
  let q := ([CTrue], []) in
  let q := q_nullable dollar (col "scope_id") (lf_scope_id filter) q in
  let q := pg_q_any (col "status") (map status_str <$> lf_status filter) q in
  let q := q_opt dollar (CEq (col "licensable_type")) (SText <$> lf_licensable_type filter) q in
  let q := q_opt dollar (CEq (col "licensable_id")) (SText <$> lf_licensable_id filter) q in
  q_nullable dollar (col "template_id") (lf_template_id filter) q.

Definition pg_listLicenses (filter : LicenseFilter) (page : PageRequest) : prog W (Page License) :=
  pg_page "licenses" pg_mapLicense license_keyed (pg_buildLicenseWhere filter) page.

Definition pg_findLicensesByLicensable (query : FindByLicensableQuery) : prog W (list License) :=
  let q := ([CEq (col "licensable_type") (dollar 1); CEq (col "licensable_id") (dollar 2)],
            [SText (fq_type query); SText (fq_id query)]) in
  let q := q_nullable dollar (col "scope_id") (fq_scope_id query) q in
  uncaught (
    let* rows := pg_query (Select Star (From "licenses") q.1 newest_first None) q.2 in
    of_lib (lift (map_rows pg_mapLicense rows))).

(** An empty patch is sent outside the [try]. *)
Definition pg_updateLicense (id : UUIDv7) (patch : LicensePatch) : prog W License :=
  let set := pg_buildUpdateSet (license_entries patch) in
  let write := pg_write_patch "licenses" pg_mapLicense (errors.licenseNotFound id) id set in
  match set.1 with [] => uncaught write | _ => try_pg write end.

(** *** Scopes *)

Definition pg_createScope (input : LicenseScopeInput) : prog W LicenseScope :=
  let* id := freshUuid in
  pg_insert "license_scopes" ["id"; "slug"; "name"; "meta"] pg_mapScope
    [SText id; SText (sci_slug input); SText (sci_name input); SJson (sci_meta input)].

Definition pg_getScope (id : UUIDv7) : prog W (option LicenseScope) := pg_find "license_scopes" "id" pg_mapScope id.
Definition pg_getScopeBySlug (slug : jsstr) : prog W (option LicenseScope) :=
  pg_find "license_scopes" "slug" pg_mapScope slug.

Definition pg_scope_where (filter : LicenseScopeFilter) : Query nat :=
  q_opt dollar (CEq (col "slug")) (SText <$> scf_slug filter) ([CTrue], []).

Definition pg_listScopes (filter : LicenseScopeFilter) (page : PageRequest) : prog W (Page LicenseScope) :=
  pg_page "license_scopes" pg_mapScope (fun s => mkCursor (sc_created_at s) (sc_id s)) (pg_scope_where filter) page.

Definition pg_updateScope (id : UUIDv7) (patch : LicenseScopePatch) : prog W LicenseScope :=
  pg_update "license_scopes" pg_mapScope (not_there id) id (scope_entries patch).

(** *** Templates *)

Definition pg_createTemplate (input : LicenseTemplateInput) : prog W LicenseTemplate :=
  let* id := freshUuid in
  pg_insert "license_templates"
    ["id"; "scope_id"; "parent_id"; "name"; "max_usages"; "trial_duration_sec"; "trial_cooldown_sec";
     "grace_duration_sec"; "force_online_after_sec"; "entitlements"; "meta"] pg_mapTemplate
    [SText id; nullable_text (tpi_scope_id input); nullable_text (tpi_parent_id input); SText (tpi_name input);
     SInt (tpi_max_usages input); SInt (tpi_trial_duration_sec input); nullable_num (tpi_trial_cooldown_sec input);
     SInt (tpi_grace_duration_sec input); nullable_num (tpi_force_online_after_sec input);
     SJson (tpi_entitlements input); SJson (tpi_meta input)].

Definition pg_getTemplate (id : UUIDv7) : prog W (option LicenseTemplate) :=
  pg_find "license_templates" "id" pg_mapTemplate id.

(** The parameter of [scope_id] is pushed before the test for null. *)
Definition pg_template_scope (f : option (option jsstr)) (q : Query nat) : Query nat :=
  match f with
  | None => q
  | Some o =>
      let params := q.2 ++ [nullable_text o] in
      (q.1 ++ [match o with None => CIsNull (col "scope_id") | Some _ => CEq (col "scope_id") (dollar (List.length params)) end],
       params)
  end%list.

Definition pg_template_where (filter : LicenseTemplateFilter) : Query nat :=
  let q := pg_template_scope (tf_scope_id filter) ([CTrue], []) in
  let q := q_opt dollar (CEq (col "name")) (SText <$> tf_name filter) q in
  q_nullable dollar (col "parent_id") (tf_parent_id filter) q.

Definition pg_listTemplates (filter : LicenseTemplateFilter) (page : PageRequest) : prog W (Page LicenseTemplate) :=
  pg_page "license_templates" pg_mapTemplate (fun t => mkCursor (t_created_at t) (t_id t)) (pg_template_where filter) page.

(** The loop of [walkPgParentChain], [hops] left. *)
Fixpoint walk_pg (hops : nat) (visited : list UUIDv7) (cursor : option UUIDv7) (forbidden : UUIDv7)
  : M mapped W (option (list UUIDv7)) :=
  match hops, cursor with
  | S hops', Some c =>
      let visited := (visited ++ [c])%list in
      if str_eqb c forbidden then ret (Some visited)
      else
        let* rows := pg_query (Select (Columns [col "parent_id"]) (From "license_templates") [CEq (col "id") (dollar 1)] [] None)
                       [SText c] in
        match rows with
        | [] => ret None
        | r :: _ =>
            let* parent := of_lib (lift (as_text_or_null (cell r "parent_id"))) in
            walk_pg hops' visited parent forbidden
        end
  | _, _ => ret None
  end.

Definition walkPgParentChain (startParent forbidden : UUIDv7) : M mapped W (option (list UUIDv7)) :=
  walk_pg 64 [] (Some startParent) forbidden.

Definition pg_updateTemplate (id : UUIDv7) (patch : LicenseTemplatePatch) : prog W LicenseTemplate :=
  try_pg (
    do* (match tp_parent_id patch with
         | Some (Some parent) =>
             let* cycle := walkPgParentChain parent id in
             match cycle with
             | Some chain => of_lib (throw (errors.templateCycle id chain))
             | None => ret tt
             end
         | _ => ret tt
         end);
    pg_write_patch "license_templates" pg_mapTemplate (not_there id) id (pg_buildUpdateSet (template_entries patch))).

(** *** Usages *)

(** In a transaction, the license's row is locked first. *)
Definition lock_license (id : UUIDv7) : prog W unit := fun w =>
  if inTransaction w
  then uncaught (let* _ := pg_query (SelectForUpdate "licenses" "id" (dollar 1)) [SText id] in ret tt) w
  else (Ok tt, w).

Definition pg_createUsage (input : LicenseUsageInput) : prog W LicenseUsage :=
  let* id := freshUuid in
  do* lock_license (ui_license_id input);
  pg_insert "license_usages"
    ["id"; "license_id"; "fingerprint"; "status"; "registered_at"; "revoked_at"; "last_seen_at"; "client_meta"] pg_mapUsage
    [SText id; SText (ui_license_id input); SText (ui_fingerprint input); SText (usage_status_str (ui_status input));
     SText (ui_registered_at input); nullable_text (ui_revoked_at input); SText (ui_registered_at input);
     SJson (ui_client_meta input)].

Definition pg_getUsage (id : UUIDv7) : prog W (option LicenseUsage) := pg_find "license_usages" "id" pg_mapUsage id.

Definition pg_usage_where (filter : LicenseUsageFilter) : Query nat :=
  let q := ([CTrue], []) in
  let q := q_opt dollar (CEq (col "license_id")) (SText <$> uf_license_id filter) q in
  let q := q_opt dollar (CEq (col "fingerprint")) (SText <$> uf_fingerprint filter) q in
  pg_q_any (col "status") (map usage_status_str <$> uf_status filter) q.

Definition pg_listUsages (filter : LicenseUsageFilter) (page : PageRequest) : prog W (Page LicenseUsage) :=
  pg_page "license_usages" pg_mapUsage usage_key_of (pg_usage_where filter) page.

Definition pg_updateUsage (id : UUIDv7) (patch : LicenseUsagePatch) : prog W LicenseUsage :=
  pg_update "license_usages" pg_mapUsage (not_there id) id (usage_entries patch).

(** *** Keys *)

Definition pg_createKey (input : LicenseKeyInput) : prog W LicenseKey :=
  let* id := freshUuid in
  pg_insert "license_keys"
    ["id"; "scope_id"; "kid"; "alg"; "role"; "state"; "public_pem"; "private_pem_enc"; "rotated_from"; "rotated_at";
     "not_before"; "not_after"; "meta"] pg_mapKey
    [SText id; nullable_text (ki_scope_id input); SText (ki_kid input); SText (alg_str (ki_alg input));
     SText (role_str (ki_role input)); SText (key_state_str (ki_state input)); SText (ki_public_pem input);
     nullable_text (ki_private_pem_enc input); nullable_text (ki_rotated_from input);
     nullable_text (ki_rotated_at input); SText (ki_not_before input); nullable_text (ki_not_after input);
     SJson (ki_meta input)].

Definition pg_getKey (id : UUIDv7) : prog W (option LicenseKey) := pg_find "license_keys" "id" pg_mapKey id.
Definition pg_getKeyByKid (kid : jsstr) : prog W (option LicenseKey) := pg_find "license_keys" "kid" pg_mapKey kid.

Definition pg_key_where (filter : LicenseKeyFilter) : Query nat :=
  let q := ([CTrue], []) in
  let q := q_nullable dollar (col "scope_id") (kf_scope_id filter) q in
  let q := q_opt dollar (CEq (col "kid")) (SText <$> kf_kid filter) q in
  let q := q_opt dollar (CEq (col "alg")) ((fun a => SText (alg_str a)) <$> kf_alg filter) q in
  let q := q_opt dollar (CEq (col "role")) ((fun r => SText (role_str r)) <$> kf_role filter) q in
  q_opt dollar (CEq (col "state")) ((fun s => SText (key_state_str s)) <$> kf_state filter) q.

Definition pg_listKeys (filter : LicenseKeyFilter) (page : PageRequest) : prog W (Page LicenseKey) :=
  pg_page "license_keys" pg_mapKey (fun k => mkCursor (k_created_at k) (k_id k)) (pg_key_where filter) page.

Definition pg_updateKey (id : UUIDv7) (patch : LicenseKeyPatch) : prog W LicenseKey :=
  pg_update "license_keys" pg_mapKey (not_there id) id (key_entries patch).

(** *** Audit log *)

Definition pg_appendAudit (input : AuditLogInput) : prog W AuditLogEntry :=
  let* id := freshUuid in
  pg_insert "audit_logs"
    ["id"; "license_id"; "scope_id"; "actor"; "event"; "prior_state"; "new_state"; "occurred_at"; "actor_kind"; "actor_id"]
    pg_mapAudit
    [SText id; nullable_text (ai_license_id input); nullable_text (ai_scope_id input); SText (ai_actor input);
     SText (ai_event input); nullable_json_param (ai_prior_state input); nullable_json_param (ai_new_state input);
     SText (ai_occurred_at input); SText (actor_kind_str (resolveActorKind input)); nullable_text (ai_actor_id input)].

Definition pg_getAudit (id : UUIDv7) : prog W (option AuditLogEntry) := pg_find "audit_logs" "id" pg_mapAudit id.

(** The conditions on the audit row, then those on its license. *)
Definition pg_audit_where (filter : AuditLogFilter) : Query nat :=
  let q := ([CTrue], []) in
  let q := q_nullable dollar (acol "license_id") (af_license_id filter) q in
  let q := q_nullable dollar (acol "scope_id") (af_scope_id filter) q in
  let q := match af_event filter with Some events => q_in dollar (acol "event") (map SText events) q | None => q end in
  let q := q_opt dollar (CEq (acol "actor")) (SText <$> af_actor filter) q in
  let q := q_opt dollar (CGe (acol "occurred_at")) (SText <$> af_since filter) q in
  let q := q_opt dollar (CLt (acol "occurred_at")) (SText <$> af_until filter) q in
  let q := q_opt dollar (CEq (lcol "licensable_type")) (SText <$> af_licensable_type filter) q in
  q_opt dollar (CEq (lcol "licensable_id")) (SText <$> af_licensable_id filter) q.

Definition pg_listAudit (filter : AuditLogFilter) (page : PageRequest) : prog W (Page AuditLogEntry) :=
  match af_event filter with
  | Some [] => ret (mkPage [] None)
  | _ =>
      let limit := page_limit page in
      let q := q_cursor dollar (acol "occurred_at") (acol "id") page (pg_audit_where filter) in
      uncaught (
        let* rows := pg_query (Select (StarOf "a") (audit_source filter) q.1 [acol "occurred_at"; acol "id"] (Some (limit + 1))) q.2 in
        let* items := of_lib (lift (map_rows pg_mapAudit rows)) in
        ret (buildPage audit_keyed items limit))
  end.

(** *** Trials *)

Definition pg_recordTrialIssuance (input : TrialIssuanceInput) : prog W TrialIssuance :=
  let* id := freshUuid in
  pg_insert "trial_issuances" ["id"; "template_id"; "fingerprint_hash"] pg_mapTrialIssuance
    [SText id; nullable_text (tri_template_id input); SText (tri_fingerprint_hash input)].

Definition pg_findTrialIssuance (query : TrialIssuanceLookup) : prog W (option TrialIssuance) :=
  let '(conds, args) :=
    match tl_template_id query with
    | None => ([CIsNull (col "template_id"); CEq (col "fingerprint_hash") (dollar 1)], [SText (tl_fingerprint_hash query)])
    | Some t => ([CEq (col "template_id") (dollar 1); CEq (col "fingerprint_hash") (dollar 2)],
                 [SText t; SText (tl_fingerprint_hash query)])
    end in
  uncaught (
    let* rows := pg_query (Select Star (From "trial_issuances") conds [col "issued_at"] (Some 1)) args in
    match rows with
    | [] => ret None
    | r :: _ => of_lib (let* t := lift (pg_mapTrialIssuance r) in ret (Some t))
    end).

Definition pg_deleteTrialIssuance (id : UUIDv7) : prog W unit :=
  uncaught (let* _ := pg_query (DeleteFrom "trial_issuances" "id" (dollar 1)) [SText id] in ret tt).

(** *** Aggregates *)

(** [#scopePredicate]: the parameter, and the condition on a scope column. *)
Definition scope_params (scopeFilter : LicenseStatsFilter) : list SqlVal :=
  match scopeFilter with Some (Some s) => [SText s] | _ => [] end.
Definition scope_conds (c : Col) (scopeFilter : LicenseStatsFilter) : list (Cond nat) :=
  match scopeFilter with None => [] | Some None => [CIsNull c] | Some (Some _) => [CEq c (dollar 1)] end.

(** What the roll-up reads. An expiry arrives as a [Date], and a [Date] is
    never [>=] a text: both become numbers, the text NaN. So for the one
    comparison that reads it, it is as good as missing. *)
Definition pg_stats_row (r : Row) : res License :=
  let? id := as_text (cell r "id") in
  let? scope_id := as_text_or_null (cell r "scope_id") in
  let? template_id := as_text_or_null (cell r "template_id") in
  let? status := as_status (cell r "status") in
  let? max_usages := as_int (cell r "max_usages") in
  let? expires_at := match cell r "expires_at" with STime _ => Ok None | v => as_text_or_null v end in
  let? license_key := as_text (cell r "license_key") in
  Ok (mkLicense id scope_id template_id [] [] license_key status max_usages false None expires_at None JUndefined [] []).

Definition pg_getLicenseStats (filter : LicenseStatsFilter) : prog W LicenseStats :=
  uncaught (
    let params := scope_params filter in
    let* licenseRows := pg_query (Select (Columns stats_columns) (From "licenses") (scope_conds (col "scope_id") filter) [] None) params in
    let* usageRows := pg_query (Select (Columns [("u", "license_id")]) (InnerJoin "license_usages" "u" "licenses" "l" "id" "license_id")
                                  (CIs ("u", "status") ["active"] :: scope_conds (lcol "scope_id") filter) [] None) params in
    let* ms := of_lib nowMs in
    let* sinceIso := of_lib (lift (isoFromMs (ms - 30 * 24 * 60 * 60 * 1000))) in
    let n := List.length params in
    let* auditRows := pg_query (Select (Columns [col "event"; col "scope_id"]) (From "audit_logs")
                                  ([CAny (col "event") (dollar (n + 1)); CGe (col "occurred_at") (dollar (n + 2))]
                                     ++ scope_conds (col "scope_id") filter)%list [] None)
                        (params ++ [STexts (map js delta_events); SText sinceIso])%list in
    of_lib (lift (
      let? licenses := map_rows pg_stats_row licenseRows in
      let? used := map_rows (fun r => as_text (cell r "license_id")) usageRows in
      let? events := map_rows (fun r => as_text (cell r "event")) auditRows in
      computeLicenseStats (mkStatsInput licenses used events ms)))).

(** *** Transactions *)

Context {PO : Pool W}.

(** [finally { client.release() }] *)
Definition with_client {T} (c : prog W T) : prog W T :=
  do* pool_connect;
  fun w => let '(r, w) := c w in
    match pool_release w with
    | (Ok _, w) => (r, w)
    | (Throw e, w) => (Throw e, w)
    end.

Definition pg_withTransaction {T} (fn : prog W T) : prog W T := fun w =>
  if inTransaction w then (Throw PlainError, w)
  else
    with_client (
      do* uncaught (let* _ := pg_query Begin [] in ret tt);
      try_catch (let* result := on_tx_adapter fn in do* uncaught (let* _ := pg_query Commit [] in ret tt); ret result)
                (fun err => do* uncaught (let* _ := pg_query Rollback [] in ret tt); throw err)) w.
End Adapter.

#[global] Instance PostgresStorage {W : Type} {HC : HasClock W} {HE : HasEntropy W}
    {EN : SqlEngine W nat} {TO : TxObject W} {PO : Pool W} : Storage W := {|
  createLicense := pg_createLicense;
  getLicense := pg_getLicense;
  getLicenseByKey := pg_getLicenseByKey;
  listLicenses := pg_listLicenses;
  findLicensesByLicensable := pg_findLicensesByLicensable;
  updateLicense := pg_updateLicense;
  createScope := pg_createScope;
  getScope := pg_getScope;
  getScopeBySlug := pg_getScopeBySlug;
  listScopes := pg_listScopes;
  updateScope := pg_updateScope;
  createTemplate := pg_createTemplate;
  getTemplate := pg_getTemplate;
  listTemplates := pg_listTemplates;
  updateTemplate := pg_updateTemplate;
  createUsage := pg_createUsage;
  getUsage := pg_getUsage;
  listUsages := pg_listUsages;
  updateUsage := pg_updateUsage;
  createKey := pg_createKey;
  getKey := pg_getKey;
  getKeyByKid := pg_getKeyByKid;
  listKeys := pg_listKeys;
  updateKey := pg_updateKey;
  appendAudit := pg_appendAudit;
  getAudit := pg_getAudit;
  listAudit := pg_listAudit;
  recordTrialIssuance := pg_recordTrialIssuance;
  findTrialIssuance := pg_findTrialIssuance;
  deleteTrialIssuance := pg_deleteTrialIssuance;
  withTransaction := @pg_withTransaction _ _ _ _
|}.
