(* ===== verification/PostgresProps.v ===== *)
(** * PostgresProps: what the PostgreSQL adapter guarantees

    Over any server that keeps the laws of [Sql.SqlLaws]: the entity a write
    returns is the one its id reads back, a transaction happens whole or not
    at all; and where the adapter departs from the contract. *)

From S2P Require Import Prelude Errors JsNum Text Json Types Id Cursor Storage Stats SqlErrors SqlSetup Sql Sqlite SqlProps SqliteProps SqliteWrites Postgres.
From stdpp Require Import strings.
#[local] Open Scope Z_scope.

(** ** Reading back *)

(** The entity a write returned is what its id finds in the tables, unless
    the server fails. *)
Definition reads_back {W A} (write : prog W A) (get : UUIDv7 -> prog W (option A)) (id_of : A -> UUIDv7) (w : W) : Prop :=
  match write w with
  | (Ok x, w1) => match (get (id_of x) w1).1 with Ok found => found = Some x | Throw _ => True end
  | (Throw _, _) => True
  end.

(** How the server reads a [uuid]: what it stores is text, and reads as itself. *)
Class UuidColumn (fit : string -> SqlVal -> option SqlVal) : Prop := {
  uuid_stable : forall v v', fit "id"%string v = Some v' -> fit "id"%string v' = Some v';
  uuid_binds : forall v v', fit "id"%string v = Some v' -> bindable v' = true
}.

Section Reads.
Context {W : Type} {HC : HasClock W} {HE : HasEntropy W} {EN : SqlEngine W nat} {TO : TxObject W} {PO : Pool W}.
Variables (fit : string -> SqlVal -> option SqlVal) (sc : Schema).
#[local] Instance numbered : Driver nat := dollars fit.
Context {UC : UuidColumn fit} {SL : SqlLaws W nat sc}.

Lemma pg_query_law st ps (w : W) : is_tx st = false -> forallb bindable ps = true ->
  match pg_query st ps w with
  | (Ok rows, w') => saved w' = saved w
      /\ exists bound now, bind_params st ps = Some bound /\ asks sc now (db_of w) bound rows (db_of w')
  | (Throw e, w') => (exists t, e = inr t) /\ saved w' = saved w /\ db_of w' = db_of w
  end.
Proof.
  intros Ht Hb. pose proof (query_law st ps w Ht Hb) as H. unfold pg_query, of_driver.
  destruct (sql_query st ps w) as [[rows|t] w']; [exact H|]. split; [by exists t|exact H].
Qed.

Lemma bound_dollars st ps bound : bind_params st ps = Some bound ->
  exists used, bind_stmt (take_numbered fit ps) st [] = Some (bound, used).
Proof.
  cbn. destruct (bind_stmt _ st []) as [[b used]|]; [|done]. destruct (forallb _ _); [|done]. intros [= <-]. by exists used.
Qed.

(** A row with a stored id is the one the id finds. *)
Lemma row_found {A} t ts (f : Row -> res A) r x s (w : W) :
  schema_of sc t = Some ts -> table_ok (db_of w) ts = true -> r ∈ table (db_of w) t -> f r = Ok x ->
  cell r "id" = SText s -> fit "id"%string (SText s) = Some (SText s) ->
  match (pg_find t "id" f s w).1 with Ok found => found = Some x | Throw _ => True end.
Proof.
  intros Hts Hok Hin Hx Hid Hfit. pose proof (uuid_binds _ _ Hfit) as Hbs. unfold pg_find, uncaught, bind.
  pose proof (pg_query_law (Select Star (From t) [CEq (col "id") (dollar 1)] [] None) [SText s] w eq_refl
    ltac:(cbn [forallb]; by rewrite Hbs)) as H.
  destruct (pg_query _ _ w) as [[rows|e] w']; [|by destruct H as [[t' ->] _]].
  destruct H as (_ & bound & now & Hb & Ha). apply bound_dollars in Hb as [used Hb]. cbn in Hb. rewrite Hfit in Hb. cbn in Hb.
  injection Hb as <- _. inversion Ha as [? ? ? ? ? ? Hsel| | | | |]; subst. destruct Hsel as (envs & Hp & _ & ->).
  assert (Hu : unique_ok ["id"%string] (table (db_of w) t) = true).
  { unfold table_ok, uniques_ok in Hok. apply andb_prop in Hok as [_ Hu]. apply andb_prop in Hu as [Hu _].
    unfold schema_of in Hts. apply find_some in Hts as [_ Hn]. apply String.eqb_eq in Hn. by rewrite Hn in Hu. }
  pose proof (pairwise_alone _ r s Hu Hin Hid) as Hal.
  assert (Hf : List.filter (where_holds [CEq (col "id") (SText s)]) (source_rows (db_of w) (From t)) = [[(""%string, r)]]).
  { cbn [source_rows]. revert Hal. generalize (table (db_of w) t) as l. clear. intros l.
    assert (E : List.filter (where_holds [CEq (col "id") (SText s)]) (map (fun r0 => [(""%string, r0)]) l)
      = map (fun r0 => [(""%string, r0)]) (List.filter (fun r' => sql_eq (cell r' "id") (SText s)) l)).
    { induction l as [|r0 l IH]; [done|]. cbn [map List.filter]. unfold where_holds at 1. cbn [forallb cond_holds].
      rewrite andb_true_r. cbn [read env_row fst snd]. destruct (sql_eq _ _); cbn [map]; by rewrite IH. }
    intros H. rewrite E, H. done. }
  rewrite Hf in Hp. apply Permutation_singleton_r in Hp as ->. cbn [limited_to map project]. unfold of_lib, bind, lift. by rewrite Hx.
Qed.

(** ** Inserts *)

Lemma insert_reads_back {A} t cols ps (f : Row -> res A) id_of id (w : W) :
  (forall r x, f r = Ok x -> cell r "id" = SText (id_of x)) ->
  forallb bindable ps = true -> bindable (SText id) = true ->
  reads_back (pg_insert t ("id"%string :: cols) f (SText id :: ps)) (pg_find t "id" f) id_of w.
Proof.
  intros Hf Hb Hid. unfold reads_back, pg_insert, try_pg. pose proof (caught_law mapPgError
    (let* rows := pg_query (pg_insert_into t ("id"%string :: cols)) (SText id :: ps) in first_row f PlainError rows) w) as Hc.
  destruct (caught _ _ w) as [[x|e] w1]; [|done]. unfold bind in Hc.
  pose proof (pg_query_law (pg_insert_into t ("id"%string :: cols)) (SText id :: ps) w eq_refl ltac:(cbn [forallb]; by rewrite Hid)) as H.
  destruct (pg_query _ _ w) as [[rows|e] w']; [|discriminate Hc].
  destruct H as (_ & bound & now & Hbind & Ha). apply bound_dollars in Hbind as [used Hbind].
  cbn [pg_insert_into length seq map zip zip_with bind_stmt bind_cols dollar] in Hbind. cbn [bind_cols take_numbered] in Hbind.
  assert (E : take_numbered fit (SText id :: ps) "id" (dollar 1) [] = v ← fit "id"%string (SText id); Some (v, [1%nat])) by done.
  rewrite E in Hbind. clear E. destruct (fit "id" (SText id)) as [v|] eqn:Ev; [|discriminate Hbind]. cbn in Hbind.
  destruct (bind_cols _ _ _) as [[vs used']|]; [|discriminate Hbind]. cbn in Hbind. injection Hbind as <- _.
  inversion Ha as [| |? ts ? ? db' Hts Hdb Hok| | |]; subst. cbn [first_row] in Hc. unfold of_lib, lift in Hc.
  destruct (f (new_row ts now (("id"%string, v) :: vs))) as [y|] eqn:Ey; [|discriminate Hc]. injection Hc as -> ->.
  pose proof (Hf _ _ Ey) as Hcell.
  assert (Hv : v = SText (id_of x)).
  { revert Hcell. unfold new_row. clear. induction (ts_columns ts) as [|[c d] l IH]; [done|]. cbn [map cell fst snd].
    destruct (String.eqb_spec c "id") as [->|]; [|exact IH]. cbn. done. }
  subst v. eapply row_found; [exact Hts|exact Hok| |exact Ey|exact Hcell|by eapply uuid_stable].
  unfold table at 1. rewrite Hdb, map_get_set_eq. cbn [given_or]. apply elem_of_app. right. left.
Qed.

(** ** Updates *)

Lemma bind_sets_names ps sets used sets' used' :
  bind_sets (take_numbered fit ps) sets used = Some (sets', used') -> sets'.*1 = sets.*1.
Proof.
  revert used sets' used'. induction sets as [|[c [p|]] sets IH]; intros used sets' used' H; cbn [bind_sets] in H.
  - by injection H as <- _.
  - destruct (take_numbered fit ps c p used) as [[v u1]|]; [|discriminate H]. cbn in H.
    destruct (bind_sets _ sets u1) as [[l u2]|] eqn:E; [|discriminate H]. cbn in H. injection H as <- _. cbn. f_equal. by eapply IH.
  - destruct (bind_sets _ sets used) as [[l u2]|] eqn:E; [|discriminate H]. cbn in H. injection H as <- _. cbn. f_equal. by eapply IH.
Qed.

Lemma given_absent (vs : list (string * SqlVal)) c : c ∉ vs.*1 -> given vs c = None.
Proof.
  induction vs as [|[c' v] vs IH]; [done|]. cbn. intros H. apply not_elem_of_cons in H as [H1 H2].
  destruct (String.eqb_spec c' c); [congruence|by apply IH].
Qed.

Lemma cell_unset now sets r c : c ∉ sets.*1 -> cell (set_cells now sets r) c = cell r c.
Proof.
  intros H. unfold set_cells. set (vs := map _ sets).
  assert (E : given vs c = None).
  { apply given_absent. unfold vs. clear vs. induction sets as [|[k x] sets IH]; [done|]. cbn in *.
    apply not_elem_of_cons in H as [H1 H2]. apply not_elem_of_cons. split; [done|by apply IH]. }
  induction r as [|[c' v] r IH]; [done|]. cbn [map cell fst snd]. destruct (String.eqb_spec c' c) as [->|]; [by rewrite E|exact IH].
Qed.

Lemma number_sets_names n l : (number_sets n l).*1 = l.*1.
Proof. revert n. induction l as [|[k v] l IH]; intros n; [done|]. cbn. f_equal. apply IH. Qed.

Lemma take_last ps v c used :
  take_numbered fit (ps ++ [v]) c (List.length ps + 1) used = v' ← fit c v; Some (v', (List.length ps + 1)%nat :: used).
Proof.
  rewrite Nat.add_1_r. cbn [take_numbered]. by rewrite (list_lookup_middle ps [] v _ eq_refl).
Qed.

(** The write of a patch, from any tables. *)
Lemma patch_reads_back {A} t entries (f : Row -> res A) id_of missing id x (w w1 : W) :
  (forall r x, f r = Ok x -> cell r "id" = SText (id_of x)) ->
  patch_keys entries -> forallb bindable (pg_buildUpdateSet entries).2 = true -> bindable (SText id) = true ->
  pg_write_patch t f missing id (pg_buildUpdateSet entries) w = (Ok x, w1) ->
  match (pg_find t "id" f (id_of x) w1).1 with Ok found => found = Some x | Throw _ => True end.
Proof.
  intros Hf (_ & _ & Hkeys) Hb Hid Hc. unfold pg_write_patch, bind in Hc.
  assert (Hsets : (pg_buildUpdateSet entries).1.*1 = (present_entries entries).*1) by apply number_sets_names.
  destruct (pg_buildUpdateSet entries) as [sets values]. cbn [fst snd] in *.
  pose proof (pg_query_law (pg_update_stmt t sets (List.length values)) (values ++ [SText id]) w eq_refl
    ltac:(rewrite forallb_app, Hb; cbn [forallb]; by rewrite Hid)) as H.
  destruct (pg_query _ _ w) as [[rows|e] w']; [|discriminate Hc].
  destruct H as (_ & bound & now & Hbind & Ha). apply bound_dollars in Hbind as [used Hbind].
  cbn [pg_update_stmt bind_stmt] in Hbind. destruct (bind_sets _ _ _) as [[sets' u1]|] eqn:Es; [|discriminate Hbind]. cbn in Hbind.
  apply bind_sets_names in Es.
  unfold dollar in Hbind. rewrite take_last in Hbind.
  destruct (fit "id" (SText id)) as [v|] eqn:Ev; [|discriminate Hbind]. cbn in Hbind. injection Hbind as <- _.
  inversion Ha as [| | |? ts ? ? ? ? db' Hts _ Hdb Hok| |]; subst.
  destruct (List.filter (hits "id" v) (table (db_of w) t)) as [|r l] eqn:El; cbn [first_row map] in Hc; [discriminate Hc|].
  unfold of_lib, lift in Hc. destruct (f (set_cells now sets' r)) as [y|] eqn:Ey; [|discriminate Hc]. injection Hc as -> ->.
  assert (Hin : r ∈ List.filter (hits "id" v) (table (db_of w) t)) by (rewrite El; left).
  apply Prelude.elem_filter in Hin as [Hin Hhit].
  assert (Hnames : "id"%string ∉ sets'.*1).
  { rewrite Es, fmap_app. intros [H|H]%elem_of_app; [|by apply list_elem_of_singleton in H].
    rewrite Hsets in H. by apply Hkeys, present_keys. }
  pose proof (Hf _ _ Ey) as Hcell. rewrite (cell_unset now sets' r _ Hnames) in Hcell.
  assert (Hv : v = SText (id_of x)).
  { unfold hits in Hhit. rewrite Hcell in Hhit. destruct v; try discriminate Hhit. cbn in Hhit. unfold str_eqb in Hhit.
    apply bool_decide_eq_true in Hhit. by rewrite Hhit. }
  eapply row_found; [exact Hts|exact Hok| |exact Ey|by rewrite (cell_unset now sets' r _ Hnames)|rewrite <- Hv; by eapply uuid_stable].
  rewrite Hdb. unfold table at 1. rewrite map_get_set_eq. cbn [given_or]. apply list_elem_of_fmap. exists r. by rewrite Hhit.
Qed.

Lemma update_reads_back {A} t entries (f : Row -> res A) id_of missing id (w : W) :
  (forall r x, f r = Ok x -> cell r "id" = SText (id_of x)) ->
  patch_keys entries -> forallb bindable (pg_buildUpdateSet entries).2 = true -> bindable (SText id) = true ->
  reads_back (pg_update t f missing id entries) (pg_find t "id" f) id_of w.
Proof.
  intros Hf Hk Hb Hid. unfold reads_back, pg_update, try_pg.
  pose proof (caught_law mapPgError (pg_write_patch t f missing id (pg_buildUpdateSet entries)) w) as Hc.
  destruct (caught _ _ w) as [[x|e] w1]; [|done]. by eapply patch_reads_back.
Qed.

(** Steps before the write, whatever they do. *)
Lemma reads_back_after {A B} (c : prog W B) (k : B -> prog W A) get id_of (w : W) :
  (forall b w1, c w = (Ok b, w1) -> reads_back (k b) get id_of w1) -> reads_back (bind c k) get id_of w.
Proof. intros H. unfold reads_back, bind in *. destruct (c w) as [[b|e] w1]; [by apply H|done]. Qed.

Lemma fresh_bindable (w : W) id w1 : freshUuid w = (Ok id, w1) -> bindable (SText id) = true.
Proof.
  intros E. unfold freshUuid, bind, lift in E.
  destruct (nowMs w) as [[ms|e] w2]; [|discriminate E]. destruct (_ || _); [discriminate E|].
  destruct (entropy_law 10 w2) as (bytes & w3 & E3 & Hl & Hb & _). rewrite E3 in E.
  destruct (newUuidV7 ms bytes) eqn:Eu; [|discriminate E]. injection E as <- _.
  apply ascii_bindable. by eapply newUuidV7_ascii.
Qed.

Lemma fresh_reads_back {A} (k : UUIDv7 -> prog W A) get id_of (w : W) :
  (forall id w1, bindable (SText id) = true -> reads_back (k id) get id_of w1) -> reads_back (bind freshUuid k) get id_of w.
Proof.
  intros H. apply reads_back_after. intros id w1 E. apply H. by eapply fresh_bindable.
Qed.

Lemma fields_bindable entries :
  forallb field_ok (map snd (present_entries entries)) = true -> forallb bindable (pg_buildUpdateSet entries).2 = true.
Proof.
  unfold pg_buildUpdateSet. cbn [snd]. induction (present_entries entries) as [|[k v] l IH]; [done|]. cbn [map forallb snd].
  intros H. apply andb_prop in H as [Hv H]. rewrite (IH H), andb_true_r. by destruct v.
Qed.

Lemma nullable_json_bindable o : bindable (nullable_json_param o) = true.
Proof. by destruct o. Qed.

(** A mapped row's id is its [id] cell. *)
Ltac maps_id := intros r x H; unfold pg_mapLicense, pg_mapScope, pg_mapTemplate, pg_mapUsage, pg_mapKey, pg_mapAudit in H;
  uncast; injection H as <-; assumption.

Lemma pg_license_id r x : pg_mapLicense r = Ok x -> cell r "id" = SText (l_id x).
Proof. revert r x. maps_id. Qed.
Lemma pg_scope_id r x : pg_mapScope r = Ok x -> cell r "id" = SText (sc_id x).
Proof. revert r x. maps_id. Qed.
Lemma pg_template_id r x : pg_mapTemplate r = Ok x -> cell r "id" = SText (t_id x).
Proof. revert r x. maps_id. Qed.
Lemma pg_usage_id r x : pg_mapUsage r = Ok x -> cell r "id" = SText (u_id x).
Proof. revert r x. maps_id. Qed.
Lemma pg_key_id r x : pg_mapKey r = Ok x -> cell r "id" = SText (k_id x).
Proof. revert r x. maps_id. Qed.
Lemma pg_audit_id r x : pg_mapAudit r = Ok x -> cell r "id" = SText (a_id x).
Proof. revert r x. maps_id. Qed.

(** An insert's parameters, a patch's fields. *)
Ltac inserts_back f_id :=
  apply insert_reads_back; [exact f_id|bindables; try apply nullable_json_bindable|done].
Ltac patches_back Hok f_id :=
  unfold storable in Hok; cbn [op_fields forallb] in Hok; apply andb_prop in Hok; destruct Hok as [Hid Hok];
  apply update_reads_back; [exact f_id|nodup|by apply fields_bindable|exact Hid].

Lemma pg_license_created i w : storable (WCreateLicense i) = true -> reads_back (pg_createLicense i) pg_getLicense l_id w.
Proof. intros Hok. split_ok Hok. apply fresh_reads_back. intros id w1 Hid. inserts_back pg_license_id. by destruct (li_status i). Qed.
Lemma pg_scope_created i w : storable (WCreateScope i) = true -> reads_back (pg_createScope i) pg_getScope sc_id w.
Proof. intros Hok. split_ok Hok. apply fresh_reads_back. intros id w1 Hid. inserts_back pg_scope_id. Qed.
Lemma pg_template_created i w : storable (WCreateTemplate i) = true -> reads_back (pg_createTemplate i) pg_getTemplate t_id w.
Proof. intros Hok. split_ok Hok. apply fresh_reads_back. intros id w1 Hid. inserts_back pg_template_id. Qed.
Lemma pg_usage_created i w : storable (WCreateUsage i) = true -> reads_back (pg_createUsage i) pg_getUsage u_id w.
Proof.
  intros Hok. split_ok Hok. apply fresh_reads_back. intros id w1 Hid. apply reads_back_after. intros _ w2 _.
  inserts_back pg_usage_id. by destruct (ui_status i).
Qed.
Lemma pg_key_created i w : storable (WCreateKey i) = true -> reads_back (pg_createKey i) pg_getKey k_id w.
Proof.
  intros Hok. split_ok Hok. apply fresh_reads_back. intros id w1 Hid. inserts_back pg_key_id;
    [by destruct (ki_alg i)|by destruct (ki_role i)|by destruct (ki_state i)].
Qed.
Lemma pg_audit_appended i w : storable (WAppendAudit i) = true -> reads_back (pg_appendAudit i) pg_getAudit a_id w.
Proof. intros Hok. split_ok Hok. apply fresh_reads_back. intros id w1 Hid. inserts_back pg_audit_id. by destruct (resolveActorKind i). Qed.

Lemma pg_scope_updated id p w : storable (WUpdateScope id p) = true -> reads_back (pg_updateScope id p) pg_getScope sc_id w.
Proof. intros Hok. patches_back Hok pg_scope_id. Qed.
Lemma pg_usage_updated id p w : storable (WUpdateUsage id p) = true -> reads_back (pg_updateUsage id p) pg_getUsage u_id w.
Proof. intros Hok. patches_back Hok pg_usage_id. Qed.
Lemma pg_key_updated id p w : storable (WUpdateKey id p) = true -> reads_back (pg_updateKey id p) pg_getKey k_id w.
Proof. intros Hok. patches_back Hok pg_key_id. Qed.

Lemma uncaught_law {A} (c : M mapped W A) (w : W) :
  match uncaught c w with (Ok x, w') => c w = (Ok x, w') | (Throw _, _) => True end.
Proof. unfold uncaught. by destruct (c w) as [[x|[e|t]] w']. Qed.

Lemma pg_license_updated id p w : storable (WUpdateLicense id p) = true -> reads_back (pg_updateLicense id p) pg_getLicense l_id w.
Proof.
  intros Hok. unfold storable in Hok. cbn [op_fields forallb] in Hok. apply andb_prop in Hok as [Hid Hok].
  unfold reads_back, pg_updateLicense. set (c := pg_write_patch _ _ _ _ _).
  assert (Hrun : forall x w1, c w = (Ok x, w1) ->
    match (pg_getLicense (l_id x) w1).1 with Ok found => found = Some x | Throw _ => True end).
  { intros x w1 E. apply (patch_reads_back "licenses" (license_entries p) pg_mapLicense l_id (errors.licenseNotFound id) id x w w1);
      [exact pg_license_id|nodup|by apply fields_bindable|exact Hid|exact E]. }
  destruct (pg_buildUpdateSet (license_entries p)).1.
  - pose proof (uncaught_law c w) as H. destruct (uncaught c w) as [[x|e] w1]; [by apply Hrun|done].
  - pose proof (caught_law mapPgError c w) as H. unfold try_pg. destruct (caught mapPgError c w) as [[x|e] w1]; [by apply Hrun|done].
Qed.

Lemma pg_template_updated id p w : storable (WUpdateTemplate id p) = true -> reads_back (pg_updateTemplate id p) pg_getTemplate t_id w.
Proof.
  intros Hok. unfold storable in Hok. cbn [op_fields forallb] in Hok. apply andb_prop in Hok as [Hid Hok].
  unfold reads_back, pg_updateTemplate, try_pg.
  match goal with |- context [caught mapPgError ?c w] => pose proof (caught_law mapPgError c w) as H end.
  destruct (caught mapPgError _ w) as [[x|e] w1]; [|done]. unfold bind at 1 in H.
  match type of H with context [let '(r, w') := ?m w in _] => destruct (m w) as [[u|e] w2] end; [|discriminate H].
  apply (patch_reads_back "license_templates" (template_entries p) pg_mapTemplate t_id (not_there id) id x w2 w1);
    [exact pg_template_id|nodup|by apply fields_bindable|exact Hid|exact H].
Qed.

(** ** Transactions *)

(** Taking a connection and giving it back touches no table. *)
Class PoolLaws : Prop := {
  connect_law : forall w : W, saved (pool_connect w).2 = saved w /\ db_of (pool_connect w).2 = db_of w;
  release_law : forall w : W, exists w', pool_release w = (Ok tt, w') /\ saved w' = saved w /\ db_of w' = db_of w
}.
Context {TL : TxLaws W} {PL : PoolLaws}.

(** *** Bodies of transactions *)

Lemma fresh_open (w : W) : saved (freshUuid w).2 = saved w.
Proof.
  unfold freshUuid, bind, lift. pose proof (clock_law w) as [H _]. destruct (nowMs w) as [[ms|e] w1]; [|exact H]. cbn [snd] in H.
  destruct (_ || _); [exact H|]. destruct (entropy_law 10 w1) as (bytes & w2 & -> & _ & _ & H2 & _).
  destruct (newUuidV7 ms bytes); cbn; congruence.
Qed.

Lemma insert_open {A} t cols ps (f : Row -> res A) (w : W) :
  forallb bindable ps = true -> saved (pg_insert t cols f ps w).2 = saved w.
Proof.
  intros Hb. unfold pg_insert, try_pg.
  pose proof (caught_law mapPgError (let* rows := pg_query (pg_insert_into t cols) ps in first_row f PlainError rows) w) as Hc.
  pose proof (pg_query_law (pg_insert_into t cols) ps w eq_refl Hb) as H. unfold bind in Hc.
  assert (Hw : forall r w', (match pg_query (pg_insert_into t cols) ps w with
      | (Ok rows, w1) => first_row f PlainError rows w1 | (Throw e, w1) => (Throw e, w1) end) = (r, w') -> saved w' = saved w).
  { intros r w' E. destruct (pg_query _ _ w) as [[rows|e] w1].
    - destruct H as [H _]. destruct rows as [|row rows]; cbn [first_row] in E; unfold of_lib, throw, lift in E;
        [|destruct (f row)]; injection E as _ <-; exact H.
    - destruct H as (_ & H & _). by injection E as _ <-. }
  destruct (caught _ _ w) as [[x|e] w']; cbn [snd]; [by eapply Hw|]. destruct Hc as [e' Hc]. by eapply Hw.
Qed.

Lemma createScope_open i (w : W) : storable (WCreateScope i) = true -> saved (pg_createScope i w).2 = saved w.
Proof.
  intros Hok. split_ok Hok. unfold pg_createScope, bind. pose proof (fresh_open w) as Hopen.
  destruct (freshUuid w) as [[id|e] w1] eqn:E; [|exact Hopen]. cbn [snd] in Hopen. rewrite insert_open; [exact Hopen|].
  cbn [forallb]. rewrite ?andb_true_iff. repeat split; try done. by eapply fresh_bindable.
Qed.


(** A transaction of the adapter happens whole or not at all: when it
    returns, its body ran once on the tables as they were and the tables are
    what the body left; when it throws, from the body, [BEGIN] or [COMMIT],
    they are as before. A transaction inside a transaction is refused. *)
Theorem pg_transaction_atomic {T} (fn : prog W T) (w : W) :
  keeps_open fn w ->
  match pg_withTransaction fn w with
  | (Ok x, w') => inTransaction w = false /\ saved w' = None
      /\ exists w1 w2, db_of w1 = db_of w /\ fn w1 = (Ok x, w2) /\ db_of w' = db_of w2
  | (Throw _, w') => saved w' = saved w /\ db_of w' = db_of w
  end.
Proof.
  intros Hfn. unfold pg_withTransaction. destruct (inTransaction w); [done|].
  change (match with_client (tx_core fn) w with
    | (Ok x, w') => false = false /\ saved w' = None
        /\ exists w1 w2, db_of w1 = db_of w /\ fn w1 = (Ok x, w2) /\ db_of w' = db_of w2
    | (Throw _, w') => saved w' = saved w /\ db_of w' = db_of w
    end).
  unfold with_client, bind at 1. pose proof (connect_law w) as [Hs Hd].
  destruct (pool_connect w) as [[u|e] w0]; [|done]. cbn [snd] in Hs, Hd.
  pose proof (tx_core_law fn w0 ltac:(intros w1 H1; apply Hfn; congruence)) as H.
  destruct (tx_core fn w0) as [r w1]. destruct (release_law w1) as (w2 & -> & Hs2 & Hd2). destruct r as [x|e].
  - destruct H as (_ & H2 & w3 & w4 & H3 & H4 & H5). split; [done|]. split; [congruence|]. exists w3, w4.
    split; [congruence|]. split; [done|congruence].
  - destruct H as [H1 H2]. split; congruence.
Qed.
End Reads.

(** ** Departures *)

(** Listing the templates without a scope leaves a parameter unused, which
    the server refuses. *)
Lemma null_scope_refused fit name parent order limit :
  bind_params (Driver := dollars fit)
    (Select Star (From "license_templates") (pg_template_where (mkTemplateFilter (Some None) name parent)).1 order limit)
    (pg_template_where (mkTemplateFilter (Some None) name parent)).2 = None.
Proof.
  destruct name as [n|]; destruct parent as [[p|]|]; cbn; try done;
  repeat match goal with |- context [fit ?c ?v] => destruct (fit c v); cbn; try done end.
Qed.

(** A row in the same millisecond as a cursor, with microseconds left over,
    is not behind the cursor, though it may sort behind the cursor's row. *)
Lemma cursor_skips_row (e : Env) us s :
  read e (col "created_at") = STime us -> 0 < us mod 1000 ->
  cond_holds e (CBefore (col "created_at") (col "id") (STime (1000 * date_ms us)) (SText s)) = false.
Proof.
  intros Hr Hus. cbn [cond_holds]. rewrite Hr. cbn [sql_lt sql_eq]. unfold date_ms.
  pose proof (Z.div_mod us 1000 ltac:(done)). rewrite (proj2 (Z.ltb_ge _ _)) by lia. by rewrite (proj2 (Z.eqb_neq _ _)) by lia.
Qed.

(** The dashboard counts no license as expiring, whatever the tables hold. *)
Lemma pg_nothing_expires rows ls used events ms st :
  Forall (fun r => cell r "expires_at" = SNull \/ exists us, cell r "expires_at" = STime us) rows ->
  map_rows pg_stats_row rows = Ok ls -> computeLicenseStats (mkStatsInput ls used events ms) = Ok st ->
  ls_expiring_within_30d st = 0.
Proof.
  intros Hr Hm Hc. assert (Hls : Forall (fun l => l_expires_at l = None) ls).
  { clear Hc. revert ls Hm. induction Hr as [|r rows Hx Hr IH]; intros ls Hm; [injection Hm as <-; constructor|]. cbn in Hm.
    destruct (pg_stats_row r) as [l|] eqn:El; [|done]. cbn in Hm. destruct (map_rows pg_stats_row rows) as [l'|]; [|done].
    injection Hm as <-. constructor; [|by apply IH]. unfold pg_stats_row in El. uncast. injection El as <-. cbn.
    destruct Hx as [Hx|[us Hx]]; rewrite Hx in *; cbn [as_text_or_null] in *; congruence. }
  unfold computeLicenseStats in Hc. cbn [cs_licenses cs_nowMs] in Hc. apply rbind_ok_inv in Hc as (h & _ & Hc).
  apply rbind_ok_inv in Hc as (n & _ & Hc). destruct (fold_left _ _ (0, 0, [])) as [[u m] es]. injection Hc as <-. cbn.
  rewrite filter_drop; [done|]. intros l Hl. rewrite Forall_forall in Hls. unfold is_expiring. rewrite (Hls l Hl). by rewrite andb_false_r.
Qed.

(** ** A run on the reference engine *)

Section Witnesses.
Local Open Scope string_scope.

(** How the server reads the parameters of a scope: text stays what it is. *)
Definition scope_fit (c : string) (v : SqlVal) : option SqlVal :=
  if String.eqb c "id" then match v with SText s => if well_formed16 s then Some v else None | _ => None end else Some v.
#[local] Instance scope_uuid : UuidColumn scope_fit.
Proof.
  split; unfold scope_fit; cbn; intros v v'; destruct v; try done; destruct (well_formed16 s) eqn:E; try done;
    intros [= <-]; cbn; by rewrite E.
Qed.

(** [license_scopes] of [migrations/postgres/0001_initial.sql]. *)
Definition slug_shape (r : Row) : bool :=
  match cell r "slug" with
  | SText (c :: s) =>
      let alnum z := ((48 <=? z) && (z <=? 57) || (97 <=? z) && (z <=? 122))%Z in
      alnum c && forallb (fun z => alnum z || (z =? 45)%Z) s
  | SText [] => false
  | _ => true
  end.
Definition pg_scopes_table : TableSchema := mkTable "license_scopes"
  [required_col "id"; required_col "slug"; required_col "name"; ("meta", DefaultTo (SJson (plain [])));
   ("created_at", DefaultNow); ("updated_at", DefaultNow)]
  ["id"; "slug"; "name"; "meta"; "created_at"; "updated_at"]
  [at_most "slug" 64; at_most "name" 128; slug_shape]
  [unique_ix "license_scopes_slug_key" "license_scopes" ["slug"] always] [] false.

#[local] Instance pg_driver : Driver nat := dollars scope_fit.
Definition pg_broken (ix : UniqueIndex) : Thrown := pg_failure ix (js "Key (slug)=(acme) already exists.") (js "duplicate key").
#[local] Instance pg_engine : SqlEngine SqlWorld nat := ref_engine [pg_scopes_table] pg_broken.
#[local] Instance pg_engine_laws : SqlLaws SqlWorld nat [pg_scopes_table] := ref_laws [pg_scopes_table] pg_broken.
#[local] Instance pg_tx : TxObject SqlWorld := {|
  inTransaction := sw_tx;
  as_tx := fun b w => mkSqlWorld (sw_db w) (sw_saved w) b (sw_now w) (sw_clock w) (sw_entropy w)
|}.
#[local] Instance pg_tx_laws : TxLaws SqlWorld.
Proof. by split. Qed.
#[local] Instance pg_pool : Pool SqlWorld := {| pool_connect := ret tt; pool_release := ret tt |}.
#[local] Instance pg_pool_laws : PoolLaws scope_fit [pg_scopes_table].
Proof. split; [done|]. intros w. by exists w. Qed.

(** [now()] has microseconds. *)
Definition pg_empty : SqlWorld :=
  mkSqlWorld [] None false (STime 1700000000123456) (advancingClock 1700000000000 1) (fun n => Z.of_nat n).
Definition acme : LicenseScopeInput := mkScopeInput (js "acme") (js "Acme") (plain []).


(** One body that returns, one that throws behind its write. *)
Definition failing : prog SqlWorld LicenseScope := let* _ := pg_createScope acme in throw PlainError.

Lemma pg_transaction_atomic_witness :
  (exists x w1, pg_withTransaction (pg_createScope acme) pg_empty = (Ok x, w1) /\ List.length (table (sw_db w1) "license_scopes") = 1%nat
     /\ saved w1 = None)
  /\ (pg_withTransaction failing pg_empty).1 = Throw PlainError
  /\ db_of (pg_withTransaction failing pg_empty).2 = db_of pg_empty.
Proof.
  pose proof (pg_transaction_atomic scope_fit [pg_scopes_table] (pg_createScope acme) pg_empty
    (fun w1 _ => createScope_open scope_fit [pg_scopes_table] acme w1 eq_refl)) as H1.
  assert (Hopen : keeps_open failing pg_empty).
  { intros w1 _. unfold failing, bind. pose proof (createScope_open scope_fit [pg_scopes_table] acme w1 eq_refl) as H.
    destruct (pg_createScope acme w1) as [[x|e] w2]; exact H. }
  pose proof (pg_transaction_atomic scope_fit [pg_scopes_table] failing pg_empty Hopen) as H2.
  assert (E2 : (pg_withTransaction failing pg_empty).1 = Throw PlainError) by (vm_compute; reflexivity).
  split; [|split; [exact E2|]].
  - assert (E1 : exists x, (pg_withTransaction (pg_createScope acme) pg_empty).1 = Ok x) by (eexists; vm_compute; reflexivity).
    assert (L1 : List.length (table (sw_db (pg_withTransaction (pg_createScope acme) pg_empty).2) "license_scopes") = 1%nat)
      by (vm_compute; reflexivity).
    destruct (pg_withTransaction (pg_createScope acme) pg_empty) as [r w1]. destruct E1 as [x E1]. cbn [fst snd] in *. subst r.
    exists x, w1. split; [done|]. split; [exact L1|]. apply H1.
  - destruct (pg_withTransaction failing pg_empty) as [r w1]. cbn [fst snd] in *. subst r. apply H2.
Defined.
End Witnesses.
